(* ===== verification/_CoqProject ===== *)
-Q . S2P
Prelude.v
State.v
Objects.v
Text.v
OrderedMap.v
ByteRange.v
PieceScheduler.v
DemandPlan.v
FileSelection.v
PieceCache.v
HttpProtocol.v
EngineTypes.v
EngineRuntime.v
EngineApi.v
JniBridge.v
JniMembers.v
JniResults.v
JniMachine.v
JniStats.v
JniEvents.v
Posix.v
DiskCache.v
AtomicFile.v
PayloadReader.v
RandomToken.v
LoopbackSockets.v
Loopback.v
TrustStores.v
AppleTrust.v
WindowsTrust.v
BridgeState.v
BridgeReads.v
MemoryTorrent.v
StreamSchedule.v
ScheduleView.v
StreamBridge.v
StreamProgress.v
BridgeInvariant.v
StreamLifecycle.v
StreamBody.v
PlayerConnection.v
BackendTelemetry.v
BackendState.v
MemoryHost.v
Backend.v
BackendSteps.v
BackendInvariant.v
BackendRequests.v
BackendStorage.v
EngineBackend.v
