(* ===== verification/Prelude.v ===== *)
(** * The Nuvio engine

    This development models the C++ engine under src/src and src/include and the bridge of
    its Android library, and proves what makes them correct.  The engine streams a file of
    a torrent to a video player: a client talks to a C interface, a worker thread passes its
    commands to a torrent backend, and the player reads the file over HTTP from a loopback
    server, while a scheduler decides which pieces the backend fetches first.

    ** Parts and files

    - [Text] is [std::string_view] and what the code uses of the standard library on it;
      [OrderedMap] is [std::map] with unsigned keys and [std::ranges::stable_sort].  This
      file holds the machine integers, exceptions as values ([result]), loops that may
      throw ([fold_result]), sums and the tactics and hints that the other files share.
      [State] has programs over an environment of calls with their rules ([ends]), and
      [Objects] the objects that such a program makes and gives back ([holding]).
    - [ByteRange], http/byte_range.cpp: the [Range] header.
    - [PieceScheduler], scheduler/piece_scheduler.cpp and demand_window.hpp: the pieces
      that a byte range and its read-ahead windows want, with their classes.
    - [DemandPlan], scheduler/stream_demand_plan.cpp: the demands of all readers of a
      torrent merged into one plan; it calls [PieceScheduler.build_piece_schedule].
    - [FileSelection], torrent/file_selection.cpp: which file of a torrent to stream.
    - [PieceCache], cache/verified_piece_cache.cpp: the memory cache of pieces.
    - [HttpProtocol], http/http_protocol.cpp: request heads parsed, response heads built.
    - [LoopbackSockets] and [Loopback], http/loopback_server.cpp.  The first has the classes
      that own descriptors, [create_listener] and the thread that watches for a client that
      goes away ([monitor_turn], one turn of [monitor_client_disconnect]).  The second has
      one connection as a program over an interface of socket calls ([handle_connection],
      which calls [HttpProtocol]); the watching thread gets turns whenever the request's
      stop token is asked, as many as the world says ([request_token]).  Then it has the
      threads of the server as a step relation ([server_step]), with the steps a thread
      surely makes apart from those that need something from outside.
    - [EngineTypes], include/nuvio_engine/nuvio_engine.h and torrent/protocol_backend.hpp:
      the structures with their memory layout, and the backend as a class of operations
      ([ProtocolBackend]) whose implementation is a parameter.
    - [EngineRuntime], core/engine_runtime.cpp: the queues, the worker and the metadata;
      each section under a mutex is one step, the steps of the threads interleave.
    - [EngineApi], core/engine.cpp: the C interface over memory objects of the sizes the
      callers have; an access outside an object is [None].  The factory of
      torrent/protocol_backend_stub.cpp is there too.
    - [JniBridge], platform/android/engine/src/main/cpp/jni_bridge.cpp: the native functions
      of the Android library over a class of the JNI calls ([Jni]), which call [EngineApi]
      with the engine behind a handle.  [JniResults] has the laws of these calls
      ([jni_laws]) and what the commands do; [JniMembers] the members of structures in
      memory; [JniStats] and [JniEvents] the way of the statistics and the events into the
      records of the Kotlin library (NuvioEngine.kt, NuvioModels.kt); [JniMachine] is a
      Java machine in which the laws hold.
    - [TrustStores], [AppleTrust] and [WindowsTrust], security/apple_trust.cpp and
      security/windows_trust.cpp: the callbacks that verify the certificates of a server,
      over classes of the calls of OpenSSL and of the two systems.  Each file has a machine
      in which its laws hold.
    - [Posix]: the calls of the storage and security code as an interface, programs over
      it ([io]), and triples about all the worlds a program passes through.
    - [DiskCache], cache/disk_cache_manager.cpp: the cache of payload directories, over an
      interface of file system calls ([FileSystem]).
    - [AtomicFile], storage/atomic_file.cpp; [PayloadReader], storage/payload_reader.cpp;
      [RandomToken], security/random_bytes.cpp: over [Posix].
    - The stream bridge, torrent/libtorrent_stream_bridge.cpp, is eleven files.
      [BridgeState] has its members and the operations of a torrent handle (the class
      [Torrents]); [BridgeReads] the cache, the waiters and the reads of pieces;
      [StreamSchedule] the priorities, deadlines and requested ranges of a stream, and
      [StreamBridge] the public calls, the commands of the HTTP threads and the alerts.
      [StreamBody] is the other side: the handler of an HTTP connection as a program
      whose steps interleave with those of the engine ([system_step]).
      [StreamProgress] has the progress of a stream; [BridgeInvariant] and
      [StreamLifecycle] the invariants and what stopping, removing and expiring do.
      [ScheduleView] states what the schedule calls leave in a torrent, by the laws
      [view_laws] of the handle, and [MemoryTorrent] is an instance of [Torrents].
      [PlayerConnection] puts the handler of [StreamBody] under the connection of
      [Loopback].
    - The libtorrent backend, torrent/libtorrent_backend.cpp, is seven files.
      [BackendTelemetry] has the limits, the settings and the counters of a torrent;
      [BackendState] the members, the alerts, the session and everything else the backend
      calls (the class [Host]) and the monad [op] of its member functions; [Backend] one
      definition per member function, over the stream bridge and the disk cache, and the
      instance [libtorrent_backend] of [ProtocolBackend].  [BackendSteps] reduces every
      operation to changes of the tables (the relation [change], by weakest
      preconditions), so that what is closed under these changes holds in every run:
      [BackendInvariant] and [BackendRequests] use it.  [BackendStorage] is about the state
      files, which the backend writes with the code of [AtomicFile].  [MemoryHost] is an
      instance of [Host].
    - [EngineBackend] puts the backend under the runtime: the steps of the clients, the
      worker, the HTTP threads and the session in one relation ([engine_run]).

    Definitions have the names of the functions they model; where one function became
    several, the parts are the loops and the sections of that function.  The state of a
    class is a record with its members.  A function that throws returns [result]; one
    that changes its object returns the object too.

    ** What the theorems show

    - Functions against specifications: the header parser accepts exactly the grammar and
      means what the standard says; a schedule gives each piece the most urgent class of
      its bytes and nothing else; the plan of several demands does not depend on their
      order; the request parser accepts exactly the heads of its grammar, and every
      response is framed: one head, one end, the right length.
    - Refinement: the hash table and list of the piece cache behave as a list of entries
      in the order of use; the worker's atomic steps compose to the loop of the
      code ([run_turn_refines]);
      [enforce] is least-recently-used eviction of unprotected payloads; the differences
      that the stream bridge sends to a torrent add up to the plan it last computed
      ([recompute_schedule_applied]).
    - State machines: in every interleaving commands are taken in order, events are
      numbered and dropped ones counted, [stop] lets the worker finish what was accepted;
      every client of the loopback server is in one place and closed in the end
      ([connections_accounted]), and [stop] completes, because it closes the listener, shuts
      the connections down and wakes the workers ([stop_completes]); the listener leaves no
      descriptor behind on any path ([create_listener_owns]).
    - Connections, on any network: a connection ends, and the client gets the answer to its
      bytes, or a beginning of it when a call fails or the request is stopped
      ([handle_connection_answers]); a client that leaves or sends more than its request
      stops it, and then nothing more is sent ([disconnect_cancels]); and the watching
      thread ends with the request ([monitor_joins]).
    - Streams: whatever the engine and the threads do, every reader is one request being
      served and every reader's demand is in the torrent's plan ([readers_accounted],
      [streams_consistent]); a request whose answer completes has sent the head and
      exactly the bytes of its range, releases what it acquired, and ends once the engine
      answers it ([StreamBody]); stopping ends a stream, wakes its readers and changes
      nothing else of the bridge ([stop_stream_ends]); removing ends the streams of a torrent
      and touches no other; an expired stream had no reader; progress
      counts the verified bytes of the file ([StreamProgress]).  From end to end, a client
      whose bytes are a request gets one answer, or a beginning of it when the connection is
      disturbed; the chunks of verified pieces in it are the true bytes of the file, the
      others what the payload file delivered at that place ([player_gets_range]).
    - The backend: whatever libtorrent answers, and whatever the HTTP threads do between the
      calls, the tables of torrents fit together ([backend_consistent]), no request context
      has two owners ([contexts_owned_once]), the statistics are the sums of the telemetry
      ([statistics_add_up]), and a request that was accepted waits or was answered
      ([requests_answered]), while a call that throws leaves no request behind
      ([refused_leaves_nothing]).  Under the runtime, a command that the worker took is kept
      by the backend or answered to the client, unless a call of [pop_events] that throws
      loses it, and then the clients are told of what was thrown ([commands_attended]).  Resume data that was
      saved is restored by the next start ([resume_state_restored]), and a removed torrent
      stays removed ([removed_for_good]), or an event tells why not.
    - Crashes and errors: replacing a file shows a reader, and a restart after a crash,
      the old contents or the new ones; reading returns exactly the bytes of the file or
      says so; an error leaves nothing half done; whatever the file system answers,
      eviction touches only what it may.
    - Memory: the C interface reads and writes inside the objects of its callers, with
      the one exception that [EngineApi.poll_twice_overruns] states.
    - Platforms: a server is accepted only when the system trusts its chain for its name, and
      then refused only after a call has failed, and every object is given back on every
      path, failures of the system included ([verify_with_apple_trust_correct], [verify_with_windows_trust_correct]).  The native
      functions hand on exactly what Java gave them and leave no reference
      ([commands_forwarded]), a handle is its engine's until it is destroyed
      ([handle_lives]), and Kotlin reads the statistics and the events that the engine
      has ([statistics_reach_kotlin], [events_reach_kotlin]).

    ** Bounds and fuel

    Machine integers are integers with their ranges as hypotheses and their wrap-around
    written out ([wrap64], [wrap32], [saturating_add]).  Loops that are not structural take
    fuel.  The header loop needs no more fuel than the head has bytes.  The loops that
    read, write, send and receive need one more than the bytes to move and the calls that
    will be interrupted: the theorems take the number of interruptions still to come from
    the world, and show that the loops end.  The watching thread is joined after two of its
    turns ([join_monitor]).  [decimal] has fuel for the twenty digits of a
    64-bit integer.  The handler of [StreamBody] has no fuel: it is a step relation with a
    bound on its steps.  [shutdown] of the backend has fuel for the turns in which it waits
    for resume data, and says whether they were enough; the theorems about runs hold for
    any fuel.

    ** Not modelled

    The Windows branches of the files that have one; the C++ memory model beyond mutexes
    (each section under a mutex is atomic, so are accesses to atomics); allocation failures other than those named in
    [PieceCache], [EngineApi] and [Loopback]; the hash functions of the unordered
    containers, which nothing observable depends on except where a definition says so.
    Of the sockets the theorems need the laws [socket_laws], [watch_laws] and
    [listener_laws]: the documented behaviour of the calls, where [poll] returns when the
    client has left or sent more or the socket is shut down.  The handler of a connection is
    any program that looks at its stop token and writes; [stop_completes] takes it to return
    once its request is stopped and its writes fail, and takes [accept] to return once the
    listener is shut and closed.  A descriptor number that the system gives out again while
    a thread still holds the old one is not modelled.
    libtorrent is the class [Torrents]; what the theorems need of it are the laws
    [torrent_laws] and [view_laws].  In the stream bridge the token and the port of a URL
    and the clock are arguments, the wake-up callback is not called, and a call of the
    engine's thread is one step, with steps of the HTTP threads between.
    In the backend [torrent_id] is a function of the handle: the info hashes of a torrent
    are taken not to change while it is in the session.  The session, the handles and the alerts are the class [Host]; the state
    files are the code of [AtomicFile] over [Posix], where a loop that would be interrupted
    more often than the world says is an exception of no class ([stored]).  [what()] of a
    [std::system_error] is its first part, the callback of [set_wakeup] is not called, and
    in [shutdown] the HTTP threads end between the two parts of the bridge's own shutdown.
    [commands_attended] leaves out [add_torrent], whose answer is the metadata of the
    torrent and may never come.
    In the trust stores the two functions that only install a callback are left out, and in
    the JNI bridge a std::string that cannot be allocated.  The laws of [Jni] are those of a
    machine that has memory: the code of the other cases is modelled, but the theorems do
    not speak of them, nor of the files that [nativeGetFiles] lists, and an exception that is pending while the bridge goes on is outside
    of what JNI defines ([array_made_with_exception_pending]).  Of the Kotlin library only
    the reading of the statistics and of events is modelled; the rest of it and the Swift library are
    wrappers in other languages.  The build files and tests are not modelled.

    What is not proved: that [shutdown] of the backend ends within a number of turns, which
    needs a law of the clock over every call of the host; that a torrent that was added is
    answered, which libtorrent does not promise; and that the threads of the loopback server
    and those of the stream bridge are scheduled together: [player_gets_range] relates one
    connection and one thread of the bridge by the writes that both made. *)
From stdpp Require Import prelude strings sorting.
From Stdlib Require Import ZArith Lia.

#[global] Open Scope Z_scope.

(** ** Machine integers *)

Declare Scope nuvio_scope.
Delimit Scope nuvio_scope with nuvio.
#[global] Open Scope nuvio_scope.

Notation "'U64_MAX'" := 18446744073709551615%Z : nuvio_scope.
Notation "'U32_MAX'" := 4294967295%Z : nuvio_scope.
Notation "'I32_MAX'" := 2147483647%Z : nuvio_scope.
Notation "'I64_MAX'" := 9223372036854775807%Z : nuvio_scope.

(** A value of type [std::uint64_t], [std::uint32_t]. *)
Definition is_u64 (z : Z) : Prop := 0 <= z <= U64_MAX.
Definition is_u32 (z : Z) : Prop := 0 <= z <= U32_MAX.

(** Unsigned arithmetic wraps modulo the width. *)
Definition wrap64 (z : Z) : Z := z mod 18446744073709551616.
Definition wrap32 (z : Z) : Z := z mod 4294967296.

(** [a + b], stopping at the largest 64-bit value. *)
Definition saturating_add (left right : Z) : Z :=
  if U64_MAX - left <? right then U64_MAX else left + right.

(** [if (value < max) ++value]. *)
Definition saturating_increment (value : Z) : Z :=
  if value <? U64_MAX then value + 1 else value.

(** ** C++ exceptions as values *)

(** The exception classes the engine throws. *)
Inductive exn_class :=
| invalid_argument | overflow_error | runtime_error | system_error | bad_alloc.

#[global] Instance exn_class_eq_dec : EqDecision exn_class.
Proof. solve_decision. Defined.

(** A thrown object: its class and its [what()] text. *)
Record exn := Exn { exn_kind : exn_class; exn_what : string }.

(** A call that returns a value or throws. *)
Inductive result (A : Type) :=
| Ok (a : A)
| Throw (e : exn).
Arguments Ok {_} _.
Arguments Throw {_} _.

#[global] Instance result_ret : MRet result := @Ok.
#[global] Instance result_bind : MBind result := fun A B f r =>
  match r with Ok a => f a | Throw e => Throw e end.
#[global] Instance result_fmap : FMap result := fun A B f r =>
  match r with Ok a => Ok (f a) | Throw e => Throw e end.

(** [throw cls(what)]. *)
Definition throw {A} (cls : exn_class) (what : string) : result A := Throw (Exn cls what).

(** [for (x : l) s = f(s, x)] where the body may throw. *)
Fixpoint fold_result {S X} (f : S -> X -> result S) (s : S) (l : list X) : result S :=
  match l with
  | [] => Ok s
  | x :: l' => s' ← f s x; fold_result f s' l'
  end.

(** ** Proof automation *)

(** Case analysis on the boolean comparisons of the code, on all the [if]s and
    [match]es of the goal. *)
Ltac zcase1 :=
  match goal with
  | |- context [Z.ltb ?a ?b] => destruct (Z.ltb_spec a b)
  | |- context [Z.leb ?a ?b] => destruct (Z.leb_spec a b)
  | |- context [Z.eqb ?a ?b] => destruct (Z.eqb_spec a b)
  | H : context [Z.ltb ?a ?b] |- _ => destruct (Z.ltb_spec a b)
  | H : context [Z.leb ?a ?b] |- _ => destruct (Z.leb_spec a b)
  | H : context [Z.eqb ?a ?b] |- _ => destruct (Z.eqb_spec a b)
  end.
Ltac zcases := repeat (zcase1; simpl in *; try discriminate).

(** Arithmetic on machine integers: unfold the range predicates and call [lia]. *)
Ltac ulia := unfold is_u64, is_u32 in *; lia.

Create HintDb width discriminated.
#[export] Hint Extern 2 (is_u64 _) => ulia : width.
#[export] Hint Extern 2 (is_u32 _) => ulia : width.

(** ** Facts about the machine integers *)

Lemma wrap64_id z : is_u64 z -> wrap64 z = z.
Proof. intros H. apply Z.mod_small. ulia. Qed.

Lemma wrap32_id z : is_u32 z -> wrap32 z = z.
Proof. intros H. apply Z.mod_small. ulia. Qed.

Lemma wrap64_u64 z : is_u64 (wrap64 z).
Proof. unfold is_u64, wrap64. pose proof (Z.mod_pos_bound z 18446744073709551616). lia. Qed.

Lemma wrap32_u32 z : is_u32 (wrap32 z).
Proof. unfold is_u32, wrap32. pose proof (Z.mod_pos_bound z 4294967296). lia. Qed.

Lemma saturating_add_min l r :
  is_u64 l -> is_u64 r -> saturating_add l r = Z.min (l + r) U64_MAX.
Proof. unfold saturating_add. intros. zcases; ulia. Qed.

Lemma saturating_add_u64 l r : is_u64 l -> is_u64 r -> is_u64 (saturating_add l r).
Proof. intros. rewrite saturating_add_min by done. ulia. Qed.

(** One more term of a sum that stops at the largest value. *)
Lemma saturating_add_step s v : 0 <= s -> is_u64 v -> saturating_add (Z.min U64_MAX s) v = Z.min U64_MAX (s + v).
Proof. intros. rewrite saturating_add_min by ulia. ulia. Qed.

Lemma saturating_increment_u64 v : is_u64 v -> is_u64 (saturating_increment v).
Proof. unfold saturating_increment. intros. zcases; ulia. Qed.

#[export] Hint Resolve wrap64_u64 wrap32_u32 saturating_add_u64 saturating_increment_u64 : width.

(** Two bytes fall in one block of [p] bytes exactly when their quotients agree. *)
Lemma div_same_block p a b :
  0 < p -> a / p * p <= b < a / p * p + p -> b / p = a / p.
Proof.
  intros Hp Hb. symmetry. apply Z.div_unique with (b - a / p * p); lia.
Qed.

Lemma div_block_bounds p a : 0 < p -> a / p * p <= a < a / p * p + p.
Proof.
  intros Hp. pose proof (Z.div_mod a p ltac:(lia)). pose proof (Z.mod_pos_bound a p Hp). nia.
Qed.

(** ** Generic facts about the result type and lists *)

Lemma bind_Ok {A B} (r : result A) (f : A -> result B) b :
  (x ← r; f x) = Ok b <-> exists a, r = Ok a /\ f a = Ok b.
Proof. destruct r; simpl; naive_solver. Qed.

Lemma bind_Throw {A B} (r : result A) (f : A -> result B) e :
  (x ← r; f x) = Throw e <-> r = Throw e \/ exists a, r = Ok a /\ f a = Throw e.
Proof. destruct r; simpl; naive_solver. Qed.

Section fold.
Context {S X : Type} (f : S -> X -> result S).

Lemma fold_result_app s l1 l2 :
  fold_result f s (l1 ++ l2) = (s' ← fold_result f s l1; fold_result f s' l2).
Proof. revert s. induction l1 as [|x l1 IH]; intros s; simpl; [done|]. destruct (f s x); simpl; auto. Qed.

(** An invariant of the loop body is an invariant of the loop. *)
Lemma fold_result_inv (P : S -> Prop) s l s' :
  (forall t x t', x ∈ l -> P t -> f t x = Ok t' -> P t') ->
  P s -> fold_result f s l = Ok s' -> P s'.
Proof.
  revert s. induction l as [|x l IH]; intros s Hf HP; simpl; [by intros [= <-]|].
  rewrite bind_Ok. intros (t & Ht & Hl).
  eapply IH; [..|exact Hl]; [|eapply Hf; [by left|exact HP|exact Ht]].
  intros u y u' Hy. apply Hf. by right.
Qed.
End fold.

(** The elements of a list of [n] consecutive integers. *)
Fixpoint zseq (start : Z) (n : nat) : list Z :=
  match n with O => [] | S n' => start :: zseq (start + 1) n' end.

Lemma elem_of_zseq x s n : x ∈ zseq s n <-> s <= x < s + Z.of_nat n.
Proof.
  revert s. induction n as [|n IH]; intros s; simpl.
  - split; [by intros ?%elem_of_nil|lia].
  - rewrite elem_of_cons, IH. lia.
Qed.

(** Filtering. *)
Lemma filter_ext_in {A} (P Q : A -> Prop) `{!forall x, Decision (P x), !forall x, Decision (Q x)} (l : list A) :
  (forall x, x ∈ l -> P x <-> Q x) -> filter P l = filter Q l.
Proof.
  induction l as [|x l IH]; intros HPQ; [done|]. rewrite !filter_cons.
  rewrite (IH (fun y Hy => HPQ y (list_elem_of_further y x l Hy))).
  pose proof (HPQ x (list_elem_of_here x l)).
  destruct (decide (P x)), (decide (Q x)); tauto.
Qed.

Lemma NoDup_fmap_filter {A B} (f : A -> B) (P : A -> Prop) `{!forall x, Decision (P x)} (l : list A) :
  NoDup (f <$> l) -> NoDup (f <$> filter P l).
Proof. intros Hnd. eapply sublist_NoDup; [exact Hnd|]. apply fmap_sublist, sublist_filter. Qed.

Lemma filter_none {A} (P : A -> Prop) `{!forall x, Decision (P x)} (l : list A) :
  (forall x, x ∈ l -> ~ P x) -> filter P l = [].
Proof.
  induction l as [|x l IH]; intros Hn; [done|].
  rewrite filter_cons_False by (apply Hn; by left). apply IH. intros y Hy. apply Hn. by right.
Qed.

Lemma filter_all {A} (P : A -> Prop) `{!forall x, Decision (P x)} (l : list A) :
  (forall x, x ∈ l -> P x) -> filter P l = l.
Proof.
  induction l as [|x l IH]; intros Hn; [done|].
  rewrite filter_cons_True by (apply Hn; by left). f_equal. apply IH. intros y Hy. apply Hn. by right.
Qed.

(** Sums. *)
Definition zsum (l : list Z) : Z := foldr Z.add 0 l.

Lemma zsum_cons x l : zsum (x :: l) = x + zsum l.
Proof. done. Qed.

Lemma zsum_app l1 l2 : zsum (l1 ++ l2) = zsum l1 + zsum l2.
Proof. induction l1 as [|x l1 IH]; simpl; lia. Qed.

Lemma zsum_perm l1 l2 : l1 ≡ₚ l2 -> zsum l1 = zsum l2.
Proof. induction 1; simpl; lia. Qed.

Lemma zsum_nonneg {A} (f : A -> Z) l : (forall x, x ∈ l -> 0 <= f x) -> 0 <= zsum (f <$> l).
Proof.
  induction l as [|x l IH]; intros Hf; [done|]. rewrite fmap_cons, zsum_cons.
  pose proof (Hf x (list_elem_of_here x l)). assert (0 <= zsum (f <$> l)); [|lia].
  apply IH. intros y Hy. apply Hf. by right.
Qed.

(** Sums over a part of the list. *)
Lemma zsum_filter_le {A} (f : A -> Z) (P : A -> Prop) `{!forall x, Decision (P x)} l :
  (forall x, x ∈ l -> 0 <= f x) -> zsum (f <$> filter P l) <= zsum (f <$> l).
Proof.
  induction l as [|x l IH]; intros Hf; [done|].
  pose proof (Hf x (list_elem_of_here x l)). pose proof (IH (fun y Hy => Hf y (list_elem_of_further y x l Hy))).
  rewrite filter_cons. destruct (decide (P x)); rewrite ?fmap_cons, ?zsum_cons; lia.
Qed.

(** Adding up with [saturating_add] stops at the largest value. *)
Lemma saturating_add_sum a x b : 0 <= a <= U64_MAX -> 0 <= x -> b = Z.min (a + x) U64_MAX -> x <= U64_MAX -> saturating_add a x = b.
Proof. intros. subst. apply saturating_add_min; ulia. Qed.

#[export] Instance zsum_proper : Proper (Permutation ==> eq) zsum := zsum_perm.
