(* ===== verification/State.v ===== *)
(** Programs that call an environment: what src/security and the JNI bridge do with the
    interfaces of the operating system, as functions from the world before to the world
    after and a value, with the tactic that runs them call by call. *)
From stdpp Require Import prelude.
From Stdlib Require Import ZArith Lia.
From S2P Require Import Prelude.

Definition state (W A : Type) : Type := W -> W * A.
Arguments state : simpl never.

#[global] Instance state_ret {W} : MRet (state W) := fun A a w => (w, a).
#[global] Instance state_bind {W} : MBind (state W) := fun A B f m w => let '(w', a) := m w in f a w'.

(** A call. *)
Definition invoke {W A} (f : W -> W * A) : state W A := f.
(** A call without an answer. *)
Definition effect {W} (f : W -> W) : state W unit := fun w => (f w, tt).
(** A call that does not change the world. *)
Definition reading {W A} (f : W -> A) : state W A := fun w => (w, f w).

(** [for (x : l) body(x)] over a body that answers whether to go on. *)
Fixpoint all_in {W A} (body : A -> state W bool) (l : list A) : state W bool :=
  match l with
  | [] => mret true
  | x :: l => go ← body x; if (go : bool) then all_in body l else mret false
  end.

(** What a program does from [w]. *)
Definition ends {W A} (m : state W A) (w : W) (Q : A -> W -> Prop) : Prop := Q (m w).2 (m w).1.

Section ends.
Context {W : Type}.
Implicit Types w : W.

Lemma ends_result {A} (m : state W A) w Q w' a : ends m w Q -> m w = (w', a) -> Q a w'.
Proof. unfold ends. intros HQ Hm. by rewrite Hm in HQ. Qed.

Lemma ends_conseq {A} (m : state W A) w (Q Q' : A -> W -> Prop) : ends m w Q -> (forall a w', Q a w' -> Q' a w') -> ends m w Q'.
Proof. intros HQ Himp. by apply Himp. Qed.

Lemma ends_ret {A} (a : A) w (Q : A -> W -> Prop) : Q a w -> ends (mret a : state W A) w Q.
Proof. done. Qed.

Lemma ends_bind {A B} (m : state W A) (f : A -> state W B) w Q : ends m w (fun a w' => ends (f a) w' Q) -> ends (m ≫= f) w Q.
Proof. unfold ends, mbind, state_bind. by destruct (m w). Qed.

Lemma ends_invoke {A} (f : W -> W * A) w (Q : A -> W -> Prop) : (forall w' a, f w = (w', a) -> Q a w') -> ends (invoke f) w Q.
Proof. intros HQ. apply HQ. unfold invoke. by destruct (f w). Qed.

Lemma ends_effect (f : W -> W) w Q : Q tt (f w) -> ends (effect f) w Q.
Proof. done. Qed.

Lemma ends_reading {A} (f : W -> A) w Q : Q (f w) w -> ends (reading f) w Q.
Proof. done. Qed.

(** A loop over a body that keeps [I], which grows with what is done, until it ends in [F]. *)
Lemma ends_all_in {A} (body : A -> state W bool) (I : list A -> W -> Prop) (F : list A -> A -> W -> Prop) l w :
  (forall x before after w, l = before ++ x :: after -> I before w ->
     ends (body x) w (fun go w' => if go then I (before ++ [x]) w' else F before x w')) ->
  I [] w ->
  ends (all_in body l) w (fun go w' => if go then I l w' else exists before x after, l = before ++ x :: after /\ F before x w').
Proof.
  intros Hbody. assert (Hall : forall l' done_ w, l = done_ ++ l' -> I done_ w ->
    ends (all_in body l') w (fun go w' => if go then I l w' else exists before x after, l = before ++ x :: after /\ F before x w')).
  { induction l' as [|x l' IH]; intros done_ w' Hl Hi; cbn [all_in].
    - apply ends_ret. by rewrite Hl, app_nil_r.
    - apply ends_bind. eapply ends_conseq; [by eapply Hbody|]. intros [|] w2 Hw2; cbn beta iota.
      + apply (IH (done_ ++ [x])); [by rewrite <-app_assoc|done].
      + apply ends_ret. by exists done_, x, l'. }
  by apply (Hall l []).
Qed.
End ends.
