(* ===== verification/Objects.v ===== *)
(** Objects that a program makes and gives back: what it owns on the way, for the objects
    of the trust stores and for the references of the JNI bridge. *)
From stdpp Require Import prelude gmap.
From Stdlib Require Import ZArith Lia.
From S2P Require Import Prelude State.

(** What is seen of a world: the objects that the program owns and has to give back, what
    they contain, whether the system has failed so far, and what else stays as it was. *)
Class ObjectView (W O : Type) := {
  owned : W -> gset Z;
  content : W -> Z -> O;
  failed : W -> bool;
  stays : W -> W -> Prop;
  stays_refl w : stays w w;
  stays_trans w1 w2 w3 : stays w1 w2 -> stays w2 w3 -> stays w1 w3;
}.

Section objects.
Context {W O : Type} `{ObjectView W O}.
Implicit Types w : W.

(** A failure is not forgotten. *)
Definition continues w w' : Prop := failed w = true -> failed w' = true.

(** From [w] to [w'] the objects of [old] keep their contents. *)
Definition keeps_objects (old : gset Z) w w' : Prop :=
  stays w w' /\ continues w w' /\ forall r, r ∈ old -> content w' r = content w r.

Definition unchanged w w' : Prop := keeps_objects (owned w) w w' /\ owned w' = owned w.

(** A call that creates an object with content [c], or fails and creates none. *)
Definition creates (c : O) w w' (r : option Z) : Prop :=
  keeps_objects (owned w) w w' /\
  match r with
  | None => owned w' = owned w /\ failed w' = true
  | Some r => (r ∉ owned w) /\ owned w' = {[r]} ∪ owned w /\ content w' r = c
  end.

(** A call that gives an object back. *)
Definition releases (r : Z) w w' : Prop :=
  keeps_objects (owned w ∖ {[r]}) w w' /\ owned w' = owned w ∖ {[r]}.

Lemma unchanged_refl w : unchanged w w.
Proof. split_and!; [split_and!; [apply stays_refl|by intros ?|done]|done]. Qed.

Lemma keeps_objects_trans old w1 w2 w3 : keeps_objects old w1 w2 -> keeps_objects old w2 w3 -> keeps_objects old w1 w3.
Proof.
  intros (Hs & Hf & Hc) (Hs' & Hf' & Hc'). split_and!; [by eapply stays_trans|unfold continues in *; auto|].
  intros r Hr. rewrite Hc', Hc; done.
Qed.

Lemma unchanged_trans w1 w2 w3 : unchanged w1 w2 -> unchanged w2 w3 -> unchanged w1 w3.
Proof. intros [Hk Ho] [Hk' Ho']. rewrite Ho in Hk'. split; [by eapply keeps_objects_trans|congruence]. Qed.

(** Since [w0] the program has made the objects [S] and left the others alone. *)
Definition holding w0 (S : gset Z) w : Prop :=
  stays w0 w /\ owned w = S ∪ owned w0 /\ S ## owned w0 /\ forall r, r ∈ owned w0 -> content w r = content w0 r.

Lemma holding_start w : holding w ∅ w.
Proof. split_and!; [apply stays_refl|set_solver..|done]. Qed.

Lemma holding_unchanged w0 S w w' : holding w0 S w -> unchanged w w' ->
  holding w0 S w' /\ (forall r, r ∈ S -> content w' r = content w r) /\ (failed w = true -> failed w' = true).
Proof.
  intros (Hc & Ho & Hd & Hk) [(Hc' & Hf' & Hk') Ho']. split_and!; [|intros r Hr; apply Hk'; set_solver|exact Hf'].
  split_and!; [by eapply stays_trans|congruence|done|]. intros r Hr. rewrite Hk', Hk; [done..|]. set_solver.
Qed.

Lemma holding_creates w0 S w w' c r : holding w0 S w -> creates c w w' r ->
  (failed w = true -> failed w' = true) /\ (forall r', r' ∈ S -> content w' r' = content w r') /\
  match r with
  | None => holding w0 S w' /\ failed w' = true
  | Some r => holding w0 ({[r]} ∪ S) w' /\ content w' r = c /\ (r ∉ S)
  end.
Proof.
  intros (Hc & Ho & Hd & Hk) [(Hc' & Hf' & Hk') Hr]. assert (Hkeep : forall r', r' ∈ owned w0 -> content w' r' = content w0 r').
  { intros r' Hr'. rewrite Hk', Hk; [done..|]. set_solver. }
  split_and!; [exact Hf'|intros r' Hr'; apply Hk'; set_solver|]. destruct r as [r|].
  - destruct Hr as (Hnew & Ho' & Hc''). split_and!; [|done|set_solver].
    split_and!; [by eapply stays_trans|rewrite Ho', Ho; set_solver|set_solver|done].
  - destruct Hr as [Ho' Hf]. split; [|done]. split_and!; [by eapply stays_trans|congruence|done|done].
Qed.

Lemma holding_releases w0 S w w' r : holding w0 S w -> r ∈ S -> releases r w w' ->
  holding w0 (S ∖ {[r]}) w' /\ (forall r', r' ∈ S -> r' <> r -> content w' r' = content w r') /\ (failed w = true -> failed w' = true).
Proof.
  intros (Hc & Ho & Hd & Hk) Hin [(Hc' & Hf' & Hk') Ho']. split_and!; [|intros r' Hr' Hne; apply Hk'; set_solver|exact Hf'].
  split_and!; [by eapply stays_trans|rewrite Ho', Ho; set_solver|set_solver|].
  intros r' Hr'. rewrite Hk', Hk; [done..|]. set_solver.
Qed.

Lemma holding_modified w0 S w w' r : holding w0 S w -> r ∈ S -> keeps_objects (owned w ∖ {[r]}) w w' -> owned w' = owned w ->
  holding w0 S w' /\ (forall r', r' ∈ S -> r' <> r -> content w' r' = content w r') /\ (failed w = true -> failed w' = true).
Proof.
  intros (Hc & Ho & Hd & Hk) Hin (Hc' & Hf' & Hk') Ho'. split_and!; [|intros r' Hr' Hne; apply Hk'; set_solver|exact Hf'].
  split_and!; [by eapply stays_trans|congruence|done|]. intros r' Hr'. rewrite Hk', Hk; [done..|]. set_solver.
Qed.

(** Nothing is left, or one object. *)
Lemma holding_end w0 w : holding w0 ∅ w -> (failed w0 = true -> failed w = true) -> unchanged w0 w.
Proof. intros (Hs & Ho & _ & Hk) Hf. split; [split_and!; [done..|exact Hk]|]. rewrite Ho. set_solver. Qed.

Lemma holding_made w0 r o w : holding w0 {[r]} w -> content w r = o -> failed w0 = false -> creates o w0 w (Some r).
Proof.
  intros (Hs & Ho & Hd & Hk) Hc Hf. split; [split_and!; [done|by unfold continues; rewrite Hf|exact Hk]|].
  split_and!; [set_solver|done|done].
Qed.

(** The rules of the calls, on the way from [w0]. *)
Section rules.
Context (w0 : W) (S : gset Z).

Lemma object_made_spec {f : W -> W * option Z} {c w} {Q : option Z -> W -> Prop} :
  holding w0 S w -> (forall w' r, f w = (w', r) -> creates c w w' r) ->
  (forall w', holding w0 S w' -> failed w' = true -> (forall r', r' ∈ S -> content w' r' = content w r') -> Q None w') ->
  (forall w' r, holding w0 ({[r]} ∪ S) w' -> content w' r = c -> (r ∉ S) ->
    (forall r', r' ∈ S -> content w' r' = content w r') -> continues w w' -> Q (Some r) w') ->
  ends (invoke f) w Q.
Proof.
  intros Hh Hf Hnone Hsome. apply ends_invoke. intros w' r E. apply Hf in E.
  destruct (holding_creates _ _ _ _ _ _ Hh E) as (Hm & Hk & Hr). destruct r as [r|]; [|destruct Hr; auto].
  destruct Hr as (?&?&?). auto.
Qed.

Lemma object_released_spec {f : W -> W} {r w} {Q : unit -> W -> Prop} :
  holding w0 S w -> r ∈ S -> (r ∈ owned w -> releases r w (f w)) ->
  (forall w', holding w0 (S ∖ {[r]}) w' -> (forall r', r' ∈ S -> r' <> r -> content w' r' = content w r') -> continues w w' -> Q tt w') ->
  ends (effect f) w Q.
Proof.
  intros Hh Hr Hf HQ. apply ends_effect. assert (r ∈ owned w) as Ho by (destruct Hh as (_ & -> & _); set_solver).
  destruct (holding_releases _ _ _ _ _ Hh Hr (Hf Ho)) as (?&?&?). by apply HQ.
Qed.
End rules.
End objects.
