(* ===== verification/Text.v ===== *)
(** Text: [std::string_view] and the parts of the C++ standard library the engine
    uses on it.  A string is the list of its characters; [find], [substr],
    [starts_with], [tolower], [isxdigit], [std::from_chars] on [std::uint64_t] and
    [std::to_string] are modelled as functions, together with the helper [trim]
    that byte_range.cpp and http_protocol.cpp define. *)
From stdpp Require Import prelude strings list.
From Stdlib Require Import ZArith Lia Ascii.
From S2P Require Import Prelude.

Abbreviation text := (list ascii).
Create HintDb text discriminated.

(** The characters of a string literal. *)
Definition str (s : string) : text := String.list_ascii_of_string s.

(** [static_cast<unsigned char>(c)]. *)
Definition code (c : ascii) : Z := Z.of_N (N_of_ascii c).

Definition chr (z : Z) : ascii := ascii_of_N (Z.to_N z).
Definition TAB : ascii := chr 9.
Definition LF : ascii := chr 10.
Definition CR : ascii := chr 13.
Definition SP : ascii := chr 32.
Definition QUOTE : ascii := chr 34.
Definition crlf : text := [CR; LF].

Definition size (v : text) : Z := Z.of_nat (length v).

(** [value.find(c)], [value.find(c, pos)]: the index of the first occurrence. *)
Fixpoint find_char (c : ascii) (v : text) : option nat :=
  match v with
  | [] => None
  | x :: v' => if Ascii.eqb x c then Some O else S <$> find_char c v'
  end.
Definition find_char_from (c : ascii) (pos : nat) (v : text) : option nat :=
  Nat.add pos <$> find_char c (drop pos v).

Fixpoint starts_with (prefix v : text) : bool :=
  match prefix, v with
  | [], _ => true
  | p :: prefix', x :: v' => Ascii.eqb p x && starts_with prefix' v'
  | _ :: _, [] => false
  end.
Definition ends_with (suffix v : text) : bool :=
  (length suffix <=? length v)%nat && starts_with suffix (drop (length v - length suffix) v).

(** [value.find(needle)], [value.find(needle, pos)]. *)
Fixpoint find_text (needle v : text) : option nat :=
  if starts_with needle v then Some O
  else match v with [] => None | _ :: v' => S <$> find_text needle v' end.
Definition find_text_from (needle : text) (pos : nat) (v : text) : option nat :=
  if (length v <? pos)%nat then None else Nat.add pos <$> find_text needle (drop pos v).

(** [value.substr(pos)], [value.substr(pos, count)] for [pos <= size]. *)
Definition substr_from (pos : nat) (v : text) : text := drop pos v.
Definition substr (pos count : nat) (v : text) : text := take count (drop pos v).

Definition text_eqb (a b : text) : bool := bool_decide (a = b).

(** [std::tolower], [std::isxdigit] and [std::isdigit] in the "C" locale. *)
Definition tolower (c : ascii) : ascii :=
  if (65 <=? code c) && (code c <=? 90) then chr (code c + 32) else c.
Definition is_digit (c : ascii) : bool := (48 <=? code c) && (code c <=? 57).
Definition isxdigit (c : ascii) : bool :=
  is_digit c || ((65 <=? code c) && (code c <=? 70)) || ((97 <=? code c) && (code c <=? 102)).

(** The helper [trim] of byte_range.cpp and http_protocol.cpp: blanks are removed
    while the first character is one, then while the last one is. *)
Definition is_blank (c : ascii) : bool := Ascii.eqb c SP || Ascii.eqb c TAB.
Fixpoint trim_front (v : text) : text :=
  match v with
  | [] => []
  | c :: v' => if is_blank c then trim_front v' else v
  end.
Fixpoint trim_back (v : text) : text :=
  match v with
  | [] => []
  | c :: v' => match trim_back v' with
               | [] => if is_blank c then [] else [c]
               | w => c :: w
               end
  end.
Definition trim (v : text) : text := trim_back (trim_front v).

(** [std::from_chars(first, last, std::uint64_t&)], base 10: the longest prefix of
    digits is matched; [fc_ptr] is the number of characters consumed. *)
Inductive errc := errc_none | errc_invalid_argument | errc_result_out_of_range.
Record from_chars_result := FromChars { fc_ec : errc; fc_ptr : nat; fc_value : Z }.

Fixpoint digit_prefix (v : text) : text :=
  match v with
  | [] => []
  | c :: v' => if is_digit c then c :: digit_prefix v' else []
  end.
Fixpoint digits_value (acc : Z) (v : text) : Z :=
  match v with
  | [] => acc
  | c :: v' => digits_value (acc * 10 + (code c - 48)) v'
  end.
Definition from_chars_u64 (v : text) (initial : Z) : from_chars_result :=
  let d := digit_prefix v in
  match d with
  | [] => FromChars errc_invalid_argument 0 initial
  | _ => let n := digits_value 0 d in
         if U64_MAX <? n then FromChars errc_result_out_of_range (length d) initial
         else FromChars errc_none (length d) n
  end.

(** [std::to_string] of an unsigned value: at most 20 digits for 64 bits. *)
Fixpoint decimal (fuel : nat) (n : Z) : text :=
  match fuel with
  | O => []
  | S f => (if n <? 10 then [] else decimal f (n / 10)) ++ [chr (48 + n mod 10)]
  end.
Definition to_string (n : Z) : text := decimal 20 n.

(** ** Characters *)

Lemma code_range c : 0 <= code c <= 255.
Proof. unfold code. pose proof (N_ascii_bounded c). lia. Qed.

Lemma code_chr z : 0 <= z <= 255 -> code (chr z) = z.
Proof.
  intros H. unfold code, chr. rewrite N_ascii_embedding by lia. lia.
Qed.

Lemma chr_code c : chr (code c) = c.
Proof. unfold code, chr. rewrite N2Z.id. apply ascii_N_embedding. Qed.

Lemma code_inj c d : code c = code d -> c = d.
Proof. intros H. rewrite <-(chr_code c), <-(chr_code d). by rewrite H. Qed.

Lemma tolower_idemp c : tolower (tolower c) = tolower c.
Proof.
  unfold tolower at 2 3. destruct ((65 <=? code c) && (code c <=? 90)) eqn:E.
  - apply andb_prop in E as [E1%Z.leb_le E2%Z.leb_le].
    unfold tolower. rewrite code_chr by lia.
    destruct (Z.leb_spec 65 (code c + 32)), (Z.leb_spec (code c + 32) 90); simpl; try done; lia.
  - unfold tolower. by rewrite E.
Qed.

Lemma isxdigit_tolower c : isxdigit c = true -> isxdigit (tolower c) = true.
Proof.
  unfold isxdigit, is_digit, tolower. intros H.
  destruct ((65 <=? code c) && (code c <=? 90)) eqn:E; [|done].
  apply andb_prop in E as [E1%Z.leb_le E2%Z.leb_le]. rewrite code_chr by lia.
  zcases; try done; lia.
Qed.

(** ** Trimming *)

Definition blanks (v : text) : Prop := Forall (fun c => is_blank c = true) v.

(** A text whose first and last characters are not blank. *)
Definition tight (v : text) : Prop :=
  (forall c, head v = Some c -> is_blank c = false) /\
  (forall c, last v = Some c -> is_blank c = false).

Lemma trim_front_spec v : exists w, blanks w /\ v = w ++ trim_front v /\
  (forall c, head (trim_front v) = Some c -> is_blank c = false).
Proof.
  induction v as [|c v (w & Hw & Hv & Hh)]; [by exists []; repeat split; [constructor|]|].
  simpl. destruct (is_blank c) eqn:E.
  - exists (c :: w). split; [by constructor|]. split; [by rewrite Hv at 1|done].
  - exists []. split; [constructor|]. split; [done|]. intros ? [= <-]. done.
Qed.

Lemma trim_back_spec v : exists w, blanks w /\ v = trim_back v ++ w /\
  (forall c, last (trim_back v) = Some c -> is_blank c = false).
Proof.
  induction v as [|c v (w & Hw & Hv & Hl)]; [by exists []; repeat split; [constructor|]|].
  simpl. destruct (trim_back v) as [|d t] eqn:Et.
  - destruct (is_blank c) eqn:E.
    + exists (c :: w). split; [by constructor|]. simpl in Hv. by subst.
    + exists w. split; [done|]. split; [simpl in *; by subst|]. by intros ? [= <-].
  - exists w. split; [done|]. split; [by rewrite Hv at 1|].
    intros x Hx. apply Hl. destruct t; simpl in *; done.
Qed.

Lemma trim_front_blanks w v : blanks w -> trim_front (w ++ v) = trim_front v.
Proof. induction 1 as [|c w Hc _ IH]; simpl; [done|]. by rewrite Hc. Qed.

Lemma trim_back_blanks w : blanks w -> trim_back w = [].
Proof. induction 1 as [|c w Hc _ IH]; simpl; [done|]. by rewrite IH, Hc. Qed.

Lemma trim_back_app_blanks v w : blanks w -> trim_back (v ++ w) = trim_back v.
Proof. intros Hw. induction v as [|c v IH]; simpl; [by apply trim_back_blanks|]. by rewrite IH. Qed.

Lemma trim_front_id v :
  (forall c, head v = Some c -> is_blank c = false) -> trim_front v = v.
Proof. destruct v as [|c v]; simpl; [done|]. intros H. by rewrite (H c). Qed.

Lemma trim_back_id v :
  (forall c, last v = Some c -> is_blank c = false) -> trim_back v = v.
Proof.
  intros H. destruct (trim_back_spec v) as (w & Hw & Hv & _).
  destruct w as [|c w _] using rev_ind; [by rewrite app_nil_r in Hv|].
  exfalso. apply Forall_app in Hw as [_ Hc]. inversion_clear Hc as [|? ? Hc' _].
  rewrite (H c) in Hc'; [done|]. by rewrite Hv, app_assoc, last_snoc.
Qed.

(** The blanks around a tight text are removed, and only they. *)
Lemma trim_tight w v w' : blanks w -> blanks w' -> tight v -> trim (w ++ v ++ w') = v.
Proof.
  intros Hw Hw' [Hh Hl]. unfold trim. rewrite trim_front_blanks by done.
  destruct v as [|c v].
  - simpl. rewrite <-(app_nil_r w'), trim_front_blanks by done. done.
  - rewrite (trim_front_id ((c :: v) ++ w')) by (intros d; simpl; intros [= <-]; by apply Hh).
    rewrite trim_back_app_blanks by done. by apply trim_back_id.
Qed.

Lemma trim_id v : tight v -> trim v = v.
Proof. intros Hv. rewrite <-(app_nil_r v) at 1. apply (trim_tight [] v []); done || constructor. Qed.

Lemma last_elem_of (v : text) c : last v = Some c -> c ∈ v.
Proof.
  destruct v as [|x v _] using rev_ind; [done|].
  rewrite last_snoc. intros [= ->]. set_solver.
Qed.

Lemma trim_spec v : exists w w', blanks w /\ blanks w' /\ v = w ++ trim v ++ w' /\ tight (trim v).
Proof.
  destruct (trim_front_spec v) as (w & Hw & Hv & Hh).
  destruct (trim_back_spec (trim_front v)) as (w' & Hw' & Hv' & Hl).
  exists w, w'. unfold trim. split; [done|]. split; [done|]. split; [by rewrite <-Hv'|].
  split; [|done]. intros c Hc. apply Hh. rewrite Hv'. by destruct (trim_back _).
Qed.

Lemma trim_nil_blanks v : trim v = [] <-> blanks v.
Proof.
  split; intros H.
  - destruct (trim_spec v) as (w & w' & Hw & Hw' & Hv & _). rewrite Hv, H. simpl. by apply Forall_app.
  - rewrite <-(app_nil_r v). apply (trim_tight v [] []); [done|constructor|done].
Qed.

Lemma trim_elem_of c v : c ∈ trim v -> c ∈ v.
Proof.
  destruct (trim_spec v) as (w & w' & _ & _ & Hv & _). rewrite Hv at 2. set_solver.
Qed.

(** Blanks around a text do not change its trimming. *)
Lemma trim_pad w v w' : blanks w -> blanks w' -> trim (w ++ v ++ w') = trim v.
Proof.
  intros Hw Hw'. destruct (trim_spec v) as (x & x' & Hx & Hx' & Hv & Ht).
  rewrite Hv at 1. rewrite <-!app_assoc, app_assoc.
  apply trim_tight; [by apply Forall_app..|done].
Qed.

Lemma trim_trim_front v : trim (trim_front v) = trim v.
Proof.
  destruct (trim_front_spec v) as (w & Hw & Hv & _). rewrite Hv at 2.
  rewrite <-(app_nil_r (trim_front v)) at 2. symmetry. by apply trim_pad; [|constructor].
Qed.

Lemma trim_trim_back v : trim (trim_back v) = trim v.
Proof.
  destruct (trim_back_spec v) as (w & Hw & Hv & _). rewrite Hv at 2.
  symmetry. by apply (trim_pad [] _ w); [constructor|].
Qed.

Lemma trim_back_app a b :
  (forall c, last a = Some c -> is_blank c = false) -> a <> [] -> trim_back (a ++ b) = a ++ trim_back b.
Proof.
  intros Ha Hne. destruct (trim_back b) as [|d t] eqn:E.
  - destruct (trim_back_spec b) as (w & Hw & Hb & _). rewrite E in Hb. simpl in Hb. subst w.
    rewrite trim_back_app_blanks, app_nil_r by done. by apply trim_back_id.
  - clear Ha Hne. induction a as [|x a IH]; simpl; [done|]. rewrite IH. by destruct a.
Qed.

Lemma trim_front_app a b :
  (forall c, head b = Some c -> is_blank c = false) -> trim_front (a ++ b) = trim_front a ++ b.
Proof. intros Hb. induction a as [|x a IH]; simpl; [by apply trim_front_id|]. by destruct (is_blank x). Qed.

(** Trimming around a character that is not a blank. *)
Lemma trim_around c a b :
  is_blank c = false -> trim (a ++ c :: b) = trim_front a ++ c :: trim_back b.
Proof.
  intros Hc. unfold trim. rewrite trim_front_app by (by intros ? [= <-]).
  rewrite (cons_middle c), app_assoc, trim_back_app.
  - by rewrite <-app_assoc.
  - intros d. rewrite last_snoc. by intros [= <-].
  - by destruct (trim_front a).
Qed.

Lemma trim_front_elem_of c v : c ∈ trim_front v -> c ∈ v.
Proof. destruct (trim_front_spec v) as (w & _ & Hv & _). rewrite Hv at 2. set_solver. Qed.

Lemma trim_back_elem_of c v : c ∈ trim_back v -> c ∈ v.
Proof. destruct (trim_back_spec v) as (w & _ & Hv & _). rewrite Hv at 2. set_solver. Qed.

(** ** Searching *)

Lemma eqb_eq_ascii a b : Ascii.eqb a b = true <-> a = b.
Proof. apply Ascii.eqb_eq. Qed.

Lemma find_char_Some c v i :
  find_char c v = Some i <-> exists a b, v = a ++ c :: b /\ (c ∉ a) /\ length a = i.
Proof.
  revert i. induction v as [|x v IH]; intros i; simpl.
  - split; [done|]. intros ([|] & ? & ? & _); done.
  - destruct (Ascii.eqb x c) eqn:E.
    + apply eqb_eq_ascii in E as ->. split.
      * intros [= <-]. exists [], v. repeat split; set_solver.
      * intros ([|y a] & b & Hv & Hn & <-); [done|]. injection Hv as -> _. set_solver.
    + apply Ascii.eqb_neq in E. rewrite fmap_Some. setoid_rewrite IH. split.
      * intros (j & (a & b & -> & Hn & <-) & ->). exists (x :: a), b.
        repeat split. rewrite not_elem_of_cons. done.
      * intros ([|y a] & b & Hv & Hn & <-); injection Hv as Hx Hv; [done|]. subst.
        exists (length a). split; [|done]. exists a, b. set_solver.
Qed.

Lemma find_char_None c v : find_char c v = None <-> c ∉ v.
Proof.
  induction v as [|x v IH]; simpl; [set_solver|].
  destruct (Ascii.eqb x c) eqn:E.
  - apply eqb_eq_ascii in E as ->. set_solver.
  - apply Ascii.eqb_neq in E. rewrite fmap_None, IH, not_elem_of_cons. naive_solver.
Qed.

Lemma find_char_app c a b : c ∉ a -> find_char c (a ++ c :: b) = Some (length a).
Proof. intros H. apply find_char_Some. eauto. Qed.

Lemma starts_with_app p v : starts_with p v = true <-> exists w, v = p ++ w.
Proof.
  revert v. induction p as [|c p IH]; intros v; simpl; [naive_solver|].
  destruct v as [|x v]; [naive_solver|].
  rewrite andb_true_iff, eqb_eq_ascii, IH. naive_solver.
Qed.

Lemma ends_with_app s v : ends_with s v = true <-> exists w, v = w ++ s.
Proof.
  unfold ends_with. rewrite andb_true_iff, Nat.leb_le, starts_with_app. split.
  - intros [Hl [w Hw]]. exists (take (length v - length s) v).
    assert (length w = O) as ->%nil_length_inv.
    { apply (f_equal length) in Hw. rewrite length_drop, length_app in Hw. lia. }
    rewrite app_nil_r in Hw. rewrite <-(take_drop (length v - length s) v) at 1. by rewrite Hw.
  - intros [w ->]. rewrite length_app. split; [lia|]. exists [].
    replace (length w + length s - length s)%nat with (length w) by lia.
    by rewrite drop_app_length, app_nil_r.
Qed.

(** ** Decimal numbers *)

Definition digits (v : text) : Prop := Forall (fun c => is_digit c = true) v.

Lemma is_digit_code c : is_digit c = true <-> 48 <= code c <= 57.
Proof. unfold is_digit. rewrite andb_true_iff, !Z.leb_le. done. Qed.

Lemma digit_not_blank c : is_digit c = true -> is_blank c = false.
Proof.
  rewrite is_digit_code. intros H. unfold is_blank.
  apply orb_false_iff. rewrite !Ascii.eqb_neq.
  split; intros ->; vm_compute in H; naive_solver.
Qed.

Lemma digits_tight v : digits v -> tight v.
Proof.
  unfold digits. rewrite Forall_forall. intros H.
  split; intros c Hc; apply digit_not_blank, H.
  - destruct v; simplify_eq/=. by left.
  - by apply last_elem_of.
Qed.

Lemma digits_not_elem v c : digits v -> is_digit c = false -> c ∉ v.
Proof. unfold digits. rewrite Forall_forall. intros H Hc Hin. rewrite H in Hc; done. Qed.

Lemma digit_prefix_digits v : digits v -> digit_prefix v = v.
Proof. induction 1 as [|c v Hc _ IH]; simpl; [done|]. by rewrite Hc, IH. Qed.

Lemma digit_prefix_spec v : exists w, v = digit_prefix v ++ w /\ digits (digit_prefix v).
Proof.
  induction v as [|c v (w & Hv & Hd)]; simpl; [by exists []; split; [|constructor]|].
  destruct (is_digit c) eqn:E.
  - exists w. split; [by rewrite Hv at 1|]. by constructor.
  - exists (c :: v). split; [done|constructor].
Qed.

Lemma digits_value_app acc a b : digits_value acc (a ++ b) = digits_value (digits_value acc a) b.
Proof. revert acc. induction a as [|c a IH]; intros acc; simpl; [done|]. apply IH. Qed.

Lemma digits_value_nonneg acc v : digits v -> 0 <= acc -> 0 <= digits_value acc v.
Proof.
  intros Hv. revert acc. induction Hv as [|c v Hc _ IH]; intros acc Hacc; simpl; [done|].
  apply is_digit_code in Hc. apply IH. lia.
Qed.

Lemma decimal_spec fuel n :
  0 <= n < 10 ^ Z.of_nat fuel ->
  digits (decimal fuel n) /\ digits_value 0 (decimal fuel n) = n /\
  (fuel <> O -> decimal fuel n <> []).
Proof.
  revert n. induction fuel as [|f IH]; intros n Hn.
  - simpl in *. split; [constructor|]. split; [lia|done].
  - assert (Hc : code (chr (48 + n mod 10)) = 48 + n mod 10).
    { apply code_chr. pose proof (Z.mod_pos_bound n 10). lia. }
    assert (Hd : is_digit (chr (48 + n mod 10)) = true).
    { apply is_digit_code. rewrite Hc. pose proof (Z.mod_pos_bound n 10). lia. }
    simpl. destruct (Z.ltb_spec n 10) as [Hlt|Hge].
    + simpl. split; [by constructor|]. split; [|done].
      rewrite Hc, Z.mod_small by lia. lia.
    + destruct (IH (n / 10)) as (IHd & IHv & _).
      { split; [apply Z.div_pos; lia|]. apply Z.div_lt_upper_bound; [lia|].
        rewrite Nat2Z.inj_succ, Z.pow_succ_r in Hn by lia. lia. }
      split; [apply Forall_app; split; [done|by constructor]|]. split.
      * rewrite digits_value_app, IHv. simpl. rewrite Hc.
        pose proof (Z.div_mod n 10 ltac:(lia)). lia.
      * intros _. by destruct (decimal f (n / 10)).
Qed.

Lemma to_string_spec n :
  is_u64 n -> digits (to_string n) /\ digits_value 0 (to_string n) = n /\ to_string n <> [].
Proof.
  intros Hn. destruct (decimal_spec 20 n) as (H1 & H2 & H3); [|by auto].
  change (10 ^ Z.of_nat 20) with 100000000000000000000. ulia.
Qed.

(** [from_chars] reads back what [to_string] printed, and stops at its end. *)
Lemma from_chars_to_string n i :
  is_u64 n -> from_chars_u64 (to_string n) i = FromChars errc_none (length (to_string n)) n.
Proof.
  intros Hn. destruct (to_string_spec n Hn) as (Hd & Hv & Hne).
  unfold from_chars_u64. rewrite digit_prefix_digits, Hv by done.
  destruct (to_string n) eqn:E; [done|]. zcases; [ulia|done].
Qed.

#[export] Hint Resolve digits_tight : text.
