(* ===== verification/OrderedMap.v ===== *)
(** [std::map] with unsigned keys and [std::ranges::stable_sort] with a projection:
    a map is the list of its entries in increasing key order, which is the order the
    code iterates in. *)
From stdpp Require Import prelude list sorting.
From Stdlib Require Import ZArith Lia Sorting.Sorted.
From S2P Require Import Prelude.

Section omap.
Context {V : Type}.
Implicit Types m : list (Z * V).

(** [m.find(k)]. *)
Fixpoint omap_find (k : Z) (m : list (Z * V)) : option V :=
  match m with
  | [] => None
  | (k', v) :: m' => if k =? k' then Some v else if k <? k' then None else omap_find k m'
  end.

(** [m[k] = v], [m.insert_or_assign(k, v)]. *)
Fixpoint omap_insert (k : Z) (v : V) (m : list (Z * V)) : list (Z * V) :=
  match m with
  | [] => [(k, v)]
  | (k', v') :: m' =>
    if k =? k' then (k, v) :: m'
    else if k <? k' then (k, v) :: m
    else (k', v') :: omap_insert k v m'
  end.

(** The representation invariant: strictly increasing keys. *)
Definition omap_ok m : Prop := StronglySorted Z.lt m.*1.

Lemma omap_ok_nil : omap_ok [].
Proof. constructor. Qed.

Lemma omap_ok_cons k v m :
  omap_ok ((k, v) :: m) <-> omap_ok m /\ (forall k' v', (k', v') ∈ m -> k < k').
Proof.
  unfold omap_ok. simpl. split.
  - inversion_clear 1 as [|? ? Hs Hf]. split; [done|]. rewrite Forall_forall in Hf.
    intros k' v' Hin. apply Hf. apply list_elem_of_fmap. by exists (k', v').
  - intros [Hs Hf]. constructor; [done|]. apply Forall_forall.
    intros x ([k' v'] & -> & Hin)%list_elem_of_fmap. by eapply Hf.
Qed.

Lemma omap_find_elem k v m : omap_ok m -> omap_find k m = Some v <-> (k, v) ∈ m.
Proof.
  induction m as [|[k' v'] m IH]; intros Hok; simpl; [set_solver|].
  apply omap_ok_cons in Hok as [Hok Hlt]. rewrite elem_of_cons.
  destruct (Z.eqb_spec k k') as [->|Hne].
  - split; [intros [= ->]; auto|]. intros [[= ->]|Hin%Hlt]; [done|lia].
  - destruct (Z.ltb_spec k k') as [H|H].
    + split; [done|]. intros [[= -> ->]|Hin%Hlt]; [done|lia].
    + rewrite IH by done. naive_solver.
Qed.

Lemma elem_of_omap_insert k v m k' v' :
  (k', v') ∈ omap_insert k v m -> (k', v') = (k, v) \/ (k', v') ∈ m.
Proof.
  induction m as [|[k1 v1] m IH]; simpl; [set_solver|].
  destruct (k =? k1); [set_solver|]. destruct (k <? k1); [set_solver|].
  rewrite !elem_of_cons. intros [?|?%IH]; naive_solver.
Qed.

Lemma omap_insert_ok k v m : omap_ok m -> omap_ok (omap_insert k v m).
Proof.
  induction m as [|[k1 v1] m IH]; intros Hok; simpl.
  - apply omap_ok_cons. split; [constructor|set_solver].
  - pose proof Hok as [Hm Hlt]%omap_ok_cons.
    destruct (Z.eqb_spec k k1) as [->|]; [by apply omap_ok_cons|].
    destruct (Z.ltb_spec k k1).
    + apply omap_ok_cons. split; [done|].
      intros k' v' [[= -> ->]|Hin]%elem_of_cons; [done|]. apply Hlt in Hin. lia.
    + apply omap_ok_cons. split; [by apply IH|].
      intros k' v' [[= -> ->]|Hin]%elem_of_omap_insert; [lia|]. by eapply Hlt.
Qed.

Lemma omap_find_insert k v m k' :
  omap_ok m -> omap_find k' (omap_insert k v m) = if k' =? k then Some v else omap_find k' m.
Proof.
  induction m as [|[k1 v1] m IH]; intros Hok; simpl.
  - zcases; done || lia.
  - apply omap_ok_cons in Hok as [Hm Hlt].
    destruct (Z.eqb_spec k k1) as [->|]; [simpl; zcases; done|].
    destruct (Z.ltb_spec k k1); simpl; [zcases; done || lia|].
    rewrite IH by done. zcases; done || lia.
Qed.

Lemma omap_NoDup m : omap_ok m -> NoDup m.*1.
Proof.
  unfold omap_ok. induction 1 as [|x l Hs IH Hf]; constructor; [|done].
  rewrite Forall_forall in Hf. intros Hin%Hf. lia.
Qed.
End omap.

(** Changing the values. *)
Lemma omap_find_map {V W} (f : V -> W) p (m : list (Z * V)) :
  omap_find p (prod_map id f <$> m) = f <$> omap_find p m.
Proof.
  induction m as [|[k v] m IH]; simpl; [done|]. destruct (p =? k); [done|]. by destruct (p <? k).
Qed.

Lemma omap_map_ok {V W} (f : V -> W) (m : list (Z * V)) :
  omap_ok m -> omap_ok (prod_map id f <$> m).
Proof.
  unfold omap_ok. replace ((prod_map id f <$> m).*1) with (m.*1); [done|].
  induction m as [|[k v] m IH]; simpl; [done|]. by f_equal.
Qed.

#[export] Hint Resolve omap_ok_nil omap_insert_ok : width.

(** ** Stable sorting *)
Section stable_sort.
Context {A : Type} (key : A -> Z).

Fixpoint stable_insert (x : A) (l : list A) : list A :=
  match l with
  | [] => [x]
  | y :: l' => if key x <=? key y then x :: l else y :: stable_insert x l'
  end.

(** [std::ranges::stable_sort(l, {}, key)]. *)
Fixpoint stable_sort (l : list A) : list A :=
  match l with
  | [] => []
  | x :: l' => stable_insert x (stable_sort l')
  end.

(** By key, and in the order [R] of the input among equal keys. *)
Definition lex (R : relation A) : relation A :=
  fun x y => key x < key y \/ key x = key y /\ R x y.

Lemma stable_insert_perm x l : stable_insert x l ≡ₚ x :: l.
Proof.
  induction l as [|y l IH]; simpl; [done|]. destruct (key x <=? key y); [done|].
  rewrite IH. by rewrite Permutation_swap.
Qed.

Lemma stable_sort_perm l : stable_sort l ≡ₚ l.
Proof. induction l as [|x l IH]; simpl; [done|]. by rewrite stable_insert_perm, IH. Qed.

Lemma stable_insert_lex (R : relation A) x l :
  (forall y, y ∈ l -> R x y) -> StronglySorted (lex R) l -> StronglySorted (lex R) (stable_insert x l).
Proof.
  intros HR Hs. induction Hs as [|y l Hs IH Hf]; simpl; [repeat constructor|].
  rewrite Forall_forall in Hf. destruct (Z.leb_spec (key x) (key y)) as [Hle|Hlt].
  - constructor; [constructor; [done|by apply Forall_forall]|].
    apply Forall_forall. intros z [->|Hz]%elem_of_cons; unfold lex in *.
    + destruct (decide (key x = key y)); [right; split; [done|apply HR; by left]|left; lia].
    + destruct (Hf z Hz) as [?|[? _]]; [left; lia|].
      destruct (decide (key x = key z)); [right; split; [done|apply HR; by right]|left; lia].
  - constructor; [apply IH; intros; apply HR; by right|].
    apply Forall_forall. intros z. rewrite stable_insert_perm.
    intros [->|Hz]%elem_of_cons; [by left|by apply Hf].
Qed.

(** The result is sorted by key and equal keys keep the order of the input. *)
Lemma stable_sort_sorted (R : relation A) l :
  StronglySorted R l -> StronglySorted (lex R) (stable_sort l).
Proof.
  induction 1 as [|x l Hs IH Hf]; simpl; [constructor|].
  rewrite Forall_forall in Hf. apply stable_insert_lex; [|done].
  intros y. rewrite stable_sort_perm. apply Hf.
Qed.
End stable_sort.
