(* ===== verification/ByteRange.v ===== *)
(** Byte ranges and the HTTP [Range] header: src/http/byte_range.cpp and
    include/nuvio_engine/byte_range.hpp.  [parse_range_header] is compared with a
    grammar of single-range headers ([range_spec], [renders]) and its meaning on a
    resource ([resolve]). *)
From stdpp Require Import prelude strings list.
From Stdlib Require Import ZArith Lia Ascii.
From S2P Require Import Prelude Text.

(** ** The code *)

(** [struct ByteRange { std::uint64_t start; std::uint64_t end; }], both ends included. *)
Record ByteRange := MkRange { range_start : Z; range_end : Z }.

#[global] Instance ByteRange_eq_dec : EqDecision ByteRange.
Proof. solve_decision. Defined.

(** [ByteRange::length]: computed in 64 bits. *)
Definition range_length (r : ByteRange) : Z :=
  wrap64 (wrap64 (range_end r - range_start r) + 1).

Inductive RangeStatus := full | partial | malformed | unsatisfiable | multiple_ranges_unsupported.

Record RangeResult := MkRangeResult { range_status : RangeStatus; range_value : option ByteRange }.

(** [RangeResult::is_success]. *)
Definition is_success (r : RangeResult) : bool :=
  match range_status r with full | partial => true | _ => false end.

Definition parse_unsigned (value : text) : option Z :=
  match value with
  | [] => None
  | _ => let r := from_chars_u64 value 0 in
         match fc_ec r with
         | errc_none => if (fc_ptr r =? length value)%nat then Some (fc_value r) else None
         | _ => None
         end
  end.

Definition parse_suffix (suffix_text : text) (resource_size : Z) : RangeResult :=
  match parse_unsigned (trim suffix_text) with
  | None => MkRangeResult malformed None
  | Some suffix_length =>
    if (suffix_length =? 0) || (resource_size =? 0) then MkRangeResult unsatisfiable None
    else
      let length := if suffix_length <? resource_size then suffix_length else resource_size in
      MkRangeResult partial (Some (MkRange (wrap64 (resource_size - length)) (wrap64 (resource_size - 1))))
  end.

Definition range_prefix : text := str "bytes=".
Definition COMMA : ascii := chr 44.
Definition DASH : ascii := chr 45.

(** The part of [parse_range_header] after both texts are known, with
    [start_text] not empty. *)
Definition parse_bounds (start_text end_text : text) (resource_size : Z) : RangeResult :=
  match parse_unsigned start_text with
  | None => MkRangeResult malformed None
  | Some start =>
    if negb (text_eqb end_text []) && negb (bool_decide (is_Some (parse_unsigned end_text)))
    then MkRangeResult malformed None
    else if (resource_size =? 0) || (resource_size <=? start) then MkRangeResult unsatisfiable None
    else if text_eqb end_text [] then
      MkRangeResult partial (Some (MkRange start (wrap64 (resource_size - 1))))
    else
      let last := default 0 (parse_unsigned end_text) in
      if last <? start then MkRangeResult unsatisfiable None
      else if resource_size <=? last then
        MkRangeResult partial (Some (MkRange start (wrap64 (resource_size - 1))))
      else MkRangeResult partial (Some (MkRange start last))
  end.

Definition parse_range_header (header : text) (resource_size : Z) : RangeResult :=
  let header := trim header in
  if text_eqb header [] then
    if resource_size =? 0 then MkRangeResult full None
    else MkRangeResult full (Some (MkRange 0 (wrap64 (resource_size - 1))))
  else if negb (starts_with range_prefix header) then MkRangeResult malformed None
  else
    let specification := trim (substr_from (length range_prefix) header) in
    if text_eqb specification [] then MkRangeResult malformed None
    else if bool_decide (is_Some (find_char COMMA specification)) then
      MkRangeResult multiple_ranges_unsupported None
    else match find_char DASH specification with
    | None => MkRangeResult malformed None
    | Some separator =>
      if bool_decide (is_Some (find_char_from DASH (separator + 1) specification)) then
        MkRangeResult malformed None
      else
        let start_text := trim (substr 0 separator specification) in
        let end_text := trim (substr_from (separator + 1) specification) in
        if text_eqb start_text [] then parse_suffix end_text resource_size
        else parse_bounds start_text end_text resource_size
    end.

(** ** The specification *)

(** The three forms of a single byte range. *)
Inductive range_spec := FromTo (first last : Z) | StartingAt (first : Z) | Suffix (count : Z).

(** [numeral t n]: a decimal text of a 64-bit value, leading zeros allowed. *)
Definition numeral (t : text) (n : Z) : Prop :=
  digits t /\ t <> [] /\ digits_value 0 t = n /\ n <= U64_MAX.

(** [spec_texts s a b]: the texts before and after the dash. *)
Inductive spec_texts : range_spec -> text -> text -> Prop :=
| texts_from_to t u a b : numeral t a -> numeral u b -> spec_texts (FromTo a b) t u
| texts_from t a : numeral t a -> spec_texts (StartingAt a) t []
| texts_suffix u n : numeral u n -> spec_texts (Suffix n) [] u.

(** A header that denotes the range: blanks may surround every part. *)
Definition renders (s : range_spec) (header : text) : Prop :=
  exists p0 p1 t p2 p3 u p4,
    blanks p0 /\ blanks p1 /\ blanks p2 /\ blanks p3 /\ blanks p4 /\ spec_texts s t u /\
    header = p0 ++ range_prefix ++ p1 ++ t ++ p2 ++ [DASH] ++ p3 ++ u ++ p4.

(** The bytes it selects of a resource of [size] bytes. *)
Definition resolve (s : range_spec) (size : Z) : RangeResult :=
  match s with
  | FromTo a b =>
    if (a <? size) && (a <=? b) then MkRangeResult partial (Some (MkRange a (Z.min b (size - 1))))
    else MkRangeResult unsatisfiable None
  | StartingAt a =>
    if a <? size then MkRangeResult partial (Some (MkRange a (size - 1)))
    else MkRangeResult unsatisfiable None
  | Suffix n =>
    if (0 <? n) && (0 <? size)
    then MkRangeResult partial (Some (MkRange (size - Z.min n size) (size - 1)))
    else MkRangeResult unsatisfiable None
  end.

(** ** Lemmas *)

Lemma text_eqb_nil v : text_eqb v [] = true <-> v = [].
Proof. unfold text_eqb. by rewrite bool_decide_eq_true. Qed.

Lemma text_eqb_nil_false v : text_eqb v [] = false <-> v <> [].
Proof. unfold text_eqb. by rewrite bool_decide_eq_false. Qed.

Lemma numeral_nonneg t n : numeral t n -> is_u64 n.
Proof.
  intros (Hd & _ & <- & Hm). split; [|done]. by apply digits_value_nonneg.
Qed.

(** [parse_unsigned] accepts exactly the numerals. *)
Lemma parse_unsigned_spec v n : parse_unsigned v = Some n <-> numeral v n.
Proof.
  unfold parse_unsigned, numeral, from_chars_u64. split.
  - destruct v as [|c v]; [done|]. destruct (digit_prefix_spec (c :: v)) as (w & Hv & Hd).
    set (v' := c :: v) in *. destruct (digit_prefix v') as [|d p] eqn:Ep; [done|].
    destruct (Z.ltb_spec U64_MAX (digits_value 0 (d :: p))) as [|Hle]; [done|].
    cbn [fc_ec fc_ptr fc_value]. destruct (Nat.eqb_spec (length (d :: p)) (length v')) as [Hl|]; [|done].
    intros [= <-]. assert (w = []) as ->.
    { apply nil_length_inv. rewrite Hv, length_app in Hl. lia. }
    rewrite app_nil_r in Hv. rewrite Hv. done.
  - intros (Hd & Hne & <- & Hm). destruct v as [|c v]; [done|].
    rewrite digit_prefix_digits by done.
    destruct (Z.ltb_spec U64_MAX (digits_value 0 (c :: v))); [lia|].
    cbn [fc_ec fc_ptr fc_value]. by rewrite Nat.eqb_refl.
Qed.

Lemma numeral_to_string n : is_u64 n -> numeral (to_string n) n.
Proof. intros Hn. destruct (to_string_spec n Hn) as (? & ? & ?). repeat split; [done..|ulia]. Qed.

Lemma parse_unsigned_nil : parse_unsigned [] = None.
Proof. done. Qed.

Lemma spec_texts_no_sep s t u c :
  is_digit c = false -> spec_texts s t u -> (c ∉ t) /\ (c ∉ u).
Proof.
  intros Hc Hs. inversion Hs as [? ? ? ? (Ht & _) (Hu & _)|? ? (Ht & _)|? ? (Hu & _)]; subst;
    split; try (by eapply digits_not_elem); set_solver.
Qed.

Lemma spec_texts_tight s t u : spec_texts s t u -> tight t /\ tight u.
Proof.
  intros Hs. inversion Hs as [? ? ? ? (Ht & _) (Hu & _)|? ? (Ht & _)|? ? (Hu & _)]; subst;
    auto using digits_tight; split; try done; auto using digits_tight; split; done.
Qed.

Lemma blanks_not_elem p c : blanks p -> is_blank c = false -> c ∉ p.
Proof. unfold blanks. rewrite Forall_forall. intros H Hc Hin. rewrite H in Hc; done. Qed.

(** The part of the parser after the texts are isolated computes [resolve]. *)
Lemma parse_texts_resolve s t u n :
  is_u64 n -> spec_texts s t u ->
  (if text_eqb t [] then parse_suffix u n else parse_bounds t u n) = resolve s n.
Proof.
  intros Hn Hs. inversion Hs as [t' u' a b Ht Hu|t' a Ht|u' k Hu]; subst; simpl.
  - rewrite (proj2 (text_eqb_nil_false t)) by apply Ht. unfold parse_bounds.
    rewrite (proj2 (parse_unsigned_spec t a) Ht), (proj2 (parse_unsigned_spec u b) Hu).
    rewrite (proj2 (text_eqb_nil_false u)) by apply Hu. simpl.
    apply numeral_nonneg in Ht, Hu.
    zcases; try ulia; rewrite ?wrap64_id by ulia; repeat f_equal; ulia.
  - rewrite (proj2 (text_eqb_nil_false t)) by apply Ht. unfold parse_bounds.
    rewrite (proj2 (parse_unsigned_spec t a) Ht). simpl.
    apply numeral_nonneg in Ht. zcases; try ulia; rewrite ?wrap64_id by ulia; done.
  - unfold parse_suffix.
    rewrite trim_id by (apply digits_tight, Hu). rewrite (proj2 (parse_unsigned_spec u k) Hu).
    apply numeral_nonneg in Hu. zcases; try ulia; rewrite ?wrap64_id by ulia; repeat f_equal; ulia.
Qed.

Lemma numeral_tight t n : numeral t n -> tight t.
Proof. intros (H & _). by apply digits_tight. Qed.

(** The header splits at the prefix, and the rest at its only dash. *)
Lemma parse_range_header_split p a b n :
  blanks p -> COMMA ∉ a -> COMMA ∉ b -> DASH ∉ a -> DASH ∉ b ->
  parse_range_header (p ++ range_prefix ++ a ++ [DASH] ++ b) n =
    if text_eqb (trim a) [] then parse_suffix (trim b) n else parse_bounds (trim a) (trim b) n.
Proof.
  intros Hp Hca Hcb Hda Hdb. unfold parse_range_header.
  set (X := a ++ [DASH] ++ b).
  assert (HX : trim X = trim_front a ++ DASH :: trim_back b) by (by apply trim_around).
  assert (Hh : trim (p ++ range_prefix ++ X) = range_prefix ++ trim_back X).
  { rewrite <-(app_nil_r (_ ++ X)), trim_pad by (done || constructor).
    unfold trim. rewrite trim_front_id by (by intros ? [= <-]).
    apply trim_back_app; [by intros ? [= <-]|done]. }
  rewrite Hh. cbn [text_eqb]. rewrite (proj2 (text_eqb_nil_false (range_prefix ++ trim_back X))) by done.
  rewrite (proj2 (starts_with_app range_prefix _)) by eauto. cbn [negb].
  assert (Hs : trim (substr_from (length range_prefix) (range_prefix ++ trim_back X)) =
               trim_front a ++ DASH :: trim_back b).
  { unfold substr_from. by rewrite drop_app_length, trim_trim_back. }
  rewrite !Hs.
  rewrite (proj2 (text_eqb_nil_false (trim_front a ++ _))) by (by destruct (trim_front a)).
  rewrite (proj2 (find_char_None COMMA _)).
  2:{ rewrite not_elem_of_app, not_elem_of_cons. split; [by intros ?%trim_front_elem_of|].
      split; [done|by intros ?%trim_back_elem_of]. }
  rewrite bool_decide_false by (by intros [? ?]).
  rewrite find_char_app by (by intros ?%trim_front_elem_of).
  unfold find_char_from, substr_from, substr. rewrite drop_0, take_app_length.
  replace (trim_front a ++ DASH :: trim_back b) with ((trim_front a ++ [DASH]) ++ trim_back b)
    by (by rewrite <-app_assoc).
  rewrite drop_app_length' by (rewrite length_app; simpl; lia).
  rewrite (proj2 (find_char_None DASH (trim_back b))) by (by intros ?%trim_back_elem_of).
  rewrite bool_decide_false by (by intros [? ?]).
  by rewrite trim_trim_front, trim_trim_back.
Qed.

(** The parser understood the header as one byte range. *)
Definition accepted (r : RangeResult) : Prop :=
  range_status r = partial \/ range_status r = unsatisfiable.

Ltac rejected := unfold accepted; simpl; intros [?|?]; discriminate.

(** A header that is neither empty nor rejected by its shape has the prefix and one dash. *)
Lemma parse_range_header_inv h n :
  accepted (parse_range_header h n) ->
  exists p a b, blanks p /\ (COMMA ∉ a) /\ (COMMA ∉ b) /\ (DASH ∉ a) /\ (DASH ∉ b) /\
    h = p ++ range_prefix ++ a ++ [DASH] ++ b.
Proof.
  unfold parse_range_header. destruct (trim_spec h) as (w & w' & Hw & Hw' & Hh & _).
  destruct (text_eqb (trim h) []) eqn:E1; [destruct (n =? 0); rejected|].
  destruct (starts_with range_prefix (trim h)) eqn:E2; [|rejected].
  apply starts_with_app in E2 as [Y HY]. rewrite HY. cbn [negb].
  assert (Hs : substr_from (length range_prefix) (range_prefix ++ Y) = Y) by apply drop_app_length.
  rewrite !Hs. destruct (trim_spec Y) as (v & v' & Hv & Hv' & HvY & _).
  destruct (text_eqb (trim Y) []); [rejected|].
  case_bool_decide as Hc; [rejected|].
  assert (HcY : COMMA ∉ trim Y) by (by apply find_char_None, eq_None_not_Some).
  destruct (find_char DASH (trim Y)) as [sep|] eqn:Ed; [|rejected].
  apply find_char_Some in Ed as (a & b & Hab & Hna & <-).
  case_bool_decide as Hd; [rejected|]. intros _.
  assert (Hnb : DASH ∉ b).
  { apply find_char_None. unfold find_char_from in Hd.
    rewrite Hab, cons_middle, app_assoc, drop_app_length' in Hd by (rewrite length_app; simpl; lia).
    apply eq_None_not_Some. intros [i Hi]. apply Hd. rewrite Hi. simpl. eauto. }
  rewrite Hab in HcY. apply not_elem_of_app in HcY as [Hca [_ Hcb]%not_elem_of_cons].
  exists w, (v ++ a), (b ++ v' ++ w').
  assert (forall c, is_blank c = false -> (c ∉ v) /\ (c ∉ v') /\ (c ∉ w')) as Hbl
    by (intros c Hbc; repeat split; by apply blanks_not_elem).
  destruct (Hbl COMMA eq_refl) as (? & ? & ?), (Hbl DASH eq_refl) as (? & ? & ?).
  repeat (split; [set_solver|]).
  rewrite Hh, HY, HvY, Hab at 1. by rewrite <-!app_assoc.
Qed.

Lemma parse_texts_accepted t u n :
  tight u -> accepted (if text_eqb t [] then parse_suffix u n else parse_bounds t u n) ->
  exists s, spec_texts s t u.
Proof.
  intros Hu. destruct (text_eqb t []) eqn:Et; simpl.
  - apply text_eqb_nil in Et as ->. unfold parse_suffix. rewrite trim_id by done.
    destruct (parse_unsigned u) as [k|] eqn:Ek; [|rejected].
    intros _. exists (Suffix k). constructor. by apply parse_unsigned_spec.
  - apply text_eqb_nil_false in Et. unfold parse_bounds.
    destruct (parse_unsigned t) as [a|] eqn:Ea; [|rejected].
    apply parse_unsigned_spec in Ea. destruct (text_eqb u []) eqn:Eu; simpl.
    + apply text_eqb_nil in Eu as ->. intros _. exists (StartingAt a). by constructor.
    + case_bool_decide as Hb; simpl; [|rejected]. destruct Hb as [b Hb].
      intros _. exists (FromTo a b). constructor; [done|]. by apply parse_unsigned_spec.
Qed.

(** A result that carries a range carries one inside a resource of [n] bytes. *)
Definition in_resource (n : Z) (r : ByteRange) : Prop :=
  0 <= range_start r <= range_end r /\ range_end r < n.

Definition wf_result (n : Z) (res : RangeResult) : Prop :=
  match range_value res with
  | Some r => is_success res = true /\ in_resource n r
  | None => is_success res = false
  end.

Lemma parse_unsigned_u64 v n : parse_unsigned v = Some n -> is_u64 n.
Proof. rewrite parse_unsigned_spec. apply numeral_nonneg. Qed.

Lemma parse_suffix_wf u n : is_u64 n -> wf_result n (parse_suffix u n).
Proof.
  intros Hn. unfold parse_suffix. destruct (parse_unsigned (trim u)) as [k|] eqn:Ek; [|done].
  apply parse_unsigned_u64 in Ek. unfold wf_result, in_resource.
  zcases; rewrite ?wrap64_id by ulia; simpl; try done; (split; [done|ulia]).
Qed.

Lemma parse_bounds_wf t u n : is_u64 n -> wf_result n (parse_bounds t u n).
Proof.
  intros Hn. unfold parse_bounds. destruct (parse_unsigned t) as [a|] eqn:Ea; [|done].
  apply parse_unsigned_u64 in Ea. unfold wf_result, in_resource.
  destruct (parse_unsigned u) as [b|] eqn:Eb; [apply parse_unsigned_u64 in Eb|];
    destruct (text_eqb u []); simpl; zcases; rewrite ?wrap64_id by ulia; try done; (split; [done|ulia]).
Qed.

Lemma range_length_in_resource n r :
  is_u64 n -> in_resource n r -> range_length r = range_end r - range_start r + 1.
Proof.
  intros Hn [? ?]. unfold range_length. rewrite (wrap64_id (_ - _)) by ulia. apply wrap64_id. ulia.
Qed.

(** A header that renders a range is answered with what the range selects. *)
Lemma parse_renders s h n : is_u64 n -> renders s h -> parse_range_header h n = resolve s n.
Proof.
  intros Hn (p0 & p1 & t & p2 & p3 & u & p4 & H0 & H1 & H2 & H3 & H4 & Hs & ->).
  replace (p0 ++ range_prefix ++ p1 ++ t ++ p2 ++ [DASH] ++ p3 ++ u ++ p4) with
    (p0 ++ range_prefix ++ (p1 ++ t ++ p2) ++ [DASH] ++ (p3 ++ u ++ p4)) by (by rewrite <-!app_assoc).
  assert (forall c, is_blank c = false -> is_digit c = false ->
            (c ∉ p1 ++ t ++ p2) /\ (c ∉ p3 ++ u ++ p4)) as Hno.
  { intros c Hc Hdc. destruct (spec_texts_no_sep s t u c Hdc Hs).
    rewrite !not_elem_of_app. repeat split; auto using blanks_not_elem. }
  destruct (Hno COMMA eq_refl eq_refl), (Hno DASH eq_refl eq_refl).
  rewrite parse_range_header_split by done.
  destruct (spec_texts_tight s t u Hs). rewrite !trim_tight by done.
  by apply parse_texts_resolve.
Qed.

(** Every answer is well formed, the one for the empty resource apart. *)
Lemma parse_range_wf h n :
  is_u64 n -> wf_result n (parse_range_header h n) \/
              (n = 0 /\ blanks h /\ parse_range_header h n = MkRangeResult full None).
Proof.
  intros Hn. unfold parse_range_header. destruct (text_eqb (trim h) []) eqn:E.
  - apply text_eqb_nil, trim_nil_blanks in E. zcases; [auto|]. left.
    rewrite wrap64_id by ulia. split; [done|]. unfold in_resource. simpl. ulia.
  - left. repeat (case_match; try done); auto using parse_suffix_wf, parse_bounds_wf.
Qed.

(** ** The theorems *)

(** C30. The parser implements the grammar: a header denotes a range (with blanks around any of its
    parts and leading zeros in its numbers) exactly when the parser answers [partial]
    or [unsatisfiable], and then the answer is what the range selects of the
    resource. *)
Theorem parse_range_header_correct h n res :
  is_u64 n ->
  (parse_range_header h n = res /\ accepted res) <-> (exists s, renders s h /\ resolve s n = res).
Proof.
  intros Hn. split.
  - intros [Hr Hst]. rewrite <-Hr in Hst.
    pose proof (parse_range_header_inv h n Hst) as (p & a & b & Hp & Hca & Hcb & Hda & Hdb & Hh).
    rewrite Hh, parse_range_header_split in Hr, Hst by done.
    destruct (trim_spec a) as (wa & wa' & Hwa & Hwa' & Ha & _).
    destruct (trim_spec b) as (wb & wb' & Hwb & Hwb' & Hb & Htb).
    destruct (parse_texts_accepted (trim a) (trim b) n Htb Hst) as [s Hs].
    exists s. rewrite <-Hr. rewrite (parse_texts_resolve s _ _ n Hn Hs). split; [|done].
    exists p, wa, (trim a), wa', wb, (trim b), wb'. repeat (split; [done|]).
    rewrite Hh, Ha, Hb at 1. by rewrite <-!app_assoc.
  - intros (s & Hs & <-). split; [by apply parse_renders|].
    unfold resolve, accepted; destruct s; zcases; auto.
Qed.

(** The header [bytes=2-5] on a resource of ten bytes. *)
Lemma parse_range_header_correct_witness :
  is_u64 10 /\
  (parse_range_header (str "bytes= 2 - 5") 10 = MkRangeResult partial (Some (MkRange 2 5)) /\
   accepted (MkRangeResult partial (Some (MkRange 2 5))) <->
   exists s, renders s (str "bytes= 2 - 5") /\ resolve s 10 = MkRangeResult partial (Some (MkRange 2 5))).
Proof.
  split; [done|].
  exact (parse_range_header_correct (str "bytes= 2 - 5") 10
           (MkRangeResult partial (Some (MkRange 2 5))) ltac:(done)).
Defined.

(** Whatever the header, a range the parser returns lies inside the resource, its
    64-bit length is the true number of its bytes, and the parser succeeds without a
    range only on the empty header of an empty resource. *)
Theorem parse_range_header_in_bounds h n :
  is_u64 n ->
  match range_value (parse_range_header h n) with
  | Some r => is_success (parse_range_header h n) = true /\ in_resource n r /\
              range_length r = range_end r - range_start r + 1
  | None => is_success (parse_range_header h n) = true -> n = 0 /\ blanks h
  end.
Proof.
  intros Hn. destruct (parse_range_wf h n Hn) as [H|(-> & H & ->)]; [|done].
  unfold wf_result in H. destruct (range_value _) as [r|]; [|by rewrite H].
  destruct H. eauto using range_length_in_resource.
Qed.
