(* ===== verification/PieceScheduler.v ===== *)
(** The piece scheduler: src/scheduler/piece_scheduler.cpp with
    include/nuvio_engine/piece_scheduler.hpp and src/scheduler/demand_window.hpp.
    [build_piece_schedule] is compared with a specification over the bytes of the
    file ([in_window]): every byte the player wants soon has a class, a piece gets
    the most urgent class of its bytes. *)
From stdpp Require Import prelude strings list sorting.
From Stdlib Require Import ZArith Lia Sorting.Sorted.
From S2P Require Import Prelude OrderedMap ByteRange.

(** ** The code *)

Inductive PriorityClass := blocking | critical | playback | metadata_tail | readahead.

#[global] Instance PriorityClass_eq_dec : EqDecision PriorityClass.
Proof. solve_decision. Defined.

(** The enumerators' values; the code compares the enumerators. *)
Definition rank (c : PriorityClass) : Z :=
  match c with blocking => 0 | critical => 1 | playback => 2 | metadata_tail => 3 | readahead => 4 end.

Record PiecePriority := MkPriority { pp_piece : Z; pp_priority : PriorityClass }.

#[global] Instance PiecePriority_eq_dec : EqDecision PiecePriority.
Proof. solve_decision. Defined.

Record ScheduleRequest := MkRequest {
  file_offset : Z;
  file_size : Z;
  piece_size : Z;
  demand : ByteRange;
  critical_bytes : Z;
  playback_bytes : Z;
  readahead_bytes : Z;
  metadata_tail_bytes : Z;
}.

Definition extend_from (start additional_bytes file_size : Z) : ByteRange :=
  let exclusive_end := Z.min (saturating_add start additional_bytes) file_size in
  MkRange start (if start <? exclusive_end then exclusive_end - 1 else start).

(** The body of the loop of [add_range], also the loop of [merge_schedule]: an
    entry is set when it is new or more urgent than the one it has. *)
Definition improve (priorities : list (Z * PriorityClass)) (index : Z) (priority : PriorityClass)
  : list (Z * PriorityClass) :=
  match omap_find index priorities with
  | None => omap_insert index priority priorities
  | Some existing =>
    if rank priority <? rank existing then omap_insert index priority priorities else priorities
  end.

(** [for (piece = first; piece <= last; ++piece)]: the last piece is at most
    [U32_MAX] when the loop starts, so the 64-bit counter does not wrap. *)
Definition add_range (priorities : list (Z * PriorityClass)) (request : ScheduleRequest)
    (range : ByteRange) (priority : PriorityClass) : result (list (Z * PriorityClass)) :=
  if (file_size request =? 0) || (file_size request <=? range_start range) then Ok priorities
  else
    let clamped_end := Z.min (range_end range) (file_size request - 1) in
    let absolute_start := saturating_add (file_offset request) (range_start range) in
    let absolute_end := saturating_add (file_offset request) clamped_end in
    let first_piece := absolute_start / piece_size request in
    let last_piece := absolute_end / piece_size request in
    if U32_MAX <? last_piece then
      throw overflow_error "piece index exceeds 32-bit libtorrent range"
    else
      Ok (fold_left (fun m piece => improve m (wrap32 piece) priority)
            (zseq first_piece (Z.to_nat (last_piece - first_piece + 1))) priorities).

Definition blocking_demand_range (response_range : ByteRange) (position file_offset piece_size : Z)
  : result ByteRange :=
  if piece_size =? 0 then throw invalid_argument "piece size must be greater than zero"
  else if (range_end response_range <? range_start response_range) ||
          (position <? range_start response_range) || (range_end response_range <? position) then
    throw invalid_argument "position must intersect the response range"
  else
    let offset_in_piece :=
      wrap64 (file_offset mod piece_size + position mod piece_size) mod piece_size in
    let remaining_in_piece := piece_size - offset_in_piece in
    Ok (MkRange position
          (Z.min (saturating_add position (remaining_in_piece - 1)) (range_end response_range))).

(** One forward window: [if (next_start < file_size && bytes > 0) { ... }]; it
    returns the map and the start of the next window. *)
Definition add_window (request : ScheduleRequest) (bytes : Z) (priority : PriorityClass)
    (state : list (Z * PriorityClass) * Z) : result (list (Z * PriorityClass) * Z) :=
  let (priorities, next_start) := state in
  if (next_start <? file_size request) && (0 <? bytes) then
    let range := extend_from next_start bytes (file_size request) in
    priorities' ← add_range priorities request range priority;
    Ok (priorities', Z.min (saturating_add (range_end range) 1) (file_size request))
  else Ok (priorities, next_start).

Definition add_tail (request : ScheduleRequest) (priorities : list (Z * PriorityClass))
  : result (list (Z * PriorityClass)) :=
  if 0 <? metadata_tail_bytes request then
    let tail_size := Z.min (metadata_tail_bytes request) (file_size request) in
    add_range priorities request
      (MkRange (file_size request - tail_size) (file_size request - 1)) metadata_tail
  else Ok priorities.

Definition to_schedule (priorities : list (Z * PriorityClass)) : list PiecePriority :=
  (fun e => MkPriority e.1 e.2) <$> priorities.

Definition priority_rank (p : PiecePriority) : Z := rank (pp_priority p).

Definition build_piece_schedule (request : ScheduleRequest) : result (list PiecePriority) :=
  if piece_size request =? 0 then throw invalid_argument "piece size must be greater than zero"
  else if file_size request =? 0 then Ok []
  else if (range_end (demand request) <? range_start (demand request)) ||
          (file_size request <=? range_start (demand request)) then
    throw invalid_argument "demand must intersect the selected file"
  else
    priorities ← add_range [] request (demand request) blocking;
    let next_start := Z.min (saturating_add (range_end (demand request)) 1) (file_size request) in
    s ← add_window request (critical_bytes request) critical (priorities, next_start);
    s ← add_window request (playback_bytes request) playback s;
    s ← add_window request (readahead_bytes request) readahead s;
    priorities ← add_tail request (fst s);
    Ok (stable_sort priority_rank (to_schedule priorities)).

(** ** The specification *)

(** [in_window req c x]: byte [x] of the file is in the window of class [c]; the
    bounds are exact integers. *)
Definition in_window (req : ScheduleRequest) (c : PriorityClass) (x : Z) : Prop :=
  let e := range_end (demand req) in
  0 <= x < file_size req /\
  match c with
  | blocking => range_start (demand req) <= x <= e
  | critical => e < x <= e + critical_bytes req
  | playback => e + critical_bytes req < x <= e + critical_bytes req + playback_bytes req
  | readahead =>
    e + critical_bytes req + playback_bytes req < x
      <= e + critical_bytes req + playback_bytes req + readahead_bytes req
  | metadata_tail => file_size req - metadata_tail_bytes req <= x
  end.

(** The piece that holds byte [x] of the file. *)
Definition piece_of (req : ScheduleRequest) (x : Z) : Z := (file_offset req + x) / piece_size req.

(** Some byte of the piece is in the window of the class. *)
Definition wanted (req : ScheduleRequest) (c : PriorityClass) (piece : Z) : Prop :=
  exists x, in_window req c x /\ piece_of req x = piece.

(** A request of 64-bit fields for a file that lies in a 64-bit torrent. *)
Definition request_ok (req : ScheduleRequest) : Prop :=
  is_u64 (file_offset req) /\ is_u64 (file_size req) /\ is_u32 (piece_size req) /\
  file_offset req + file_size req <= U64_MAX /\
  is_u64 (range_start (demand req)) /\ is_u64 (range_end (demand req)) /\
  is_u64 (critical_bytes req) /\ is_u64 (playback_bytes req) /\
  is_u64 (readahead_bytes req) /\ is_u64 (metadata_tail_bytes req).

Lemma rank_inj c d : rank c = rank d -> c = d.
Proof. by destruct c, d. Qed.

(** ** Lemmas on the map of priorities *)

Definition upgrade (old : option PriorityClass) (c : PriorityClass) : PriorityClass :=
  match old with Some d => if rank c <? rank d then c else d | None => c end.

Lemma improve_spec m i c :
  omap_ok m ->
  omap_ok (improve m i c) /\
  forall p, omap_find p (improve m i c) = if p =? i then Some (upgrade (omap_find p m) c) else omap_find p m.
Proof.
  intros Hm. unfold improve. destruct (omap_find i m) as [d|] eqn:E.
  - destruct (rank c <? rank d) eqn:Er.
    + split; [by apply omap_insert_ok|]. intros p. rewrite omap_find_insert by done.
      destruct (Z.eqb_spec p i) as [->|]; [|done]. rewrite E. simpl. by rewrite Er.
    + split; [done|]. intros p. destruct (Z.eqb_spec p i) as [->|]; [|done].
      rewrite E. simpl. by rewrite Er.
  - split; [by apply omap_insert_ok|]. intros p. rewrite omap_find_insert by done.
    destruct (Z.eqb_spec p i) as [->|]; [by rewrite E|done].
Qed.

Lemma upgrade_idemp o c : upgrade (Some (upgrade o c)) c = upgrade o c.
Proof. unfold upgrade. destruct o; zcases; try done; lia. Qed.

Lemma fold_improve_spec (f : Z -> Z) c l m :
  omap_ok m ->
  let m' := fold_left (fun m i => improve m (f i) c) l m in
  omap_ok m' /\
  forall p, (p ∈ f <$> l -> omap_find p m' = Some (upgrade (omap_find p m) c)) /\
            (p ∉ f <$> l -> omap_find p m' = omap_find p m).
Proof.
  revert m. induction l as [|i l IH]; intros m Hm; cbn [fold_left].
  - split; [done|]. set_solver.
  - destruct (improve_spec m (f i) c Hm) as [Hok Hf]. destruct (IH _ Hok) as [Hok' Hf'].
    split; [done|]. intros p. destruct (Hf' p) as [Hin Hout]. rewrite Hf in Hin, Hout.
    rewrite fmap_cons, elem_of_cons.
    destruct (decide (p ∈ f <$> l)) as [H|H]; destruct (Z.eqb_spec p (f i)).
    + split; [|tauto]. intros _. rewrite Hin by done. by rewrite upgrade_idemp.
    + split; [intros _; by apply Hin|tauto].
    + split; [intros _; by apply Hout|tauto].
    + split; [tauto|intros _; by apply Hout].
Qed.

(** ** Windows and the pieces they cover *)

(** Some byte of the range, clipped to the file, is in the piece. *)
Definition cover (req : ScheduleRequest) (r : ByteRange) (p : Z) : Prop :=
  exists x, range_start r <= x <= range_end r /\ x < file_size req /\ piece_of req x = p.

(** The most urgent class of a predicate. *)
Definition most_urgent (P : PriorityClass -> Prop) (o : option PriorityClass) : Prop :=
  match o with
  | Some c => P c /\ forall d, P d -> rank c <= rank d
  | None => forall c, ~ P c
  end.

(** [P p c]: so far a window of class [c] covers piece [p].  The map holds, for
    every such piece, the most urgent of its classes. *)
Definition sched_inv (P : Z -> PriorityClass -> Prop) (m : list (Z * PriorityClass)) : Prop :=
  omap_ok m /\ (forall p c, P p c -> p <= U32_MAX) /\ forall p, most_urgent (P p) (omap_find p m).

Lemma most_urgent_ext P Q o : (forall c, P c <-> Q c) -> most_urgent P o -> most_urgent Q o.
Proof. unfold most_urgent. intros H. destruct o; naive_solver. Qed.

Lemma most_urgent_upgrade P o c :
  most_urgent P o -> most_urgent (fun d => P d \/ d = c) (Some (upgrade o c)).
Proof.
  unfold most_urgent, upgrade. destruct o as [e|]; [|intros HP; split; naive_solver lia].
  intros [He Hmin]. destruct (Z.ltb_spec (rank c) (rank e)).
  - split; [by right|]. intros d [Hd%Hmin| ->]; lia.
  - split; [by left|]. intros d [Hd%Hmin| ->]; lia.
Qed.

(** A piece index between those of two bytes holds a byte between them. *)
Lemma piece_of_between req a b p :
  0 < piece_size req -> a <= b ->
  piece_of req a <= p <= piece_of req b <-> exists x, a <= x <= b /\ piece_of req x = p.
Proof.
  intros Hps Hab. unfold piece_of. split.
  - intros [H1 H2].
    exists (Z.max a (p * piece_size req - file_offset req)).
    pose proof (div_block_bounds (piece_size req) (file_offset req + a) Hps).
    pose proof (div_block_bounds (piece_size req) (file_offset req + b) Hps).
    split; [nia|].
    destruct (Z.max_spec a (p * piece_size req - file_offset req)) as [[? ->]|[? ->]].
    + replace (file_offset req + (p * piece_size req - file_offset req))
        with (p * piece_size req) by lia.
      by rewrite Z.div_mul by lia.
    + assert (piece_of req a = p); [|done]. unfold piece_of. nia.
  - intros (x & Hx & <-). split; apply Z.div_le_mono; lia.
Qed.

Section request.
Context (req : ScheduleRequest) (Hreq : request_ok req) (Hps : 0 < piece_size req).

Lemma piece_of_nonneg x : 0 <= x -> 0 <= piece_of req x.
Proof. intros Hx. unfold piece_of. destruct Hreq. apply Z.div_pos; ulia. Qed.

Lemma absolute_no_saturation x :
  0 <= x < file_size req -> saturating_add (file_offset req) x = file_offset req + x.
Proof. intros Hx. destruct Hreq as (? & ? & ? & ? & _). rewrite saturating_add_min; ulia. Qed.

Lemma cover_interval r p :
  0 <= range_start r <= range_end r -> range_start r < file_size req ->
  cover req r p <-> piece_of req (range_start r) <= p
                    <= piece_of req (Z.min (range_end r) (file_size req - 1)).
Proof.
  intros Hr Hs. rewrite piece_of_between by lia. unfold cover.
  split; intros (x & Hx); exists x; naive_solver lia.
Qed.

Lemma cover_em r p : 0 <= range_start r <= range_end r -> cover req r p \/ ~ cover req r p.
Proof.
  intros Hr. destruct (decide (range_start r < file_size req)) as [Hs|Hs].
  - rewrite cover_interval by done. lia.
  - right. intros (x & ? & ? & _). lia.
Qed.

Definition too_large : exn := Exn overflow_error "piece index exceeds 32-bit libtorrent range".

(** [add_range] improves the pieces of the range, or throws when the range
    covers a piece that has no 32-bit index. *)
Lemma add_range_find m r c :
  0 <= range_start r <= range_end r -> omap_ok m ->
  (exists m', add_range m req r c = Ok m' /\ omap_ok m' /\
     forall p, (cover req r p -> p <= U32_MAX /\ omap_find p m' = Some (upgrade (omap_find p m) c)) /\
               (~ cover req r p -> omap_find p m' = omap_find p m)) \/
  (add_range m req r c = Throw too_large /\ exists p, U32_MAX < p /\ cover req r p).
Proof.
  intros Hr Hok. unfold add_range. destruct (_ || _) eqn:E.
  { left. exists m. split; [done|]. split; [done|]. intros p. split; [|done].
    intros (x & ? & ? & _). exfalso. revert E. zcases; lia. }
  apply orb_false_iff in E as [E1%Z.eqb_neq E2%Z.leb_gt].
  rewrite !absolute_no_saturation by lia.
  pose proof (cover_interval r) as Hcov. unfold piece_of at 1 2 in Hcov.
  set (a := (file_offset req + range_start r) / _) in *.
  set (b := (file_offset req + Z.min _ _) / _) in *.
  assert (0 <= a) by (apply (piece_of_nonneg (range_start r)); lia).
  assert (a <= b) by (apply Z.div_le_mono; lia).
  destruct (Z.ltb_spec U32_MAX b).
  { right. split; [done|]. exists b. rewrite Hcov by done. lia. }
  left. eexists. split; [done|].
  destruct (fold_improve_spec wrap32 c (zseq a (Z.to_nat (b - a + 1))) m Hok) as [Hok' Hf].
  split; [done|]. intros p. specialize (Hf p).
  assert (Hin : p ∈ wrap32 <$> zseq a (Z.to_nat (b - a + 1)) <-> cover req r p).
  { rewrite Hcov, list_elem_of_fmap by done. setoid_rewrite elem_of_zseq. split.
    - intros (q & -> & Hq). rewrite wrap32_id by ulia. lia.
    - intros Hp. exists p. split; [symmetry; apply wrap32_id; ulia|lia]. }
  rewrite Hin in Hf. destruct Hf as [Hf1 Hf2]. split; [|done].
  intros Hc. split; [|auto]. apply Hcov in Hc; [lia|done..].
Qed.

Lemma add_range_inv P m r c :
  0 <= range_start r <= range_end r -> sched_inv P m ->
  (exists m', add_range m req r c = Ok m' /\ sched_inv (fun p d => P p d \/ d = c /\ cover req r p) m') \/
  (add_range m req r c = Throw too_large /\ exists p, U32_MAX < p /\ cover req r p).
Proof.
  intros Hr (Hok & Hb & Hf).
  destruct (add_range_find m r c Hr Hok) as [(m' & Hm' & Hok' & Hf')|]; [|by right].
  left. exists m'. split; [done|]. split; [done|]. split.
  { intros p d [?|[_ ?]]; [by eapply Hb|by apply Hf']. }
  intros p. destruct (Hf' p) as [Hin Hout]. destruct (cover_em r p Hr) as [Hc|Hc].
  - destruct (Hin Hc) as [_ ->]. eapply most_urgent_ext, most_urgent_upgrade, Hf. naive_solver.
  - rewrite (Hout Hc). eapply most_urgent_ext, Hf. naive_solver.
Qed.

(** The classes [cs] were scheduled. *)
Definition stage (cs : list PriorityClass) (p : Z) (c : PriorityClass) : Prop :=
  c ∈ cs /\ wanted req c p.

Lemma sched_inv_ext P Q m : (forall p c, P p c <-> Q p c) -> sched_inv P m -> sched_inv Q m.
Proof.
  intros H (Hok & Hb & Hf). split; [done|]. split; [intros p c ?%H; by eapply Hb|].
  intros p. eapply most_urgent_ext, Hf. auto.
Qed.

Lemma stage_nil : sched_inv (stage []) [].
Proof. unfold stage. split; [apply omap_ok_nil|]. split; [set_solver|]. intros p. simpl. set_solver. Qed.

(** A window whose range covers exactly the pieces the specification wants. *)
Lemma stage_add cs m r c :
  0 <= range_start r <= range_end r -> (forall p, cover req r p <-> wanted req c p) ->
  sched_inv (stage cs) m ->
  (exists m', add_range m req r c = Ok m' /\ sched_inv (stage (c :: cs)) m') \/
  (add_range m req r c = Throw too_large /\ exists p, U32_MAX < p /\ wanted req c p).
Proof.
  intros Hr Hcw Hs. destruct (add_range_inv _ m r c Hr Hs) as [(m' & -> & Hm')|(-> & p & Hp & Hc)].
  - left. exists m'. split; [done|]. eapply sched_inv_ext, Hm'.
    intros p d. unfold stage. rewrite elem_of_cons, Hcw. naive_solver.
  - right. split; [done|]. exists p. by rewrite <-Hcw.
Qed.

Lemma stage_skip cs m c :
  (forall p, ~ wanted req c p) -> sched_inv (stage cs) m -> sched_inv (stage (c :: cs)) m.
Proof.
  intros Hc. apply sched_inv_ext. intros p d. unfold stage. rewrite elem_of_cons. naive_solver.
Qed.

(** A forward window: the bytes after [lo], at most [n] of them. *)
Lemma add_window_stage cs m c lo n :
  0 <= lo -> is_u64 n ->
  (forall x, in_window req c x <-> 0 <= x < file_size req /\ lo < x <= lo + n) ->
  sched_inv (stage cs) m ->
  (exists m', add_window req n c (m, Z.min (lo + 1) (file_size req)) =
                Ok (m', Z.min (lo + n + 1) (file_size req)) /\ sched_inv (stage (c :: cs)) m') \/
  (add_window req n c (m, Z.min (lo + 1) (file_size req)) = Throw too_large /\
   exists p, U32_MAX < p /\ wanted req c p).
Proof.
  intros Hlo Hn Hw Hs. unfold add_window. destruct Hreq as (_ & Hfs & _).
  destruct (_ && _) eqn:E.
  - apply andb_prop in E as [E1%Z.ltb_lt E2%Z.ltb_lt].
    assert (Hx : extend_from (Z.min (lo + 1) (file_size req)) n (file_size req) =
                 MkRange (lo + 1) (Z.min (lo + n) (file_size req - 1))).
    { unfold extend_from. rewrite saturating_add_min by ulia. zcases; [f_equal; ulia|ulia]. }
    rewrite Hx. destruct (stage_add cs m (MkRange (lo + 1) (Z.min (lo + n) (file_size req - 1))) c)
      as [(m' & -> & Hm')|[-> ?]]; simpl; [lia| |done|left|by right].
    + intros p. unfold cover, wanted. simpl. setoid_rewrite Hw. split; intros (x & ?); exists x; naive_solver lia.
    + exists m'. split; [|done]. do 2 f_equal. rewrite saturating_add_min by ulia. ulia.
  - left. exists m. split; [do 2 f_equal; revert E; zcases; ulia|].
    apply stage_skip; [|done]. intros p (x & [? ?]%Hw & _). revert E. zcases; ulia.
Qed.

Context (Hsize : 0 < file_size req)
        (Hdem : range_start (demand req) <= range_end (demand req))
        (Hstart : range_start (demand req) < file_size req).

Lemma add_tail_stage cs m :
  sched_inv (stage cs) m ->
  (exists m', add_tail req m = Ok m' /\ sched_inv (stage (metadata_tail :: cs)) m') \/
  (add_tail req m = Throw too_large /\ exists p, U32_MAX < p /\ wanted req metadata_tail p).
Proof.
  intros Hs. unfold add_tail. destruct Hreq as (_ & _ & _ & _ & _ & _ & _ & _ & _ & Htail).
  destruct (Z.ltb_spec 0 (metadata_tail_bytes req)).
  - apply stage_add; simpl; [lia| |done].
    intros p. unfold cover, wanted, in_window. simpl.
    split; intros (x & ?); exists x; naive_solver lia.
  - left. exists m. split; [done|]. apply stage_skip; [|done].
    intros p (x & (? & ?) & _). ulia.
Qed.

Definition all_classes : list PriorityClass :=
  [metadata_tail; readahead; playback; critical; blocking].

(** The whole construction: either every wanted piece has a 32-bit index and the
    map holds the most urgent class of each, or the code throws. *)
Lemma build_stages :
  (exists m, build_piece_schedule req = Ok (stable_sort priority_rank (to_schedule m)) /\
     sched_inv (stage all_classes) m) \/
  (build_piece_schedule req = Throw too_large /\ exists c p, U32_MAX < p /\ wanted req c p).
Proof.
  pose proof Hreq as (_ & Hfs & _ & _ & Hds & Hde & Hc & Hp & Hra & _).
  unfold build_piece_schedule. rewrite (proj2 (Z.eqb_neq _ 0)) by lia.
  rewrite (proj2 (Z.eqb_neq (file_size req) 0)) by lia.
  rewrite (proj2 (Z.ltb_ge _ _) Hdem), (proj2 (Z.leb_gt _ _) Hstart). cbn [orb].
  destruct (stage_add [] [] (demand req) blocking) as [(m0 & -> & H0)|[-> ?]];
    [ulia|..|apply stage_nil| |right; simpl; naive_solver].
  { intros p. unfold cover, wanted, in_window. split; intros (x & ?); exists x; naive_solver ulia. }
  cbn [mbind result_bind]. set (e := range_end (demand req)) in *.
  replace (Z.min (saturating_add e 1) (file_size req)) with (Z.min (e + 1) (file_size req))
    by (rewrite saturating_add_min by ulia; ulia).
  destruct (add_window_stage [blocking] m0 critical e (critical_bytes req)) as [(m1 & -> & H1)|[-> ?]];
    [ulia|done|done|done| |right; simpl; naive_solver]. cbn [mbind result_bind].
  destruct (add_window_stage [critical; blocking] m1 playback (e + critical_bytes req) (playback_bytes req))
    as [(m2 & -> & H2)|[-> ?]]; [ulia|done|done|done| |right; simpl; naive_solver].
  cbn [mbind result_bind].
  destruct (add_window_stage [playback; critical; blocking] m2 readahead
              (e + critical_bytes req + playback_bytes req) (readahead_bytes req))
    as [(m3 & -> & H3)|[-> ?]]; [ulia|done|done|done| |right; simpl; naive_solver].
  cbn [mbind result_bind fst].
  destruct (add_tail_stage [readahead; playback; critical; blocking] m3 H3) as [(m4 & -> & H4)|[-> ?]];
    [|right; simpl; naive_solver].
  left. eauto.
Qed.
End request.

(** ** The schedule as a list *)

Lemma elem_of_to_schedule m p c : MkPriority p c ∈ to_schedule m <-> (p, c) ∈ m.
Proof.
  unfold to_schedule. rewrite list_elem_of_fmap. split.
  - intros ([p' c'] & [= -> ->] & H). done.
  - intros H. by exists (p, c).
Qed.

(** Order of the schedule: urgent classes first, then by piece. *)
Definition schedule_order : relation PiecePriority :=
  lex priority_rank (fun a b => pp_piece a < pp_piece b).

Lemma to_schedule_sorted m :
  omap_ok m -> StronglySorted schedule_order (stable_sort priority_rank (to_schedule m)).
Proof.
  intros Hm. apply stable_sort_sorted. unfold to_schedule.
  induction m as [|[k v] m IH]; simpl; [constructor|].
  apply omap_ok_cons in Hm as [Hm Hlt]. constructor; [by apply IH|].
  apply Forall_forall. intros x ([k' v'] & -> & Hin)%list_elem_of_fmap. simpl. by eapply Hlt.
Qed.

Lemma elem_of_schedule m p c :
  omap_ok m -> MkPriority p c ∈ stable_sort priority_rank (to_schedule m) <-> omap_find p m = Some c.
Proof. intros Hm. by rewrite stable_sort_perm, elem_of_to_schedule, omap_find_elem. Qed.

Lemma stage_all req p c : stage req all_classes p c <-> wanted req c p.
Proof. unfold stage, all_classes. destruct c; set_solver. Qed.

(** A demand inside a file that is not empty, whose pieces have 32-bit indices. *)
Definition request_valid (req : ScheduleRequest) : Prop :=
  request_ok req /\ 0 < piece_size req /\ 0 < file_size req /\
  range_start (demand req) <= range_end (demand req) /\ range_start (demand req) < file_size req /\
  piece_of req (file_size req - 1) <= U32_MAX.

Lemma wanted_fits req c p : request_valid req -> wanted req c p -> 0 <= p <= U32_MAX.
Proof.
  intros (Hok & Hps & Hsz & _ & _ & Hfit) (x & [Hx _] & <-).
  split; [apply piece_of_nonneg; done || lia|]. etrans; [|exact Hfit]. apply Z.div_le_mono; lia.
Qed.

(** For a valid request the construction returns the list of a map with the most
    urgent class of every wanted piece. *)
Lemma build_valid req :
  request_valid req ->
  exists m, build_piece_schedule req = Ok (stable_sort priority_rank (to_schedule m)) /\
    sched_inv (fun p c => wanted req c p) m.
Proof.
  intros Hv. pose proof Hv as (Hok & Hps & Hsz & Hd & Hs & _).
  destruct (build_stages req Hok Hps Hsz Hd Hs) as [(m & -> & Hm)|(_ & c & p & Hp & Hw)].
  - exists m. split; [done|]. eapply sched_inv_ext, Hm. apply stage_all.
  - apply wanted_fits in Hw; [lia|done].
Qed.

Lemma sched_inv_schedule P m p c :
  sched_inv P m ->
  MkPriority p c ∈ stable_sort priority_rank (to_schedule m) <-> most_urgent (P p) (Some c).
Proof.
  intros (Hok & _ & Hf). rewrite elem_of_schedule by done. specialize (Hf p). split.
  - intros Hc. by rewrite Hc in Hf.
  - intros [Hc Hmin]. unfold most_urgent in Hf. destruct (omap_find p m) as [e|]; [|by destruct (Hf c)].
    destruct Hf as [He Hmin']. f_equal. apply rank_inj. apply Hmin in He. apply Hmin' in Hc. lia.
Qed.

Lemma schedule_pieces_NoDup m :
  omap_ok m -> NoDup (pp_piece <$> stable_sort priority_rank (to_schedule m)).
Proof.
  intros Hm. rewrite stable_sort_perm. unfold to_schedule. rewrite <-list_fmap_compose.
  by apply (omap_NoDup m).
Qed.

(** ** The theorems *)

(** C9. For a demand inside the file, the schedule lists the pieces by class, most
    urgent first, and by index in a class; a piece is listed exactly when one of its
    bytes is in a window, once, with the most urgent class of its bytes. *)
Theorem build_piece_schedule_correct req :
  request_ok req -> 0 < piece_size req -> 0 < file_size req ->
  range_start (demand req) <= range_end (demand req) -> range_start (demand req) < file_size req ->
  (forall c p, wanted req c p -> p <= U32_MAX) ->
  exists schedule, build_piece_schedule req = Ok schedule /\
    StronglySorted schedule_order schedule /\ NoDup (pp_piece <$> schedule) /\
    forall p c, MkPriority p c ∈ schedule <-> most_urgent (fun d => wanted req d p) (Some c).
Proof.
  intros Hok Hps Hsz Hd Hs Hfit.
  destruct (build_stages req Hok Hps Hsz Hd Hs) as [(m & -> & Hm)|(_ & c & p & Hp & Hw)];
    [|apply Hfit in Hw; lia].
  apply (sched_inv_ext _ (fun p c => wanted req c p)) in Hm; [|apply stage_all].
  eexists. split; [done|]. split; [by apply to_schedule_sorted, Hm|].
  split; [by apply schedule_pieces_NoDup, Hm|]. intros p c. by apply (sched_inv_schedule (fun p c => wanted req c p)).
Qed.

(** A file of 100 bytes at offset 5 in pieces of 10 bytes. *)
Definition sample_request : ScheduleRequest := MkRequest 5 100 10 (MkRange 0 9) 10 20 30 10.

Lemma build_piece_schedule_correct_witness :
  request_ok sample_request /\
  exists schedule, build_piece_schedule sample_request = Ok schedule /\
    StronglySorted schedule_order schedule /\ NoDup (pp_piece <$> schedule) /\
    forall p c, MkPriority p c ∈ schedule <-> most_urgent (fun d => wanted sample_request d p) (Some c).
Proof.
  assert (H : request_ok sample_request) by (unfold request_ok, is_u64, is_u32; simpl; lia).
  split; [done|].
  apply (build_piece_schedule_correct sample_request H); simpl; try lia.
  intros c p (x & [Hx _] & <-). unfold piece_of. simpl in *.
  apply Z.div_le_upper_bound; lia.
Defined.

(** The schedule construction throws exactly on a zero piece size, on a demand
    outside a file that is not empty, and when a wanted piece has no 32-bit index;
    in every other case it returns. *)
Theorem build_piece_schedule_throws req e :
  request_ok req ->
  build_piece_schedule req = Throw e <->
  (piece_size req = 0 /\ e = Exn invalid_argument "piece size must be greater than zero") \/
  (0 < piece_size req /\ 0 < file_size req /\
   ((range_end (demand req) < range_start (demand req) \/ file_size req <= range_start (demand req)) /\
    e = Exn invalid_argument "demand must intersect the selected file" \/
    range_start (demand req) <= range_end (demand req) /\ range_start (demand req) < file_size req /\
    (exists c p, wanted req c p /\ U32_MAX < p) /\ e = too_large)).
Proof.
  intros Hok. pose proof Hok as (_ & Hfs & Hps & _).
  destruct (decide (piece_size req = 0)) as [E1|E1].
  { unfold build_piece_schedule. rewrite E1. simpl. unfold throw. naive_solver lia. }
  destruct (decide (file_size req = 0)) as [E2|E2].
  { unfold build_piece_schedule. rewrite (proj2 (Z.eqb_neq _ 0)), E2 by done. simpl. naive_solver lia. }
  destruct (decide (range_end (demand req) < range_start (demand req) \/
                    file_size req <= range_start (demand req))) as [E3|E3].
  { unfold build_piece_schedule. rewrite !(proj2 (Z.eqb_neq _ 0)) by done.
    destruct (_ || _) eqn:E; [unfold throw; naive_solver ulia|]. exfalso. revert E. zcases; lia. }
  destruct (build_stages req Hok ltac:(ulia) ltac:(ulia) ltac:(lia) ltac:(lia))
    as [(m & -> & _ & Hb & _)|(-> & c & p & Hp & Hw)].
  - split; [done|]. intros [?|(_ & _ & [?|(_ & _ & (c & p & Hw & Hp) & _)])]; [naive_solver..|].
    apply stage_all, Hb in Hw. lia.
  - split; [intros [= <-]|naive_solver ulia]. right. split; [ulia|]. split; [ulia|]. right. naive_solver lia.
Qed.

(** The demand a reader blocks on is the rest of the piece under its position,
    cut at the end of the response: its bytes are exactly the bytes from the
    position to the response's end that share the position's piece. *)
Theorem blocking_demand_range_correct r pos off ps :
  is_u64 off -> is_u32 ps -> 0 < ps -> is_u64 (range_start r) -> is_u64 (range_end r) ->
  range_start r <= pos <= range_end r -> off + range_end r <= U64_MAX ->
  exists d, blocking_demand_range r pos off ps = Ok d /\ range_start d = pos /\
    forall x, range_start d <= x <= range_end d <->
              pos <= x <= range_end r /\ (off + x) / ps = (off + pos) / ps.
Proof.
  intros Hoff Hps Hpos Hrs Hre Hp Hsum. unfold blocking_demand_range.
  rewrite (proj2 (Z.eqb_neq ps 0)) by lia. destruct (_ || _) eqn:E; [exfalso; revert E; zcases; lia|].
  eexists. split; [done|]. split; [done|]. simpl. clear E.
  pose proof (Z.mod_pos_bound off ps Hpos). pose proof (Z.mod_pos_bound pos ps Hpos).
  rewrite (wrap64_id (_ + _)) by ulia. rewrite <-Z.add_mod by lia.
  pose proof (div_block_bounds ps (off + pos) Hpos).
  assert (Hm : (off + pos) mod ps = off + pos - (off + pos) / ps * ps) by (rewrite Z.mod_eq; lia).
  rewrite Hm, saturating_add_min by ulia.
  intros x. split.
  - intros Hx. split; [ulia|]. apply div_same_block; ulia.
  - intros [Hx Hq]. pose proof (div_block_bounds ps (off + x) Hpos) as Hb. rewrite Hq in Hb. ulia.
Qed.
