(* ===== verification/DemandPlan.v ===== *)
(** The stream demand plan: src/scheduler/stream_demand_plan.cpp and .hpp.  The plan
    of a torrent is made of the demands of its readers; the newest demand is focused
    and gets the read-ahead windows, every other reader keeps its blocking pieces. *)
From stdpp Require Import prelude strings list sorting gmap.
From Stdlib Require Import ZArith Lia Sorting.Sorted.
From S2P Require Import Prelude OrderedMap ByteRange PieceScheduler.

(** ** The code *)

Inductive DemandKind := reader | anchor | prefetch.

#[global] Instance DemandKind_eq_dec : EqDecision DemandKind.
Proof. solve_decision. Defined.

Record StreamDemand := MkDemand {
  sd_id : Z;
  sd_file_offset : Z;
  sd_file_size : Z;
  sd_piece_size : Z;
  sd_range : ByteRange;
  sd_kind : DemandKind;
  sd_cold : bool;
}.

Record StreamWindow := MkWindow {
  w_critical_bytes : Z;
  w_critical_piece_limit : Z;
  w_playback_bytes : Z;
  w_readahead_bytes : Z;
  w_tail_bytes : Z;
}.

Record StreamDemandPlan := MkPlan {
  focused_demand_id : Z;
  plan_pieces : list PiecePriority;
  plan_deadline_order : list Z;
  plan_cold : bool;
}.

Definition merge_schedule (combined : list (Z * PriorityClass)) (schedule : list PiecePriority)
  : list (Z * PriorityClass) :=
  fold_left (fun m p => improve m (pp_piece p) (pp_priority p)) schedule combined.

(** [std::set<std::uint32_t> ordered] and [result.deadline_order]:
    [if (ordered.insert(piece).second) deadline_order.push_back(piece)]. *)
Abbreviation deadlines := (gset Z * list Z)%type.

Definition push_once (st : deadlines) (piece : Z) : deadlines :=
  if decide (piece ∈ st.1) then st else ({[piece]} ∪ st.1, st.2 ++ [piece]).

(** The loops that push the pieces of one class. *)
Definition push_class (c : PriorityClass) (st : deadlines) (schedule : list PiecePriority) : deadlines :=
  fold_left (fun st p => if decide (pp_priority p = c) then push_once st (pp_piece p) else st) schedule st.

Definition set_class (f : PriorityClass -> PriorityClass) (p : PiecePriority) : PiecePriority :=
  MkPriority (pp_piece p) (f (pp_priority p)).

(** [if (priority == blocking) priority = critical]. *)
Definition demote (c : PriorityClass) : PriorityClass :=
  match c with blocking => critical | c => c end.

Definition focus_is_cold (focused : StreamDemand) : bool :=
  bool_decide (sd_kind focused = prefetch) || sd_cold focused.

Definition focus_critical_bytes (focused : StreamDemand) (window : StreamWindow) : Z :=
  if focus_is_cold focused then 0
  else Z.min (w_critical_bytes window) (wrap64 (w_critical_piece_limit window * sd_piece_size focused)).

Definition focused_request (focused : StreamDemand) (window : StreamWindow) : ScheduleRequest :=
  MkRequest (sd_file_offset focused) (sd_file_size focused) (sd_piece_size focused) (sd_range focused)
    (focus_critical_bytes focused window) (w_playback_bytes window) (w_readahead_bytes window)
    (w_tail_bytes window).

(** A request for the bytes of a range alone. *)
Definition exact_request (d : StreamDemand) (range : ByteRange) : ScheduleRequest :=
  MkRequest (sd_file_offset d) (sd_file_size d) (sd_piece_size d) range 0 0 0 0.

(** The bytes of the head of the file that a reader of the file's index gets too:
    zero when the focused demand is not near the end of the file. *)
Definition focus_head_bytes (focused : StreamDemand) (window : StreamWindow) : Z :=
  let index_bytes :=
    Z.min (Z.max (w_tail_bytes window) (sd_file_size focused / 64)) (sd_file_size focused) in
  if (0 <? w_tail_bytes window) &&
     (sd_file_size focused - index_bytes <=? range_start (sd_range focused))
  then Z.min (wrap64 (focus_critical_bytes focused window + w_playback_bytes window))
             (sd_file_size focused)
  else 0.

Definition add_head (focused : StreamDemand) (window : StreamWindow)
    (combined : list (Z * PriorityClass)) : result (list (Z * PriorityClass)) :=
  let head_bytes := focus_head_bytes focused window in
  if 0 <? head_bytes then
    head ← build_piece_schedule (exact_request focused (MkRange 0 (head_bytes - 1)));
    Ok (merge_schedule combined (set_class (fun _ => playback) <$> head))
  else Ok combined.

(** One turn of the loop over the other demands, newest first. *)
Definition add_other (st : list (Z * PriorityClass) * deadlines) (d : StreamDemand)
  : result (list (Z * PriorityClass) * deadlines) :=
  if decide (sd_kind d = reader) then
    schedule ← build_piece_schedule (exact_request d (sd_range d));
    Ok (merge_schedule st.1 schedule, push_class blocking st.2 schedule)
  else Ok st.

(** [std::ranges::sort(demands, by id)]. *)
Definition sort_demands (demands : list StreamDemand) : list StreamDemand := stable_sort sd_id demands.

Definition build_stream_demand_plan (demands : list StreamDemand) (window : StreamWindow)
  : result StreamDemandPlan :=
  match reverse (sort_demands demands) with
  | [] => Ok (MkPlan 0 [] [] false)
  | focused :: others =>
    focused_schedule ← build_piece_schedule (focused_request focused window);
    let focused_schedule :=
      if decide (sd_kind focused = reader) then focused_schedule
      else set_class demote <$> focused_schedule in
    combined ← add_head focused window (merge_schedule [] focused_schedule);
    st ← fold_result add_other (combined, push_class blocking (∅, []) focused_schedule) others;
    let combined := st.1 in
    let deadline_order := (push_class critical st.2 (to_schedule combined)).2 in
    Ok (MkPlan (sd_id focused) (stable_sort priority_rank (to_schedule combined))
          deadline_order (focus_is_cold focused))
  end.

(** The plan of the test "newest stream demand owns the critical window": pieces of
    one mebibyte, demands 10, 20 and 30 at pieces 0, 63 and 32. *)
Example three_range_plan :
  let mib := 1048576 in
  let d id piece := MkDemand id 0 (64 * mib) mib (MkRange (piece * mib) ((piece + 1) * mib - 1)) reader false in
  (fun p => (focused_demand_id p, plan_deadline_order p, length (plan_pieces p))) <$>
    build_stream_demand_plan [d 10 0; d 20 63; d 30 32] (MkWindow (2 * mib) 16 (10 * mib) 0 0)
  = Ok (30, [32; 63; 0; 33; 34], 15%nat).
Proof. vm_compute. reflexivity. Qed.

(** ** Merging schedules *)

(** A schedule that lists the entries of a map, in any order. *)
Definition lists_map (s : list PiecePriority) (m : list (Z * PriorityClass)) : Prop :=
  omap_ok m /\ s ≡ₚ to_schedule m.

Lemma merge_schedule_elem s m :
  NoDup (pp_piece <$> s) -> omap_ok m ->
  omap_ok (merge_schedule m s) /\
  forall p, (forall c, MkPriority p c ∈ s ->
               omap_find p (merge_schedule m s) = Some (upgrade (omap_find p m) c)) /\
            (p ∉ pp_piece <$> s -> omap_find p (merge_schedule m s) = omap_find p m).
Proof.
  unfold merge_schedule. revert m.
  induction s as [|[q d] s IH]; intros m Hnd Hm; cbn [fold_left pp_piece pp_priority]; [set_solver|].
  rewrite fmap_cons in Hnd. apply NoDup_cons in Hnd as [Hq Hnd].
  destruct (improve_spec m q d Hm) as [Hok Hf]. destruct (IH _ Hnd Hok) as [Hok' Hf'].
  split; [done|]. intros p. destruct (Hf' p) as [H1 H2]. rewrite Hf in H1, H2. split.
  - intros c [[= -> ->]|Hin]%elem_of_cons.
    + rewrite H2, Z.eqb_refl by done. done.
    + assert (p <> q).
      { intros ->. destruct Hq. apply list_elem_of_fmap. by exists (MkPriority q c). }
      rewrite (H1 c Hin). by rewrite (proj2 (Z.eqb_neq p q)).
  - rewrite fmap_cons. intros [Hne Hni]%not_elem_of_cons. rewrite H2 by done.
    by rewrite (proj2 (Z.eqb_neq p q)).
Qed.

Lemma merge_schedule_find s m0 m :
  lists_map s m0 -> omap_ok m ->
  omap_ok (merge_schedule m s) /\
  forall p, omap_find p (merge_schedule m s) =
    match omap_find p m0 with Some c => Some (upgrade (omap_find p m) c) | None => omap_find p m end.
Proof.
  intros [Hm0 Hperm] Hm.
  assert (Hfind : forall p c, omap_find p m0 = Some c <-> MkPriority p c ∈ s).
  { intros p c. by rewrite omap_find_elem, Hperm, elem_of_to_schedule. }
  assert (Hnd : NoDup (pp_piece <$> s)).
  { rewrite Hperm. unfold to_schedule. rewrite <-list_fmap_compose. by apply (omap_NoDup m0). }
  destruct (merge_schedule_elem s m Hnd Hm) as [Hok Hf]. split; [done|].
  intros p. destruct (Hf p) as [H1 H2].
  destruct (omap_find p m0) as [c|] eqn:E; [apply H1; by apply Hfind|]. apply H2.
  intros ([q d] & -> & Hin)%list_elem_of_fmap. apply Hfind in Hin. simpl in E. congruence.
Qed.

Lemma most_urgent_merge P Q o o0 :
  most_urgent P o -> most_urgent Q o0 ->
  most_urgent (fun c => P c \/ Q c) (match o0 with Some c => Some (upgrade o c) | None => o end).
Proof.
  unfold most_urgent, upgrade. destruct o0 as [d|], o as [e|]; try naive_solver.
  intros [He Hm] [Hd Hm']. destruct (Z.ltb_spec (rank d) (rank e)); (split; [tauto|]);
    intros c [Hc|Hc]; [apply Hm in Hc|apply Hm' in Hc|apply Hm in Hc|apply Hm' in Hc]; lia.
Qed.

Lemma merge_schedule_inv P Q s m0 m :
  lists_map s m0 -> sched_inv Q m0 -> sched_inv P m ->
  sched_inv (fun p c => P p c \/ Q p c) (merge_schedule m s).
Proof.
  intros Hl (_ & Hb0 & Hf0) (Hok & Hb & Hf).
  destruct (merge_schedule_find s m0 m Hl Hok) as [Hok' Hf']. split; [done|]. split.
  - intros p c [?|?]; [by eapply Hb|by eapply Hb0].
  - intros p. rewrite Hf'. by apply most_urgent_merge.
Qed.

(** Changing the classes of a schedule with a function that keeps their order. *)
Lemma lists_map_set_class f s m :
  lists_map s m -> lists_map (set_class f <$> s) (prod_map id f <$> m).
Proof.
  intros [Hm Hp]. split.
  - by apply omap_map_ok.
  - rewrite Hp. unfold to_schedule. rewrite <-!list_fmap_compose. done.
Qed.

Lemma set_class_inv f P m :
  (forall c d, rank c <= rank d -> rank (f c) <= rank (f d)) ->
  sched_inv P m -> sched_inv (fun p c => exists d, P p d /\ c = f d) (prod_map id f <$> m).
Proof.
  intros Hmono (Hok & Hb & Hf). split; [|split].
  - by apply omap_map_ok.
  - naive_solver.
  - intros p. rewrite omap_find_map. specialize (Hf p). unfold most_urgent in *.
    destruct (omap_find p m) as [c|]; simpl; [|naive_solver].
    destruct Hf as [Hc Hmin]. split; [eauto|]. intros d (e & He & ->). auto.
Qed.

Lemma lists_map_sorted m : omap_ok m -> lists_map (stable_sort priority_rank (to_schedule m)) m.
Proof. intros Hm. split; [done|]. apply stable_sort_perm. Qed.

Lemma demote_mono c d : rank c <= rank d -> rank (demote c) <= rank (demote d).
Proof. destruct c, d; simpl; lia. Qed.

Lemma sched_inv_blocking P m p : sched_inv P m -> omap_find p m = Some blocking <-> P p blocking.
Proof.
  intros (_ & _ & Hf). specialize (Hf p). unfold most_urgent in Hf.
  destruct (omap_find p m) as [c|]; [|naive_solver]. destruct Hf as [Hc Hmin]. split.
  - intros [= ->]. done.
  - intros Hb%Hmin. f_equal. apply rank_inj. pose proof (Hmin c Hc). destruct c; simpl in *; lia.
Qed.

Lemma lists_map_elem s m p c : lists_map s m -> MkPriority p c ∈ s <-> omap_find p m = Some c.
Proof. intros [Hm Hp]. by rewrite Hp, elem_of_to_schedule, omap_find_elem. Qed.

(** ** The deadline order *)

Definition deadlines_ok (st : deadlines) : Prop := NoDup st.2 /\ forall p, p ∈ st.1 <-> p ∈ st.2.

Lemma push_class_spec c s st :
  deadlines_ok st ->
  deadlines_ok (push_class c st s) /\
  exists added, (push_class c st s).2 = st.2 ++ added /\
    forall p, p ∈ added <-> (p ∉ st.2) /\ MkPriority p c ∈ s.
Proof.
  unfold push_class. revert st. induction s as [|[q d] s IH]; intros st Hst; cbn [fold_left].
  { split; [done|]. exists []. rewrite app_nil_r. set_solver. }
  simpl. destruct (decide (d = c)) as [->|Hd].
  - unfold push_once at 2 4. destruct (decide (q ∈ st.1)) as [Hq|Hq].
    + destruct (IH st Hst) as (Hok & added & -> & Hin). split; [done|]. exists added. split; [done|].
      intros p. rewrite Hin, elem_of_cons. apply Hst in Hq. clear -Hq.
      split; [tauto|]. intros [Hn [[= ->]|?]]; tauto.
    + destruct Hst as [Hnd Hset]. destruct (IH ({[q]} ∪ st.1, st.2 ++ [q])) as (Hok & added & -> & Hin).
      { split; simpl; [|intros p; rewrite elem_of_union, Hset, elem_of_app; set_solver].
        apply NoDup_app. split; [done|]. split; [|by apply NoDup_singleton].
        intros x Hx%Hset ->%list_elem_of_singleton. done. }
      split; [done|]. exists (q :: added). simpl. rewrite <-app_assoc. split; [done|].
      intros p. rewrite elem_of_cons, Hin, elem_of_cons. simpl.
      rewrite elem_of_app, list_elem_of_singleton. rewrite Hset in Hq. clear -Hq. split.
      * intros [->|?]; [auto|tauto].
      * intros [Hn [[= ->]|?]]; [by left|]. destruct (decide (p = q)); [by left|]. right. tauto.
  - destruct (IH st Hst) as (Hok & added & -> & Hin). split; [done|]. exists added. split; [done|].
    intros p. rewrite Hin, elem_of_cons. clear -Hd. split; [tauto|]. intros [? [[= -> ->]|?]]; tauto.
Qed.

(** ** What the plan should hold *)

Definition demand_ok (d : StreamDemand) : Prop := request_valid (exact_request d (sd_range d)).

Definition window_ok (w : StreamWindow) : Prop :=
  is_u64 (w_critical_bytes w) /\ is_u32 (w_critical_piece_limit w) /\ is_u64 (w_playback_bytes w) /\
  is_u64 (w_readahead_bytes w) /\ is_u64 (w_tail_bytes w).

(** The classes the demands ask for a piece: the windows of the focused demand
    (its own bytes only critical when no reader waits for them), the head of the
    file for a demand near its end, and the bytes of the other readers. *)
Inductive plan_wants (focused : StreamDemand) (others : list StreamDemand) (w : StreamWindow) (p : Z)
  : PriorityClass -> Prop :=
| wants_focus c :
    sd_kind focused = reader \/ c <> blocking -> wanted (focused_request focused w) c p ->
    plan_wants focused others w p c
| wants_demoted :
    sd_kind focused <> reader -> wanted (focused_request focused w) blocking p ->
    plan_wants focused others w p critical
| wants_head x :
    0 <= x < focus_head_bytes focused w ->
    piece_of (focused_request focused w) x = p -> plan_wants focused others w p playback
| wants_other d :
    d ∈ others -> sd_kind d = reader -> wanted (exact_request d (sd_range d)) blocking p ->
    plan_wants focused others w p blocking.

Lemma exact_wanted d r p c :
  wanted (exact_request d r) c p <-> c = blocking /\ wanted (exact_request d r) blocking p.
Proof.
  split; [|by intros [-> ?]]. intros (x & [Hx Hc] & Hp).
  assert (c = blocking) as -> by (destruct c; simpl in *; try done; lia).
  split; [done|]. by exists x.
Qed.

Lemma focused_request_valid d w : demand_ok d -> window_ok w -> request_valid (focused_request d w).
Proof.
  intros ((Ho & Hs & Hp & Hos & Hrs & Hre & _) & Hps & Hsz & Hd & Hst & Hfit) (Hc & Hl & Hpl & Hra & Ht).
  unfold request_valid, request_ok, focused_request. simpl in *.
  assert (is_u64 (focus_critical_bytes d w)).
  { unfold focus_critical_bytes. destruct (focus_is_cold d); [ulia|].
    pose proof (wrap64_u64 (w_critical_piece_limit w * sd_piece_size d)). ulia. }
  repeat split; try done; try ulia.
Qed.

Lemma head_bytes_range d w :
  demand_ok d -> window_ok w -> 0 <= focus_head_bytes d w <= sd_file_size d.
Proof.
  intros ((_ & Hs & _) & _) _. simpl in Hs. unfold focus_head_bytes.
  destruct (_ && _); [|ulia]. pose proof (wrap64_u64 (focus_critical_bytes d w + w_playback_bytes w)). ulia.
Qed.

Lemma head_request_valid d w :
  demand_ok d -> window_ok w -> 0 < focus_head_bytes d w ->
  request_valid (exact_request d (MkRange 0 (focus_head_bytes d w - 1))).
Proof.
  intros Hd Hw Hh. pose proof (head_bytes_range d w Hd Hw).
  destruct Hd as ((Ho & Hs & Hp & Hos & Hrs & Hre & Hz) & Hps & Hsz & Hdd & Hst & Hfit).
  unfold request_valid, request_ok. simpl in *. repeat split; try done; try ulia.
Qed.

(** ** The phases of the construction *)

(** The state between two phases: the map holds the most urgent classes of [P], the
    deadlines are the blocking pieces. *)
Definition phase (P : Z -> PriorityClass -> Prop) (m : list (Z * PriorityClass)) (st : deadlines) : Prop :=
  sched_inv P m /\ deadlines_ok st /\ forall p, p ∈ st.2 <-> P p blocking.

Lemma phase_ext P Q m st : (forall p c, P p c <-> Q p c) -> phase P m st -> phase Q m st.
Proof.
  intros H (Hs & Hd & Hb). split; [by eapply sched_inv_ext|]. split; [done|].
  intros p. by rewrite Hb, H.
Qed.

(** Merging a schedule and pushing its blocking pieces. *)
Lemma phase_merge P Q m st s m0 :
  phase P m st -> lists_map s m0 -> sched_inv Q m0 ->
  phase (fun p c => P p c \/ Q p c) (merge_schedule m s) (push_class blocking st s) /\
  st.2 `prefix_of` (push_class blocking st s).2.
Proof.
  intros (Hs & Hd & Hb) Hl Hq. destruct (push_class_spec blocking s st Hd) as (Hok & added & Heq & Hin).
  split; [|by exists added]. split; [by eapply merge_schedule_inv|]. split; [done|].
  intros p. rewrite Heq, elem_of_app, Hb, Hin, (lists_map_elem s m0), (sched_inv_blocking Q) by done.
  rewrite Hb. destruct (decide (p ∈ st.2)) as [H|H]; rewrite Hb in H; tauto.
Qed.

Definition other_wants (others : list StreamDemand) (p : Z) (c : PriorityClass) : Prop :=
  c = blocking /\ exists d, d ∈ others /\ sd_kind d = reader /\ wanted (exact_request d (sd_range d)) blocking p.

Lemma add_other_reader st d s :
  sd_kind d = reader -> build_piece_schedule (exact_request d (sd_range d)) = Ok s ->
  add_other st d = Ok (merge_schedule st.1 s, push_class blocking st.2 s).
Proof. intros Hk Hs. unfold add_other. by rewrite decide_True, Hs by done. Qed.

Lemma add_other_skip st d : sd_kind d <> reader -> add_other st d = Ok st.
Proof. intros Hk. unfold add_other. by rewrite decide_False by done. Qed.

Lemma add_others_phase others P m st :
  Forall demand_ok others -> phase P m st ->
  exists m' st', fold_result add_other (m, st) others = Ok (m', st') /\
    phase (fun p c => P p c \/ other_wants others p c) m' st' /\ st.2 `prefix_of` st'.2.
Proof.
  intros Hv. revert P m st. induction Hv as [|d others Hd Hv IH]; intros P m st Hp; cbn [fold_result].
  { exists m, st. split; [done|]. split; [|done]. eapply phase_ext, Hp.
    intros p c. unfold other_wants. set_solver. }
  destruct (decide (sd_kind d = reader)) as [Hk|Hk].
  - destruct (build_valid _ Hd) as (m0 & Hb0 & Hm0). rewrite (add_other_reader _ d _ Hk Hb0).
    cbn [mbind result_bind fst snd].
    destruct (phase_merge P _ m st _ m0 Hp (lists_map_sorted m0 (proj1 Hm0)) Hm0) as [Hp' Hpre].
    destruct (IH _ _ _ Hp') as (m' & st' & -> & Hph & Hpre'). exists m', st'. split; [done|].
    split; [|by etrans]. eapply phase_ext, Hph. intros p c. unfold other_wants.
    rewrite exact_wanted. setoid_rewrite elem_of_cons. clear -Hk. naive_solver.
  - rewrite (add_other_skip _ d Hk). cbn [mbind result_bind]. destruct (IH _ _ _ Hp) as (m' & st' & -> & Hph & Hpre').
    exists m', st'. split; [done|]. split; [|done]. eapply phase_ext, Hph. intros p c.
    unfold other_wants. setoid_rewrite elem_of_cons. clear -Hk. naive_solver.
Qed.

(** The focused demand's own schedule. *)
Lemma focused_phase focused w m0 :
  sched_inv (fun p c => wanted (focused_request focused w) c p) m0 ->
  let s := stable_sort priority_rank (to_schedule m0) in
  let s := if decide (sd_kind focused = reader) then s else set_class demote <$> s in
  phase (fun p c => exists d, wanted (focused_request focused w) d p /\
           c = if decide (sd_kind focused = reader) then d else demote d)
        (merge_schedule [] s) (push_class blocking (∅, []) s).
Proof.
  intros Hm0 s s'.
  assert (Hnil : phase (fun _ _ => False) [] (∅, [])).
  { split; [split; [apply omap_ok_nil|split; [by intros ? ? []|by intros p c []]]|].
    split; [|set_solver]. split; [constructor|set_solver]. }
  destruct (phase_merge _ (fun p c => exists d, wanted (focused_request focused w) d p /\
           c = if decide (sd_kind focused = reader) then d else demote d) _ _ s'
           (if decide (sd_kind focused = reader) then m0 else prod_map id demote <$> m0) Hnil) as [Hp _].
  - subst s' s. destruct (decide _); [by apply lists_map_sorted, Hm0|].
    by apply lists_map_set_class, lists_map_sorted, Hm0.
  - destruct (decide _); [|by apply set_class_inv; [apply demote_mono|]].
    eapply sched_inv_ext, Hm0. naive_solver.
  - eapply phase_ext, Hp. naive_solver.
Qed.

(** The head of the file. *)
Lemma add_head_phase P focused w m st :
  demand_ok focused -> window_ok w -> phase P m st ->
  exists m', add_head focused w m = Ok m' /\
    phase (fun p c => P p c \/ c = playback /\
             exists x, 0 <= x < focus_head_bytes focused w /\ piece_of (focused_request focused w) x = p) m' st.
Proof.
  intros Hd Hw (Hs & Hdl & Hb). unfold add_head.
  destruct (Z.ltb_spec 0 (focus_head_bytes focused w)) as [Hh|Hh].
  - destruct (build_valid _ (head_request_valid focused w Hd Hw Hh)) as (m0 & -> & Hm0).
    cbn [mbind result_bind]. eexists. split; [done|].
    split; [|split; [done|intros p; rewrite Hb; naive_solver]].
    eapply sched_inv_ext, (merge_schedule_inv P _ _ _ m
      (lists_map_set_class (fun _ => playback) _ m0 (lists_map_sorted m0 (proj1 Hm0)))
      (set_class_inv (fun _ => playback) _ m0 ltac:(done) Hm0) Hs).
    intros p c. setoid_rewrite exact_wanted.
    pose proof (head_bytes_range focused w Hd Hw). unfold wanted, in_window. simpl.
    split; (intros [?|H']; [by left|right]).
    + destruct H' as (e & (_ & x & [Hx1 Hx2] & Hx) & ->). split; [done|].
      exists x. split; [lia|]. exact Hx.
    + destruct H' as (-> & x & Hx & Hp). exists blocking. split; [|done]. split; [done|].
      exists x. split; [lia|]. exact Hp.
  - exists m. split; [done|]. eapply phase_ext, (conj Hs (conj Hdl Hb)).
    intros p c. split; [by left|]. intros [?|(_ & x & ? & _)]; [done|lia].
Qed.

(** ** The plan *)

Lemma sort_demands_focus demands focused others :
  reverse (sort_demands demands) = focused :: others ->
  demands ≡ₚ focused :: others /\ forall d, d ∈ others -> sd_id d <= sd_id focused.
Proof.
  intros H. unfold sort_demands in H. split.
  - by rewrite <-H, reverse_Permutation, stable_sort_perm.
  - intros d Hd. apply (f_equal reverse) in H. rewrite reverse_involutive, reverse_cons in H.
    assert (Hs : StronglySorted (lex sd_id (fun _ _ => True)) (stable_sort sd_id demands)).
    { apply stable_sort_sorted. clear. induction demands; constructor; [done|]. by apply Forall_true. }
    rewrite H in Hs. apply (StronglySorted_app_1_elem_of _ _ _ d focused) in Hs.
    + destruct Hs as [?|[? _]]; lia.
    + by apply elem_of_reverse.
    + set_solver.
Qed.

Lemma build_plan_phase demands focused others w :
  reverse (sort_demands demands) = focused :: others ->
  demand_ok focused -> Forall demand_ok others -> window_ok w ->
  exists m st,
    build_stream_demand_plan demands w =
      Ok (MkPlan (sd_id focused) (stable_sort priority_rank (to_schedule m))
            (push_class critical st (to_schedule m)).2 (focus_is_cold focused)) /\
    phase (plan_wants focused others w) m st.
Proof.
  intros Hsort Hd Ho Hw. unfold build_stream_demand_plan. rewrite Hsort.
  destruct (build_valid _ (focused_request_valid focused w Hd Hw)) as (m0 & -> & Hm0).
  cbn [mbind result_bind]. pose proof (focused_phase focused w m0 Hm0) as Hf. cbv zeta in Hf.
  destruct (add_head_phase _ focused w _ _ Hd Hw Hf) as (m1 & -> & H1). cbn [mbind result_bind].
  destruct (add_others_phase others _ m1 _ Ho H1) as (m2 & st2 & -> & H2 & _).
  cbn [mbind result_bind fst snd]. exists m2, st2. split; [done|].
  eapply phase_ext, H2. intros p c. unfold other_wants. split.
  - intros [[(d & Hw' & ->)|(-> & x & Hx & Hp)]|(-> & d & Hin & Hk & Hw')].
    + destruct (decide (sd_kind focused = reader)) as [Hk|Hk]; [by apply wants_focus; [left|]|].
      destruct d; try (by apply wants_focus; [right|]). by apply wants_demoted.
    + by eapply wants_head.
    + by eapply wants_other.
  - intros [d Hk Hw'|Hk Hw'|x Hx Hp|d Hin Hk Hw'].
    + left. left. exists d. split; [done|]. destruct (decide _); [done|]. destruct Hk as [|Hb]; [done|]. by destruct d.
    + left. left. exists blocking. split; [done|]. by rewrite decide_False.
    + left. right. eauto.
    + right. eauto.
Qed.

(** ** The theorems *)

(** C10. For demands inside their files the plan is always built.  Its focus is a
    demand with the largest id; its pieces are listed once, by class and index, and
    each has the most urgent class that the focused demand's windows, the head of
    the file or the other readers ask for it. *)
Theorem build_stream_demand_plan_correct demands w :
  demands <> [] -> Forall demand_ok demands -> window_ok w ->
  exists focused others plan,
    demands ≡ₚ focused :: others /\ (forall d, d ∈ others -> sd_id d <= sd_id focused) /\
    build_stream_demand_plan demands w = Ok plan /\
    focused_demand_id plan = sd_id focused /\ plan_cold plan = focus_is_cold focused /\
    StronglySorted schedule_order (plan_pieces plan) /\ NoDup (pp_piece <$> plan_pieces plan) /\
    forall p c, MkPriority p c ∈ plan_pieces plan <->
                most_urgent (plan_wants focused others w p) (Some c).
Proof.
  intros Hne Hv Hw. destruct (reverse (sort_demands demands)) as [|focused others] eqn:Hs.
  { destruct Hne. apply (f_equal length) in Hs. rewrite length_reverse in Hs.
    unfold sort_demands in Hs. rewrite stable_sort_perm in Hs. by apply nil_length_inv. }
  destruct (sort_demands_focus _ _ _ Hs) as [Hperm Hmax].
  rewrite Hperm, Forall_cons in Hv. destruct Hv as [Hf Ho].
  destruct (build_plan_phase _ _ _ w Hs Hf Ho Hw) as (m & st & Hb & Hinv & _).
  exists focused, others. eexists. split; [done|]. split; [done|]. split; [done|]. simpl.
  split; [done|]. split; [done|]. split; [by apply to_schedule_sorted, Hinv|].
  split; [by apply schedule_pieces_NoDup, Hinv|]. intros p c. by apply sched_inv_schedule.
Qed.

Definition sample_demands : list StreamDemand :=
  [MkDemand 2 0 100 10 (MkRange 50 59) reader false; MkDemand 1 0 100 10 (MkRange 5 9) reader false].
Definition sample_window : StreamWindow := MkWindow 20 16 30 0 0.

Lemma sample_demands_ok : Forall demand_ok sample_demands.
Proof.
  repeat constructor; unfold request_valid, request_ok, is_u64, is_u32, piece_of; simpl; try lia;
    by vm_compute.
Qed.

Lemma sample_window_ok : window_ok sample_window.
Proof. unfold window_ok, is_u64, is_u32; simpl; lia. Qed.

Lemma build_stream_demand_plan_correct_witness :
  exists focused others plan,
    sample_demands ≡ₚ focused :: others /\ (forall d, d ∈ others -> sd_id d <= sd_id focused) /\
    build_stream_demand_plan sample_demands sample_window = Ok plan /\
    focused_demand_id plan = sd_id focused /\ plan_cold plan = focus_is_cold focused /\
    StronglySorted schedule_order (plan_pieces plan) /\ NoDup (pp_piece <$> plan_pieces plan) /\
    forall p c, MkPriority p c ∈ plan_pieces plan <->
                most_urgent (plan_wants focused others sample_window p) (Some c).
Proof.
  exact (build_stream_demand_plan_correct sample_demands sample_window ltac:(done)
           sample_demands_ok sample_window_ok).
Defined.

(** The deadlines of a phase once its critical pieces are pushed. *)
Lemma final_deadlines P m st :
  phase P m st ->
  let schedule := stable_sort priority_rank (to_schedule m) in
  let order := (push_class critical st (to_schedule m)).2 in
  NoDup order /\
  (exists B C, order = B ++ C /\ (forall p, p ∈ B <-> MkPriority p blocking ∈ schedule) /\
               (forall p, p ∈ C <-> MkPriority p critical ∈ schedule)).
Proof.
  intros (Hs & Hd & Hb) schedule order.
  destruct (push_class_spec critical (to_schedule m) st Hd) as ([Hnd _] & added & Heq & Hin).
  split; [done|]. exists st.2, added. split; [done|]. subst schedule.
  assert (Hok : omap_ok m) by apply Hs.
  split; intros p; rewrite elem_of_schedule by done.
  - by rewrite Hb, (sched_inv_blocking P).
  - rewrite Hin, elem_of_to_schedule, <-omap_find_elem, Hb, <-(sched_inv_blocking P m) by done.
    naive_solver.
Qed.

(** The deadline order of the plan lists, once each, first exactly the blocking
    pieces and then exactly the critical pieces of the plan; no other piece has a
    deadline. *)
Theorem plan_deadlines_correct demands w :
  Forall demand_ok demands -> window_ok w ->
  exists plan, build_stream_demand_plan demands w = Ok plan /\ NoDup (plan_deadline_order plan) /\
    exists B C, plan_deadline_order plan = B ++ C /\
      (forall p, p ∈ B <-> MkPriority p blocking ∈ plan_pieces plan) /\
      (forall p, p ∈ C <-> MkPriority p critical ∈ plan_pieces plan).
Proof.
  intros Hv Hw. destruct (reverse (sort_demands demands)) as [|focused others] eqn:Hs.
  { unfold build_stream_demand_plan. rewrite Hs. eexists. split; [done|]. simpl.
    split; [constructor|]. exists [], []. set_solver. }
  destruct (sort_demands_focus _ _ _ Hs) as [Hperm _].
  rewrite Hperm, Forall_cons in Hv. destruct Hv as [Hf Ho].
  destruct (build_plan_phase _ _ _ w Hs Hf Ho Hw) as (m & st & Hb & Hp).
  eexists. split; [done|]. exact (final_deadlines _ m st Hp).
Qed.

(** No reader is starved: whatever the other demands are, every piece that holds
    a byte some reader waits for is blocking in the plan and has a deadline. *)
Theorem reader_pieces_are_blocking demands w d x :
  Forall demand_ok demands -> window_ok w -> d ∈ demands -> sd_kind d = reader ->
  range_start (sd_range d) <= x <= range_end (sd_range d) -> x < sd_file_size d ->
  exists plan, build_stream_demand_plan demands w = Ok plan /\
    let piece := (sd_file_offset d + x) / sd_piece_size d in
    MkPriority piece blocking ∈ plan_pieces plan /\ piece ∈ plan_deadline_order plan.
Proof.
  intros Hv Hw Hin Hk Hx Hxs. destruct (reverse (sort_demands demands)) as [|focused others] eqn:Hs.
  { apply (f_equal length) in Hs. rewrite length_reverse in Hs. unfold sort_demands in Hs.
    rewrite stable_sort_perm in Hs. apply nil_length_inv in Hs as ->. set_solver. }
  destruct (sort_demands_focus _ _ _ Hs) as [Hperm _]. pose proof Hin as Hin'.
  rewrite Hperm, Forall_cons in Hv. destruct Hv as [Hf Ho]. rewrite Hperm, elem_of_cons in Hin'.
  destruct (build_plan_phase _ _ _ w Hs Hf Ho Hw) as (m & st & Hb & Hp).
  assert (Hx0 : 0 <= range_start (sd_range d)).
  { assert (demand_ok d) as ((_ & _ & _ & _ & [? _] & _) & _); [|done].
    destruct Hin' as [->|Hin']; [done|]. rewrite Forall_forall in Ho. by apply Ho. }
  eexists. split; [done|]. cbv zeta. simpl.
  assert (Hbl : plan_wants focused others w ((sd_file_offset d + x) / sd_piece_size d) blocking).
  { destruct Hin' as [->|Hin'].
    - apply wants_focus; [by left|]. exists x. split; [|done]. unfold in_window. simpl. lia.
    - eapply wants_other; [done..|]. exists x. split; [|done]. unfold in_window. simpl. lia. }
  destruct (final_deadlines _ m st Hp) as [_ (B & C & Heq & HB & _)].
  assert (Hmem : MkPriority ((sd_file_offset d + x) / sd_piece_size d) blocking
                 ∈ stable_sort priority_rank (to_schedule m)).
  { rewrite elem_of_schedule by apply Hp. by apply (sched_inv_blocking _ m _ (proj1 Hp)). }
  split; [done|]. rewrite Heq, elem_of_app. left. by apply HB.
Qed.

(** C37. The plan does not depend on the order in which the demands are collected,
    which is the iteration order of a hash table. *)
Theorem plan_order_independent demands demands' w :
  NoDup (sd_id <$> demands) -> demands ≡ₚ demands' ->
  build_stream_demand_plan demands w = build_stream_demand_plan demands' w.
Proof.
  intros Hnd Hperm. unfold build_stream_demand_plan.
  assert (sort_demands demands = sort_demands demands') as ->; [|done].
  assert (Hss : forall l, StronglySorted (lex sd_id (fun _ _ => True)) (sort_demands l)).
  { intros l. apply stable_sort_sorted. induction l; constructor; [done|]. by apply Forall_true. }
  apply (StronglySorted_unique_strong (lex sd_id (fun _ _ => True))); [|done..|].
  - intros d1 d2 H1 H2 H12 H21. unfold sort_demands in H1, H2.
    rewrite stable_sort_perm in H1, H2. rewrite <-Hperm in H2.
    apply list_elem_of_lookup in H1 as [i Hi], H2 as [j Hj].
    assert (i = j) as ->; [|congruence].
    apply (NoDup_lookup (sd_id <$> demands) i j (sd_id d1)); [done|..].
    + by rewrite list_lookup_fmap, Hi.
    + rewrite list_lookup_fmap, Hj. simpl. f_equal. unfold lex in *. lia.
  - unfold sort_demands. by rewrite !stable_sort_perm.
Qed.

Lemma plan_order_independent_witness :
  NoDup (sd_id <$> sample_demands) /\
  build_stream_demand_plan sample_demands sample_window =
  build_stream_demand_plan (reverse sample_demands) sample_window.
Proof.
  assert (H : NoDup (sd_id <$> sample_demands)) by (repeat constructor; simpl; set_solver).
  split; [done|].
  apply (plan_order_independent sample_demands (reverse sample_demands) sample_window H).
  by rewrite reverse_Permutation.
Defined.
