(* ===== verification/FileSelection.v ===== *)
(** The choice of the file to stream: src/torrent/file_selection.cpp and
    include/nuvio_engine/file_selection.hpp. *)
From stdpp Require Import prelude strings list.
From Stdlib Require Import ZArith Lia Ascii.
From S2P Require Import Prelude Text.

(** ** The code *)

Record TorrentFile := MkFile { tf_path : text; tf_size : Z }.

Inductive SelectionReason :=
| requested_index | exact_path | exact_filename | largest_playable_file | largest_file_reason | no_files.

Record FileSelection := MkSelection { sel_index : option nat; sel_reason : SelectionReason }.

Definition playable_extensions : list text :=
  str <$> [".aac"; ".avi"; ".flac"; ".flv"; ".m3u8"; ".m4v"; ".mkv";
           ".mov"; ".mp3"; ".mp4"; ".mpeg"; ".mpg"; ".ogg"; ".ts";
           ".vp8"; ".wav"; ".webm"; ".wmv"; ".wma"]%string.

Definition lowercase (value : text) : text := tolower <$> value.

(** [path.find_last_of("/\\")]. *)
Definition is_separator (c : ascii) : bool := Ascii.eqb c (chr 47) || Ascii.eqb c (chr 92).
Fixpoint find_last_separator (v : text) : option nat :=
  match v with
  | [] => None
  | c :: v' => match find_last_separator v' with
               | Some i => Some (S i)
               | None => if is_separator c then Some O else None
               end
  end.

Definition basename (path : text) : text :=
  match find_last_separator path with
  | None => path
  | Some separator => substr_from (separator + 1) path
  end.

Definition is_playable_media_path (path : text) : bool :=
  let normalized := lowercase path in
  existsb (fun extension => ends_with extension normalized) playable_extensions.

(** [files[index].size] at an index the loop stored. *)
Definition size_at (files : list TorrentFile) (index : nat) : Z :=
  match files !! index with Some f => tf_size f | None => 0 end.

(** The loop of [largest_file] from [index] on, with the files that are left. *)
Fixpoint largest_loop (files : list TorrentFile) (playable_only : bool)
    (rest : list TorrentFile) (index : nat) (selected : option nat) : option nat :=
  match rest with
  | [] => selected
  | f :: rest' =>
    let selected' :=
      if playable_only && negb (is_playable_media_path (tf_path f)) then selected
      else match selected with
           | None => Some index
           | Some s => if size_at files s <? tf_size f then Some index else selected
           end in
    largest_loop files playable_only rest' (S index) selected'
  end.
Definition largest_file (files : list TorrentFile) (playable_only : bool) : option nat :=
  largest_loop files playable_only files O None.

(** The first index whose file passes a test: the two [for] loops that return. *)
Fixpoint first_index (test : TorrentFile -> bool) (files : list TorrentFile) : option nat :=
  match files with
  | [] => None
  | f :: files' => if test f then Some O else S <$> first_index test files'
  end.

Definition select_by_index (files : list TorrentFile) (requested : option nat) : FileSelection :=
  match requested with
  | Some i =>
    if (i <? length files)%nat then MkSelection (Some i) requested_index
    else match largest_file files true with
         | Some j => MkSelection (Some j) largest_playable_file
         | None => MkSelection (largest_file files false) largest_file_reason
         end
  | None =>
    match largest_file files true with
    | Some j => MkSelection (Some j) largest_playable_file
    | None => MkSelection (largest_file files false) largest_file_reason
    end
  end.

Definition select_file (files : list TorrentFile) (requested : option nat) (hint : text) : FileSelection :=
  if (length files =? 0)%nat then MkSelection None no_files
  else if text_eqb hint [] then select_by_index files requested
  else
    let normalized_hint := lowercase hint in
    match first_index (fun f => text_eqb (lowercase (tf_path f)) normalized_hint) files with
    | Some i => MkSelection (Some i) exact_path
    | None =>
      match first_index (fun f => text_eqb (lowercase (basename (tf_path f))) normalized_hint) files with
      | Some i => MkSelection (Some i) exact_filename
      | None => select_by_index files requested
      end
    end.

(** ** The specification *)

(** [i] is the first index whose file satisfies [P]. *)
Definition first_with (P : TorrentFile -> Prop) (files : list TorrentFile) (i : nat) : Prop :=
  (exists f, files !! i = Some f /\ P f) /\
  forall j f, (j < i)%nat -> files !! j = Some f -> ~ P f.

Definition none_with (P : TorrentFile -> Prop) (files : list TorrentFile) : Prop :=
  forall f, f ∈ files -> ~ P f.

(** [i] is the first of the largest files that satisfy [P]. *)
Definition largest_with (P : TorrentFile -> Prop) (files : list TorrentFile) (i : nat) : Prop :=
  exists f, files !! i = Some f /\ P f /\
    forall j g, files !! j = Some g -> P g ->
      tf_size g <= tf_size f /\ ((j < i)%nat -> tf_size g < tf_size f).

Definition path_is (hint : text) (f : TorrentFile) : Prop :=
  hint <> [] /\ lowercase (tf_path f) = lowercase hint.
Definition filename_is (hint : text) (f : TorrentFile) : Prop :=
  hint <> [] /\ lowercase (basename (tf_path f)) = lowercase hint.
Definition playable (f : TorrentFile) : Prop := is_playable_media_path (tf_path f) = true.

(** The documented preference: a full path, a file name, the requested index, the
    largest playable file, the largest file. *)
Inductive selects (files : list TorrentFile) (requested : option nat) (hint : text) : FileSelection -> Prop :=
| selects_nothing : files = [] -> selects files requested hint (MkSelection None no_files)
| selects_path i :
    first_with (path_is hint) files i -> selects files requested hint (MkSelection (Some i) exact_path)
| selects_filename i :
    none_with (path_is hint) files -> first_with (filename_is hint) files i ->
    selects files requested hint (MkSelection (Some i) exact_filename)
| selects_requested i :
    none_with (path_is hint) files -> none_with (filename_is hint) files ->
    requested = Some i -> (i < length files)%nat ->
    selects files requested hint (MkSelection (Some i) requested_index)
| selects_playable i :
    none_with (path_is hint) files -> none_with (filename_is hint) files ->
    (forall j, requested = Some j -> (length files <= j)%nat) ->
    largest_with playable files i ->
    selects files requested hint (MkSelection (Some i) largest_playable_file)
| selects_largest i :
    none_with (path_is hint) files -> none_with (filename_is hint) files ->
    (forall j, requested = Some j -> (length files <= j)%nat) ->
    none_with playable files -> largest_with (fun _ => True) files i ->
    selects files requested hint (MkSelection (Some i) largest_file_reason).

(** ** Lemmas *)

Lemma first_index_spec test (P : TorrentFile -> Prop) files :
  (forall f, test f = true <-> P f) ->
  match first_index test files with
  | Some i => first_with P files i
  | None => none_with P files
  end.
Proof.
  intros HP. induction files as [|f files IH]; simpl; [intros f; set_solver|].
  destruct (test f) eqn:E.
  - split; [exists f; by rewrite <-HP|]. intros j g Hj. lia.
  - assert (~ P f) by (rewrite <-HP; congruence).
    destruct (first_index test files) as [i|]; simpl.
    + destruct IH as [Hi Hlt]. split; [done|]. intros [|j] g Hj Hg; [naive_solver|].
      apply (Hlt j); [lia|done].
    + intros g [->|Hg]%elem_of_cons; [done|]. by apply IH.
Qed.

(** The best file of a list: the first largest one that satisfies [P]. *)
Definition best (P : TorrentFile -> Prop) (files : list TorrentFile) (o : option nat) : Prop :=
  match o with Some i => largest_with P files i | None => none_with P files end.

Lemma best_skip P files f o : ~ P f -> best P files o -> best P (files ++ [f]) o.
Proof.
  intros Hf. destruct o as [i|]; simpl.
  - intros (g & Hi & Hg & Hmax). exists g. split; [by apply lookup_app_l_Some|]. split; [done|].
    intros j h [Hj|[_ Hj]]%lookup_app_Some Hh; [by eapply Hmax|].
    apply list_lookup_singleton_Some in Hj as [_ ->]. done.
  - intros Hn g [Hg|Hg]%elem_of_app; [by apply Hn|]. apply list_elem_of_singleton in Hg as ->. done.
Qed.

Lemma best_new P files f o :
  P f -> best P files o -> (forall s g, o = Some s -> files !! s = Some g -> tf_size g < tf_size f) ->
  best P (files ++ [f]) (Some (length files)).
Proof.
  intros Hf Hb Hlt. exists f. split; [by rewrite lookup_app_r, Nat.sub_diag by lia|]. split; [done|].
  intros j g [Hj|[Hl Hj]]%lookup_app_Some Hg.
  - destruct o as [s|]; simpl in Hb.
    + destruct Hb as (h & Hs & _ & Hmax). pose proof (Hlt s h eq_refl Hs).
      destruct (Hmax j g Hj Hg). lia.
    + destruct (Hb g); [|done]. apply list_elem_of_lookup. eauto.
  - apply list_lookup_singleton_Some in Hj as [Hz ->]. lia.
Qed.

Lemma best_keep P files f s g :
  P f -> best P files (Some s) -> files !! s = Some g -> tf_size f <= tf_size g ->
  best P (files ++ [f]) (Some s).
Proof.
  intros Hf (h & Hs & Hh & Hmax) Hg Hle. assert (h = g) as -> by congruence. exists g.
  split; [by apply lookup_app_l_Some|]. split; [done|].
  intros j k [Hj|[Hl Hj]]%lookup_app_Some Hk; [by eapply Hmax|].
  apply list_lookup_singleton_Some in Hj as [Hz ->]. apply lookup_lt_Some in Hs. lia.
Qed.

Definition eligible (playable_only : bool) (f : TorrentFile) : Prop := playable_only = true -> playable f.

Lemma largest_loop_best files po rest pre sel :
  files = pre ++ rest -> best (eligible po) pre sel ->
  best (eligible po) files (largest_loop files po rest (length pre) sel).
Proof.
  revert pre sel. induction rest as [|f rest IH]; intros pre sel Hfs Hb; simpl.
  { by rewrite Hfs, app_nil_r. }
  replace (S (length pre)) with (length (pre ++ [f])) by (rewrite length_app; simpl; lia).
  apply IH; [by rewrite <-app_assoc|].
  destruct (po && negb (is_playable_media_path (tf_path f))) eqn:E.
  { apply best_skip; [|done]. unfold eligible, playable.
    apply andb_prop in E as [-> E%negb_true_iff]. rewrite E. intros H. by specialize (H eq_refl). }
  assert (Hf : eligible po f).
  { unfold eligible, playable. intros ->. simpl in E. by apply negb_false_iff in E. }
  destruct sel as [s|]; [|by eapply best_new].
  pose proof Hb as (g & Hg & _).
  assert (Hsz : size_at files s = tf_size g).
  { unfold size_at. by rewrite Hfs, (lookup_app_l_Some _ _ _ g). }
  rewrite Hsz. destruct (Z.ltb_spec (tf_size g) (tf_size f)).
  - eapply best_new; [done..|]. intros s' g' [= <-] ?. by simplify_eq.
  - eapply best_keep; [done..|]. lia.
Qed.

Lemma largest_file_best files po : best (eligible po) files (largest_file files po).
Proof. apply (largest_loop_best files po files []); [done|]. intros f; set_solver. Qed.

Lemma select_by_index_selects files requested hint :
  files <> [] -> none_with (path_is hint) files -> none_with (filename_is hint) files ->
  selects files requested hint (select_by_index files requested).
Proof.
  intros Hne Hp Hf.
  assert (Hlarge : (forall j, requested = Some j -> (length files <= j)%nat) ->
    selects files requested hint
      match largest_file files true with
      | Some j => MkSelection (Some j) largest_playable_file
      | None => MkSelection (largest_file files false) largest_file_reason
      end).
  { intros Hr. pose proof (largest_file_best files true) as Ht.
    destruct (largest_file files true) as [i|]; simpl in Ht.
    - apply selects_playable; [done..|]. destruct Ht as (f & Hi & He & Hmax).
      exists f. split; [done|]. split; [by apply He|]. intros j g Hj Hg. apply (Hmax j g Hj). by intros _.
    - pose proof (largest_file_best files false) as Hff.
      destruct (largest_file files false) as [i|]; simpl in Hff.
      + apply selects_largest; try done.
        * intros f Hin Hpl. apply (Ht f Hin). by intros _.
        * destruct Hff as (f & Hi & _ & Hmax). exists f. split; [done|]. split; [done|].
          intros j g Hj _. by apply (Hmax j g Hj).
      + destruct files as [|f files]; [done|]. destruct (Hff f ltac:(set_solver)). by intros [=]. }
  unfold select_by_index. destruct requested as [i|]; [|by apply Hlarge].
  destruct (Nat.ltb_spec i (length files)); [by apply selects_requested|].
  apply Hlarge. by intros j [= <-].
Qed.

(** A selection names a file exactly when there is one, and its index is valid:
    the caller's [files[index]] is inside the list. *)
Lemma select_file_in_range files requested hint :
  match sel_index (select_file files requested hint) with
  | Some i => (i < length files)%nat
  | None => files = []
  end.
Proof.
  assert (Hlt : forall P i, first_with P files i -> (i < length files)%nat)
    by (intros P i [(f & Hf & _) _]; by eapply lookup_lt_Some).
  assert (Hlt' : forall P i, largest_with P files i -> (i < length files)%nat)
    by (intros P i (f & Hf & _); by eapply lookup_lt_Some).
  unfold select_file. destruct (Nat.eqb_spec (length files) 0) as [Hl|Hl]; [by apply nil_length_inv|].
  assert (Hidx : match sel_index (select_by_index files requested) with
                 | Some i => (i < length files)%nat | None => files = [] end).
  { pose proof (select_by_index_selects files requested [] ltac:(by intros ->)
                  ltac:(by intros f _ [? _]) ltac:(by intros f _ [? _])) as Hs.
    inversion Hs; simpl; eauto. }
  destruct (text_eqb hint []); [done|].
  pose proof (first_index_spec (fun f => text_eqb (lowercase (tf_path f)) (lowercase hint)) _ files
                (fun f => iff_refl _)) as H1.
  pose proof (first_index_spec (fun f => text_eqb (lowercase (basename (tf_path f))) (lowercase hint)) _ files
                (fun f => iff_refl _)) as H2.
  destruct (first_index _ files) as [i|]; [by eapply Hlt|].
  destruct (first_index _ files) as [i|]; [by eapply Hlt|done].
Qed.

(** ** The theorems *)

(** C38. The selected file is the one of the documented preference order, whatever
    the files, the requested index and the hint; ties go to the first file. *)
Theorem select_file_selects files requested hint :
  selects files requested hint (select_file files requested hint).
Proof.
  unfold select_file. destruct (Nat.eqb_spec (length files) 0) as [Hl|Hl].
  { apply selects_nothing. by apply nil_length_inv. }
  assert (files <> []) by (by intros ->).
  destruct (text_eqb hint []) eqn:Eh.
  { apply bool_decide_eq_true in Eh as ->.
    apply select_by_index_selects; [done|..]; intros f _ [? _]; done. }
  apply bool_decide_eq_false in Eh.
  assert (Hpath := first_index_spec (fun f => text_eqb (lowercase (tf_path f)) (lowercase hint))
                     (path_is hint) files).
  assert (Hname := first_index_spec (fun f => text_eqb (lowercase (basename (tf_path f))) (lowercase hint))
                     (filename_is hint) files).
  specialize (Hpath ltac:(intros f; unfold text_eqb, path_is; rewrite bool_decide_eq_true; tauto)).
  specialize (Hname ltac:(intros f; unfold text_eqb, filename_is; rewrite bool_decide_eq_true; tauto)).
  destruct (first_index _ files) as [i|]; [by apply selects_path|].
  destruct (first_index _ files) as [i|]; [by apply selects_filename|].
  by apply select_by_index_selects.
Qed.
