(* ===== verification/PieceCache.v ===== *)
(** The memory cache of verified pieces: src/cache/verified_piece_cache.cpp and .hpp.
    The code keeps a hash table of entries and a linked list of keys, each entry with
    an iterator to its list node; [lru] is the abstract cache it implements: the
    entries from the most to the least recently used. *)
From stdpp Require Import prelude strings list gmap.
From Stdlib Require Import ZArith Lia Ascii.
From S2P Require Import Prelude Text.

(** ** The code *)

Record PieceCacheKey := MkKey { key_torrent_id : text; key_piece : Z }.

#[global] Instance PieceCacheKey_eq_dec : EqDecision PieceCacheKey.
Proof. solve_decision. Defined.
#[global] Instance PieceCacheKey_countable : Countable PieceCacheKey.
Proof.
  apply (inj_countable' (fun k => (key_torrent_id k, key_piece k)) (fun p => MkKey p.1 p.2)).
  by intros [].
Defined.

(** The bytes of a piece; a null [shared_ptr] is [None]. *)
Abbreviation piece_data := text.

(** [Entry]: the data and the iterator, which is the identity of a list node. *)
Record Entry := MkEntry { entry_data : piece_data; entry_recency : Z }.

(** A node of [std::list<PieceCacheKey>]: its identity and its key. *)
Abbreviation node := (Z * PieceCacheKey)%type.

Record PieceCache := MkCache {
  capacity_bytes : Z;
  used_bytes : Z;
  hits : Z;
  misses : Z;
  evictions : Z;
  recency : list node;
  entries : gmap PieceCacheKey Entry;
  next_node : Z;   (* the identity of the next list node *)
}.

Record PieceCacheStats := MkStats {
  st_capacity_bytes : Z; st_used_bytes : Z; st_hits : Z; st_misses : Z; st_evictions : Z; st_entries : Z;
}.

(** [VerifiedPieceCache(capacity_bytes)]. *)
Definition new_cache (capacity : Z) : PieceCache := MkCache capacity 0 0 0 0 [] ∅ 0.

(** Assignments to the members. *)
Definition with_storage (c : PieceCache) (used : Z) (r : list node) (m : gmap PieceCacheKey Entry) : PieceCache :=
  MkCache (capacity_bytes c) used (hits c) (misses c) (evictions c) r m (next_node c).
Definition with_recency (c : PieceCache) (r : list node) : PieceCache :=
  with_storage c (used_bytes c) r (entries c).
Definition with_counters (c : PieceCache) (h m e : Z) : PieceCache :=
  MkCache (capacity_bytes c) (used_bytes c) h m e (recency c) (entries c) (next_node c).

(** [recency_.erase(it)], [recency_.splice(recency_.begin(), recency_, it)]. *)
Definition list_erase (it : Z) (l : list node) : list node := filter (fun n => n.1 <> it) l.
Definition list_splice_front (it : Z) (l : list node) : list node :=
  filter (fun n => n.1 = it) l ++ list_erase it l.

(** [erase(entry)]. *)
Definition erase (c : PieceCache) (key : PieceCacheKey) (entry : Entry) : PieceCache :=
  with_storage c (wrap64 (used_bytes c - size (entry_data entry)))
    (list_erase (entry_recency entry) (recency c)) (delete key (entries c)).

Definition get (c : PieceCache) (key : PieceCacheKey) : option piece_data * PieceCache :=
  match entries c !! key with
  | None => (None, with_counters c (hits c) (saturating_increment (misses c)) (evictions c))
  | Some found =>
    let c := with_recency c (list_splice_front (entry_recency found) (recency c)) in
    (Some (entry_data found), with_counters c (saturating_increment (hits c)) (misses c) (evictions c))
  end.

Definition contains (c : PieceCache) (key : PieceCacheKey) : bool :=
  bool_decide (is_Some (entries c !! key)).

(** The loop of [put] that evicts from the back until [data_size] bytes fit.  Every
    turn removes a node of the list, so its length bounds the number of turns. *)
Fixpoint evict_loop (fuel : nat) (data_size : Z) (c : PieceCache) : PieceCache :=
  match fuel, last (recency c) with
  | S f, Some least =>
    if capacity_bytes c - data_size <? used_bytes c then
      match entries c !! least.2 with
      | None => evict_loop f data_size (with_recency c (removelast (recency c)))
      | Some entry =>
        let c := erase c least.2 entry in
        evict_loop f data_size (with_counters c (hits c) (misses c) (saturating_increment (evictions c)))
      end
    else c
  | _, _ => c
  end.

(** The insertion at the end of [put].  Two allocations of it may fail: [push_ok =
    false] is the case in which [recency_.push_front] throws, [emplace_ok = false] the
    one in which [entries_.emplace] does. *)
Definition insert_new (c : PieceCache) (key : PieceCacheKey) (data : piece_data) (push_ok emplace_ok : bool)
  : result unit * PieceCache :=
  if negb push_ok then (throw bad_alloc "", c) else
  let node := next_node c in
  let c := MkCache (capacity_bytes c) (wrap64 (used_bytes c + size data)) (hits c) (misses c)
             (evictions c) ((node, key) :: recency c) (entries c) (node + 1) in
  let rollback := with_storage c (wrap64 (used_bytes c - size data)) (tail (recency c)) (entries c) in
  if emplace_ok then
    match entries c !! key with
    | Some _ => (Ok (), rollback)
    | None => (Ok (), with_storage c (used_bytes c) (recency c) (<[key := MkEntry data node]> (entries c)))
    end
  else (throw bad_alloc "", rollback).

Definition put (c : PieceCache) (key : PieceCacheKey) (data : option piece_data) (push_ok emplace_ok : bool)
  : result unit * PieceCache :=
  let c := match entries c !! key with Some existing => erase c key existing | None => c end in
  match data with
  | None => (Ok (), c)
  | Some bytes =>
    if (size bytes =? 0) || (capacity_bytes c <? size bytes) then (Ok (), c)
    else insert_new (evict_loop (length (recency c)) (size bytes) c) key bytes push_ok emplace_ok
  end.

(** The loop of [erase_torrent] visits every entry of the hash table once. *)
Definition erase_torrent (c : PieceCache) (torrent_id : text) : PieceCache :=
  fold_left (fun c e => if decide (key_torrent_id e.1 = torrent_id) then erase c e.1 e.2 else c)
    (map_to_list (entries c)) c.

Definition clear (c : PieceCache) : PieceCache := with_storage c 0 [] ∅.

Definition stats (c : PieceCache) : PieceCacheStats :=
  MkStats (capacity_bytes c) (used_bytes c) (hits c) (misses c) (evictions c)
    (Z.of_nat (base.size (entries c))).

(** ** The specification: an LRU list *)

Abbreviation lru := (list (PieceCacheKey * piece_data)).

Definition total (l : lru) : Z := foldr (fun e n => size e.2 + n) 0 l.

Fixpoint lru_find (k : PieceCacheKey) (l : lru) : option piece_data :=
  match l with
  | [] => None
  | (k', d) :: l' => if decide (k' = k) then Some d else lru_find k l'
  end.
Definition lru_remove (k : PieceCacheKey) (l : lru) : lru := filter (fun e => e.1 <> k) l.

Definition lru_get (l : lru) (k : PieceCacheKey) : option piece_data * lru :=
  match lru_find k l with
  | Some d => (Some d, (k, d) :: lru_remove k l)
  | None => (None, l)
  end.

(** The longest list of most recently used entries that takes at most [room] bytes. *)
Fixpoint lru_fit (room : Z) (l : lru) : lru :=
  match l with
  | [] => []
  | e :: l' => if size e.2 <=? room then e :: lru_fit (room - size e.2) l' else []
  end.

(** A piece is kept when it has bytes and is no larger than the cache. *)
Definition lru_stores (capacity : Z) (data : option piece_data) : bool :=
  match data with Some d => negb ((size d =? 0) || (capacity <? size d)) | None => false end.

(** What is left of [l] when room for [data] was made. *)
Definition lru_room (capacity : Z) (data : option piece_data) (l : lru) : lru :=
  match data with
  | Some d => if lru_stores capacity data then lru_fit (capacity - size d) l else l
  | None => l
  end.

Definition lru_put (capacity : Z) (l : lru) (k : PieceCacheKey) (data : option piece_data) (ok : bool) : lru :=
  let l := lru_room capacity data (lru_remove k l) in
  match data with
  | Some d => if lru_stores capacity data && ok then (k, d) :: l else l
  | None => l
  end.

Definition lru_erase_torrent (l : lru) (id : text) : lru := filter (fun e => key_torrent_id e.1 <> id) l.

(** The counters: every entry of [l] that is not in [l'] was evicted. *)
Definition count_evictions (n : Z) (l l' : lru) : Z :=
  saturating_add n (Z.of_nat (length l - length l')).

(** The abstract value of a cache: the entries in the order of the recency list. *)
Fixpoint view (m : gmap PieceCacheKey Entry) (r : list node) : lru :=
  match r with
  | [] => []
  | n :: r' => match m !! n.2 with
               | Some e => (n.2, entry_data e) :: view m r'
               | None => view m r'
               end
  end.
Definition contents (c : PieceCache) : lru := view (entries c) (recency c).

(** The representation invariant: the list nodes and the entries point to each
    other, and the byte count is exact. *)
Record cache_ok (c : PieceCache) : Prop := {
  ok_nodes : NoDup (recency c).*1;
  ok_keys : NoDup (recency c).*2;
  ok_fresh : forall n, n ∈ recency c -> n.1 < next_node c;
  ok_link : forall i k, (i, k) ∈ recency c <-> exists d, entries c !! k = Some (MkEntry d i);
  ok_used : used_bytes c = total (contents c);
  ok_bound : used_bytes c <= capacity_bytes c;
  ok_capacity : is_u64 (capacity_bytes c);
}.

(** ** Lemmas on the abstract cache *)

Lemma size_nonneg v : 0 <= size v.
Proof. unfold size. lia. Qed.

Lemma total_app a b : total (a ++ b) = total a + total b.
Proof. induction a as [|e a IH]; simpl; [done|]. lia. Qed.

Lemma total_nonneg l : 0 <= total l.
Proof. induction l as [|e l IH]; simpl; [done|]. pose proof (size_nonneg e.2). lia. Qed.

Lemma total_fit room l : 0 <= room -> total (lru_fit room l) <= room.
Proof.
  revert room. induction l as [|e l IH]; intros room Hr; simpl; [done|].
  destruct (Z.leb_spec (size e.2) room); simpl; [|done]. specialize (IH (room - size e.2)). lia.
Qed.

Lemma fit_id room l : total l <= room -> lru_fit room l = l.
Proof.
  revert room. induction l as [|e l IH]; intros room Hr; simpl in *; [done|].
  pose proof (total_nonneg l). destruct (Z.leb_spec (size e.2) room); [|lia]. by rewrite IH by lia.
Qed.

Lemma fit_snoc room l e : room < total (l ++ [e]) -> lru_fit room (l ++ [e]) = lru_fit room l.
Proof.
  revert room. induction l as [|f l IH]; intros room Hr; simpl in *.
  - destruct (Z.leb_spec (size e.2) room); [lia|done].
  - destruct (Z.leb_spec (size f.2) room); [|done]. f_equal. apply IH. lia.
Qed.

Lemma fit_prefix room l : lru_fit room l `prefix_of` l.
Proof.
  revert room. induction l as [|e l IH]; intros room; simpl; [done|].
  destruct (size e.2 <=? room); [apply prefix_cons, IH|apply prefix_nil].
Qed.

Lemma lru_remove_notin k (l : lru) : k ∉ l.*1 -> lru_remove k l = l.
Proof.
  induction l as [|[k' d] l IH]; intros Hk; [done|]. rewrite fmap_cons, not_elem_of_cons in Hk.
  destruct Hk as [Hne Hk]. unfold lru_remove in *. simpl in Hne.
  rewrite filter_cons_True by (simpl; congruence). by rewrite IH.
Qed.

Lemma total_remove k d l :
  NoDup l.*1 -> lru_find k l = Some d -> total l = size d + total (lru_remove k l).
Proof.
  induction l as [|[k' d'] l IH]; intros Hnd Hf; [done|]. simpl in Hf.
  rewrite fmap_cons in Hnd. apply NoDup_cons in Hnd as [Hk Hnd]. simpl in Hk.
  unfold lru_remove. destruct (decide (k' = k)) as [->|Hne].
  - injection Hf as ->. rewrite filter_cons_False by (simpl; tauto).
    fold (lru_remove k l). by rewrite lru_remove_notin by done.
  - rewrite filter_cons_True by done. simpl. fold (lru_remove k l). rewrite (IH Hnd Hf). lia.
Qed.

(** ** The concrete cache and its abstract value *)

Lemma view_keys m r : (forall n, n ∈ r -> is_Some (m !! n.2)) -> (view m r).*1 = r.*2.
Proof.
  induction r as [|n r IH]; intros H; [done|]. simpl.
  destruct (H n (list_elem_of_here n r)) as [e He]. rewrite He. simpl.
  f_equal. apply IH. intros n' Hn'. apply H. by right.
Qed.

Lemma view_find m r k :
  lru_find k (view m r) = if decide (k ∈ r.*2) then entry_data <$> m !! k else None.
Proof.
  induction r as [|n r IH]; [done|].
  rewrite fmap_cons, (decide_ext (k ∈ n.2 :: r.*2) (k = n.2 \/ k ∈ r.*2)) by apply elem_of_cons.
  cbn [view]. destruct (m !! n.2) as [e|] eqn:E; cbn [lru_find].
  - destruct (decide (n.2 = k)) as [<-|Hne].
    + rewrite decide_True by (by left). by rewrite E.
    + rewrite IH. destruct (decide (k ∈ r.*2)).
      * by rewrite decide_True by (by right).
      * by rewrite decide_False by naive_solver.
  - rewrite IH. destruct (decide (k ∈ r.*2)).
    + by rewrite decide_True by (by right).
    + destruct (decide (n.2 = k)) as [<-|Hne].
      * rewrite decide_True by (by left). by rewrite E.
      * by rewrite decide_False by naive_solver.
Qed.

Lemma view_delete m k r : view (delete k m) (filter (fun n => n.2 <> k) r) = lru_remove k (view m r).
Proof.
  induction r as [|n r IH]; [done|]. rewrite filter_cons. unfold lru_remove in *.
  destruct (decide (n.2 <> k)) as [Hne|Heq].
  - cbn [view]. rewrite lookup_delete_ne by congruence. destruct (m !! n.2) as [e|]; [|done].
    rewrite filter_cons_True by done. by rewrite IH.
  - assert (n.2 = k) as <- by (destruct (decide (n.2 = k)); tauto). cbn [view].
    destruct (m !! n.2) as [e|]; [|done]. rewrite filter_cons_False by (simpl; tauto). done.
Qed.

Lemma view_insert_notin m k e r : k ∉ r.*2 -> view (<[k := e]> m) r = view m r.
Proof.
  induction r as [|n r IH]; [done|]. rewrite fmap_cons, not_elem_of_cons. intros [Hne Hr].
  cbn [view]. rewrite lookup_insert_ne by done. by rewrite IH.
Qed.

Lemma contents_view c : contents c = view (entries c) (recency c).
Proof. done. Qed.

Section ok.
Context (c : PieceCache) (Hok : cache_ok c).

Lemma ok_entry n : n ∈ recency c -> exists d, entries c !! n.2 = Some (MkEntry d n.1).
Proof. destruct n as [i k]. apply (ok_link c Hok). Qed.

Lemma ok_node k e : entries c !! k = Some e -> (entry_recency e, k) ∈ recency c.
Proof. destruct e as [d i]. intros H. apply (ok_link c Hok). eauto. Qed.

Lemma contents_keys : (contents c).*1 = (recency c).*2.
Proof. apply view_keys. intros n [d Hd]%ok_entry. eauto. Qed.

Lemma contents_NoDup : NoDup (contents c).*1.
Proof. rewrite contents_keys. apply (ok_keys c Hok). Qed.

Lemma contents_find k : lru_find k (contents c) = entry_data <$> entries c !! k.
Proof.
  rewrite contents_view, view_find. destruct (decide _) as [|Hn]; [done|].
  destruct (entries c !! k) as [e|] eqn:E; [|done]. destruct Hn.
  apply ok_node in E. apply list_elem_of_fmap. by exists (entry_recency e, k).
Qed.

(** The node of an entry is the only one with its identity, and with its key. *)
Lemma node_unique k e n :
  entries c !! k = Some e -> n ∈ recency c -> n.1 = entry_recency e <-> n.2 = k.
Proof.
  intros He Hn. destruct (ok_entry n Hn) as [d Hd]. pose proof (ok_node k e He) as Hk. split.
  - intros Hi. apply list_elem_of_lookup in Hn as [a Ha], Hk as [b Hb].
    assert (a = b) as ->; [|rewrite Ha in Hb; by injection Hb as ->].
    apply (NoDup_lookup (recency c).*1 a b n.1); [apply (ok_nodes c Hok)|..].
    + by rewrite list_lookup_fmap, Ha.
    + by rewrite list_lookup_fmap, Hb, Hi.
  - intros <-. rewrite He in Hd. by injection Hd as ->.
Qed.

Lemma erase_recency k e :
  entries c !! k = Some e ->
  list_erase (entry_recency e) (recency c) = filter (fun n => n.2 <> k) (recency c).
Proof.
  intros He. unfold list_erase. apply filter_ext_in. intros n Hn.
  by rewrite (node_unique k e n He Hn).
Qed.

Lemma erase_contents k e :
  entries c !! k = Some e -> contents (erase c k e) = lru_remove k (contents c).
Proof. intros He. rewrite !contents_view. simpl. rewrite (erase_recency k e He). apply view_delete. Qed.

Lemma erase_ok k e : entries c !! k = Some e -> cache_ok (erase c k e).
Proof.
  intros He. pose proof (erase_contents k e He) as Hc.
  assert (Ht : total (contents c) = size (entry_data e) + total (lru_remove k (contents c))).
  { apply total_remove; [apply contents_NoDup|]. by rewrite contents_find, He. }
  assert (Hu : used_bytes (erase c k e) = total (lru_remove k (contents c))).
  { simpl. rewrite (ok_used c Hok), wrap64_id; [lia|].
    pose proof (total_nonneg (lru_remove k (contents c))). pose proof (ok_bound c Hok) as Hb.
    rewrite (ok_used c Hok) in Hb. pose proof (ok_capacity c Hok). pose proof (size_nonneg (entry_data e)). ulia. }
  constructor; simpl; rewrite ?(erase_recency k e He).
  - apply NoDup_fmap_filter, (ok_nodes c Hok).
  - apply NoDup_fmap_filter, (ok_keys c Hok).
  - intros n [_ Hn]%list_elem_of_filter. by apply (ok_fresh c Hok).
  - intros i k'. rewrite list_elem_of_filter, (ok_link c Hok). simpl.
    destruct (decide (k' = k)) as [->|Hne].
    + rewrite lookup_delete_eq. naive_solver.
    + rewrite lookup_delete_ne by done. naive_solver.
  - simpl in Hu. by rewrite Hu, Hc.
  - simpl in Hu. rewrite Hu. pose proof (ok_bound c Hok). rewrite (ok_used c Hok) in *.
    pose proof (size_nonneg (entry_data e)). lia.
  - apply (ok_capacity c Hok).
Qed.
End ok.

(** Counters are not part of the representation. *)
Lemma with_counters_ok c h m e : cache_ok c -> cache_ok (with_counters c h m e).
Proof. intros []. by constructor. Qed.

Lemma filter_node (r : list node) i k :
  NoDup r.*1 -> (i, k) ∈ r -> filter (fun n => n.1 = i) r = [(i, k)].
Proof.
  induction r as [|[j l] r IH]; intros Hnd Hin; [set_solver|].
  rewrite fmap_cons in Hnd. apply NoDup_cons in Hnd as [Hj Hnd]. simpl in Hj.
  rewrite filter_cons. simpl. destruct (decide (j = i)) as [->|Hne].
  - assert (l = k) as ->.
    { apply elem_of_cons in Hin as [[= ->]|Hin]; [done|]. destruct Hj. apply list_elem_of_fmap. by exists (i, k). }
    f_equal. apply filter_none. intros n Hn <-. destruct Hj. apply list_elem_of_fmap. by exists n.
  - apply IH; [done|]. apply elem_of_cons in Hin as [[= -> ->]|]; done.
Qed.

Lemma splice_spec c k e :
  cache_ok c -> entries c !! k = Some e ->
  list_splice_front (entry_recency e) (recency c) =
    (entry_recency e, k) :: filter (fun n => n.2 <> k) (recency c).
Proof.
  intros Hok He. unfold list_splice_front. rewrite (erase_recency c Hok k e He).
  rewrite (filter_node _ _ k); [done|apply (ok_nodes c Hok)|by apply ok_node].
Qed.

Lemma view_filter m k r :
  view m (filter (fun n => n.2 <> k) r) = lru_remove k (view m r).
Proof.
  induction r as [|n r IH]; [done|]. rewrite filter_cons. unfold lru_remove in *.
  destruct (decide (n.2 <> k)) as [Hne|Heq]; cbn [view].
  - destruct (m !! n.2) as [e|]; [|done]. rewrite filter_cons_True by done. by rewrite IH.
  - destruct (m !! n.2) as [e|]; [|done]. rewrite filter_cons_False by (simpl; tauto). done.
Qed.

(** [get] is the abstract lookup: it returns the data and moves the entry to the front. *)
Lemma get_refines c k :
  cache_ok c ->
  cache_ok (get c k).2 /\ lru_get (contents c) k = ((get c k).1, contents (get c k).2).
Proof.
  intros Hok. unfold get, lru_get. rewrite (contents_find c Hok).
  destruct (entries c !! k) as [e|] eqn:He; simpl; [|by split; [apply with_counters_ok|]].
  assert (Hc : contents (with_recency c (list_splice_front (entry_recency e) (recency c)))
               = (k, entry_data e) :: lru_remove k (contents c)).
  { unfold contents. simpl. rewrite (splice_spec c k e Hok He). cbn [view snd]. rewrite He. by rewrite view_filter. }
  split; [apply with_counters_ok|by rewrite <-Hc].
  pose proof (contents_NoDup c Hok) as Hnd.
  constructor; simpl; rewrite ?(splice_spec c k e Hok He).
  - rewrite fmap_cons. apply NoDup_cons. split; [|apply NoDup_fmap_filter, (ok_nodes c Hok)].
    intros (n & Hn1 & [Hn2 Hn]%list_elem_of_filter)%list_elem_of_fmap.
    destruct Hn2. by apply (node_unique c Hok k e n He Hn).
  - rewrite fmap_cons. apply NoDup_cons. split; [|apply NoDup_fmap_filter, (ok_keys c Hok)].
    intros (n & Hk & [Hn2 _]%list_elem_of_filter)%list_elem_of_fmap. simpl in Hk. congruence.
  - intros n [->|[_ Hn]%list_elem_of_filter]%elem_of_cons; [|by apply (ok_fresh c Hok)].
    apply (ok_fresh c Hok), (ok_node c Hok k e He).
  - intros i k'. rewrite elem_of_cons, list_elem_of_filter, (ok_link c Hok). simpl.
    destruct (decide (k' = k)) as [->|Hne]; [|naive_solver]. destruct e as [d j]. simpl. naive_solver.
  - change (used_bytes c = total (contents (with_recency c ((entry_recency e, k) :: filter (fun n => n.2 <> k) (recency c))))).
    rewrite <-(splice_spec c k e Hok He), Hc. simpl. rewrite (ok_used c Hok). apply total_remove; [done|]. by rewrite contents_find, He.
  - apply (ok_bound c Hok).
  - apply (ok_capacity c Hok).
Qed.

Definition same_counters (c' c : PieceCache) : Prop :=
  capacity_bytes c' = capacity_bytes c /\ hits c' = hits c /\ misses c' = misses c /\ evictions c' = evictions c.

(** One turn of the eviction loop removes the last entry of the abstract cache. *)
Lemma last_entry c n r :
  cache_ok c -> recency c = r ++ [n] ->
  exists e, entries c !! n.2 = Some e /\
    contents c = lru_remove n.2 (contents c) ++ [(n.2, entry_data e)] /\
    length (recency (erase c n.2 e)) = length r.
Proof.
  intros Hok Hr. destruct (ok_entry c Hok n) as [d Hd]; [rewrite Hr; set_solver|].
  eexists. split; [done|].
  assert (Hni : n.2 ∉ r.*2).
  { pose proof (ok_keys c Hok) as Hnd. rewrite Hr, fmap_app, NoDup_app in Hnd. destruct Hnd as (_ & Hnd & _).
    intros Hin%Hnd. set_solver. }
  assert (Hfr : filter (fun x => x.2 <> n.2) r = r).
  { apply filter_all. intros x Hx Heq. destruct Hni. rewrite <-Heq. by apply list_elem_of_fmap_2. }
  split.
  - unfold contents at 2. rewrite <-view_filter, Hr, filter_app, Hfr.
    rewrite filter_cons_False, filter_nil, app_nil_r by (simpl; tauto).
    unfold contents. rewrite Hr. clear -Hd. induction r as [|x r IH]; simpl; [by rewrite Hd|].
    destruct (entries c !! x.2); simpl; by rewrite IH.
  - change (length (list_erase (entry_recency (MkEntry d n.1)) (recency c)) = length r).
    rewrite (erase_recency c Hok _ _ Hd), Hr, filter_app, Hfr.
    rewrite filter_cons_False, filter_nil, app_nil_r by (simpl; tauto). done.
Qed.

Lemma count_none n l : n <= U64_MAX -> count_evictions n l l = n.
Proof. intros. unfold count_evictions, saturating_add. rewrite Nat.sub_diag. zcases; lia. Qed.

Lemma count_snoc n l e l' :
  n <= U64_MAX -> (length l' <= length l)%nat ->
  count_evictions (saturating_increment n) l l' = count_evictions n (l ++ [e]) l'.
Proof.
  intros Hn Hl. unfold count_evictions, saturating_increment, saturating_add. rewrite length_app. simpl.
  zcases; lia.
Qed.

(** The eviction loop keeps the most recent entries that leave room, counts the others,
    and has enough turns to do so. *)
Lemma evict_loop_refines fuel ds c :
  cache_ok c -> evictions c <= U64_MAX -> 0 < ds <= capacity_bytes c -> (length (recency c) <= fuel)%nat ->
  let c' := evict_loop fuel ds c in
  cache_ok c' /\ contents c' = lru_fit (capacity_bytes c - ds) (contents c) /\
  capacity_bytes c' = capacity_bytes c /\ hits c' = hits c /\ misses c' = misses c /\
  evictions c' = count_evictions (evictions c) (contents c) (contents c').
Proof.
  revert c. induction fuel as [|fuel IH]; intros c Hok Hev Hds Hlen; cbn [evict_loop].
  { assert (recency c = []) as Hr by (apply nil_length_inv; lia).
    split; [done|]. rewrite count_none by done. unfold contents. by rewrite Hr. }
  destruct (recency c) as [|n r _] eqn:Hr using rev_ind.
  { cbn [last]. split; [done|]. rewrite count_none by done. unfold contents. by rewrite Hr. }
  rewrite last_snoc. destruct (Z.ltb_spec (capacity_bytes c - ds) (used_bytes c)) as [Hlt|Hge].
  2:{ split; [done|]. rewrite count_none by done. split; [|done]. rewrite fit_id; [done|]. by rewrite <-(ok_used c Hok). }
  destruct (last_entry c n r Hok Hr) as (e & He & Hc & Hl). rewrite He.
  set (c1 := with_counters _ _ _ _).
  assert (Hok1 : cache_ok c1) by (apply with_counters_ok, erase_ok; done).
  assert (Hc1 : contents c1 = lru_remove n.2 (contents c)) by apply (erase_contents c Hok n.2 e He).
  assert (Hcap : capacity_bytes c1 = capacity_bytes c) by done.
  rewrite length_app in Hlen. simpl in Hlen.
  assert (Hl1 : (length (recency c1) <= fuel)%nat).
  { change (recency c1) with (recency (erase c n.2 e)). lia. }
  assert (Hev1 : evictions c1 <= U64_MAX) by (simpl; unfold saturating_increment; zcases; lia).
  destruct (IH c1 Hok1 Hev1 Hds Hl1) as (H1 & H2 & H3 & H4 & H5 & H6). split; [done|].
  assert (Hfit : lru_fit (capacity_bytes c1 - ds) (contents c1) = lru_fit (capacity_bytes c - ds) (contents c)).
  { rewrite Hcap, Hc1. rewrite (ok_used c Hok), Hc in Hlt. rewrite Hc at 2. symmetry. by apply fit_snoc. }
  split; [by rewrite H2|]. do 3 (split; [done|]).
  rewrite H6, H2, Hc, <-Hc1. simpl evictions. apply count_snoc; [done|].
  apply prefix_length, fit_prefix.
Qed.

Lemma insert_new_ok c k d :
  cache_ok c -> entries c !! k = None -> used_bytes c + size d <= capacity_bytes c ->
  insert_new c k d true true =
    (Ok (), MkCache (capacity_bytes c) (used_bytes c + size d) (hits c) (misses c) (evictions c)
              ((next_node c, k) :: recency c) (<[k := MkEntry d (next_node c)]> (entries c)) (next_node c + 1)).
Proof.
  intros Hok Hk Hfit. unfold insert_new. simpl. rewrite Hk. unfold with_storage. simpl.
  rewrite wrap64_id; [done|]. pose proof (ok_capacity c Hok). pose proof (size_nonneg d).
  pose proof (total_nonneg (contents c)). rewrite (ok_used c Hok) in *. ulia.
Qed.

(** Inserting a new key at the front. *)
Lemma insert_new_refines c k d (po eo : bool) :
  cache_ok c -> entries c !! k = None -> used_bytes c + size d <= capacity_bytes c ->
  let r := insert_new c k d po eo in
  r.1 = (if po && eo then Ok () else throw bad_alloc "") /\ cache_ok r.2 /\
  (contents r.2 = if po && eo then (k, d) :: contents c else contents c) /\
  same_counters r.2 c.
Proof.
  intros Hok Hk Hfit. destruct po; [|done]. simpl andb.
  assert (Hnk : k ∉ (recency c).*2).
  { intros (n & -> & Hn)%list_elem_of_fmap. destruct (ok_entry c Hok n Hn) as [e He]. congruence. }
  destruct eo; cbv zeta.
  - rewrite insert_new_ok by done. cbn [fst snd].
    assert (Hcont : view (<[k:=MkEntry d (next_node c)]> (entries c)) ((next_node c, k) :: recency c)
                    = (k, d) :: contents c).
    { cbn [view snd]. rewrite lookup_insert_eq. by rewrite view_insert_notin. }
    split; [done|]. split; [|by split]. constructor; simpl.
    + apply NoDup_cons. split; [|apply (ok_nodes c Hok)].
      intros (n & Hn1 & Hn)%list_elem_of_fmap. apply (ok_fresh c Hok) in Hn. lia.
    + apply NoDup_cons. split; [done|apply (ok_keys c Hok)].
    + intros n [->|Hn%(ok_fresh c Hok)]%elem_of_cons; simpl; lia.
    + intros i k'. rewrite elem_of_cons, (ok_link c Hok).
      destruct (decide (k' = k)) as [->|Hne].
      * rewrite lookup_insert_eq, Hk. naive_solver.
      * rewrite lookup_insert_ne by done. naive_solver.
    + unfold contents. cbn [entries recency]. rewrite Hcont. simpl. rewrite (ok_used c Hok). lia.
    + done.
    + apply (ok_capacity c Hok).
  - unfold insert_new. simpl. split; [done|]. unfold with_storage, contents. simpl.
    split; [|by split]. destruct Hok as [H1 H2 H3 H4 H5 H6 H7]. pose proof (size_nonneg d).
    assert (Hu : wrap64 (wrap64 (used_bytes c + size d) - size d) = used_bytes c).
    { pose proof (total_nonneg (contents c)). rewrite (wrap64_id (_ + _)) by ulia. rewrite wrap64_id; ulia. }
    constructor; simpl; try done; rewrite ?Hu; try done.
    intros n Hn%H3. lia.
Qed.

(** ** Whole calls *)

(** Removing the entry of [k], when there is one. *)
Definition drop_key (c : PieceCache) (k : PieceCacheKey) : PieceCache :=
  match entries c !! k with Some e => erase c k e | None => c end.

Lemma drop_key_refines c k :
  cache_ok c ->
  cache_ok (drop_key c k) /\ contents (drop_key c k) = lru_remove k (contents c) /\
  entries (drop_key c k) !! k = None /\ same_counters (drop_key c k) c.
Proof.
  intros Hok. unfold drop_key. destruct (entries c !! k) as [e|] eqn:He.
  - split; [by apply erase_ok|]. split; [by apply erase_contents|]. split; [|by split].
    simpl. apply lookup_delete_eq.
  - split; [done|]. split; [|by split]. symmetry. apply lru_remove_notin.
    rewrite contents_keys by done. intros (n & -> & Hn)%list_elem_of_fmap.
    destruct (ok_entry c Hok n Hn). congruence.
Qed.

Lemma find_prefix k (l l' : lru) : l' `prefix_of` l -> lru_find k l = None -> lru_find k l' = None.
Proof.
  intros [l'' ->]. induction l' as [|[k' d] l' IH]; [done|]. simpl. by destruct (decide (k' = k)).
Qed.

(** [put]: the abstract insertion, its answer and its counters. *)
Lemma put_refines c k data po eo :
  cache_ok c -> evictions c <= U64_MAX ->
  let r := put c k data po eo in
  let l := lru_remove k (contents c) in
  cache_ok r.2 /\ contents r.2 = lru_put (capacity_bytes c) (contents c) k data (po && eo) /\
  r.1 = (if lru_stores (capacity_bytes c) data && negb (po && eo) then throw bad_alloc "" else Ok ()) /\
  capacity_bytes r.2 = capacity_bytes c /\ hits r.2 = hits c /\ misses r.2 = misses c /\
  evictions r.2 = count_evictions (evictions c) l (lru_room (capacity_bytes c) data l).
Proof.
  intros Hok Hev. destruct (drop_key_refines c k Hok) as (Hok1 & Hc1 & Hk1 & Hcap & Hh & Hm & He).
  unfold put. fold (drop_key c k). set (c1 := drop_key c k) in *. cbv zeta.
  unfold lru_put, lru_room, lru_stores. rewrite <-Hc1, Hcap.
  destruct data as [d|]; [|simpl; rewrite (count_none (evictions c) (contents c1) Hev); tauto].
  destruct ((size d =? 0) || _) eqn:Hg; simpl; [rewrite (count_none (evictions c) (contents c1) Hev); tauto|].
  apply orb_false_iff in Hg as [Hd0%Z.eqb_neq Hdc%Z.ltb_ge].
  destruct (evict_loop_refines (length (recency c1)) (size d) c1) as (Hok2 & Hc2 & Hcap2 & Hh2 & Hm2 & He2);
    [done|by rewrite He|pose proof (size_nonneg d); lia|lia|].
  set (c2 := evict_loop _ _ _) in *.
  destruct (insert_new_refines c2 k d po eo) as (Hr & Hok3 & Hc3 & H3); [done|..].
  { pose proof (contents_find c2 Hok2 k) as Hf. rewrite Hc2 in Hf.
    rewrite (find_prefix k (contents c1)) in Hf; [by destruct (entries c2 !! k)|apply fit_prefix|].
    by rewrite (contents_find c1 Hok1), Hk1. }
  { rewrite (ok_used c2 Hok2), Hc2, Hcap2. pose proof (total_fit (capacity_bytes c1 - size d) (contents c1)). lia. }
  destruct H3 as (H31 & H32 & H33 & H34). split; [done|].
  rewrite Hc3, Hc2, Hcap. split; [done|]. split; [by rewrite Hr; destruct (po && eo)|].
  rewrite H31, H32, H33, H34, Hcap2, Hh2, Hm2, He2, Hc2, Hcap, He, Hc1. done.
Qed.

Lemma lru_remove_filter_ext (P Q : PieceCacheKey * piece_data -> Prop)
    `{!forall x, Decision (P x), !forall x, Decision (Q x)} k (l : lru) :
  (forall e, e ∈ l -> e.1 <> k -> P e <-> Q e) -> (forall e, e.1 = k -> ~ Q e) ->
  filter P (lru_remove k l) = filter Q l.
Proof.
  intros HPQ HQ. unfold lru_remove. rewrite list_filter_filter. apply filter_ext_in.
  intros e He. split.
  - intros [HP Hne]. by apply (HPQ e He Hne).
  - intros HQe. destruct (decide (e.1 = k)) as [Hk|Hne]; [by destruct (HQ e Hk)|]. by split; [apply HPQ|].
Qed.

(** The loop over the hash table removes the entries of the torrent it has visited. *)
Lemma erase_torrent_loop id (l : list (PieceCacheKey * Entry)) c :
  cache_ok c -> NoDup l.*1 -> (forall e, e ∈ l -> entries c !! e.1 = Some e.2) ->
  let c' := fold_left (fun c e => if decide (key_torrent_id e.1 = id) then erase c e.1 e.2 else c) l c in
  cache_ok c' /\ same_counters c' c /\
  contents c' = filter (fun e => ~ (key_torrent_id e.1 = id /\ e.1 ∈ l.*1)) (contents c).
Proof.
  revert c. induction l as [|[k e] l IH]; intros c Hok Hnd Hl; cbn [fold_left].
  { split; [done|]. split; [by split|]. symmetry. apply filter_all. intros e He [_ []%elem_of_nil]. }
  rewrite fmap_cons in Hnd. apply NoDup_cons in Hnd as [Hk Hnd]. simpl in Hk.
  pose proof (Hl _ (list_elem_of_here _ _)) as He. simpl in He. simpl fst; simpl snd.
  destruct (decide (key_torrent_id k = id)) as [Hid|Hid].
  - destruct (IH (erase c k e)) as (H1 & (H2 & H3 & H4 & H5) & H6).
    + by apply erase_ok.
    + done.
    + intros e' He'. simpl. rewrite lookup_delete_ne; [apply Hl; by right|].
      intros ->. destruct Hk. by apply list_elem_of_fmap_2.
    + split; [done|]. split; [by repeat split|]. rewrite H6, (erase_contents c Hok k e He).
      apply lru_remove_filter_ext.
      * intros e' _ Hne. rewrite fmap_cons, elem_of_cons. simpl. tauto.
      * intros e' -> Hn. apply Hn. split; [done|]. rewrite fmap_cons. apply elem_of_cons. by left.
  - destruct (IH c) as (H1 & H2 & H3); [done|done|intros; apply Hl; by right|].
    split; [done|]. split; [done|]. rewrite H3. apply filter_ext_in. intros e' _.
    rewrite fmap_cons, elem_of_cons. simpl. split; [|tauto]. intros Hn [Hi [Hek|]]; [congruence|tauto].
Qed.

Lemma erase_torrent_refines c id :
  cache_ok c ->
  cache_ok (erase_torrent c id) /\ same_counters (erase_torrent c id) c /\
  contents (erase_torrent c id) = lru_erase_torrent (contents c) id.
Proof.
  intros Hok. destruct (erase_torrent_loop id (map_to_list (entries c)) c) as (H1 & H2 & H3).
  - done.
  - apply NoDup_fst_map_to_list.
  - intros [k e] He. by apply elem_of_map_to_list in He.
  - split; [done|]. split; [done|]. unfold erase_torrent. rewrite H3.
    apply filter_ext_in. intros e He.
    assert (Hin : e.1 ∈ (contents c).*1) by (by apply list_elem_of_fmap_2).
    rewrite (contents_keys c Hok) in Hin. apply list_elem_of_fmap in Hin as (n & Hn1 & Hn).
    destruct (ok_entry c Hok n Hn) as [d Hd]. rewrite <-Hn1 in Hd. apply elem_of_map_to_list in Hd.
    assert (e.1 ∈ (map_to_list (entries c)).*1).
    { apply list_elem_of_fmap. eexists. by split; [|exact Hd]. }
    tauto.
Qed.

Lemma new_cache_ok cap : is_u64 cap -> cache_ok (new_cache cap).
Proof.
  intros Hc. constructor; simpl; try apply NoDup_nil_2; try ulia.
  - intros n Hn. by apply elem_of_nil in Hn.
  - intros i k. split; [by intros ?%elem_of_nil|]. intros [d Hd]. by rewrite lookup_empty in Hd.
Qed.

Lemma clear_refines c :
  cache_ok c -> cache_ok (clear c) /\ contents (clear c) = [] /\ same_counters (clear c) c.
Proof.
  intros Hok. split; [|by split]. pose proof (ok_capacity c Hok). constructor; simpl; try apply NoDup_nil_2; try ulia.
  - intros n Hn. by apply elem_of_nil in Hn.
  - intros i k. split; [by intros ?%elem_of_nil|]. intros [d Hd]. by rewrite lookup_empty in Hd.
Qed.

(** The hash table has as many entries as the recency list. *)
Lemma entries_count c : cache_ok c -> base.size (entries c) = length (contents c).
Proof.
  intros Hok. rewrite <-(length_fmap fst), <-(length_map_to_list (entries c)), <-(length_fmap fst (map_to_list _)).
  apply Permutation_length, NoDup_Permutation.
  - apply NoDup_fst_map_to_list.
  - by apply contents_NoDup.
  - intros k. rewrite (contents_keys c Hok). split.
    + intros ([k' e] & -> & He%elem_of_map_to_list)%list_elem_of_fmap.
      apply list_elem_of_fmap. eexists. by split; [|apply (ok_node c Hok k' e He)].
    + intros (n & -> & Hn)%list_elem_of_fmap. destruct (ok_entry c Hok n Hn) as [d Hd].
      apply list_elem_of_fmap. eexists. split; [|apply elem_of_map_to_list, Hd]. done.
Qed.

(** ** Sequences of calls *)

Inductive cache_call :=
| CallGet (k : PieceCacheKey)
| CallContains (k : PieceCacheKey)
| CallPut (k : PieceCacheKey) (data : option piece_data) (push_ok emplace_ok : bool)
| CallEraseTorrent (id : text)
| CallClear
| CallStats.

Inductive cache_answer :=
| AnswerData (d : option piece_data)
| AnswerBool (b : bool)
| AnswerDone (r : result unit)
| AnswerStats (s : PieceCacheStats).

Definition cache_step (c : PieceCache) (call : cache_call) : cache_answer * PieceCache :=
  match call with
  | CallGet k => let (d, c) := get c k in (AnswerData d, c)
  | CallContains k => (AnswerBool (contains c k), c)
  | CallPut k data po eo => let (r, c) := put c k data po eo in (AnswerDone r, c)
  | CallEraseTorrent id => (AnswerDone (Ok ()), erase_torrent c id)
  | CallClear => (AnswerDone (Ok ()), clear c)
  | CallStats => (AnswerStats (stats c), c)
  end.

(** The abstract cache: its entries, most recent first, and the three counters. *)
Record Lru := MkLru { lru_entries : lru; lru_hits : Z; lru_misses : Z; lru_evictions : Z }.

Definition lru_step (cap : Z) (s : Lru) (call : cache_call) : cache_answer * Lru :=
  let '(MkLru l h m e) := s in
  match call with
  | CallGet k =>
    match lru_find k l with
    | Some d => (AnswerData (Some d), MkLru ((k, d) :: lru_remove k l) (saturating_increment h) m e)
    | None => (AnswerData None, MkLru l h (saturating_increment m) e)
    end
  | CallContains k => (AnswerBool (bool_decide (is_Some (lru_find k l))), s)
  | CallPut k data po eo =>
    (AnswerDone (if lru_stores cap data && negb (po && eo) then throw bad_alloc "" else Ok ()),
     MkLru (lru_put cap l k data (po && eo)) h m
       (count_evictions e (lru_remove k l) (lru_room cap data (lru_remove k l))))
  | CallEraseTorrent id => (AnswerDone (Ok ()), MkLru (lru_erase_torrent l id) h m e)
  | CallClear => (AnswerDone (Ok ()), MkLru [] h m e)
  | CallStats => (AnswerStats (MkStats cap (total l) h m e (Z.of_nat (length l))), s)
  end.

Fixpoint run_calls {S} (step : S -> cache_call -> cache_answer * S) (s : S) (calls : list cache_call)
  : list cache_answer * S :=
  match calls with
  | [] => ([], s)
  | call :: calls' =>
    let (a, s1) := step s call in
    let (rest, s2) := run_calls step s1 calls' in (a :: rest, s2)
  end.

Definition abs (c : PieceCache) : Lru := MkLru (contents c) (hits c) (misses c) (evictions c).

Record cache_inv (cap : Z) (c : PieceCache) : Prop := {
  inv_ok : cache_ok c;
  inv_cap : capacity_bytes c = cap;
  inv_evictions : evictions c <= U64_MAX;
}.

Lemma count_bound n l l' : count_evictions n l l' <= U64_MAX.
Proof. unfold count_evictions, saturating_add. zcases; lia. Qed.

(** Every call is one step of the abstract cache. *)
Lemma cache_step_refines cap c call :
  cache_inv cap c ->
  cache_inv cap (cache_step c call).2 /\
  lru_step cap (abs c) call = ((cache_step c call).1, abs (cache_step c call).2).
Proof.
  intros [Hok <- Hev]. destruct call as [k|k|k data po eo|id| |]; unfold lru_step, abs, cache_step.
  - destruct (get_refines c k Hok) as [H1 H2]. revert H1 H2. unfold get, lru_get.
    rewrite (contents_find c Hok). destruct (entries c !! k) as [e|]; simpl; intros H1 H2.
    + split; [by constructor|]. injection H2 as ->. done.
    + split; [by constructor|done].
  - simpl. split; [by constructor|]. rewrite (contents_find c Hok). unfold contains.
    f_equal. f_equal. apply bool_decide_ext. by rewrite fmap_is_Some.
  - pose proof (put_refines c k data po eo Hok Hev) as (H1 & H2 & H3 & H4 & H5 & H6 & H7).
    destruct (put c k data po eo) as [r c']; simpl in *. subst r. rewrite <-H2, H5, H6, H7.
    split; [|done]. constructor; [done|done|]. rewrite H7. apply count_bound.
  - destruct (erase_torrent_refines c id Hok) as (H1 & (H2 & H3 & H4 & H5) & H6). simpl.
    rewrite <-H6, H3, H4, H5. split; [|done]. constructor; [done|done|]. by rewrite H5.
  - destruct (clear_refines c Hok) as (H1 & H2 & H3). simpl. split; [by constructor|done].
  - simpl. split; [by constructor|]. unfold stats. rewrite (ok_used c Hok), (entries_count c Hok). done.
Qed.

Lemma run_calls_refines cap calls c :
  cache_inv cap c ->
  cache_inv cap (run_calls cache_step c calls).2 /\
  run_calls (lru_step cap) (abs c) calls =
    ((run_calls cache_step c calls).1, abs (run_calls cache_step c calls).2).
Proof.
  revert c. induction calls as [|call calls IH]; intros c Hc; [done|]. cbn [run_calls].
  destruct (cache_step_refines cap c call Hc) as [H1 H2]. rewrite H2.
  destruct (cache_step c call) as [a c1]. simpl in H1. destruct (IH c1 H1) as [H3 H4].
  cbn [fst snd]. rewrite H4. by destruct (run_calls cache_step c1 calls).
Qed.

Lemma new_cache_inv cap : is_u64 cap -> cache_inv cap (new_cache cap).
Proof. intros H. by constructor; [apply new_cache_ok| |]. Qed.

(** Room is made by dropping no more than it takes. *)
Lemma fit_maximal room l :
  exists dropped, l = lru_fit room l ++ dropped /\
    match dropped with [] => True | e :: _ => room < total (lru_fit room l) + size e.2 end.
Proof.
  revert room. induction l as [|e l IH]; intros room; simpl; [by exists []|].
  destruct (Z.leb_spec (size e.2) room).
  - destruct (IH (room - size e.2)) as (dr & H1 & H2). exists dr. split; [by rewrite H1 at 1|].
    destruct dr; [done|]. simpl. lia.
  - by exists (e :: l).
Qed.

(** ** The properties *)

Definition empty_lru : Lru := MkLru [] 0 0 0.

(** C11. The verified piece cache is an LRU cache: on every sequence of calls of its six
    operations, failed allocations included, it gives the answers of the abstract cache,
    a list of entries from the most to the least recently used with exact statistics. *)
Theorem cache_refines_lru (cap : Z) (calls : list cache_call) (Hcap : is_u64 cap) :
  (run_calls cache_step (new_cache cap) calls).1 = (run_calls (lru_step cap) empty_lru calls).1.
Proof.
  destruct (run_calls_refines cap calls _ (new_cache_inv cap Hcap)) as [_ H].
  change empty_lru with (abs (new_cache cap)). by rewrite H.
Qed.

(** After every sequence of calls, failed allocations included, the byte count is the
    sum of the sizes of the stored pieces, within the capacity, and the recency list has
    one node per entry of the hash table. *)
Theorem cache_stays_bounded (cap : Z) (calls : list cache_call) (Hcap : is_u64 cap) :
  let c := (run_calls cache_step (new_cache cap) calls).2 in
  used_bytes c = total (contents c) /\ used_bytes c <= cap /\
  length (recency c) = base.size (entries c) /\
  forall k, lru_find k (contents c) = entry_data <$> entries c !! k.
Proof.
  destruct (run_calls_refines cap calls _ (new_cache_inv cap Hcap)) as [[Hok Hc _] _].
  cbv zeta. split; [apply (ok_used _ Hok)|]. split; [pose proof (ok_bound _ Hok); lia|].
  split; [|apply (contents_find _ Hok)]. rewrite (entries_count _ Hok).
  by rewrite <-(length_fmap fst (contents _)), (contents_keys _ Hok), length_fmap.
Qed.

(** Storing a piece that fits makes it readable, at the front, and evicts no more than
    necessary: the entries dropped are the least recently used ones, and the first of
    them would not have fitted. *)
Theorem put_then_get (cap : Z) (calls : list cache_call) (k : PieceCacheKey) (d : piece_data)
    (Hcap : is_u64 cap) (Hd : 0 < size d <= cap) :
  let c := (run_calls cache_step (new_cache cap) calls).2 in
  let c' := (put c k (Some d) true true).2 in
  (get c' k).1 = Some d /\
  exists kept dropped,
    lru_remove k (contents c) = kept ++ dropped /\ contents c' = (k, d) :: kept /\
    match dropped with [] => True | e :: _ => cap < size d + total kept + size e.2 end.
Proof.
  destruct (run_calls_refines cap calls _ (new_cache_inv cap Hcap)) as [[Hok Hc Hev] _]. cbv zeta.
  set (c := (run_calls _ _ _).2) in *.
  destruct (put_refines c k (Some d) true true Hok Hev) as (Hok' & Hcont & _). set (c' := (put _ _ _ _ _).2) in *.
  assert (Hl : contents c' = (k, d) :: lru_fit (cap - size d) (lru_remove k (contents c))).
  { rewrite Hcont, Hc. unfold lru_put, lru_room, lru_stores.
    rewrite (proj2 (Z.eqb_neq (size d) 0)), (proj2 (Z.ltb_ge cap (size d))) by lia. done. }
  split.
  - destruct (get_refines c' k Hok') as [_ Hg]. unfold lru_get in Hg. rewrite Hl in Hg. simpl in Hg.
    rewrite decide_True in Hg by done. by injection Hg as <-.
  - destruct (fit_maximal (cap - size d) (lru_remove k (contents c))) as (dr & H1 & H2).
    eexists _, dr. split; [exact H1|]. split; [exact Hl|]. destruct dr; [done|]. lia.
Qed.

(** ** Witnesses, on the scenario of tests/verified_piece_cache_test.cpp *)

Definition test_key (i : Z) : PieceCacheKey := MkKey (str "torrent") i.
Definition test_calls : list cache_call :=
  [CallPut (test_key 0) (Some (str "aaaa")) true true; CallPut (test_key 1) (Some (str "bbbb")) true true;
   CallGet (test_key 0); CallPut (test_key 2) (Some (str "cccc")) true true;
   CallGet (test_key 0); CallGet (test_key 1); CallGet (test_key 2); CallStats].

Lemma cache_refines_lru_witness :
  (run_calls cache_step (new_cache 8) test_calls).1 =
    [AnswerDone (Ok ()); AnswerDone (Ok ()); AnswerData (Some (str "aaaa")); AnswerDone (Ok ());
     AnswerData (Some (str "aaaa")); AnswerData None; AnswerData (Some (str "cccc"));
     AnswerStats (MkStats 8 8 3 1 1 2)].
Proof. rewrite (cache_refines_lru 8 test_calls); [vm_compute; reflexivity|ulia]. Defined.
