(* ===== verification/HttpProtocol.v ===== *)
(** The HTTP protocol of the loopback server: src/http/http_protocol.cpp and
    include/nuvio_engine/http_protocol.hpp.  Request heads are parsed, response heads
    are built. *)
From stdpp Require Import prelude strings list.
From Stdlib Require Import ZArith Lia Ascii.
From S2P Require Import Prelude Text ByteRange.

(** ** Data *)

Inductive HttpMethod := method_get | method_head.

Inductive RequestParseStatus := request_ok | request_malformed | header_too_large | method_not_allowed.

Record HttpRequest := MkHttpRequest { rq_method : HttpMethod; rq_target : text; rq_range : option text }.

Record RequestParseResult := MkParse { pr_status : RequestParseStatus; pr_request : option HttpRequest }.

Inductive ResponseStatus :=
| status_ok | status_partial_content | status_bad_request | status_not_found | status_method_not_allowed
| status_range_not_satisfiable | status_request_header_fields_too_large | status_internal_server_error
| status_service_unavailable.

(** The value of the enumerator, a [std::uint16_t]. *)
Definition status_code (s : ResponseStatus) : Z :=
  match s with
  | status_ok => 200 | status_partial_content => 206 | status_bad_request => 400 | status_not_found => 404
  | status_method_not_allowed => 405 | status_range_not_satisfiable => 416
  | status_request_header_fields_too_large => 431 | status_internal_server_error => 500
  | status_service_unavailable => 503
  end.

Record StreamResponse := MkResponse {
  rs_status : ResponseStatus; rs_body_range : option ByteRange; rs_include_body : bool; rs_headers : text }.

#[global] Instance HttpMethod_eq_dec : EqDecision HttpMethod.
Proof. solve_decision. Defined.
#[global] Instance RequestParseStatus_eq_dec : EqDecision RequestParseStatus.
Proof. solve_decision. Defined.
#[global] Instance ResponseStatus_eq_dec : EqDecision ResponseStatus.
Proof. solve_decision. Defined.

Definition maximum_request_head_size : Z := 16 * 1024.
Definition maximum_request_line_size : Z := 4 * 1024.
Definition maximum_header_count : Z := 64.
Definition maximum_target_size : Z := 2 * 1024.

(** ** Lexical classes *)

Definition case_insensitive_equal (left right : text) : bool :=
  (size left =? size right) && text_eqb (tolower <$> left) (tolower <$> right).

Definition separators : text := str "()<>@,;:\" ++ [QUOTE] ++ str "/[]?={} " ++ [TAB].

Definition name_char (c : ascii) : bool :=
  (32 <? code c) && (code c <? 127) && bool_decide (find_char c separators = None).
Definition valid_header_name (name : text) : bool :=
  match name with [] => false | _ => forallb name_char name end.

Definition value_char (c : ascii) : bool := Ascii.eqb c TAB || ((32 <=? code c) && negb (code c =? 127)).
Definition valid_header_value (value : text) : bool := forallb value_char value.

Definition target_char (c : ascii) : bool :=
  (33 <=? code c) && (code c <? 127) && negb (Ascii.eqb c (chr 92)) && negb (Ascii.eqb c (chr 35)).
Definition valid_target (target : text) : bool :=
  match target with
  | [] => false
  | front :: _ =>
    (size target <=? maximum_target_size) && Ascii.eqb front (chr 47) && forallb target_char target
  end.

Definition parse_content_length (value : text) : option Z :=
  let normalized := trim value in
  match normalized with
  | [] => None
  | _ =>
    let r := from_chars_u64 normalized 0 in
    match fc_ec r with
    | errc_none => if (fc_ptr r =? length normalized)%nat then Some (fc_value r) else None
    | _ => None
    end
  end.

(** ** Parsing a request head *)

Definition COLON : ascii := chr 58.

(** The variables of the header loop. *)
Record HeaderState := MkHeaders { hs_range : option text; hs_content_length : option Z; hs_count : Z }.

(** One turn of the loop on the line [line], which is not empty: the status the parser
    returns, or the new variables. *)
Definition header_line (line : text) (st : HeaderState) : RequestParseStatus + HeaderState :=
  let header_count := hs_count st + 1 in
  if maximum_header_count <? header_count then inl header_too_large else
  match line with
  | [] => inl request_malformed
  | front :: _ =>
    if is_blank front then inl request_malformed else
    match find_char COLON line with
    | None => inl request_malformed
    | Some separator =>
      let name := substr 0 separator line in
      let value := trim (substr_from (separator + 1) line) in
      if negb (valid_header_name name) || negb (valid_header_value value) then inl request_malformed
      else if case_insensitive_equal name (str "Range") then
        if bool_decide (is_Some (hs_range st)) || bool_decide (value = []) then inl request_malformed
        else inr (MkHeaders (Some value) (hs_content_length st) header_count)
      else if case_insensitive_equal name (str "Transfer-Encoding") then inl request_malformed
      else if case_insensitive_equal name (str "Content-Length") then
        match parse_content_length value, hs_content_length st with
        | Some parsed, None => inr (MkHeaders (hs_range st) (Some parsed) header_count)
        | _, _ => inl request_malformed
        end
      else inr (MkHeaders (hs_range st) (hs_content_length st) header_count)
    end
  end.

(** The loop: every turn moves [position] past a line end, so the length of the head
    bounds the number of turns ([header_loop_fuel] below). *)
Fixpoint header_loop (fuel : nat) (request_head : text) (position : nat) (st : HeaderState)
  : RequestParseStatus + HeaderState :=
  match fuel with
  | O => inl request_malformed
  | S f =>
    if (position <? length request_head - 2)%nat then
      match find_text_from crlf position request_head with
      | None => inl request_malformed
      | Some line_end =>
        if (line_end =? position)%nat then inr st
        else match header_line (substr position (line_end - position) request_head) st with
             | inl status => inl status
             | inr st' => header_loop f request_head (line_end + 2) st'
             end
      end
    else inr st
  end.

Definition rejected (s : RequestParseStatus) : RequestParseResult := MkParse s None.

(** The request line: its three parts, when it has exactly two spaces. *)
Definition split_request_line (request_line : text) : option (text * text * text) :=
  match find_char SP request_line with
  | None => None
  | Some first_space =>
    match find_char_from SP (first_space + 1) request_line with
    | None => None
    | Some second_space =>
      match find_char_from SP (second_space + 1) request_line with
      | Some _ => None
      | None => Some (substr 0 first_space request_line,
                      substr (first_space + 1) (second_space - first_space - 1) request_line,
                      substr_from (second_space + 1) request_line)
      end
    end
  end.

Definition parse_method (method_text : text) : option HttpMethod :=
  if text_eqb method_text (str "GET") then Some method_get
  else if text_eqb method_text (str "HEAD") then Some method_head
  else None.

Definition valid_version (version : text) : bool :=
  text_eqb version (str "HTTP/1.1") || text_eqb version (str "HTTP/1.0").

Definition parse_http_request_head (request_head : text) : RequestParseResult :=
  if maximum_request_head_size <? size request_head then rejected header_too_large
  else if negb (ends_with (crlf ++ crlf) request_head) then rejected request_malformed
  else match find_text crlf request_head with
  | None => rejected request_malformed
  | Some request_line_end =>
    if maximum_request_line_size <? Z.of_nat request_line_end then rejected request_malformed
    else match split_request_line (substr 0 request_line_end request_head) with
    | None => rejected request_malformed
    | Some (method_text, target, version) =>
      if negb (valid_header_name method_text) || negb (valid_target target) || negb (valid_version version)
      then rejected request_malformed
      else match parse_method method_text with
      | None => rejected method_not_allowed
      | Some method =>
        match header_loop (length request_head) request_head (request_line_end + 2) (MkHeaders None None 0) with
        | inl status => rejected status
        | inr st =>
          if negb (default 0 (hs_content_length st) =? 0) then rejected request_malformed
          else MkParse request_ok (Some (MkHttpRequest method target (hs_range st)))
        end
      end
    end
  end.

(** ** Building a response head *)

Definition reason_phrase (status : ResponseStatus) : text :=
  match status with
  | status_ok => str "OK"
  | status_partial_content => str "Partial Content"
  | status_bad_request => str "Bad Request"
  | status_not_found => str "Not Found"
  | status_method_not_allowed => str "Method Not Allowed"
  | status_range_not_satisfiable => str "Range Not Satisfiable"
  | status_request_header_fields_too_large => str "Request Header Fields Too Large"
  | status_internal_server_error => str "Internal Server Error"
  | status_service_unavailable => str "Service Unavailable"
  end.

Definition valid_content_type (value : text) : bool :=
  match value with
  | [] => false
  | _ => (size value <=? 127) && bool_decide (is_Some (find_char (chr 47) value)) &&
         forallb (fun c => (33 <=? code c) && (code c <? 127)) value
  end.

Definition append_status_line (output : text) (status : ResponseStatus) : text :=
  output ++ str "HTTP/1.1 " ++ to_string (status_code status) ++ [SP] ++ reason_phrase status ++ crlf.

Definition append_common_headers (output : text) : text :=
  output ++ str "Accept-Ranges: bytes" ++ crlf
    ++ str "Access-Control-Allow-Origin: *" ++ crlf
    ++ str "Access-Control-Allow-Headers: Range" ++ crlf
    ++ str "Access-Control-Expose-Headers: Content-Length, Content-Range" ++ crlf
    ++ str "transferMode.dlna.org: Streaming" ++ crlf
    ++ str "Connection: close" ++ crlf.

Definition build_error_response (status : ResponseStatus) (resource_size : Z) : text :=
  let response := append_common_headers (append_status_line [] status) in
  let response := if decide (status = status_method_not_allowed)
                  then response ++ str "Allow: GET, HEAD" ++ crlf else response in
  let response := if decide (status = status_range_not_satisfiable)
                  then response ++ str "Content-Range: bytes */" ++ to_string resource_size ++ crlf
                  else response in
  response ++ str "Content-Length: 0" ++ crlf ++ crlf.

(** The head of a successful response. *)
Definition build_success_response (request : HttpRequest) (status : ResponseStatus) (range : option ByteRange)
    (resource_size : Z) (content_type : text) : StreamResponse :=
  let headers := append_common_headers (append_status_line [] status) in
  let headers := headers ++ str "Content-Type: "
    ++ (if valid_content_type content_type then content_type else str "application/octet-stream") ++ crlf in
  let content_length := match range with Some r => range_length r | None => 0 end in
  let headers := headers ++ str "Content-Length: " ++ to_string content_length ++ crlf in
  let headers := match range with
    | Some r => if decide (status = status_partial_content)
        then headers ++ str "Content-Range: bytes " ++ to_string (range_start r) ++ str "-"
               ++ to_string (range_end r) ++ str "/" ++ to_string resource_size ++ crlf
        else headers
    | None => headers
    end in
  MkResponse status range (bool_decide (rq_method request = method_get) && (0 <? content_length))
    (headers ++ crlf).

Definition build_stream_response (request : HttpRequest) (resource_size : Z) (content_type : text)
  : StreamResponse :=
  let range := parse_range_header (default [] (rq_range request)) resource_size in
  match range_status range with
  | malformed =>
    MkResponse status_bad_request None false (build_error_response status_bad_request 0)
  | unsatisfiable | multiple_ranges_unsupported =>
    MkResponse status_range_not_satisfiable None false
      (build_error_response status_range_not_satisfiable resource_size)
  | partial => build_success_response request status_partial_content (range_value range) resource_size content_type
  | full => build_success_response request status_ok (range_value range) resource_size content_type
  end.

(** ** The grammar of request heads *)

(** A header field: its name and the text after the colon. *)
Abbreviation field := (text * text)%type.
Definition field_line (f : field) : text := f.1 ++ COLON :: f.2.
Definition render_fields (fields : list field) : text := mjoin ((fun f => field_line f ++ crlf) <$> fields).

Definition valid_field (f : field) : Prop :=
  valid_header_name f.1 = true /\ valid_header_value (trim f.2) = true.

(** The values of the fields called [name]. *)
Definition values (name : text) (fields : list field) : list text :=
  (fun f => trim f.2) <$> filter (fun f => case_insensitive_equal f.1 name = true) fields.

(** What the header fields of an acceptable request are: at most one range, which is not
    empty, no transfer encoding, at most one content length. *)
Record described (fields : list field) (st : HeaderState) : Prop := {
  d_valid : Forall valid_field fields;
  d_count : hs_count st = Z.of_nat (length fields);
  d_limit : hs_count st <= maximum_header_count;
  d_range : values (str "Range") fields = option_list (hs_range st);
  d_range_ne : hs_range st <> Some [];
  d_encoding : values (str "Transfer-Encoding") fields = [];
  d_length : parse_content_length <$> values (str "Content-Length") fields = Some <$> option_list (hs_content_length st);
}.

Definition method_text (m : HttpMethod) : text :=
  match m with method_get => str "GET" | method_head => str "HEAD" end.

(** A request line and a head that starts with it. *)
Definition request_line (method target version : text) : text := method ++ SP :: target ++ SP :: version.

Inductive accepted_head (h : text) : HttpRequest -> Prop :=
| Accepted method target version fields rest st :
    h = request_line (method_text method) target version ++ crlf ++ render_fields fields ++ crlf ++ rest ->
    (exists w, h = w ++ crlf ++ crlf) ->
    size h <= maximum_request_head_size ->
    size (request_line (method_text method) target version) <= maximum_request_line_size ->
    valid_target target = true -> valid_version version = true ->
    described fields st -> default 0 (hs_content_length st) = 0 ->
    accepted_head h (MkHttpRequest method target (hs_range st)).

(** ** Characters of the lexical classes *)

Lemma forallb_Forall {A} (p : A -> bool) l : forallb p l = true <-> Forall (fun x => p x = true) l.
Proof. rewrite forallb_forall, Forall_forall. split; intros H x Hx; apply H; by apply list_elem_of_In. Qed.

Lemma value_char_not_control c : value_char c = true -> c <> CR /\ c <> LF.
Proof. intros H. split; intros ->; by vm_compute in H. Qed.

Lemma name_char_spec c : name_char c = true -> value_char c = true /\ is_blank c = false /\ c <> COLON /\ c <> SP.
Proof.
  unfold name_char. rewrite !andb_true_iff, !Z.ltb_lt, bool_decide_eq_true.
  intros [[H1 H2] H3]. split.
  - unfold value_char. apply orb_true_iff. right. apply andb_true_iff. split; [apply Z.leb_le; lia|].
    apply negb_true_iff, Z.eqb_neq. lia.
  - apply find_char_None in H3. split_and!.
    + apply orb_false_iff. rewrite !Ascii.eqb_neq. split; intros ->; apply H3; vm_compute; set_solver.
    + intros ->. apply H3. vm_compute. set_solver.
    + intros ->. apply H3. vm_compute. set_solver.
Qed.

Lemma blank_value_char c : is_blank c = true -> value_char c = true.
Proof.
  unfold is_blank. rewrite orb_true_iff, !eqb_eq_ascii. intros [-> | ->]; vm_compute; done.
Qed.

Lemma target_char_spec c : target_char c = true -> value_char c = true /\ c <> SP.
Proof.
  unfold target_char. rewrite !andb_true_iff, Z.leb_le, Z.ltb_lt. intros [[[H1 H2] _] _]. split.
  - unfold value_char. apply orb_true_iff. right. apply andb_true_iff. split; [apply Z.leb_le; lia|].
    apply negb_true_iff, Z.eqb_neq. lia.
  - intros ->. vm_compute in H1. done.
Qed.

(** Texts without line ends. *)
Definition plain (v : text) : Prop := Forall (fun c => value_char c = true) v.

Lemma plain_app a b : plain (a ++ b) <-> plain a /\ plain b.
Proof. apply Forall_app. Qed.

Lemma plain_no_cr v : plain v -> CR ∉ v.
Proof. unfold plain. rewrite Forall_forall. intros H Hc%H%value_char_not_control. tauto. Qed.

Lemma plain_no_lf v : plain v -> LF ∉ v.
Proof. unfold plain. rewrite Forall_forall. intros H Hc%H%value_char_not_control. tauto. Qed.

Lemma plain_trim v : plain (trim v) -> plain v.
Proof.
  destruct (trim_spec v) as (w & w' & Hw & Hw' & Hv & _). intros H. rewrite Hv.
  apply plain_app. split; [|apply plain_app; split; [done|]];
    (eapply Forall_impl; [eassumption|]); intros; by apply blank_value_char.
Qed.

Lemma valid_name_spec n :
  valid_header_name n = true -> plain n /\ (COLON ∉ n) /\ (SP ∉ n) /\ exists c n', n = c :: n' /\ is_blank c = false.
Proof.
  unfold valid_header_name. destruct n as [|c n']; [done|]. rewrite forallb_Forall. intros H.
  split_and!.
  - eapply Forall_impl; [exact H|]. intros. by apply name_char_spec.
  - rewrite Forall_forall in H. intros Hc%H%name_char_spec. tauto.
  - rewrite Forall_forall in H. intros Hc%H%name_char_spec. tauto.
  - exists c, n'. split; [done|]. apply Forall_inv in H. by apply name_char_spec.
Qed.

Lemma valid_target_spec t :
  valid_target t = true -> plain t /\ (SP ∉ t) /\ head t = Some (chr 47) /\ size t <= maximum_target_size.
Proof.
  unfold valid_target. destruct t as [|c t']; [done|].
  rewrite !andb_true_iff, Z.leb_le, eqb_eq_ascii, forallb_Forall. intros [[H1 ->] H3]. split_and!.
  - eapply Forall_impl; [exact H3|]. intros. by apply target_char_spec.
  - rewrite Forall_forall in H3. intros Hc%H3%target_char_spec. tauto.
  - done.
  - done.
Qed.

Lemma text_eqb_eq a b : text_eqb a b = true <-> a = b.
Proof. apply bool_decide_eq_true. Qed.

Lemma valid_version_spec v : valid_version v = true -> plain v /\ (SP ∉ v).
Proof.
  unfold valid_version. rewrite orb_true_iff, !text_eqb_eq.
  intros [-> | ->]; (split; [by repeat constructor|]); rewrite <-find_char_None; by vm_compute.
Qed.

Lemma valid_field_plain f : valid_field f -> plain (field_line f).
Proof.
  intros [(Hn & _)%valid_name_spec Hv]. apply plain_app. split; [done|]. constructor; [done|].
  apply plain_trim. unfold valid_header_value in Hv. by rewrite forallb_Forall in Hv.
Qed.

(** ** Searching for line ends *)

Lemma find_text_Some needle v i :
  find_text needle v = Some i -> exists a b, v = a ++ needle ++ b /\ length a = i.
Proof.
  revert i. induction v as [|x v IH]; intros i; cbn [find_text]; destruct (starts_with needle _) eqn:E; intros H.
  - injection H as <-. apply starts_with_app in E as [w Hw]. by exists [], w.
  - done.
  - injection H as <-. apply starts_with_app in E as [w Hw]. by exists [], w.
  - apply fmap_Some in H as (j & Hj & ->). destruct (IH j Hj) as (a & b & -> & <-). by exists (x :: a), b.
Qed.

Lemma find_text_crlf a b : CR ∉ a -> find_text crlf (a ++ crlf ++ b) = Some (length a).
Proof.
  induction a as [|x a IH]; intros Ha; [done|].
  rewrite not_elem_of_cons in Ha. destruct Ha as [Hx Ha]. cbn [app find_text].
  assert (starts_with crlf (x :: a ++ crlf ++ b) = false) as ->.
  { cbn [starts_with crlf]. apply andb_false_iff. left. by apply Ascii.eqb_neq. }
  change ([CR; LF] ++ b) with (crlf ++ b). by rewrite IH.
Qed.

(** ** The request line *)

Lemma drop_after {A} (a : list A) x b : drop (length a + 1) (a ++ x :: b) = b.
Proof. by rewrite drop_app_add. Qed.

Lemma find_char_after c a x b :
  find_char_from c (length a + 1) (a ++ x :: b) = Nat.add (length a + 1) <$> find_char c b.
Proof. unfold find_char_from. by rewrite drop_after. Qed.

Lemma request_line_assoc m t v : request_line m t v = (m ++ SP :: t) ++ SP :: v.
Proof. unfold request_line. by rewrite <-app_assoc. Qed.

Lemma length_middle (m t : text) : (length m + 1 + length t)%nat = length (m ++ SP :: t).
Proof. rewrite length_app. simpl. lia. Qed.

(** The three parts of a line that has two spaces. *)
Lemma request_line_parts m t v :
  substr 0 (length m) (request_line m t v) = m /\
  substr (length m + 1) (length (m ++ SP :: t) - length m - 1) (request_line m t v) = t /\
  substr_from (length (m ++ SP :: t) + 1) (request_line m t v) = v.
Proof.
  unfold substr, substr_from. split; [|split].
  - unfold request_line. by rewrite drop_0, take_app_length.
  - unfold request_line. rewrite drop_after, length_app. simpl.
    replace (length m + S (length t) - length m - 1)%nat with (length t) by lia. by rewrite take_app_length.
  - by rewrite request_line_assoc, drop_after.
Qed.

(** A line has exactly two spaces when it is three parts without spaces. *)
Lemma split_request_line_spec line m t v :
  split_request_line line = Some (m, t, v) <->
  line = request_line m t v /\ (SP ∉ m) /\ (SP ∉ t) /\ (SP ∉ v).
Proof.
  unfold split_request_line. split.
  - destruct (find_char SP line) as [i|] eqn:H1; [|done].
    apply find_char_Some in H1 as (m' & r & -> & Hm & <-). rewrite find_char_after.
    destruct (find_char SP r) as [j|] eqn:H2; simpl; [|done].
    apply find_char_Some in H2 as (t' & v' & -> & Ht & <-).
    fold (request_line m' t' v'). rewrite length_middle, request_line_assoc, find_char_after, <-request_line_assoc.
    destruct (find_char SP v') as [k|] eqn:H3; simpl; [done|]. apply find_char_None in H3.
    destruct (request_line_parts m' t' v') as (-> & -> & ->). intros [= <- <- <-]. done.
  - intros (-> & Hm & Ht & Hv). unfold request_line at 1. rewrite find_char_app by done.
    unfold request_line at 1. rewrite find_char_after, find_char_app by done. simpl.
    rewrite length_middle. rewrite request_line_assoc at 1.
    rewrite find_char_after, (proj2 (find_char_None SP v) Hv). simpl.
    by destruct (request_line_parts m t v) as (-> & -> & ->).
Qed.

Lemma parse_method_spec t m : parse_method t = Some m <-> t = method_text m.
Proof.
  unfold parse_method. destruct (text_eqb t (str "GET")) eqn:E1.
  - apply text_eqb_eq in E1 as ->. destruct m; vm_compute; naive_solver.
  - destruct (text_eqb t (str "HEAD")) eqn:E2.
    + apply text_eqb_eq in E2 as ->. destruct m; vm_compute; naive_solver.
    + split; [done|]. intros ->. destruct m; vm_compute in E1, E2; done.
Qed.

Lemma method_text_valid m : valid_header_name (method_text m) = true.
Proof. by destruct m. Qed.

Lemma request_line_plain m t v : plain m -> plain t -> plain v -> plain (request_line m t v).
Proof.
  intros Hm Ht Hv. unfold request_line. apply plain_app. split; [done|]. constructor; [done|].
  apply plain_app. split; [done|]. by constructor.
Qed.

(** ** One header line *)

Lemma values_snoc n fs f :
  values n (fs ++ [f]) = values n fs ++ (if case_insensitive_equal f.1 n then [trim f.2] else []).
Proof.
  unfold values. rewrite filter_app, fmap_app, filter_cons, filter_nil.
  by destruct (case_insensitive_equal f.1 n).
Qed.

(** The three names the parser acts on exclude each other. *)
Lemma case_insensitive_equal_tolower a b :
  case_insensitive_equal a b = true <-> tolower <$> a = tolower <$> b.
Proof.
  unfold case_insensitive_equal. rewrite andb_true_iff, Z.eqb_eq, text_eqb_eq. split; [tauto|].
  intros H. split; [|done]. unfold size. by rewrite <-(length_fmap tolower a), H, length_fmap.
Qed.

Lemma other_name a b c :
  case_insensitive_equal a b = true -> tolower <$> b <> tolower <$> c -> case_insensitive_equal a c = false.
Proof.
  rewrite case_insensitive_equal_tolower. intros H Hne.
  destruct (case_insensitive_equal a c) eqn:E; [|done]. apply case_insensitive_equal_tolower in E. congruence.
Qed.

Lemma option_list_snoc {A} (l : list A) (o : option A) (x : A) (o' : option A) :
  l = option_list o -> l ++ [x] = option_list o' <-> o = None /\ o' = Some x.
Proof. intros ->. destruct o, o'; simpl; split; intros; destruct_and?; simplify_eq/=; try done. Qed.

(** The line of a field is split at its colon. *)
Lemma split_field f :
  COLON ∉ f.1 ->
  find_char COLON (field_line f) = Some (length f.1) /\
  substr 0 (length f.1) (field_line f) = f.1 /\ substr_from (length f.1 + 1) (field_line f) = f.2.
Proof.
  intros H. unfold field_line. split; [by apply find_char_app|]. unfold substr, substr_from.
  rewrite drop_0, take_app_length. split; [done|]. by rewrite drop_app_add.
Qed.

(** The effect of an acceptable field on the variables of the loop. *)
Definition field_effect (st : HeaderState) (f : field) : option HeaderState :=
  let count := hs_count st + 1 in
  if maximum_header_count <? count then None
  else if case_insensitive_equal f.1 (str "Range") then
    if bool_decide (is_Some (hs_range st)) || bool_decide (trim f.2 = []) then None
    else Some (MkHeaders (Some (trim f.2)) (hs_content_length st) count)
  else if case_insensitive_equal f.1 (str "Transfer-Encoding") then None
  else if case_insensitive_equal f.1 (str "Content-Length") then
    match parse_content_length (trim f.2), hs_content_length st with
    | Some parsed, None => Some (MkHeaders (hs_range st) (Some parsed) count)
    | _, _ => None
    end
  else Some (MkHeaders (hs_range st) (hs_content_length st) count).

(** A line is accepted when it is a field, and then acts as the field does. *)
Lemma header_line_field line st st' :
  header_line line st = inr st' <->
  exists f, line = field_line f /\ valid_field f /\ field_effect st f = Some st'.
Proof.
  unfold header_line, field_effect. destruct (maximum_header_count <? hs_count st + 1); [naive_solver|]. split.
  - destruct line as [|front line'] eqn:Hl; [done|]. rewrite <-Hl.
    destruct (is_blank front); [done|]. destruct (find_char COLON line) as [sep|] eqn:Hs; [|done].
    apply find_char_Some in Hs as (nm & raw & -> & Hnc & <-).
    destruct (split_field (nm, raw) Hnc) as (_ & H1 & H2). unfold field_line in H1, H2. simpl in H1, H2.
    rewrite H1, H2. destruct (_ || _) eqn:Hv; [done|].
    apply orb_false_iff in Hv as [Hv1%negb_false_iff Hv2%negb_false_iff].
    intros H. exists (nm, raw). split; [done|]. split; [done|]. cbn [fst snd]. revert H. by repeat case_match; intros; simplify_eq.
  - intros (f & -> & [Hn Hv] & H). destruct (valid_name_spec _ Hn) as (_ & Hnc & _ & c & n' & Hc & Hb).
    destruct (split_field f Hnc) as (H0 & H1 & H2). rewrite H0, H1, H2, Hn, Hv.
    assert (field_line f = c :: n' ++ COLON :: f.2) as -> by (unfold field_line; by rewrite Hc).
    cbv beta iota. rewrite Hb. cbn [negb orb].
    revert H. by repeat case_match; intros; simplify_eq.
Qed.

(** The three names the parser acts on. *)
Lemma named_once f :
  (case_insensitive_equal f (str "Range") = true ->
     case_insensitive_equal f (str "Transfer-Encoding") = false /\ case_insensitive_equal f (str "Content-Length") = false) /\
  (case_insensitive_equal f (str "Transfer-Encoding") = true -> case_insensitive_equal f (str "Content-Length") = false).
Proof. split; [intros H; split|intros H]; by eapply other_name. Qed.

Lemma option_list_eq {A} (a b : option A) : option_list a = option_list b <-> a = b.
Proof. destruct a, b; simpl; naive_solver. Qed.

Lemma fmap_option_list_eq {A} (a b : option A) : Some <$> option_list a = Some <$> option_list b <-> a = b.
Proof. destruct a, b; simpl; naive_solver. Qed.

(** Case analysis of an equivalence between equations. *)
Ltac iff_cases :=
  split; [intros; destruct_and?; simplify_eq/=|intros; simplify_eq/=; split_and?];
  try done; try congruence; lia.

(** An acceptable field extends the description of the fields read so far. *)
Lemma described_snoc fs st f st' :
  described fs st -> described (fs ++ [f]) st' <-> valid_field f /\ field_effect st f = Some st'.
Proof.
  intros [Hv Hc Hl HR Hne HE HL]. destruct (named_once f.1) as [N1 N2].
  trans (valid_field f /\ hs_count st' = hs_count st + 1 /\ hs_count st' <= maximum_header_count /\
    values (str "Range") (fs ++ [f]) = option_list (hs_range st') /\ hs_range st' <> Some [] /\
    values (str "Transfer-Encoding") (fs ++ [f]) = [] /\
    parse_content_length <$> values (str "Content-Length") (fs ++ [f]) = Some <$> option_list (hs_content_length st')).
  { split.
    - intros [Hv' Hc' ?????]. rewrite length_app in Hc'. apply Forall_app in Hv' as [_ Hv'%Forall_inv].
      simpl in Hc'. split_and!; try done. lia.
    - intros (Hf & Hc' & ?). constructor; try tauto; [apply Forall_app; split; [done|by constructor]|].
      rewrite length_app. simpl. lia. }
  rewrite !values_snoc, fmap_app, HR, HE, HL. apply and_iff_compat_l.
  unfold field_effect. destruct st' as [r' l' c']. cbn [hs_range hs_content_length hs_count].
  destruct (Z.ltb_spec maximum_header_count (hs_count st + 1)); [split; [intros; lia|done]|].
  destruct (case_insensitive_equal f.1 (str "Range")) eqn:NR.
  { destruct (N1 eq_refl) as [-> ->]. simpl. rewrite app_nil_r, fmap_option_list_eq.
    rewrite (option_list_snoc _ _ _ _ eq_refl).
    destruct (hs_range st), (decide (trim f.2 = [])) as [Ht|Ht]; simpl; rewrite ?(bool_decide_eq_true_2 _ Ht), ?(bool_decide_eq_false_2 _ Ht); iff_cases. }
  rewrite app_nil_r, option_list_eq.
  destruct (case_insensitive_equal f.1 (str "Transfer-Encoding")) eqn:NE; [naive_solver|]. rewrite app_nil_l.
  destruct (case_insensitive_equal f.1 (str "Content-Length")) eqn:NL; simpl.
  - destruct (parse_content_length (trim f.2)), (hs_content_length st), l'; iff_cases.
  - rewrite app_nil_r, fmap_option_list_eq. iff_cases.
Qed.

(** One turn of the loop. *)
Lemma header_line_described line fs st st' :
  described fs st ->
  header_line line st = inr st' <-> exists f, line = field_line f /\ described (fs ++ [f]) st'.
Proof.
  intros D. rewrite header_line_field. setoid_rewrite (described_snoc fs st _ _ D). done.
Qed.

(** ** The header loop *)

(** The loop on the rest of the head. *)
Fixpoint header_lines (fuel : nat) (rest : text) (st : HeaderState) : RequestParseStatus + HeaderState :=
  match fuel with
  | O => inl request_malformed
  | S f =>
    if (2 <? length rest)%nat then
      match find_text crlf rest with
      | None => inl request_malformed
      | Some O => inr st
      | Some n => match header_line (take n rest) st with
                  | inl status => inl status
                  | inr st' => header_lines f (drop (n + 2) rest) st'
                  end
      end
    else inr st
  end.

Lemma header_loop_lines fuel h position st :
  (position <= length h)%nat -> header_loop fuel h position st = header_lines fuel (drop position h) st.
Proof.
  revert position st. induction fuel as [|fuel IH]; intros position st Hp; [done|]. cbn [header_loop header_lines].
  rewrite length_drop.
  destruct (Nat.ltb_spec position (length h - 2)), (Nat.ltb_spec 2 (length h - position)); try lia; [|done].
  unfold find_text_from. rewrite (proj2 (Nat.ltb_ge (length h) position)) by lia.
  destruct (find_text crlf (drop position h)) as [n|] eqn:Hf; simpl; [|done].
  apply find_text_Some in Hf as (a & b & Hd & Hn). apply (f_equal length) in Hd.
  rewrite length_drop, !length_app in Hd. simpl in Hd.
  destruct n as [|n]; [by rewrite Nat.add_0_r, Nat.eqb_refl|].
  rewrite (proj2 (Nat.eqb_neq (position + S n) position)) by lia. unfold substr.
  replace (position + S n - position)%nat with (S n) by lia.
  destruct (header_line _ _) as [|st']; [done|]. rewrite IH by lia. rewrite drop_drop. do 2 f_equal. lia.
Qed.

(** [v] ends with two line ends. *)
Definition ends_twice (v : text) : Prop := exists w, v = w ++ crlf ++ crlf.

Lemma ends_twice_app a v : ends_twice v -> ends_twice (a ++ v).
Proof. intros [w ->]. exists (a ++ w). by rewrite app_assoc. Qed.

Lemma app_inv_length {A} (a b c d : list A) : a ++ b = c ++ d -> (length d <= length b)%nat -> exists x, b = x ++ d /\ c = a ++ x.
Proof.
  intros H Hl. exists (drop (length a) c).
  assert (Hle : (length a <= length c)%nat) by (apply (f_equal length) in H; rewrite !length_app in H; lia).
  split.
  - apply (f_equal (drop (length a))) in H. rewrite drop_app_length in H. rewrite H. by apply drop_app_le.
  - apply (f_equal (take (length a))) in H. rewrite take_app_length in H.
    rewrite take_app_le in H by done. rewrite H at 1. by rewrite take_drop.
Qed.

(** Behind a line end, a rest that ends the head is the last line end or ends twice. *)
Lemma rest_cases rest : ends_twice (crlf ++ rest) -> rest = crlf \/ ends_twice rest.
Proof.
  intros [w H]. destruct (decide (4 <= length rest)%nat) as [Hl|Hl].
  - right. apply app_inv_length in H as (x & H & _); [|done]. by exists x.
  - left. pose proof (f_equal length H) as Hlen. rewrite !length_app in Hlen. simpl in Hlen.
    destruct w as [|w0 [|w1 w]]; simpl in *; [by injection H|by injection H|lia].
Qed.

(** Behind an accepted line comes a rest of the same kind. *)
Lemma rest_step line rest :
  line <> [] -> plain line -> ends_twice (line ++ crlf ++ rest) -> ends_twice (crlf ++ rest).
Proof.
  intros Hne Hp [w H]. destruct (decide (2 <= length rest)%nat) as [Hl|Hl].
  - apply app_inv_length in H as (x & H & _); [by exists x|simpl; lia].
  - exfalso. destruct rest as [|x [|? rest]]; [..|simpl in Hl; lia].
    + rewrite app_nil_r, app_assoc in H. apply app_inj_2 in H as [-> _]; [|done].
      apply plain_app in Hp as [_ Hp]. by apply Forall_inv in Hp.
    + replace (w ++ crlf ++ crlf) with ((w ++ [CR]) ++ [LF; CR; LF]) in H by (by rewrite <-app_assoc).
      apply app_inj_2 in H as [_ H]; [discriminate|done].
Qed.

Lemma take_drop_middle {A} (a b c : list A) n :
  length a = n -> take n (a ++ b ++ c) = a /\ drop (n + length b) (a ++ b ++ c) = c.
Proof. intros <-. by rewrite take_app_length, drop_app_add, drop_app_length. Qed.

Lemma render_fields_cons f fields v :
  render_fields (f :: fields) ++ v = field_line f ++ crlf ++ (render_fields fields ++ v).
Proof. unfold render_fields. cbn [fmap list_fmap mjoin list_join]. by rewrite <-!app_assoc. Qed.

Lemma field_line_ne f : field_line f <> [].
Proof. unfold field_line. by destruct f.1. Qed.

(** What the loop accepts, it has read as fields up to the first empty line. *)
Lemma header_lines_sound fuel rest pre st st' :
  described pre st -> ends_twice (crlf ++ rest) -> header_lines fuel rest st = inr st' ->
  exists fields tail, rest = render_fields fields ++ crlf ++ tail /\ described (pre ++ fields) st'.
Proof.
  revert rest pre st. induction fuel as [|fuel IH]; intros rest pre st D He; [done|]. cbn [header_lines].
  destruct (Nat.ltb_spec 2 (length rest)) as [Hl|Hl].
  2:{ intros [= <-]. exists [], []. rewrite !app_nil_r. split; [|done].
      destruct (rest_cases rest He) as [->|[w ->]]; [done|]. rewrite !length_app in Hl. simpl in Hl. lia. }
  destruct (find_text crlf rest) as [n|] eqn:Hf; [|done].
  apply find_text_Some in Hf as (line & b & -> & Hn). destruct n as [|n].
  { apply nil_length_inv in Hn as ->. intros [= <-]. exists [], b. by rewrite app_nil_r. }
  destruct (take_drop_middle line crlf b (S n) Hn) as [-> Hd]. change (length crlf) with 2%nat in Hd. rewrite Hd.
  destruct (header_line line st) as [|st1] eqn:Hline; [done|]. intros H.
  apply (header_line_described line pre st st1 D) in Hline as (f & -> & D1).
  assert (Hvf : valid_field f). { pose proof (d_valid _ _ D1) as Hv. by apply Forall_app in Hv as [_ ?%Forall_inv]. }
  destruct (rest_cases _ He) as [Hr|Hr].
  { exfalso. apply (f_equal length) in Hr. rewrite !length_app in Hr. simpl in Hr. lia. }
  apply rest_step in Hr; [|apply field_line_ne|by apply valid_field_plain].
  destruct (IH b (pre ++ [f]) st1 D1 Hr H) as (fields & tail & -> & D2).
  exists (f :: fields), tail. rewrite <-app_assoc in D2. split; [|done].
  by rewrite render_fields_cons.
Qed.

Lemma option_list_app_inv {A} (a b : list A) o :
  a ++ b = option_list o -> exists o1, a = option_list o1 /\ (o1 = None \/ o1 = o).
Proof.
  destruct o as [x|]; simpl; intros H.
  - destruct a as [|y a]; [exists None; auto|]. injection H as -> H. apply app_nil in H as [-> _]. exists (Some x). auto.
  - apply app_nil in H as [-> _]. exists None. auto.
Qed.

Lemma values_app n a b : values n (a ++ b) = values n a ++ values n b.
Proof. unfold values. by rewrite filter_app, fmap_app. Qed.

Lemma option_list_fmap {A B} (f : A -> B) o : f <$> option_list o = option_list (f <$> o).
Proof. by destruct o. Qed.

(** The first fields of an acceptable list are acceptable. *)
Lemma described_prefix a b st : described (a ++ b) st -> exists st1, described a st1.
Proof.
  intros [Hv Hc Hl HR Hne HE HL]. rewrite !values_app in *. rewrite fmap_app, option_list_fmap in HL.
  destruct (option_list_app_inv _ _ _ HR) as (r & Hr & Hr'). destruct (option_list_app_inv _ _ _ HL) as (n & Hn & Hn').
  apply app_nil in HE as [HE _]. apply Forall_app in Hv as [Hv _].
  assert (exists m, n = Some <$> m) as [m ->].
  { destruct Hn' as [->| ->]; [by exists None|by eexists]. }
  exists (MkHeaders r m (Z.of_nat (length a))). constructor; simpl; try done.
  - rewrite length_app in Hc. lia.
  - destruct Hr' as [->| ->]; done.
  - by rewrite option_list_fmap.
Qed.

(** The fields read determine the variables. *)
Lemma described_unique fs st st' : described fs st -> described fs st' -> st = st'.
Proof.
  destruct st as [r l c], st' as [r' l' c']. intros [_ Hc _ HR _ _ HL] [_ Hc' _ HR' _ _ HL']. simpl in *.
  rewrite HR in HR'. rewrite HL in HL'. apply option_list_eq in HR'. apply fmap_option_list_eq in HL'. congruence.
Qed.

(** The loop reads the fields of a well-formed block, when it has the fuel for them. *)
Lemma header_lines_complete fields fuel tail pre st st' :
  described pre st -> described (pre ++ fields) st' -> (length fields < fuel)%nat ->
  header_lines fuel (render_fields fields ++ crlf ++ tail) st = inr st'.
Proof.
  revert fuel pre st. induction fields as [|f fields IH]; intros fuel pre st D D' Hf;
    (destruct fuel as [|fuel]; [simpl in Hf; lia|]).
  - rewrite app_nil_r in D'. rewrite (described_unique _ _ _ D' D).
    cbn [header_lines]. unfold render_fields. cbn [fmap list_fmap mjoin list_join app].
    by destruct (2 <? _)%nat.
  - rewrite cons_middle, app_assoc in D'. destruct (described_prefix _ _ _ D') as [st1 D1].
    assert (H1 : header_line (field_line f) st = inr st1) by (apply (header_line_described _ pre); eauto).
    assert (Hp : plain (field_line f)).
    { apply valid_field_plain. pose proof (d_valid _ _ D1) as Hv. by apply Forall_app in Hv as [_ ?%Forall_inv]. }
    rewrite render_fields_cons. cbn [header_lines]. rewrite find_text_crlf by (by apply plain_no_cr).
    set (rest := render_fields fields ++ crlf ++ tail).
    destruct (take_drop_middle (field_line f) crlf rest _ eq_refl) as [Ht Hd]. change (length crlf) with 2%nat in Hd.
    rewrite (proj2 (Nat.ltb_lt 2 (length (field_line f ++ crlf ++ rest)))).
    2:{ rewrite !length_app. simpl. pose proof (field_line_ne f). destruct (field_line f); simpl; [done|].
        unfold rest. rewrite !length_app. simpl. lia. }
    destruct (length (field_line f)) as [|n] eqn:Hlen; [by apply nil_length_inv, field_line_ne in Hlen|].
    rewrite Ht, Hd, H1. apply (IH fuel (pre ++ [f]) st1 D1 D'). simpl in Hf. lia.
Qed.

(** The fuel of the loop does not matter once it exceeds the rest of the head. *)
Lemma header_lines_fuel f f' rest st :
  (length rest < f)%nat -> (length rest < f')%nat -> header_lines f rest st = header_lines f' rest st.
Proof.
  revert f' rest st. induction f as [|f IH]; intros f' rest st Hf Hf'; [lia|].
  destruct f' as [|f']; [lia|]. cbn [header_lines].
  destruct (2 <? length rest)%nat eqn:Hl; [|done]. apply Nat.ltb_lt in Hl.
  destruct (find_text crlf rest) as [[|n]|]; [done| |done].
  destruct (header_line _ _); [done|]. apply IH; rewrite length_drop; lia.
Qed.

Lemma render_fields_length fields : (length fields <= length (render_fields fields))%nat.
Proof.
  induction fields as [|f fields IH]; simpl; [lia|]. rewrite <-(app_nil_r (render_fields _)), render_fields_cons.
  rewrite app_nil_r, !length_app. simpl. lia.
Qed.

(** ** The whole parser *)

(** The checks before the header loop. *)
Lemma request_line_unique h m t v rest m' t' v' rest' :
  h = request_line m t v ++ crlf ++ rest -> h = request_line m' t' v' ++ crlf ++ rest' ->
  plain (request_line m t v) -> plain (request_line m' t' v') ->
  request_line m t v = request_line m' t' v' /\ rest = rest'.
Proof.
  intros -> H Hp Hp'. pose proof (f_equal (find_text crlf) H) as Hf.
  rewrite !find_text_crlf in Hf by (by apply plain_no_cr). injection Hf as Hlen.
  apply app_inj_1 in H as [-> H]; [|done]. split; [done|]. by apply app_inj_1 in H as [_ H].
Qed.

(** The request line of [h], when the parser gets as far as the method. *)
Definition starts_request (h m t v rest : text) : Prop :=
  h = request_line m t v ++ crlf ++ rest /\ ends_twice h /\ size h <= maximum_request_head_size /\
  size (request_line m t v) <= maximum_request_line_size /\
  valid_header_name m = true /\ valid_target t = true /\ valid_version v = true.

Definition parse_rest (h m t v : text) : RequestParseResult :=
  match parse_method m with
  | None => rejected method_not_allowed
  | Some method =>
    match header_loop (length h) h (length (request_line m t v) + 2) (MkHeaders None None 0) with
    | inl status => rejected status
    | inr st =>
      if negb (default 0 (hs_content_length st) =? 0) then rejected request_malformed
      else MkParse request_ok (Some (MkHttpRequest method t (hs_range st)))
    end
  end.

Lemma starts_request_plain h m t v rest : starts_request h m t v rest -> plain (request_line m t v).
Proof.
  intros (_ & _ & _ & _ & Hm & Ht & Hv). apply request_line_plain.
  - by apply valid_name_spec in Hm as [? _].
  - by apply valid_target_spec in Ht as [? _].
  - by apply valid_version_spec in Hv as [? _].
Qed.

Lemma parse_starts h m t v rest :
  starts_request h m t v rest -> parse_http_request_head h = parse_rest h m t v.
Proof.
  intros Hs. pose proof (starts_request_plain _ _ _ _ _ Hs) as Hp.
  destruct Hs as (Hh & [w Hw] & Hsz & Hline & Hm & Ht & Hv). unfold parse_http_request_head.
  rewrite (proj2 (Z.ltb_ge _ _) Hsz).
  assert (ends_with (crlf ++ crlf) h = true) as -> by (apply ends_with_app; eauto). cbn [negb].
  rewrite Hh at 1. rewrite find_text_crlf by (by apply plain_no_cr).
  unfold size in Hline. rewrite (proj2 (Z.ltb_ge _ _) Hline). unfold substr. rewrite drop_0.
  rewrite Hh at 1. rewrite take_app_length.
  rewrite (proj2 (split_request_line_spec _ m t v)); [by rewrite Hm, Ht, Hv|].
  split; [done|]. split_and!.
  - apply valid_name_spec in Hm. tauto.
  - apply valid_target_spec in Ht. tauto.
  - apply valid_version_spec in Hv. tauto.
Qed.

Lemma parse_not_starts h :
  (exists m t v rest, starts_request h m t v rest /\ parse_http_request_head h = parse_rest h m t v) \/
  parse_http_request_head h = rejected header_too_large /\ maximum_request_head_size < size h \/
  parse_http_request_head h = rejected request_malformed.
Proof.
  unfold parse_http_request_head at 2 3.
  destruct (Z.ltb_spec maximum_request_head_size (size h)) as [|Hsz]; [by right; left|].
  destruct (ends_with (crlf ++ crlf) h) eqn:He; [|by right; right]. cbn [negb].
  destruct (find_text crlf h) as [n|] eqn:Hf; [|by right; right].
  destruct (Z.ltb_spec maximum_request_line_size (Z.of_nat n)) as [|Hn]; [by right; right|].
  destruct (split_request_line _) as [[[m t] v]|] eqn:Hs; [|by right; right].
  destruct (valid_header_name m) eqn:Hm; [|by right; right].
  destruct (valid_target t) eqn:Ht; [|by right; right].
  destruct (valid_version v) eqn:Hv; [|by right; right].
  left. apply find_text_Some in Hf as (line & rest & -> & <-).
  unfold substr in Hs. rewrite drop_0, take_app_length in Hs.
  apply split_request_line_spec in Hs as (-> & _). exists m, t, v, rest.
  assert (starts_request (request_line m t v ++ crlf ++ rest) m t v rest); [|by split; [|eapply parse_starts]].
  split; [done|]. split; [by apply ends_with_app in He|]. done.
Qed.

Lemma described_nil : described [] (MkHeaders None None 0).
Proof. by constructor. Qed.

Lemma header_loop_rest h m t v rest st :
  starts_request h m t v rest ->
  header_loop (length h) h (length (request_line m t v) + 2) st = header_lines (length h) rest st.
Proof.
  intros (-> & _). set (line := request_line m t v).
  rewrite header_loop_lines by (rewrite !length_app; simpl; lia). by rewrite drop_app_add.
Qed.

(** The header block accepted behind a request line. *)
Lemma header_block h m t v rest st :
  starts_request h m t v rest ->
  header_loop (length h) h (length (request_line m t v) + 2) (MkHeaders None None 0) = inr st <->
  exists fields tail, rest = render_fields fields ++ crlf ++ tail /\ described fields st.
Proof.
  intros Hs. rewrite (header_loop_rest h m t v rest) by done.
  pose proof (starts_request_plain _ _ _ _ _ Hs) as Hp. split.
  - intros H. eapply (header_lines_sound _ _ []); [apply described_nil| |done].
    destruct Hs as (-> & He & _). apply rest_step in He; [done| |done]. unfold request_line. by destruct m.
  - intros (fields & tail & -> & D). apply (header_lines_complete fields _ tail []); [apply described_nil|done|].
    destruct Hs as (-> & _). rewrite !length_app. simpl. pose proof (render_fields_length fields). lia.
Qed.

Lemma parse_rest_ok h m t v rest r :
  starts_request h m t v rest -> parse_rest h m t v = MkParse request_ok (Some r) <-> accepted_head h r.
Proof.
  intros Hs. split.
  - unfold parse_rest. destruct (parse_method m) as [me|] eqn:Hm; [|done]. apply parse_method_spec in Hm as ->.
    destruct (header_loop _ _ _ _) as [|st] eqn:Hl; [done|].
    destruct (default 0 (hs_content_length st) =? 0) eqn:Hz; [|done]. intros [= <-].
    apply (header_block h _ t v rest st Hs) in Hl as (fields & tail & -> & D).
    destruct Hs as (Hh & He & Hsz & Hline & Hm & Ht & Hv). apply Z.eqb_eq in Hz. by econstructor.
  - intros [me t' v' fields tail st Hh He Hsz Hline Ht Hv D Hz].
    assert (Hs' : starts_request h (method_text me) t' v' (render_fields fields ++ crlf ++ tail)).
    { repeat (split; [done|]). split; [apply method_text_valid|done]. }
    destruct (request_line_unique h m t v rest (method_text me) t' v' (render_fields fields ++ crlf ++ tail)) as [Heq ->];
      [apply Hs|apply Hs'|by eapply starts_request_plain..|].
    assert (Some (m, t, v) = Some (method_text me, t', v')) as [= -> -> ->].
    { rewrite <-(proj2 (split_request_line_spec (request_line m t v) m t v)), Heq.
      - apply split_request_line_spec. destruct Hs' as (_ & _ & _ & _ & H1%valid_name_spec & H2%valid_target_spec & H3%valid_version_spec). tauto.
      - destruct Hs as (_ & _ & _ & _ & H1%valid_name_spec & H2%valid_target_spec & H3%valid_version_spec). tauto. }
    unfold parse_rest. rewrite (proj2 (parse_method_spec _ me) eq_refl).
    rewrite (proj2 (header_block h _ t' v' _ st Hs')) by eauto. by rewrite Hz.
Qed.

(** The errors of the header loop. *)
Lemma header_line_error line st s :
  header_line line st = inl s -> s = request_malformed \/ s = header_too_large.
Proof.
  unfold header_line. intros H.
  repeat first [discriminate H | injection H as <-; by auto | case_match].
Qed.

Lemma header_loop_error f h p st s :
  header_loop f h p st = inl s -> s = request_malformed \/ s = header_too_large.
Proof.
  revert p st. induction f as [|f IH]; intros p st; [intros [= <-]; by left|]. cbn [header_loop].
  destruct (p <? _)%nat; [|done]. destruct (find_text_from _ _ _) as [n|]; [|intros [= <-]; by left].
  destruct (n =? p)%nat; [done|]. destruct (header_line _ _) as [s'|st'] eqn:E; [|apply IH].
  intros [= <-]. by eapply header_line_error.
Qed.

(** The outcomes of the parser behind a valid request line. *)
Lemma parse_rest_cases h m t v :
  (parse_rest h m t v = rejected method_not_allowed /\ parse_method m = None) \/
  (exists s me, parse_rest h m t v = rejected s /\ (s = request_malformed \/ s = header_too_large) /\ parse_method m = Some me) \/
  (exists q me, parse_rest h m t v = MkParse request_ok (Some q) /\ parse_method m = Some me).
Proof.
  unfold parse_rest. destruct (parse_method m) as [me|]; [|by left]. right.
  destruct (header_loop _ _ _ _) as [s|st] eqn:Hl.
  - left. exists s, me. apply header_loop_error in Hl. done.
  - destruct (default _ _ =? 0); [right|left]; repeat eexists. by left.
Qed.

Lemma parse_method_None m : parse_method m = None <-> m <> str "GET" /\ m <> str "HEAD".
Proof.
  split.
  - intros H. split; intros ->; by vm_compute in H.
  - intros [H1 H2]. destruct (parse_method m) as [me|] eqn:E; [|done].
    apply parse_method_spec in E as ->. by destruct me.
Qed.

(** ** Properties of the parser *)

(** C8. The request parser implements the grammar: it answers a request exactly on the
    heads of at most 16 KiB that are a GET or HEAD request line of at most 4 KiB with a
    valid target, at most 64 well-formed header fields among which at most one range,
    no transfer encoding and no body length but zero, and an empty line. *)
Theorem parse_accepts_grammar (h : text) (r : HttpRequest) :
  parse_http_request_head h = MkParse request_ok (Some r) <-> accepted_head h r.
Proof.
  destruct (parse_not_starts h) as [(m & t & v & rest & Hs & ->)|Hno].
  - by eapply parse_rest_ok.
  - split; [destruct Hno as [[-> _]| ->]; done|].
    intros Ha. assert (exists m t v rest, starts_request h m t v rest) as (m & t & v & rest & Hs).
    { destruct Ha as [me t v fields tail st Hh He Hsz Hline Ht Hv D Hz].
      exists (method_text me), t, v, (render_fields fields ++ crlf ++ tail).
      repeat (split; [done|]). split; [apply method_text_valid|done]. }
    rewrite (parse_starts h m t v rest Hs) in *. by apply (parse_rest_ok h m t v rest r Hs) in Ha as ->.
Qed.

(** The parser answers that the method is not allowed exactly when the request line
    is well formed but its method is neither GET nor HEAD; every answer holds a request
    exactly when its status is ok; and a head of more than 16 KiB is answered as such. *)
Theorem parse_error_statuses (h : text) :
  (parse_http_request_head h = rejected method_not_allowed <->
   exists m t v rest, starts_request h m t v rest /\ m <> str "GET" /\ m <> str "HEAD") /\
  (pr_status (parse_http_request_head h) = request_ok <-> is_Some (pr_request (parse_http_request_head h))) /\
  (maximum_request_head_size < size h -> parse_http_request_head h = rejected header_too_large).
Proof.
  split_and!.
  - transitivity (exists m t v rest, starts_request h m t v rest /\ parse_method m = None);
      [|by setoid_rewrite parse_method_None]. split.
    + destruct (parse_not_starts h) as [(m & t & v & rest & Hs & ->)|[[-> _]| ->]]; [|done..].
      destruct (parse_rest_cases h m t v) as [[_ H]|[(s & me & -> & [-> | ->] & _)|(q & me & -> & _)]]; by eauto 6.
    + intros (m & t & v & rest & Hs & Hm). rewrite (parse_starts h m t v rest Hs). unfold parse_rest. by rewrite Hm.
  - destruct (parse_not_starts h) as [(m & t & v & rest & Hs & ->)|[[-> _]| ->]]; [|by split; [|intros []]..].
    destruct (parse_rest_cases h m t v) as [[-> H]|[(s & me & -> & [-> | ->] & _)|(q & me & -> & _)]];
      simpl; (split; [intros; try discriminate; by eauto|intros [? ?]; by try discriminate]).
  - intros H. unfold parse_http_request_head. by rewrite (proj2 (Z.ltb_lt _ _) H).
Qed.

(** ** The grammar of response heads *)

Definition status_line (s : ResponseStatus) : text :=
  str "HTTP/1.1 " ++ to_string (status_code s) ++ [SP] ++ reason_phrase s.

Definition response_head (s : ResponseStatus) (fields : list field) : text :=
  status_line s ++ crlf ++ render_fields fields ++ crlf.

Definition common_fields : list field :=
  [(str "Accept-Ranges", str " bytes"); (str "Access-Control-Allow-Origin", str " *");
   (str "Access-Control-Allow-Headers", str " Range");
   (str "Access-Control-Expose-Headers", str " Content-Length, Content-Range");
   (str "transferMode.dlna.org", str " Streaming"); (str "Connection", str " close")].

Lemma render_fields_app a b : render_fields (a ++ b) = render_fields a ++ render_fields b.
Proof. unfold render_fields. by rewrite fmap_app, join_app. Qed.

(** A head under construction: the status line and the fields so far. *)
Definition head_so_far (s : ResponseStatus) (fields : list field) : text :=
  status_line s ++ crlf ++ render_fields fields.

Lemma head_so_far_field s fields line f :
  line = field_line f -> head_so_far s fields ++ line ++ crlf = head_so_far s (fields ++ [f]).
Proof.
  intros ->. unfold head_so_far. rewrite render_fields_app. unfold render_fields at 3. simpl. rewrite app_nil_r.
  by rewrite <-!app_assoc.
Qed.

Lemma head_so_far_end s fields line f :
  line = field_line f -> head_so_far s fields ++ line ++ crlf ++ crlf = response_head s (fields ++ [f]).
Proof.
  intros Hl. rewrite !app_assoc, <-(app_assoc _ line), (head_so_far_field s fields line f Hl).
  unfold head_so_far, response_head. by rewrite <-!app_assoc.
Qed.

Lemma common_head s : append_common_headers (append_status_line [] s) = head_so_far s common_fields.
Proof. by destruct s; vm_compute. Qed.

(** The fields of the heads the server builds. *)
Definition error_fields (s : ResponseStatus) (n : Z) : list field :=
  ((common_fields
    ++ (if decide (s = status_method_not_allowed) then [(str "Allow", str " GET, HEAD")] else []))
   ++ (if decide (s = status_range_not_satisfiable) then [(str "Content-Range", str " bytes */" ++ to_string n)] else []))
  ++ [(str "Content-Length", str " 0")].

Lemma build_error_head s n : build_error_response s n = response_head s (error_fields s n).
Proof.
  unfold build_error_response, error_fields. rewrite common_head.
  rewrite <-(head_so_far_end _ _ (str "Content-Length: 0") _) by done. f_equal.
  destruct (decide (s = status_range_not_satisfiable)).
  - rewrite <-(head_so_far_field _ _ (str "Content-Range: bytes */" ++ to_string n) _) by done.
    rewrite <-(app_assoc (str "Content-Range: bytes */")). f_equal.
    destruct (decide (s = status_method_not_allowed)); [|by rewrite app_nil_r].
    by apply (head_so_far_field _ _ _ (str "Allow", str " GET, HEAD")).
  - rewrite app_nil_r. destruct (decide (s = status_method_not_allowed)); [|by rewrite app_nil_r].
    by apply (head_so_far_field _ _ _ (str "Allow", str " GET, HEAD")).
Qed.

Definition content_type_value (ct : text) : text :=
  if valid_content_type ct then ct else str "application/octet-stream".

Definition content_range_value (r : ByteRange) (n : Z) : text :=
  str "bytes " ++ to_string (range_start r) ++ str "-" ++ to_string (range_end r) ++ str "/" ++ to_string n.

Definition body_length (range : option ByteRange) : Z :=
  match range with Some r => range_length r | None => 0 end.

Definition success_fields (s : ResponseStatus) (range : option ByteRange) (n : Z) (ct : text) : list field :=
  ((common_fields ++ [(str "Content-Type", SP :: content_type_value ct)])
   ++ [(str "Content-Length", SP :: to_string (body_length range))])
  ++ match range with
     | Some r => if decide (s = status_partial_content) then [(str "Content-Range", SP :: content_range_value r n)] else []
     | None => []
     end.

Lemma head_so_far_append s fields prefix value name :
  prefix = name ++ [COLON; SP] ->
  head_so_far s fields ++ prefix ++ value ++ crlf = head_so_far s (fields ++ [(name, SP :: value)]).
Proof.
  intros ->. rewrite (app_assoc (name ++ _)). apply head_so_far_field. unfold field_line. by rewrite <-app_assoc.
Qed.

Lemma response_head_end s fields : head_so_far s fields ++ crlf = response_head s fields.
Proof. unfold head_so_far, response_head. by rewrite <-!app_assoc. Qed.

Lemma content_range_line r n :
  str "Content-Range: bytes " ++ to_string (range_start r) ++ str "-" ++ to_string (range_end r) ++ str "/"
    ++ to_string n ++ crlf = str "Content-Range: " ++ content_range_value r n ++ crlf.
Proof. unfold content_range_value. by rewrite <-!app_assoc. Qed.

Lemma build_success_head req s range n ct :
  rs_headers (build_success_response req s range n ct) = response_head s (success_fields s range n ct).
Proof.
  unfold build_success_response, success_fields. cbn [rs_headers]. rewrite common_head.
  fold (content_type_value ct) (body_length range).
  rewrite (head_so_far_append _ _ (str "Content-Type: ") _ (str "Content-Type")) by done.
  rewrite (head_so_far_append _ _ (str "Content-Length: ") _ (str "Content-Length")) by done.
  set (fields := (common_fields ++ _) ++ _).
  destruct range as [r|]; [|by rewrite app_nil_r, response_head_end].
  destruct (decide (s = status_partial_content)); [|by rewrite app_nil_r, response_head_end].
  rewrite (content_range_line r n), (head_so_far_append _ _ (str "Content-Range: ") _ (str "Content-Range")) by done.
  apply response_head_end.
Qed.

(** ** No line ends inside a response head *)

Lemma find_skip needle c v :
  (forall w, c :: v <> needle ++ w) -> find_text needle (c :: v) = S <$> find_text needle v.
Proof.
  intros H. cbn [find_text]. destruct (starts_with needle (c :: v)) eqn:E; [|done].
  apply starts_with_app in E as [w Hw]. by destruct (H w).
Qed.

Lemma find_end_plain line rest :
  plain line -> find_text (crlf ++ crlf) (line ++ rest) = Nat.add (length line) <$> find_text (crlf ++ crlf) rest.
Proof.
  induction 1 as [|c line Hc _ IH]; [change ([] ++ rest) with rest; by destruct (find_text (crlf ++ crlf) rest)|].
  change ((c :: line) ++ rest) with (c :: (line ++ rest)).
  rewrite find_skip, IH by (intros w [= -> _]; by vm_compute in Hc). by rewrite <-option_fmap_compose.
Qed.

Lemma find_end_skip line rest :
  plain line -> head rest <> Some CR ->
  find_text (crlf ++ crlf) (line ++ crlf ++ rest) = Nat.add (length line + 2) <$> find_text (crlf ++ crlf) rest.
Proof.
  intros Hp Hr. rewrite find_end_plain by done. change (crlf ++ rest) with (CR :: LF :: rest).
  rewrite !find_skip.
  - destruct (find_text _ rest); simpl; [f_equal; lia|done].
  - intros w. done.
  - intros w [= ->]. done.
Qed.

Lemma find_end_last line : plain line -> find_text (crlf ++ crlf) (line ++ crlf ++ crlf) = Some (length line).
Proof. intros Hp. rewrite find_end_plain by done. simpl. by rewrite Nat.add_0_r. Qed.

(** The first empty line is the end of the head. *)
Lemma head_ends_once line fields :
  plain line -> Forall valid_field fields ->
  find_text (crlf ++ crlf) (line ++ crlf ++ render_fields fields ++ crlf)
  = Some (length (line ++ crlf ++ render_fields fields ++ crlf) - 4)%nat.
Proof.
  intros Hp Hf. revert line Hp. induction Hf as [|f fields Hf Hfs IH]; intros line Hp.
  - change (render_fields [] ++ crlf) with crlf. rewrite find_end_last by done. f_equal. rewrite !length_app. simpl. lia.
  - rewrite render_fields_cons, find_end_skip; [|done|].
    + rewrite IH by (by apply valid_field_plain). cbn [fmap option_fmap option_map]. f_equal. pose proof (field_line_ne f). rewrite !length_app. destruct (field_line f); [done|]. cbn [length crlf]. lia.
    + pose proof (proj1 Hf) as H. apply valid_name_spec in H as (Hn & _ & _ & c & n' & Hc & _).
      unfold field_line. rewrite Hc in Hn |- *. apply Forall_inv in Hn. intros [= ->]. by vm_compute in Hn.
Qed.

(** The values the server writes into its heads. *)
Lemma digits_plain v : digits v -> plain v.
Proof.
  intros H. eapply Forall_impl; [exact H|]. intros c Hc%is_digit_code. unfold value_char.
  apply orb_true_iff. right. apply andb_true_iff. split; [apply Z.leb_le; lia|]. apply negb_true_iff, Z.eqb_neq. lia.
Qed.

Lemma to_string_plain n : is_u64 n -> plain (to_string n).
Proof. intros H. by apply digits_plain, to_string_spec. Qed.

Lemma plain_valid v : plain v -> valid_header_value (trim v) = true.
Proof.
  intros H. apply forallb_Forall, Forall_forall. unfold plain in H. rewrite Forall_forall in H.
  intros c Hc%trim_elem_of. by apply H.
Qed.

Lemma valid_content_type_plain ct : plain (content_type_value ct).
Proof.
  unfold content_type_value. destruct (valid_content_type ct) eqn:E; [|by repeat constructor].
  unfold valid_content_type in E. destruct ct as [|c ct']; [constructor|].
  apply andb_true_iff in E as [_ E]. apply forallb_Forall in E. eapply Forall_impl; [exact E|].
  intros x [Hx1%Z.leb_le Hx2%Z.ltb_lt]%andb_true_iff. unfold value_char.
  apply orb_true_iff. right. apply andb_true_iff. split; [apply Z.leb_le; lia|]. apply negb_true_iff, Z.eqb_neq. lia.
Qed.

Lemma common_fields_valid : Forall valid_field common_fields.
Proof. by repeat constructor. Qed.

Lemma status_line_plain s : plain (status_line s).
Proof. destruct s; by repeat constructor. Qed.

Lemma plain_field name v : valid_header_name name = true -> plain v -> valid_field (name, v).
Proof. intros Hn Hv. split; [done|]. by apply plain_valid. Qed.

Lemma plain_cons c v : value_char c = true -> plain v -> plain (c :: v).
Proof. intros. by constructor. Qed.

Lemma content_range_plain r n :
  is_u64 (range_start r) -> is_u64 (range_end r) -> is_u64 n -> plain (content_range_value r n).
Proof.
  intros. unfold content_range_value. rewrite !plain_app. split_and!; try (by repeat constructor); by apply to_string_plain.
Qed.

Lemma error_fields_valid s n : is_u64 n -> Forall valid_field (error_fields s n).
Proof.
  intros Hn. unfold error_fields. rewrite !Forall_app. split_and!; [apply common_fields_valid| | |by repeat constructor].
  - destruct (decide _); by repeat constructor.
  - destruct (decide _); [|constructor]. constructor; [|constructor]. apply plain_field; [done|].
    apply plain_app. split; [by repeat constructor|by apply to_string_plain].
Qed.

Definition range_ok (range : option ByteRange) (n : Z) : Prop :=
  match range with Some r => in_resource n r | None => True end.

Lemma body_length_u64 range n : is_u64 n -> range_ok range n -> is_u64 (body_length range).
Proof.
  intros Hn Hr. destruct range as [r|]; simpl in *; [|ulia].
  rewrite (range_length_in_resource n) by done. unfold in_resource in Hr. ulia.
Qed.

Lemma success_fields_valid s range n ct :
  is_u64 n -> range_ok range n -> Forall valid_field (success_fields s range n ct).
Proof.
  intros Hn Hr. unfold success_fields. rewrite !Forall_app. split_and!; [apply common_fields_valid|..].
  - constructor; [|constructor]. apply plain_field; [done|]. apply plain_cons; [done|apply valid_content_type_plain].
  - constructor; [|constructor]. apply plain_field; [done|]. apply plain_cons; [done|].
    apply to_string_plain. by eapply body_length_u64.
  - destruct range as [r|]; [|constructor]. destruct (decide _); [|constructor]. constructor; [|constructor].
    apply plain_field; [done|]. apply plain_cons; [done|]. unfold range_ok, in_resource in Hr.
    apply content_range_plain; ulia.
Qed.

(** ** The values of the response fields *)

Lemma trim_sp v : tight v -> trim (SP :: v) = v.
Proof.
  intros H. rewrite <-(app_nil_r v) at 1. apply (trim_tight [SP] v []); [by repeat constructor|constructor|done].
Qed.

Lemma to_string_tight n : is_u64 n -> tight (to_string n).
Proof. intros H. by apply digits_tight, to_string_spec. Qed.

Lemma content_type_tight ct : tight (content_type_value ct).
Proof.
  unfold content_type_value. destruct (valid_content_type ct) eqn:E; [|by split; intros c; vm_compute; intros [= <-]].
  unfold valid_content_type in E. destruct ct as [|c ct']; [done|].
  apply andb_true_iff in E as [_ E]. apply forallb_Forall in E. rewrite Forall_forall in E.
  assert (Hb : forall x, x ∈ c :: ct' -> is_blank x = false).
  { intros x [Hx%Z.leb_le _]%E%andb_true_iff. apply orb_false_iff. rewrite !Ascii.eqb_neq.
    split; intros ->; by vm_compute in Hx. }
  split; intros x Hx; apply Hb; [|by apply last_elem_of]. simpl in Hx. injection Hx as <-. by left.
Qed.

Lemma last_app_ne {A} (a b : list A) : b <> [] -> last (a ++ b) = last b.
Proof. destruct b as [|x b _] using rev_ind; [done|]. intros _. by rewrite app_assoc, !last_snoc. Qed.

Lemma content_range_tight r n : is_u64 n -> tight (content_range_value r n).
Proof.
  intros Hn. split.
  - intros c. by intros [= <-].
  - destruct (to_string_spec n Hn) as (_ & _ & Hne). intros c. unfold content_range_value.
    rewrite !app_assoc, last_app_ne by done. by apply to_string_tight.
Qed.

Section values.
Context (s : ResponseStatus) (range : option ByteRange) (n : Z) (ct : text).
Context (Hn : is_u64 n) (Hr : range_ok range n).

Lemma success_content_length :
  values (str "Content-Length") (success_fields s range n ct) = [to_string (body_length range)].
Proof.
  unfold success_fields. rewrite !values_app.
  assert (Ht : trim (SP :: to_string (body_length range)) = to_string (body_length range)).
  { apply trim_sp, to_string_tight. by eapply body_length_u64. }
  rewrite <-Ht at 2. by destruct range; [destruct (decide _)|].
Qed.

Lemma success_content_type : values (str "Content-Type") (success_fields s range n ct) = [content_type_value ct].
Proof.
  unfold success_fields. rewrite !values_app.
  rewrite <-(trim_sp (content_type_value ct)) at 2 by apply content_type_tight.
  by destruct range; [destruct (decide _)|].
Qed.

Lemma success_content_range :
  values (str "Content-Range") (success_fields s range n ct) =
  match range with
  | Some r => if decide (s = status_partial_content) then [content_range_value r n] else []
  | None => []
  end.
Proof.
  unfold success_fields. rewrite !values_app. destruct range as [r|]; [|done]. destruct (decide _); [|done].
  rewrite <-(trim_sp (content_range_value r n)) at 2 by (by apply content_range_tight). done.
Qed.
End values.

Lemma error_content_range n :
  is_u64 n -> values (str "Content-Range") (error_fields status_range_not_satisfiable n) = [str "bytes */" ++ to_string n].
Proof.
  intros Hn. unfold error_fields. rewrite !values_app. cbn [decide].
  rewrite <-(trim_sp (str "bytes */" ++ to_string n)); [done|]. split.
  - intros c. by intros [= <-].
  - destruct (to_string_spec n Hn) as (_ & _ & Hne). intros c. rewrite last_app_ne by done. by apply to_string_tight.
Qed.

(** ** Properties of the responses *)

(** What a response to a stream request consists of: a head of one status line and valid
    fields that ends at its first empty line, with the length of its body, the range it
    holds and its type. *)
Definition framed (req : HttpRequest) (n : Z) (ct : text) (r : StreamResponse) : Prop :=
  exists fields,
    rs_headers r = response_head (rs_status r) fields /\ Forall valid_field fields /\
    find_text (crlf ++ crlf) (rs_headers r) = Some (length (rs_headers r) - 4)%nat /\
    values (str "Content-Length") fields = [to_string (body_length (rs_body_range r))] /\
    match rs_status r with
    | status_ok => values (str "Content-Type") fields = [content_type_value ct] /\ values (str "Content-Range") fields = []
    | status_partial_content =>
      values (str "Content-Type") fields = [content_type_value ct] /\
      exists b, rs_body_range r = Some b /\ values (str "Content-Range") fields = [content_range_value b n]
    | status_range_not_satisfiable =>
      values (str "Content-Range") fields = [str "bytes */" ++ to_string n] /\ rs_body_range r = None
    | _ => values (str "Content-Range") fields = [] /\ rs_body_range r = None
    end /\
    (rs_include_body r = true <-> rq_method req = method_get /\ is_Some (rs_body_range r)).

Lemma success_framed req s range n ct :
  is_u64 n -> range_ok range n -> s = status_ok \/ s = status_partial_content /\ is_Some range ->
  framed req n ct (build_success_response req s range n ct).
Proof.
  intros Hn Hr Hs. exists (success_fields s range n ct).
  pose proof (success_fields_valid s range n ct Hn Hr) as Hv.
  rewrite success_content_length, success_content_type, success_content_range by done.
  split; [apply build_success_head|]. split; [done|].
  split; [rewrite build_success_head; by apply head_ends_once; [apply status_line_plain|]|].
  split; [done|]. split.
  - destruct Hs as [->|[-> [b ->]]]; simpl; [by destruct range|]. eauto.
  - cbn [rs_include_body rs_body_range build_success_response]. rewrite andb_true_iff, bool_decide_eq_true, Z.ltb_lt.
    fold (body_length range). apply and_iff_compat_l. destruct range as [b|]; simpl; [|split; [lia|by intros []]].
    rewrite (range_length_in_resource n b) by done. unfold range_ok, in_resource in Hr. split; [by eauto|lia].
Qed.

Lemma error_framed req s n m ct :
  is_u64 m -> s = status_bad_request \/ s = status_range_not_satisfiable /\ m = n ->
  framed req n ct (MkResponse s None false (build_error_response s m)).
Proof.
  intros Hm Hs. exists (error_fields s m). cbn [rs_headers rs_status rs_body_range rs_include_body].
  split; [apply build_error_head|]. split; [by apply error_fields_valid|].
  split; [rewrite build_error_head; by apply head_ends_once; [apply status_line_plain|apply error_fields_valid]|].
  split; [by destruct Hs as [-> | [-> _]]|]. split; [|by split; [|intros [_ []]]].
  destruct Hs as [-> | [-> ->]]; [done|]. by rewrite error_content_range.
Qed.

(** C33. Every response to a stream request is well framed, whatever the request and the
    content type are: no text of either reaches the head as a line end, the length field
    is the exact length of the body, a partial response says which bytes it holds, and a
    body follows exactly when the method is GET and there are bytes. *)
Theorem stream_response_framed (req : HttpRequest) (n : Z) (ct : text) (Hn : is_u64 n) :
  framed req n ct (build_stream_response req n ct).
Proof.
  unfold build_stream_response. pose proof (parse_range_wf (default [] (rq_range req)) n Hn) as Hw.
  destruct (parse_range_header (default [] (rq_range req)) n) as [st rv]. unfold wf_result, is_success in Hw. simpl in *.
  destruct st; try (apply error_framed; [ulia|by auto]).
  - apply success_framed; [done| |by left]. destruct rv as [b|]; [|done]. simpl. destruct Hw as [[_ ?]|(_ & _ & ?)]; done.
  - destruct rv as [b|]; [|destruct Hw as [?|(_ & _ & ?)]; done].
    apply success_framed; [done| |by right; eauto]. destruct Hw as [[_ ?]|(_ & _ & ?)]; done.
Qed.

Lemma parse_range_none n : is_u64 n ->
  parse_range_header [] n = MkRangeResult full (if n =? 0 then None else Some (MkRange 0 (n - 1))).
Proof.
  intros Hn. unfold parse_range_header. cbn [trim trim_front trim_back text_eqb].
  change (text_eqb [] []) with true. cbv iota. zcases; [done|]. by rewrite wrap64_id by ulia.
Qed.

Lemma resolve_success s n :
  match range_value (resolve s n) with
  | Some _ => range_status (resolve s n) = partial | None => range_status (resolve s n) = unsatisfiable end.
Proof. destruct s; unfold resolve; zcases; done. Qed.

(** The response holds the bytes the client asked for: all of them without a range;
    with a range, the bytes it selects of the resource, as a partial response, or 416
    when it selects none. *)
Theorem stream_response_selects (req : HttpRequest) (n : Z) (ct : text) (Hn : is_u64 n) :
  (rq_range req = None ->
     rs_status (build_stream_response req n ct) = status_ok /\
     rs_body_range (build_stream_response req n ct) = if n =? 0 then None else Some (MkRange 0 (n - 1))) /\
  (forall hdr s, rq_range req = Some hdr -> renders s hdr ->
     rs_body_range (build_stream_response req n ct) = range_value (resolve s n) /\
     rs_status (build_stream_response req n ct) =
       match range_value (resolve s n) with Some _ => status_partial_content | None => status_range_not_satisfiable end).
Proof.
  unfold build_stream_response. split.
  - intros ->. change (default [] None) with (@nil ascii). rewrite parse_range_none by done. by destruct (n =? 0).
  - intros hdr s -> Hs. change (default [] (Some hdr)) with hdr. rewrite (parse_renders s hdr n Hn Hs).
    pose proof (resolve_success s n) as H. destruct (resolve s n) as [st rv]. simpl in *.
    destruct rv; subst st; done.
Qed.

(** The header loop always ends within as many turns as the head has bytes: more
    fuel does not change its answer, from every position it can be at. *)
Theorem header_loop_terminates (h : text) (position fuel : nat) (st : HeaderState)
    (Hp : (0 < position <= length h)%nat) (Hf : (length h <= fuel)%nat) :
  header_loop fuel h position st = header_loop (length h) h position st.
Proof.
  rewrite !header_loop_lines by lia. apply header_lines_fuel; rewrite length_drop; lia.
Qed.

(** ** Examples and witnesses *)

Definition test_head : text :=
  str "GET /stream/token HTTP/1.1" ++ crlf ++ str "Host: 127.0.0.1" ++ crlf ++ str "range:  bytes=100-199 " ++ crlf ++ crlf.

Definition test_request : HttpRequest := MkHttpRequest method_get (str "/stream/token") (Some (str "bytes=100-199")).

Example parse_test_head : parse_http_request_head test_head = MkParse request_ok (Some test_request).
Proof. vm_compute. reflexivity. Qed.

Example parse_post_head :
  parse_http_request_head (str "POST /stream/token HTTP/1.1" ++ crlf ++ str "Content-Length: 0" ++ crlf ++ crlf) = rejected method_not_allowed.
Proof. vm_compute. reflexivity. Qed.

Example parse_folded_head :
  parse_http_request_head (str "GET /stream/token HTTP/1.1" ++ crlf ++ str "Range: bytes=0-1" ++ crlf ++ str " more" ++ crlf ++ crlf)
  = rejected request_malformed.
Proof. vm_compute. reflexivity. Qed.

Lemma stream_response_framed_witness :
  is_u64 1000 /\ framed test_request 1000 (str "video/mp4") (build_stream_response test_request 1000 (str "video/mp4")).
Proof. split; [done|]. apply (stream_response_framed test_request 1000 (str "video/mp4")). done. Defined.
