(* ===== verification/EngineTypes.v ===== *)
(** The data that crosses the interfaces of the engine: the structures of the C header
    include/nuvio_engine/nuvio_engine.h with their memory layout, and the types of
    src/torrent/protocol_backend.hpp. *)
From stdpp Require Import prelude strings list.
From Stdlib Require Import ZArith Lia Ascii.
From S2P Require Import Prelude Text.

(** ** Status, mode and event codes *)

Definition NUVIO_ENGINE_API_VERSION : Z := 3.

Definition NUVIO_ENGINE_STATUS_OK : Z := 0.
Definition NUVIO_ENGINE_STATUS_INVALID_ARGUMENT : Z := 1.
Definition NUVIO_ENGINE_STATUS_INCOMPATIBLE_ABI : Z := 2.
Definition NUVIO_ENGINE_STATUS_ALLOCATION_FAILED : Z := 3.
Definition NUVIO_ENGINE_STATUS_INITIALIZATION_FAILED : Z := 4.
Definition NUVIO_ENGINE_STATUS_BACKEND_UNAVAILABLE : Z := 5.
Definition NUVIO_ENGINE_STATUS_QUEUE_FULL : Z := 6.
Definition NUVIO_ENGINE_STATUS_NO_EVENT : Z := 7.
Definition NUVIO_ENGINE_STATUS_NOT_FOUND : Z := 8.
Definition NUVIO_ENGINE_STATUS_METADATA_NOT_READY : Z := 9.
Definition NUVIO_ENGINE_STATUS_OUT_OF_RANGE : Z := 10.

Definition NUVIO_ENGINE_UPLOAD_DISABLED : Z := 0.
Definition NUVIO_ENGINE_UPLOAD_UNLIMITED : Z := 1.
Definition NUVIO_ENGINE_UPLOAD_LIMITED : Z := 2.

Definition NUVIO_ENGINE_TORRENT_PROFILE_SOFT : Z := 0.
Definition NUVIO_ENGINE_TORRENT_PROFILE_BALANCED : Z := 1.
Definition NUVIO_ENGINE_TORRENT_PROFILE_FAST : Z := 2.

Definition NUVIO_ENGINE_EVENT_TORRENT_ADDED : Z := 1.
Definition NUVIO_ENGINE_EVENT_TORRENT_METADATA_READY : Z := 2.
Definition NUVIO_ENGINE_EVENT_TORRENT_ERROR : Z := 3.
Definition NUVIO_ENGINE_EVENT_STREAM_PREPARED : Z := 4.
Definition NUVIO_ENGINE_EVENT_TORRENT_REMOVED : Z := 5.
Definition NUVIO_ENGINE_EVENT_STREAM_STOPPED : Z := 6.
Definition NUVIO_ENGINE_EVENT_DISK_CACHE_RECLAIMED : Z := 7.

Definition NUVIO_ENGINE_TORRENT_SOURCE_MAGNET : Z := 0.
Definition NUVIO_ENGINE_TORRENT_SOURCE_DATA : Z := 1.

(** ** The structures of the C header *)

(** [nuvio_engine_event]. *)
Record nuvio_engine_event := MkEvent {
  ev_struct_size : Z; ev_type : Z; ev_sequence : Z; ev_request_id : Z; ev_dropped_events : Z;
  ev_torrent_id : text; ev_message : text; ev_file_index : Z; ev_reserved_0 : Z; ev_file_size : Z;
  ev_stream_id : text; ev_stream_url : text;
}.

(** [nuvio_engine_file]. *)
Record nuvio_engine_file := MkEngineFile {
  ef_struct_size : Z; ef_index : Z; ef_offset : Z; ef_size : Z; ef_path_truncated : Z; ef_reserved_0 : text;
  ef_path : text;
}.

(** [nuvio_engine_stats]. *)
Record nuvio_engine_stats := MkEngineStats {
  es_struct_size : Z; es_active_torrents : Z; es_active_streams : Z; es_active_http_requests : Z;
  es_connected_peers : Z; es_connected_seeds : Z; es_pending_piece_reads : Z; es_reserved_0 : Z;
  es_download_rate_bytes_per_second : Z; es_upload_rate_bytes_per_second : Z;
  es_total_payload_download_bytes : Z; es_total_payload_upload_bytes : Z;
  es_memory_cache_capacity_bytes : Z; es_memory_cache_used_bytes : Z; es_memory_cache_hits : Z;
  es_memory_cache_misses : Z; es_memory_cache_evictions : Z; es_memory_cache_entries : Z;
  es_warm_torrents : Z; es_quiesced_torrents : Z; es_disk_cache_capacity_bytes : Z;
  es_disk_cache_used_bytes : Z; es_disk_cache_protected_bytes : Z; es_disk_cache_evictions : Z;
  es_disk_cache_reclaimed_bytes : Z; es_disk_cache_over_budget : Z; es_reserved_1 : text;
  es_known_peers : Z; es_connect_candidates : Z; es_interested_peers : Z; es_unchoked_peers : Z;
  es_downloading_peers : Z; es_snubbed_peers : Z; es_pending_block_requests : Z;
  es_target_block_requests : Z; es_timed_out_block_requests : Z; es_connecting_peers : Z;
  es_handshaking_peers : Z; es_target_piece_peers : Z; es_target_piece_unchoked_peers : Z;
  es_target_piece_downloading_peers : Z; es_off_target_downloading_peers : Z; es_tracker_reply_events : Z;
  es_tracker_error_events : Z; es_dht_reply_events : Z; es_reserved_2 : Z; es_tracker_peers_returned : Z;
  es_dht_peers_returned : Z; es_peer_connect_events : Z; es_peer_disconnect_events : Z;
  es_peer_disconnect_timeouts : Z; es_peer_disconnect_connect_failures : Z;
  es_peer_disconnect_redundant : Z; es_peer_disconnect_turnover : Z; es_peer_disconnect_other : Z;
  es_torrent_finished_events : Z;
}.

(** [nuvio_engine_stream_stats]. *)
Record nuvio_engine_stream_stats := MkStreamStats {
  ss_struct_size : Z; ss_file_index : Z; ss_file_size : Z; ss_contiguous_ready_bytes : Z;
  ss_verified_file_bytes : Z; ss_delivered_bytes : Z; ss_active_demands : Z; ss_scheduled_pieces : Z;
  ss_blocking_pieces : Z; ss_primary_blocking_piece : Z; ss_secondary_blocking_piece : Z;
  ss_last_ready_piece : Z; ss_primary_demand_start : Z; ss_primary_demand_end : Z;
  ss_secondary_demand_start : Z; ss_secondary_demand_end : Z; ss_schedule_revision : Z;
}.

(** ** The backend interface *)

Inductive TorrentInputType := input_magnet | input_torrent_data.
Record TorrentInput := MkInput { ti_type : TorrentInputType; ti_magnet_uri : text; ti_torrent_data : text }.

Record TorrentFileInfo := MkFileInfo { fi_path : text; fi_offset : Z; fi_size : Z }.

Inductive BackendEventType :=
| torrent_added | metadata_ready | torrent_error | stream_prepared | stream_stopped
| disk_cache_reclaimed | torrent_removed.

Record BackendEvent := MkBackendEvent {
  be_type : BackendEventType; be_request_id : Z; be_torrent_id : text; be_message : text;
  be_files : list TorrentFileInfo; be_file_index : Z; be_file_size : Z; be_stream_id : text; be_stream_url : text;
}.

#[global] Instance BackendEventType_eq_dec : EqDecision BackendEventType.
Proof. solve_decision. Defined.

(** An event built with the default member initializers after [files]. *)
Definition backend_event (type : BackendEventType) (request_id : Z) (torrent_id message : text)
    (files : list TorrentFileInfo) : BackendEvent :=
  MkBackendEvent type request_id torrent_id message files U32_MAX 0 [] [].

(** [BackendStats::Stream]. *)
Record BackendStream := MkBackendStream {
  bst_stream_id : text; bst_file_index : Z; bst_file_size : Z; bst_contiguous_ready_bytes : Z;
  bst_verified_file_bytes : Z; bst_delivered_bytes : Z; bst_active_demands : Z; bst_scheduled_pieces : Z;
  bst_blocking_pieces : Z; bst_primary_blocking_piece : Z; bst_secondary_blocking_piece : Z;
  bst_last_ready_piece : Z; bst_primary_demand_start : Z; bst_primary_demand_end : Z;
  bst_secondary_demand_start : Z; bst_secondary_demand_end : Z; bst_schedule_revision : Z;
}.

(** [BackendStats]. *)
Record BackendStats := MkBackendStats {
  bs_active_torrents : Z; bs_active_streams : Z; bs_active_http_requests : Z; bs_connected_peers : Z;
  bs_connected_seeds : Z; bs_known_peers : Z; bs_connect_candidates : Z; bs_interested_peers : Z;
  bs_unchoked_peers : Z; bs_downloading_peers : Z; bs_snubbed_peers : Z; bs_pending_block_requests : Z;
  bs_target_block_requests : Z; bs_timed_out_block_requests : Z; bs_pending_piece_reads : Z;
  bs_connecting_peers : Z; bs_handshaking_peers : Z; bs_target_piece_peers : Z;
  bs_target_piece_unchoked_peers : Z; bs_target_piece_downloading_peers : Z;
  bs_off_target_downloading_peers : Z; bs_tracker_reply_events : Z; bs_tracker_error_events : Z;
  bs_dht_reply_events : Z; bs_download_rate_bytes_per_second : Z; bs_upload_rate_bytes_per_second : Z;
  bs_total_payload_download_bytes : Z; bs_total_payload_upload_bytes : Z;
  bs_memory_cache_capacity_bytes : Z; bs_memory_cache_used_bytes : Z; bs_memory_cache_hits : Z;
  bs_memory_cache_misses : Z; bs_memory_cache_evictions : Z; bs_memory_cache_entries : Z;
  bs_warm_torrents : Z; bs_quiesced_torrents : Z; bs_disk_cache_capacity_bytes : Z;
  bs_disk_cache_used_bytes : Z; bs_disk_cache_protected_bytes : Z; bs_disk_cache_evictions : Z;
  bs_disk_cache_reclaimed_bytes : Z; bs_tracker_peers_returned : Z; bs_dht_peers_returned : Z;
  bs_peer_connect_events : Z; bs_peer_disconnect_events : Z; bs_peer_disconnect_timeouts : Z;
  bs_peer_disconnect_connect_failures : Z; bs_peer_disconnect_redundant : Z;
  bs_peer_disconnect_turnover : Z; bs_peer_disconnect_other : Z; bs_torrent_finished_events : Z;
  bs_disk_cache_over_budget : bool; bs_streams : list BackendStream;
}.

Record ProtocolBackendConfig := MkBackendConfig {
  pc_upload_mode : Z; pc_upload_limit_bytes_per_second : Z; pc_state_directory : text;
  pc_download_directory : text; pc_listen_port : Z; pc_memory_cache_capacity_bytes : Z;
  pc_disk_cache_capacity_bytes : Z; pc_stream_inactivity_timeout_milliseconds : Z;
  pc_warm_torrent_timeout_milliseconds : Z; pc_torrent_profile : Z; pc_tls_ca_bundle_path : text;
}.

(** What a call of the backend does: it returns, or it throws, either an exception with
    a [what()] text or some other object. *)
Inductive outcome (A : Type) := Returned (a : A) | Raised (what : option text).
Arguments Returned {_} _.
Arguments Raised {_} _.

(** [ProtocolBackend]: the virtual functions on a state [B].  [set_wakeup] only stores
    the callback. *)
Class ProtocolBackend (B : Type) := {
  be_add_torrent : B -> Z -> TorrentInput -> text -> outcome unit * B;
  be_prepare_file : B -> Z -> text -> Z -> TorrentFileInfo -> outcome unit * B;
  be_remove_torrent : B -> Z -> text -> outcome unit * B;
  be_stop_stream : B -> Z -> text -> outcome unit * B;
  be_reclaim_disk_cache : B -> Z -> Z -> outcome unit * B;
  be_shutdown : B -> outcome unit * B;
  be_pop_events : B -> outcome (list BackendEvent) * B;
  be_statistics : B -> outcome BackendStats * B;
}.

(** ** Memory layout

    The structures cross the C interface as bytes.  A layout is the list of the members
    with their types; the offsets, the padding and the size follow from it on a 64-bit
    target, where a pointer and [size_t] have eight bytes. *)

Inductive ctype := U8 | U16 | U32 | U64 | Ptr | Chars (n : nat).
Abbreviation layout := (list (text * ctype)).

Definition ctype_size (t : ctype) : nat :=
  match t with U8 => 1 | U16 => 2 | U32 => 4 | U64 | Ptr => 8 | Chars n => n end.
Definition ctype_align (t : ctype) : nat :=
  match t with U8 | Chars _ => 1 | U16 => 2 | U32 => 4 | U64 | Ptr => 8 end.

(** The bytes of padding at [offset] before a member of the alignment. *)
Definition padding (offset align : nat) : nat := (align - offset mod align) mod align.

(** [offsetof(Structure, name)] from the offset [offset]. *)
Fixpoint offset_from (offset : nat) (l : layout) (name : text) : nat :=
  match l with
  | [] => offset
  | (n, t) :: l' =>
    let start := (offset + padding offset (ctype_align t))%nat in
    if text_eqb n name then start else offset_from (start + ctype_size t) l' name
  end.
Definition offsetof (l : layout) (name : text) : nat := offset_from 0 l name.

Definition layout_align (l : layout) : nat := foldr (fun m a => Nat.max (ctype_align m.2) a) 1%nat l.

Fixpoint end_from (offset : nat) (l : layout) : nat :=
  match l with
  | [] => offset
  | (_, t) :: l' => end_from (offset + padding offset (ctype_align t) + ctype_size t) l'
  end.
Definition sizeof (l : layout) : nat :=
  let e := end_from 0 l in (e + padding e (layout_align l))%nat.

Definition config_layout : layout := [
  (str "struct_size", U32); (str "data_directory", Ptr); (str "cache_directory", Ptr);
  (str "memory_cache_capacity_bytes", U64); (str "disk_cache_capacity_bytes", U64);
  (str "listen_port", U16); (str "reserved_0", U16); (str "upload_mode", U32);
  (str "upload_limit_bytes_per_second", U64); (str "stream_inactivity_timeout_milliseconds", U32);
  (str "reserved_1", U32); (str "warm_torrent_timeout_milliseconds", U32); (str "reserved_2", U32);
  (str "tls_ca_bundle_path", Ptr); (str "torrent_profile", U32); (str "reserved_3", U32)].
Definition torrent_request_layout : layout := [
  (str "struct_size", U32); (str "magnet_uri", Ptr); (str "source_type", U32); (str "reserved_0", U32);
  (str "torrent_data", Ptr); (str "torrent_data_size", U64)].
Definition event_layout : layout := [
  (str "struct_size", U32); (str "type", U32); (str "sequence", U64); (str "request_id", U64);
  (str "dropped_events", U64); (str "torrent_id", (Chars 65)); (str "message", (Chars 256));
  (str "file_index", U32); (str "reserved_0", U32); (str "file_size", U64); (str "stream_id", (Chars 65));
  (str "stream_url", (Chars 512))].
Definition stream_request_layout : layout := [
  (str "struct_size", U32); (str "torrent_id", Ptr); (str "file_index", U32); (str "reserved_0", U32);
  (str "filename_hint", Ptr)].
Definition file_layout : layout := [
  (str "struct_size", U32); (str "index", U32); (str "offset", U64); (str "size", U64);
  (str "path_truncated", U8); (str "reserved_0", (Chars 7)); (str "path", (Chars 1024))].
Definition stats_layout : layout := [
  (str "struct_size", U32); (str "active_torrents", U32); (str "active_streams", U32);
  (str "active_http_requests", U32); (str "connected_peers", U32); (str "connected_seeds", U32);
  (str "pending_piece_reads", U32); (str "reserved_0", U32); (str "download_rate_bytes_per_second", U64);
  (str "upload_rate_bytes_per_second", U64); (str "total_payload_download_bytes", U64);
  (str "total_payload_upload_bytes", U64); (str "memory_cache_capacity_bytes", U64);
  (str "memory_cache_used_bytes", U64); (str "memory_cache_hits", U64); (str "memory_cache_misses", U64);
  (str "memory_cache_evictions", U64); (str "memory_cache_entries", U64); (str "warm_torrents", U32);
  (str "quiesced_torrents", U32); (str "disk_cache_capacity_bytes", U64);
  (str "disk_cache_used_bytes", U64); (str "disk_cache_protected_bytes", U64);
  (str "disk_cache_evictions", U64); (str "disk_cache_reclaimed_bytes", U64);
  (str "disk_cache_over_budget", U8); (str "reserved_1", (Chars 7)); (str "known_peers", U32);
  (str "connect_candidates", U32); (str "interested_peers", U32); (str "unchoked_peers", U32);
  (str "downloading_peers", U32); (str "snubbed_peers", U32); (str "pending_block_requests", U32);
  (str "target_block_requests", U32); (str "timed_out_block_requests", U32); (str "connecting_peers", U32);
  (str "handshaking_peers", U32); (str "target_piece_peers", U32); (str "target_piece_unchoked_peers", U32);
  (str "target_piece_downloading_peers", U32); (str "off_target_downloading_peers", U32);
  (str "tracker_reply_events", U32); (str "tracker_error_events", U32); (str "dht_reply_events", U32);
  (str "reserved_2", U32); (str "tracker_peers_returned", U64); (str "dht_peers_returned", U64);
  (str "peer_connect_events", U64); (str "peer_disconnect_events", U64);
  (str "peer_disconnect_timeouts", U64); (str "peer_disconnect_connect_failures", U64);
  (str "peer_disconnect_redundant", U64); (str "peer_disconnect_turnover", U64);
  (str "peer_disconnect_other", U64); (str "torrent_finished_events", U64)].
Definition stream_stats_layout : layout := [
  (str "struct_size", U32); (str "file_index", U32); (str "file_size", U64);
  (str "contiguous_ready_bytes", U64); (str "verified_file_bytes", U64); (str "delivered_bytes", U64);
  (str "active_demands", U32); (str "scheduled_pieces", U32); (str "blocking_pieces", U32);
  (str "primary_blocking_piece", U32); (str "secondary_blocking_piece", U32); (str "last_ready_piece", U32);
  (str "primary_demand_start", U64); (str "primary_demand_end", U64); (str "secondary_demand_start", U64);
  (str "secondary_demand_end", U64); (str "schedule_revision", U64)].

(** The value of a member, and its bytes on a little-endian target. *)
Inductive cvalue := VInt (z : Z) | VBytes (b : text).

Fixpoint little_endian (n : nat) (z : Z) : text :=
  match n with O => [] | S n' => chr (z mod 256) :: little_endian n' (z / 256) end.
Fixpoint read_little_endian (b : text) : Z :=
  match b with [] => 0 | c :: b' => code c + 256 * read_little_endian b' end.

Definition NUL : ascii := chr 0.

Definition encode_value (t : ctype) (v : cvalue) : text :=
  match v with VInt z => little_endian (ctype_size t) z | VBytes b => b end.

(** The bytes of a structure, with padding of zeros. *)
Fixpoint encode_from (offset : nat) (l : layout) (values : list cvalue) : text :=
  match l, values with
  | (_, t) :: l', v :: values' =>
    replicate (padding offset (ctype_align t)) NUL ++ encode_value t v ++
    encode_from (offset + padding offset (ctype_align t) + ctype_size t) l' values'
  | _, _ => []
  end.
Definition encode (l : layout) (values : list cvalue) : text :=
  let b := encode_from 0 l values in b ++ replicate (padding (length b) (layout_align l)) NUL.

Definition event_values (e : nuvio_engine_event) : list cvalue := [
  VInt (ev_struct_size e); VInt (ev_type e); VInt (ev_sequence e); VInt (ev_request_id e);
  VInt (ev_dropped_events e); VBytes (ev_torrent_id e); VBytes (ev_message e); VInt (ev_file_index e);
  VInt (ev_reserved_0 e); VInt (ev_file_size e); VBytes (ev_stream_id e); VBytes (ev_stream_url e)].

Definition file_values (f : nuvio_engine_file) : list cvalue := [
  VInt (ef_struct_size f); VInt (ef_index f); VInt (ef_offset f); VInt (ef_size f);
  VInt (ef_path_truncated f); VBytes (ef_reserved_0 f); VBytes (ef_path f)].

Definition stats_values (s : nuvio_engine_stats) : list cvalue := [
  VInt (es_struct_size s); VInt (es_active_torrents s); VInt (es_active_streams s);
  VInt (es_active_http_requests s); VInt (es_connected_peers s); VInt (es_connected_seeds s);
  VInt (es_pending_piece_reads s); VInt (es_reserved_0 s); VInt (es_download_rate_bytes_per_second s);
  VInt (es_upload_rate_bytes_per_second s); VInt (es_total_payload_download_bytes s);
  VInt (es_total_payload_upload_bytes s); VInt (es_memory_cache_capacity_bytes s);
  VInt (es_memory_cache_used_bytes s); VInt (es_memory_cache_hits s); VInt (es_memory_cache_misses s);
  VInt (es_memory_cache_evictions s); VInt (es_memory_cache_entries s); VInt (es_warm_torrents s);
  VInt (es_quiesced_torrents s); VInt (es_disk_cache_capacity_bytes s); VInt (es_disk_cache_used_bytes s);
  VInt (es_disk_cache_protected_bytes s); VInt (es_disk_cache_evictions s);
  VInt (es_disk_cache_reclaimed_bytes s); VInt (es_disk_cache_over_budget s); VBytes (es_reserved_1 s);
  VInt (es_known_peers s); VInt (es_connect_candidates s); VInt (es_interested_peers s);
  VInt (es_unchoked_peers s); VInt (es_downloading_peers s); VInt (es_snubbed_peers s);
  VInt (es_pending_block_requests s); VInt (es_target_block_requests s);
  VInt (es_timed_out_block_requests s); VInt (es_connecting_peers s); VInt (es_handshaking_peers s);
  VInt (es_target_piece_peers s); VInt (es_target_piece_unchoked_peers s);
  VInt (es_target_piece_downloading_peers s); VInt (es_off_target_downloading_peers s);
  VInt (es_tracker_reply_events s); VInt (es_tracker_error_events s); VInt (es_dht_reply_events s);
  VInt (es_reserved_2 s); VInt (es_tracker_peers_returned s); VInt (es_dht_peers_returned s);
  VInt (es_peer_connect_events s); VInt (es_peer_disconnect_events s);
  VInt (es_peer_disconnect_timeouts s); VInt (es_peer_disconnect_connect_failures s);
  VInt (es_peer_disconnect_redundant s); VInt (es_peer_disconnect_turnover s);
  VInt (es_peer_disconnect_other s); VInt (es_torrent_finished_events s)].

Definition stream_stats_values (s : nuvio_engine_stream_stats) : list cvalue := [
  VInt (ss_struct_size s); VInt (ss_file_index s); VInt (ss_file_size s);
  VInt (ss_contiguous_ready_bytes s); VInt (ss_verified_file_bytes s); VInt (ss_delivered_bytes s);
  VInt (ss_active_demands s); VInt (ss_scheduled_pieces s); VInt (ss_blocking_pieces s);
  VInt (ss_primary_blocking_piece s); VInt (ss_secondary_blocking_piece s); VInt (ss_last_ready_piece s);
  VInt (ss_primary_demand_start s); VInt (ss_primary_demand_end s); VInt (ss_secondary_demand_start s);
  VInt (ss_secondary_demand_end s); VInt (ss_schedule_revision s)].

(** [copy_text]: at most [Size - 1] characters and a terminator, into an array of [Size]. *)
Definition copy_text (destination : text) (source : text) : text :=
  let length_ := Nat.min (length source) (length destination - 1) in
  take length_ source ++ [NUL] ++ drop (length_ + 1) destination.

(** The array members of a structure initialised with [{}]. *)
Definition zero_chars (n : nat) : text := replicate n NUL.

(** The text a C reader finds in an array: up to the terminator. *)
Fixpoint c_str (v : text) : text :=
  match v with [] => [] | c :: v' => if Ascii.eqb c NUL then [] else c :: c_str v' end.

(** ** Facts *)

Lemma copy_text_length d s : d <> [] -> length (copy_text d s) = length d.
Proof.
  intros Hd. unfold copy_text. rewrite !length_app, length_take, length_drop. simpl.
  destruct d; [done|]. simpl. lia.
Qed.

Lemma c_str_app v w : NUL ∉ v -> c_str (v ++ NUL :: w) = v.
Proof.
  induction v as [|c v IH]; intros H; [done|]. rewrite not_elem_of_cons in H. destruct H as [Hc H]. simpl.
  rewrite (proj2 (Ascii.eqb_neq c NUL)) by congruence. by rewrite IH.
Qed.

(** What a C reader finds after [copy_text]: the source, cut to what fits. *)
Lemma copy_text_c_str d s : d <> [] -> NUL ∉ s -> c_str (copy_text d s) = take (length d - 1) s.
Proof.
  intros Hd Hs. unfold copy_text. set (n := Nat.min _ _).
  change ([NUL] ++ drop (n + 1) d) with (NUL :: drop (n + 1) d). rewrite c_str_app.
  - unfold n. destruct (Nat.min_spec (length s) (length d - 1)) as [[Hl ->]|[Hl ->]]; [|done].
    by rewrite !take_ge by lia.
  - intros Hin. apply Hs. rewrite <-(take_drop n s). apply elem_of_app. by left.
Qed.

Lemma little_endian_length n z : length (little_endian n z) = n.
Proof. revert z. induction n as [|n IH]; intros z; simpl; [done|]. by rewrite IH. Qed.

Lemma read_little_endian_encode n z :
  0 <= z < 256 ^ Z.of_nat n -> read_little_endian (little_endian n z) = z.
Proof.
  revert z. induction n as [|n IH]; intros z Hz; simpl; [simpl in Hz; lia|].
  rewrite Nat2Z.inj_succ, Z.pow_succ_r in Hz by lia.
  rewrite code_chr by (pose proof (Z.mod_pos_bound z 256); lia).
  rewrite IH; [pose proof (Z.div_mod z 256); lia|].
  split; [apply Z.div_pos; lia|apply Z.div_lt_upper_bound; lia].
Qed.

Example event_size : sizeof event_layout = 960%nat.
Proof. vm_compute. reflexivity. Qed.
