(* ===== verification/EngineRuntime.v ===== *)
(** The engine runtime: src/core/engine_runtime.cpp and .hpp.  Client threads enqueue
    commands and poll events; one worker thread passes the commands to the protocol
    backend and publishes the events of the backend.  Every mutex-protected section is
    one atomic step of the system, and the steps of the threads interleave freely. *)
From stdpp Require Import prelude strings list gmap.
From Stdlib Require Import ZArith Lia Ascii.
From S2P Require Import Prelude Text FileSelection EngineTypes.

(** ** State *)

Inductive CommandType := cmd_add_torrent | cmd_prepare_stream | cmd_stop_stream | cmd_reclaim_disk_cache | cmd_remove_torrent.

Record Command := MkCommand {
  c_type : CommandType; c_request_id : Z; c_input : TorrentInput; c_torrent_id : text; c_stream_id : text;
  c_file_index : Z; c_file : TorrentFileInfo; c_target_bytes : Z;
}.

Record Runtime := MkRuntime {
  has_backend : bool;                              (* backend_ is not null *)
  save_path : text;
  command_capacity : Z;
  event_capacity : Z;
  commands : list Command;
  events : list nuvio_engine_event;
  files : gmap text (list TorrentFileInfo);
  rt_stats : nuvio_engine_stats;
  stream_stats : gmap text nuvio_engine_stream_stats;
  stopping : bool;
  wake_pending : bool;
  next_stats_refresh : Z;                          (* milliseconds of the steady clock *)
  next_request_id : Z;
  next_sequence : Z;
  dropped_events : Z;
}.

(** Assignments to the groups of members that one mutex protects. *)
Definition with_commands (rt : Runtime) (q : list Command) (id : Z) : Runtime :=
  MkRuntime (has_backend rt) (save_path rt) (command_capacity rt) (event_capacity rt) q (events rt) (files rt)
    (rt_stats rt) (stream_stats rt) (stopping rt) (wake_pending rt) (next_stats_refresh rt) id
    (next_sequence rt) (dropped_events rt).
Definition with_flags (rt : Runtime) (stop wake : bool) : Runtime :=
  MkRuntime (has_backend rt) (save_path rt) (command_capacity rt) (event_capacity rt) (commands rt) (events rt) (files rt)
    (rt_stats rt) (stream_stats rt) stop wake (next_stats_refresh rt) (next_request_id rt)
    (next_sequence rt) (dropped_events rt).
Definition with_events (rt : Runtime) (q : list nuvio_engine_event) (sequence dropped : Z) : Runtime :=
  MkRuntime (has_backend rt) (save_path rt) (command_capacity rt) (event_capacity rt) (commands rt) q (files rt)
    (rt_stats rt) (stream_stats rt) (stopping rt) (wake_pending rt) (next_stats_refresh rt) (next_request_id rt)
    sequence dropped.
Definition with_files (rt : Runtime) (f : gmap text (list TorrentFileInfo)) : Runtime :=
  MkRuntime (has_backend rt) (save_path rt) (command_capacity rt) (event_capacity rt) (commands rt) (events rt) f
    (rt_stats rt) (stream_stats rt) (stopping rt) (wake_pending rt) (next_stats_refresh rt) (next_request_id rt)
    (next_sequence rt) (dropped_events rt).
Definition with_stats (rt : Runtime) (s : nuvio_engine_stats) (ss : gmap text nuvio_engine_stream_stats) (refresh : Z) : Runtime :=
  MkRuntime (has_backend rt) (save_path rt) (command_capacity rt) (event_capacity rt) (commands rt) (events rt) (files rt)
    s ss (stopping rt) (wake_pending rt) refresh (next_request_id rt)
    (next_sequence rt) (dropped_events rt).

(** ** Construction *)

Definition zero_stats : nuvio_engine_stats :=
  MkEngineStats (Z.of_nat (sizeof stats_layout)) 0 0 0 0 0 0 0 0 0 0 0 0 0 0 0 0 0 0 0 0 0 0 0 0 0 (zero_chars 7) 0 0 0
    0 0 0 0 0 0 0 0 0 0 0 0 0 0 0 0 0 0 0 0 0 0 0 0 0 0.

(** [EngineRuntime(backend, save_path, command_capacity, event_capacity)]. *)
Definition new_runtime (backend : bool) (path : text) (command_cap event_cap : Z) : Runtime :=
  MkRuntime backend path command_cap event_cap [] [] ∅ zero_stats ∅ false false 0 1 1 0.

(** [Command{}] with its type. *)
Definition new_command (type : CommandType) : Command :=
  MkCommand type 0 (MkInput input_magnet [] []) [] [] 0 (MkFileInfo [] 0 0) 0.
Definition with_request_id (c : Command) (id : Z) : Command :=
  MkCommand (c_type c) id (c_input c) (c_torrent_id c) (c_stream_id c) (c_file_index c) (c_file c) (c_target_bytes c).

(** ** The calls of the clients *)

(** [wake] and the first part of the destructor. *)
Definition wake (rt : Runtime) : Runtime := with_flags rt (stopping rt) true.
Definition request_stop (rt : Runtime) : Runtime := with_flags rt true (wake_pending rt).

(** A status, with the request id it writes when it accepts. *)
Abbreviation answer := (Z * option Z)%type.

Definition enqueue (rt : Runtime) (command : Command) : answer * Runtime :=
  if negb (has_backend rt) then ((NUVIO_ENGINE_STATUS_BACKEND_UNAVAILABLE, None), rt)
  else if stopping rt then ((NUVIO_ENGINE_STATUS_INITIALIZATION_FAILED, None), rt)
  else if command_capacity rt <=? Z.of_nat (length (commands rt)) then ((NUVIO_ENGINE_STATUS_QUEUE_FULL, None), rt)
  else
    let accepted_request_id := next_request_id rt in
    ((NUVIO_ENGINE_STATUS_OK, Some accepted_request_id),
     with_commands rt (commands rt ++ [with_request_id command accepted_request_id])
       (wrap64 (next_request_id rt + 1))).

Definition add_torrent_command (input : TorrentInput) : Command :=
  MkCommand cmd_add_torrent 0 input [] [] 0 (MkFileInfo [] 0 0) 0.
Definition add_torrent (rt : Runtime) (input : TorrentInput) : answer * Runtime :=
  enqueue rt (add_torrent_command input).

Definition remove_torrent_command (torrent_id : text) : Command :=
  MkCommand cmd_remove_torrent 0 (MkInput input_magnet [] []) torrent_id [] 0 (MkFileInfo [] 0 0) 0.
Definition remove_torrent (rt : Runtime) (torrent_id : text) : answer * Runtime :=
  enqueue rt (remove_torrent_command torrent_id).

Definition stop_stream_command (stream_id : text) : Command :=
  MkCommand cmd_stop_stream 0 (MkInput input_magnet [] []) [] stream_id 0 (MkFileInfo [] 0 0) 0.
Definition stop_stream (rt : Runtime) (stream_id : text) : answer * Runtime :=
  enqueue rt (stop_stream_command stream_id).

Definition reclaim_disk_cache_command (target_bytes : Z) : Command :=
  MkCommand cmd_reclaim_disk_cache 0 (MkInput input_magnet [] []) [] [] 0 (MkFileInfo [] 0 0) target_bytes.
Definition reclaim_disk_cache (rt : Runtime) (target_bytes : Z) : answer * Runtime :=
  enqueue rt (reclaim_disk_cache_command target_bytes).

(** The section of [prepare_stream] under [metadata_mutex_]: a status, or the command. *)
Definition prepare_command (rt : Runtime) (torrent_id : text) (requested_index : option nat) (filename_hint : text)
  : Z + Command :=
  match files rt !! torrent_id with
  | None => inl NUVIO_ENGINE_STATUS_METADATA_NOT_READY
  | Some snapshot =>
    let selectable := (fun f => MkFile (fi_path f) (fi_size f)) <$> snapshot in
    match sel_index (select_file selectable requested_index filename_hint) with
    | None => inl NUVIO_ENGINE_STATUS_NOT_FOUND
    | Some selected_index =>
      match snapshot !! selected_index with
      | None => inl NUVIO_ENGINE_STATUS_NOT_FOUND  (* out of range: excluded by [prepare_command_selects] *)
      | Some selected_file =>
        inr (MkCommand cmd_prepare_stream 0 (MkInput input_magnet [] []) torrent_id []
               (wrap32 (Z.of_nat selected_index)) selected_file 0)
      end
    end
  end.
Definition prepare_stream (rt : Runtime) (torrent_id : text) (requested_index : option nat) (filename_hint : text)
  : answer * Runtime :=
  match prepare_command rt torrent_id requested_index filename_hint with
  | inl status => ((status, None), rt)
  | inr command => enqueue rt command
  end.

Definition get_file_count (rt : Runtime) (torrent_id : text) : Z * option Z :=
  match files rt !! torrent_id with
  | None => (NUVIO_ENGINE_STATUS_METADATA_NOT_READY, None)
  | Some l => (NUVIO_ENGINE_STATUS_OK, Some (Z.of_nat (length l)))
  end.

Definition get_file (rt : Runtime) (torrent_id : text) (file_index : nat) : Z * option nuvio_engine_file :=
  match files rt !! torrent_id with
  | None => (NUVIO_ENGINE_STATUS_METADATA_NOT_READY, None)
  | Some l =>
    match l !! file_index with
    | None => (NUVIO_ENGINE_STATUS_OUT_OF_RANGE, None)
    | Some source =>
      (NUVIO_ENGINE_STATUS_OK,
       Some (MkEngineFile (Z.of_nat (sizeof file_layout)) (wrap32 (Z.of_nat file_index)) (fi_offset source)
               (fi_size source) (if (1024 <=? length (fi_path source))%nat then 1 else 0) (zero_chars 7)
               (copy_text (zero_chars 1024) (fi_path source))))
    end
  end.

Definition poll_event (rt : Runtime) : Z * option nuvio_engine_event * Runtime :=
  match events rt with
  | [] => (NUVIO_ENGINE_STATUS_NO_EVENT, None, rt)
  | e :: rest => (NUVIO_ENGINE_STATUS_OK, Some e, with_events rt rest (next_sequence rt) (dropped_events rt))
  end.

Definition get_stats (rt : Runtime) : nuvio_engine_stats := rt_stats rt.

Definition get_stream_stats (rt : Runtime) (stream_id : text) : Z * option nuvio_engine_stream_stats :=
  match stream_stats rt !! stream_id with
  | None => (NUVIO_ENGINE_STATUS_NOT_FOUND, None)
  | Some s => (NUVIO_ENGINE_STATUS_OK, Some s)
  end.

(** ** The worker *)

(** The metadata part of [push_event]. *)
Definition update_metadata (rt : Runtime) (e : BackendEvent) : Runtime :=
  match be_type e with
  | metadata_ready => with_files rt (<[be_torrent_id e := be_files e]> (files rt))
  | torrent_removed => with_files rt (delete (be_torrent_id e) (files rt))
  | _ => rt
  end.

Definition event_code (t : BackendEventType) : Z :=
  match t with
  | torrent_added => NUVIO_ENGINE_EVENT_TORRENT_ADDED
  | metadata_ready => NUVIO_ENGINE_EVENT_TORRENT_METADATA_READY
  | torrent_error => NUVIO_ENGINE_EVENT_TORRENT_ERROR
  | stream_prepared => NUVIO_ENGINE_EVENT_STREAM_PREPARED
  | stream_stopped => NUVIO_ENGINE_EVENT_STREAM_STOPPED
  | disk_cache_reclaimed => NUVIO_ENGINE_EVENT_DISK_CACHE_RECLAIMED
  | torrent_removed => NUVIO_ENGINE_EVENT_TORRENT_REMOVED
  end.

Definition make_event (e : BackendEvent) (sequence dropped : Z) : nuvio_engine_event :=
  MkEvent (Z.of_nat (sizeof event_layout)) (event_code (be_type e)) sequence (be_request_id e) dropped
    (copy_text (zero_chars 65) (be_torrent_id e)) (copy_text (zero_chars 256) (be_message e)) (be_file_index e) 0
    (be_file_size e) (copy_text (zero_chars 65) (be_stream_id e)) (copy_text (zero_chars 512) (be_stream_url e)).

(** The rest of [push_event]: the event enters the queue, which drops its oldest one
    when it is full.  [pop_front] of an empty queue, which a capacity of zero would
    reach, is undefined behaviour; every runtime of the engine has a positive one. *)
Definition publish (rt : Runtime) (e : BackendEvent) : Runtime :=
  let full := event_capacity rt <=? Z.of_nat (length (events rt)) in
  let queue := if full then tail (events rt) else events rt in
  let dropped := if full then wrap64 (dropped_events rt + 1) else dropped_events rt in
  with_events rt (queue ++ [make_event e (next_sequence rt) dropped]) (wrap64 (next_sequence rt + 1)) dropped.

Definition push_event (rt : Runtime) (e : BackendEvent) : Runtime := publish (update_metadata rt e) e.

Arguments publish : simpl never.

(** An exception as an event, for the request [request_id]. *)
Definition error_event (request_id : Z) (unknown : string) (what : option text) : BackendEvent :=
  backend_event torrent_error request_id [] (default (str unknown) what) [].

Definition engine_snapshot (backend_stats : BackendStats) : nuvio_engine_stats :=
  MkEngineStats (Z.of_nat (sizeof stats_layout)) (bs_active_torrents backend_stats) (bs_active_streams backend_stats)
    (bs_active_http_requests backend_stats) (bs_connected_peers backend_stats)
    (bs_connected_seeds backend_stats) (bs_pending_piece_reads backend_stats) 0
    (bs_download_rate_bytes_per_second backend_stats) (bs_upload_rate_bytes_per_second backend_stats)
    (bs_total_payload_download_bytes backend_stats) (bs_total_payload_upload_bytes backend_stats)
    (bs_memory_cache_capacity_bytes backend_stats) (bs_memory_cache_used_bytes backend_stats)
    (bs_memory_cache_hits backend_stats) (bs_memory_cache_misses backend_stats)
    (bs_memory_cache_evictions backend_stats) (bs_memory_cache_entries backend_stats)
    (bs_warm_torrents backend_stats) (bs_quiesced_torrents backend_stats)
    (bs_disk_cache_capacity_bytes backend_stats) (bs_disk_cache_used_bytes backend_stats)
    (bs_disk_cache_protected_bytes backend_stats) (bs_disk_cache_evictions backend_stats)
    (bs_disk_cache_reclaimed_bytes backend_stats) (if bs_disk_cache_over_budget backend_stats then 1 else 0)
    (zero_chars 7) (bs_known_peers backend_stats) (bs_connect_candidates backend_stats)
    (bs_interested_peers backend_stats) (bs_unchoked_peers backend_stats)
    (bs_downloading_peers backend_stats) (bs_snubbed_peers backend_stats)
    (bs_pending_block_requests backend_stats) (bs_target_block_requests backend_stats)
    (bs_timed_out_block_requests backend_stats) (bs_connecting_peers backend_stats)
    (bs_handshaking_peers backend_stats) (bs_target_piece_peers backend_stats)
    (bs_target_piece_unchoked_peers backend_stats) (bs_target_piece_downloading_peers backend_stats)
    (bs_off_target_downloading_peers backend_stats) (bs_tracker_reply_events backend_stats)
    (bs_tracker_error_events backend_stats) (bs_dht_reply_events backend_stats) 0
    (bs_tracker_peers_returned backend_stats) (bs_dht_peers_returned backend_stats)
    (bs_peer_connect_events backend_stats) (bs_peer_disconnect_events backend_stats)
    (bs_peer_disconnect_timeouts backend_stats) (bs_peer_disconnect_connect_failures backend_stats)
    (bs_peer_disconnect_redundant backend_stats) (bs_peer_disconnect_turnover backend_stats)
    (bs_peer_disconnect_other backend_stats) (bs_torrent_finished_events backend_stats).

Definition stream_snapshot (stream : BackendStream) : nuvio_engine_stream_stats :=
  MkStreamStats (Z.of_nat (sizeof stream_stats_layout)) (bst_file_index stream) (bst_file_size stream)
    (bst_contiguous_ready_bytes stream) (bst_verified_file_bytes stream) (bst_delivered_bytes stream)
    (bst_active_demands stream) (bst_scheduled_pieces stream) (bst_blocking_pieces stream)
    (bst_primary_blocking_piece stream) (bst_secondary_blocking_piece stream) (bst_last_ready_piece stream)
    (bst_primary_demand_start stream) (bst_primary_demand_end stream) (bst_secondary_demand_start stream)
    (bst_secondary_demand_end stream) (bst_schedule_revision stream).

Definition stream_table (streams : list BackendStream) : gmap text nuvio_engine_stream_stats :=
  fold_left (fun m s => <[bst_stream_id s := stream_snapshot s]> m) streams ∅.

Section worker.
Context {B : Type} `{ProtocolBackend B}.

(** The [switch] of [process_command]. *)
Definition call_backend (b : B) (path : text) (c : Command) : outcome unit * B :=
  match c_type c with
  | cmd_add_torrent => be_add_torrent b (c_request_id c) (c_input c) path
  | cmd_prepare_stream => be_prepare_file b (c_request_id c) (c_torrent_id c) (c_file_index c) (c_file c)
  | cmd_stop_stream => be_stop_stream b (c_request_id c) (c_stream_id c)
  | cmd_reclaim_disk_cache => be_reclaim_disk_cache b (c_request_id c) (c_target_bytes c)
  | cmd_remove_torrent => be_remove_torrent b (c_request_id c) (c_torrent_id c)
  end.

(** [process_command] without its [push_event]: the events it pushes. *)
Definition execute (b : B) (path : text) (c : Command) : list BackendEvent * B :=
  match call_backend b path c with
  | (Returned _, b') => ([], b')
  | (Raised what, b') => ([error_event (c_request_id c) "unknown protocol backend error" what], b')
  end.

Definition process_command (rt : Runtime) (b : B) (c : Command) : Runtime * B :=
  let (pushed, b') := execute b (save_path rt) c in (fold_left push_event pushed rt, b').

(** [refresh_stats]: the backend's statistics replace the two snapshots. *)
Definition refresh_stats (rt : Runtime) (b : B) : outcome unit * Runtime * B :=
  match be_statistics b with
  | (Raised what, b') => (Raised what, rt, b')
  | (Returned s, b') =>
    (Returned (), with_stats rt (engine_snapshot s) (stream_table (bs_streams s)) (next_stats_refresh rt), b')
  end.

(** [collect_backend_events] at the time [now], with the handlers of [run] and without
    its [push_event]: the events it pushes, or the one its exception becomes. *)
Definition collect (rt : Runtime) (b : B) (now : Z) : list BackendEvent * Runtime * B :=
  let failed what := [error_event 0 "unknown protocol event error" what] in
  match be_pop_events b with
  | (Raised what, b') => (failed what, rt, b')
  | (Returned popped, b') =>
    if bool_decide (popped = []) && (now <? next_stats_refresh rt) then ([], rt, b')
    else
      let rt := with_stats rt (rt_stats rt) (stream_stats rt) (now + 50) in
      match refresh_stats rt b' with
      | (Returned _, rt, b'') => (popped, rt, b'')
      | (Raised what, rt, b'') => (failed what, rt, b'')
      end
  end.

Definition collect_backend_events (rt : Runtime) (b : B) (now : Z) : Runtime * B :=
  let '(pushed, rt, b') := collect rt b now in (fold_left push_event pushed rt, b').

(** The section of [run] under [command_mutex_], after the wait. *)
Inductive taken := TakeCommand (c : Command) | TakeNothing | TakeShutdown.
Definition take_command (rt : Runtime) : taken * Runtime :=
  let rt := with_flags rt (stopping rt) false in
  match commands rt with
  | c :: rest => (TakeCommand c, with_commands rt rest (next_request_id rt))
  | [] => (if stopping rt then TakeShutdown else TakeNothing, rt)
  end.

(** One turn of [run] when no other thread interferes; the flag tells whether it ends. *)
Definition run_turn (rt : Runtime) (b : B) (now : Z) : bool * Runtime * B :=
  match take_command rt with
  | (TakeShutdown, rt) => (true, rt, (be_shutdown b).2)
  | (TakeNothing, rt) => let (rt, b) := collect_backend_events rt b now in (false, rt, b)
  | (TakeCommand c, rt) =>
    let (rt, b) := process_command rt b c in
    let (rt, b) := collect_backend_events rt b now in (false, rt, b)
  end.

(** ** The system: client steps and worker steps interleave *)

(** Where the worker is: what it does next, with the events it still pushes.  [WNone] is
    the runtime without a backend, which has no worker. *)
Inductive worker_state :=
| WNone
| WWait
| WProcess (c : Command)
| WCollect
| WPush (e : list BackendEvent) (then_collect : bool)
| WPublish (e : BackendEvent) (rest : list BackendEvent) (then_collect : bool)
| WShutdown
| WStopped.

Record System := MkSystem { sys_rt : Runtime; sys_backend : B; sys_worker : worker_state }.

(** What is observable of a step. *)
Inductive label :=
| LEnqueue (c : Command) (a : answer)
| LPoll (e : option nuvio_engine_event)
| LWake
| LStop
| LTake (c : Command)
| LUpdate (e : BackendEvent)
| LPublish (e : nuvio_engine_event) (dropped : option nuvio_engine_event)
| LShutdown
| LInternal.

(** A step of a client thread. *)
Inductive client_step : System -> label -> System -> Prop :=
| step_enqueue rt b w c a rt' :
    enqueue rt c = (a, rt') -> client_step (MkSystem rt b w) (LEnqueue c a) (MkSystem rt' b w)
| step_poll rt b w s e rt' :
    poll_event rt = (s, e, rt') -> client_step (MkSystem rt b w) (LPoll e) (MkSystem rt' b w)
| step_wake rt b w : client_step (MkSystem rt b w) LWake (MkSystem (wake rt) b w)
| step_stop rt b w : client_step (MkSystem rt b w) LStop (MkSystem (request_stop rt) b w).

(** The event [publish] drops. *)
Definition dropped_by (rt : Runtime) : option nuvio_engine_event :=
  if event_capacity rt <=? Z.of_nat (length (events rt)) then head (events rt) else None.

(** A step of the worker. *)
Inductive worker_step : System -> label -> System -> Prop :=
| step_take rt b c rt' :
    take_command rt = (TakeCommand c, rt') ->
    worker_step (MkSystem rt b WWait) (LTake c) (MkSystem rt' b (WProcess c))
| step_idle rt b rt' :
    take_command rt = (TakeNothing, rt') ->
    worker_step (MkSystem rt b WWait) LInternal (MkSystem rt' b WCollect)
| step_leave rt b rt' :
    take_command rt = (TakeShutdown, rt') ->
    worker_step (MkSystem rt b WWait) LInternal (MkSystem rt' b WShutdown)
| step_shutdown rt b :
    worker_step (MkSystem rt b WShutdown) LShutdown (MkSystem rt (be_shutdown b).2 WStopped)
| step_process rt b c pushed b' :
    execute b (save_path rt) c = (pushed, b') ->
    worker_step (MkSystem rt b (WProcess c)) LInternal (MkSystem rt b' (WPush pushed true))
| step_collect rt b now pushed rt' b' :
    collect rt b now = (pushed, rt', b') ->
    worker_step (MkSystem rt b WCollect) LInternal (MkSystem rt' b' (WPush pushed false))
| step_update rt b e rest k :
    worker_step (MkSystem rt b (WPush (e :: rest) k)) (LUpdate e)
      (MkSystem (update_metadata rt e) b (WPublish e rest k))
| step_publish rt b e rest k ev :
    last (events (publish rt e)) = Some ev ->
    worker_step (MkSystem rt b (WPublish e rest k)) (LPublish ev (dropped_by rt))
      (MkSystem (publish rt e) b (WPush rest k))
| step_pushed rt b (k : bool) :
    worker_step (MkSystem rt b (WPush [] k)) LInternal (MkSystem rt b (if k then WCollect else WWait)).

Inductive step (s : System) (l : label) (s' : System) : Prop :=
| by_client : client_step s l s' -> step s l s'
| by_worker : worker_step s l s' -> step s l s'.

(** The runtime right after its construction. *)
Definition initial (backend : bool) (b : B) (path : text) (command_cap event_cap : Z) : System :=
  MkSystem (new_runtime backend path command_cap event_cap) b (if backend then WWait else WNone).

(** The states reachable from [s0], with the labels of the steps, oldest first. *)
Inductive reachable (s0 : System) : list label -> System -> Prop :=
| reach_init : reachable s0 [] s0
| reach_step tr s l s' : reachable s0 tr s -> step s l s' -> reachable s0 (tr ++ [l]) s'.
End worker.
Arguments System : clear implicits.

Create Rewrite HintDb trace.

(** ** What a trace says *)

Definition accepted_of (l : label) : option Command :=
  match l with LEnqueue c (_, Some id) => Some (with_request_id c id) | _ => None end.
Definition taken_of (l : label) : option Command := match l with LTake c => Some c | _ => None end.
Definition published_of (l : label) : option nuvio_engine_event := match l with LPublish e _ => Some e | _ => None end.
Definition updated_of (l : label) : option BackendEvent := match l with LUpdate e => Some e | _ => None end.
(** An event that left the queue: polled by a client ([true]) or dropped. *)
Definition removed_of (l : label) : option (nuvio_engine_event * bool) :=
  match l with LPoll (Some e) => Some (e, true) | LPublish _ (Some e) => Some (e, false) | _ => None end.

Definition accepted (tr : list label) : list Command := omap accepted_of tr.
Definition taken_commands (tr : list label) : list Command := omap taken_of tr.
Definition published (tr : list label) : list nuvio_engine_event := omap published_of tr.
Definition updates (tr : list label) : list BackendEvent := omap updated_of tr.
Definition removed (tr : list label) : list (nuvio_engine_event * bool) := omap removed_of tr.

(** How many events were dropped, how often the backend was shut down. *)
Definition drops (tr : list label) : Z := Z.of_nat (length (filter (fun r => r.2 = false) (removed tr))).
Definition shutdowns (tr : list label) : nat :=
  length (omap (fun l => match l with LShutdown => Some () | _ => None end) tr).

Lemma accepted_snoc tr l : accepted (tr ++ [l]) = accepted tr ++ option_list (accepted_of l).
Proof. unfold accepted. rewrite omap_app. simpl. by destruct (accepted_of l). Qed.
Lemma taken_snoc tr l : taken_commands (tr ++ [l]) = taken_commands tr ++ option_list (taken_of l).
Proof. unfold taken_commands. rewrite omap_app. simpl. by destruct (taken_of l). Qed.
Lemma published_snoc tr l : published (tr ++ [l]) = published tr ++ option_list (published_of l).
Proof. unfold published. rewrite omap_app. simpl. by destruct (published_of l). Qed.
Lemma updates_snoc tr l : updates (tr ++ [l]) = updates tr ++ option_list (updated_of l).
Proof. unfold updates. rewrite omap_app. simpl. by destruct (updated_of l). Qed.
Lemma removed_snoc tr l : removed (tr ++ [l]) = removed tr ++ option_list (removed_of l).
Proof. unfold removed. rewrite omap_app. simpl. by destruct (removed_of l). Qed.
Lemma shutdowns_snoc tr l : shutdowns (tr ++ [l]) = (shutdowns tr + match l with LShutdown => 1 | _ => 0 end)%nat.
Proof. unfold shutdowns. rewrite omap_app, length_app. destruct l; simpl; lia. Qed.

Lemma drops_snoc tr l :
  drops (tr ++ [l]) = drops tr + match removed_of l with Some (_, false) => 1 | _ => 0 end.
Proof.
  unfold drops. rewrite removed_snoc, filter_app, length_app.
  destruct (removed_of l) as [[e [|]]|]; simpl; lia.
Qed.

#[export] Hint Rewrite accepted_snoc taken_snoc published_snoc updates_snoc removed_snoc shutdowns_snoc drops_snoc : trace.

(** ** Invariants *)

Lemma wrap64_succ z : wrap64 (wrap64 z + 1) = wrap64 (z + 1).
Proof. unfold wrap64. by rewrite Zplus_mod_idemp_l. Qed.

(** A queue of consecutive numbers that starts at 1. *)
Definition numbered (l : list Z) (next : Z) : Prop :=
  l = wrap64 <$> zseq 1 (length l) /\ next = wrap64 (Z.of_nat (length l) + 1).

Lemma zseq_snoc s n : zseq s (S n) = zseq s n ++ [s + Z.of_nat n].
Proof.
  revert s. induction n as [|n IH]; intros s; [simpl; f_equal; lia|].
  change (zseq s (S (S n))) with (s :: zseq (s + 1) (S n)). rewrite IH. simpl. do 3 f_equal. lia.
Qed.

Lemma numbered_nil : numbered [] 1.
Proof. done. Qed.

Lemma numbered_snoc l next : numbered l next -> numbered (l ++ [next]) (wrap64 (next + 1)).
Proof.
  intros [Hl ->]. split.
  - rewrite length_app. simpl length. rewrite Nat.add_1_r, zseq_snoc, fmap_app, <-Hl. simpl. do 3 f_equal. lia.
  - rewrite length_app, wrap64_succ. simpl. f_equal. lia.
Qed.

Lemma zseq_lookup s n i : (i < n)%nat -> zseq s n !! i = Some (s + Z.of_nat i).
Proof.
  revert s i. induction n as [|n IH]; intros s i Hi; [lia|].
  destruct i as [|i]; simpl; [f_equal; lia|]. rewrite IH by lia. f_equal. lia.
Qed.

Lemma numbered_lookup l next i x : numbered l next -> l !! i = Some x -> x = wrap64 (Z.of_nat i + 1).
Proof.
  intros [Hl _] Hx. pose proof (lookup_lt_Some _ _ _ Hx) as Hi. rewrite Hl in Hx.
  rewrite list_lookup_fmap, zseq_lookup in Hx by done. injection Hx as <-. f_equal. lia.
Qed.

(** What [publish] does to the queue: the event enters it, and the oldest one leaves it
    when it is full. *)
Lemma publish_cases rt e ev :
  last (events (publish rt e)) = Some ev ->
  (dropped_by rt = None /\ Z.of_nat (length (events rt)) < event_capacity rt /\
   ev = make_event e (next_sequence rt) (dropped_events rt) /\
   publish rt e = with_events rt (events rt ++ [ev]) (wrap64 (next_sequence rt + 1)) (dropped_events rt)) \/
  (exists d rest, events rt = d :: rest /\ dropped_by rt = Some d /\
   ev = make_event e (next_sequence rt) (wrap64 (dropped_events rt + 1)) /\
   publish rt e = with_events rt (rest ++ [ev]) (wrap64 (next_sequence rt + 1)) (wrap64 (dropped_events rt + 1))) \/
  event_capacity rt <= 0.
Proof.
  unfold publish, dropped_by.
  destruct (Z.leb_spec (event_capacity rt) (Z.of_nat (length (events rt)))); simpl; rewrite last_snoc; intros [= <-].
  - right. destruct (events rt) as [|d rest]; [right; simpl in *; lia|]. left. by exists d, rest.
  - by left.
Qed.

Section invariants.
Context {B : Type} `{ProtocolBackend B} (backend : bool) (b0 : B) (path : text) (ccap ecap : Z).
Abbreviation start := (initial backend b0 path ccap ecap).

(** Induction over the steps: a predicate that the empty trace satisfies and that every
    step preserves holds in every reachable state. *)
Lemma reachable_inv (P : list label -> System B -> Prop) :
  P [] start -> (forall tr s l s', P tr s -> step s l s' -> P (tr ++ [l]) s') ->
  forall tr s, reachable start tr s -> P tr s.
Proof. intros H0 Hs tr s. induction 1; eauto. Qed.

(** The members that never change. *)
Definition constants (tr : list label) (s : System B) : Prop :=
  has_backend (sys_rt s) = backend /\ save_path (sys_rt s) = path /\
  command_capacity (sys_rt s) = ccap /\ event_capacity (sys_rt s) = ecap.

Lemma enqueue_cases rt c a rt' :
  enqueue rt c = (a, rt') ->
  (rt' = rt /\ exists status, a = (status, None) /\ status <> NUVIO_ENGINE_STATUS_OK) \/
  (a = (NUVIO_ENGINE_STATUS_OK, Some (next_request_id rt)) /\ has_backend rt = true /\ stopping rt = false /\
   Z.of_nat (length (commands rt)) < command_capacity rt /\
   rt' = with_commands rt (commands rt ++ [with_request_id c (next_request_id rt)]) (wrap64 (next_request_id rt + 1))).
Proof.
  unfold enqueue. destruct (has_backend rt); [|intros [= <- <-]; left; by eauto].
  destruct (stopping rt); [intros [= <- <-]; left; by eauto|]. simpl.
  destruct (Z.leb_spec (command_capacity rt) (Z.of_nat (length (commands rt)))); intros [= <- <-]; [left; by eauto|by right].
Qed.

Lemma poll_cases rt s e rt' :
  poll_event rt = (s, e, rt') ->
  (rt' = rt /\ e = None /\ events rt = []) \/
  (exists ev rest, e = Some ev /\ events rt = ev :: rest /\ rt' = with_events rt rest (next_sequence rt) (dropped_events rt)).
Proof. unfold poll_event. destruct (events rt) eqn:E; intros [= <- <- <-]; [by left|right; eauto]. Qed.

Lemma take_cases rt t rt' :
  take_command rt = (t, rt') ->
  (exists c rest, t = TakeCommand c /\ commands rt = c :: rest /\
     rt' = with_commands (with_flags rt (stopping rt) false) rest (next_request_id rt)) \/
  (commands rt = [] /\ rt' = with_flags rt (stopping rt) false /\
     (t = TakeShutdown /\ stopping rt = true \/ t = TakeNothing /\ stopping rt = false)).
Proof.
  unfold take_command. simpl. destruct (commands rt) eqn:E; intros [= <- <-]; [right|left; eauto].
  destruct (stopping rt); auto.
Qed.

(** [collect] changes the statistics only. *)
Lemma collect_rt rt b now pushed rt' b' :
  collect rt b now = (pushed, rt', b') ->
  rt' = rt \/ exists s ss r, rt' = with_stats rt s ss r.
Proof.
  unfold collect, refresh_stats. destruct (be_pop_events b) as [[popped|what] b1]; [|intros [= _ <- _]; by left].
  destruct (_ && _); [intros [= _ <- _]; by left|].
  destruct (be_statistics b1) as [[st|what] b2]; intros [= _ <- _]; right; eauto.
Qed.

Lemma update_metadata_rt rt e : exists f, update_metadata rt e = with_files rt f.
Proof. unfold update_metadata. destruct rt, (be_type e); simpl; eexists; reflexivity. Qed.
End invariants.

(** Case analysis of a step, with the effect of every operation on the state. *)
Ltac step_cases :=
  match goal with
  | H : step _ _ _ |- _ =>
    destruct H as [H|H]; inversion H; subst; clear H;
    try match goal with
    | Hl : last (events (publish ?rt ?e)) = Some ?ev |- _ =>
      let Hd := fresh "Hd" in let Hp := fresh "Hp" in
      apply publish_cases in Hl as [(Hd & ? & -> & Hp)|[(? & ? & ? & Hd & -> & Hp)|?]];
      [rewrite ?Hp, ?Hd|rewrite ?Hp, ?Hd|]
    end; simpl in *;
    repeat match goal with
    | E : enqueue _ _ = _ |- _ => apply enqueue_cases in E as [(-> & ? & -> & ?)|(-> & ? & ? & ? & ->)]
    | E : poll_event _ = _ |- _ => apply poll_cases in E as [(-> & -> & ?)|(? & ? & -> & ? & ->)]
    | E : take_command _ = _ |- _ => apply take_cases in E as [(? & ? & ? & ? & ->)|(? & -> & [[? ?]|[? ?]])]
    | E : collect _ _ _ = _ |- _ => apply collect_rt in E as [->|(? & ? & ? & ->)]
    | |- context [update_metadata ?rt ?e] => destruct (update_metadata_rt rt e) as [? ->]
    end; simplify_eq/=
  end.

Section safety.
Context {B : Type} `{ProtocolBackend B} (backend : bool) (b0 : B) (path : text) (ccap ecap : Z).
Abbreviation start := (initial backend b0 path ccap ecap).

Lemma constants_inv tr s : reachable start tr s -> constants backend path ccap ecap tr s.
Proof.
  revert tr s. apply reachable_inv; [by unfold constants|]. unfold constants. intros tr s l s' Hc Hs.
  step_cases; try done.
Qed.

(** Induction over the steps, with the constant members at hand. *)
Lemma reachable_const_inv (P : list label -> System B -> Prop) :
  P [] start ->
  (forall tr s l s', constants backend path ccap ecap tr s -> P tr s -> step s l s' -> P (tr ++ [l]) s') ->
  forall tr s, reachable start tr s -> P tr s.
Proof.
  intros H0 Hs tr s Hr. pose proof (constants_inv tr s Hr) as Hc. revert Hc.
  induction Hr as [|tr s l s' Hr IH Hst]; [done|]. intros _. pose proof (constants_inv tr s Hr) as Hc. eauto.
Qed.

(** The command queue: first in, first out, ids in order, never above its capacity. *)
Record command_inv (tr : list label) (s : System B) : Prop := {
  ci_fifo : accepted tr = taken_commands tr ++ commands (sys_rt s);
  ci_ids : numbered (c_request_id <$> accepted tr) (next_request_id (sys_rt s));
  ci_bound : Z.of_nat (length (commands (sys_rt s))) <= ccap;
}.

Lemma command_inv_reachable tr s : 0 <= ccap -> reachable start tr s -> command_inv tr s.
Proof.
  intros Hcap. revert tr s. apply reachable_const_inv; [by constructor|].
  intros tr s l s' (_ & _ & Hcc & _) [H1 H2 H3] Hs.
  constructor; autorewrite with trace; step_cases; rewrite ?app_nil_r; try done; try lia.
  - by rewrite H1, app_assoc.
  - rewrite H1. revert select (commands rt = _). intros ->. by rewrite <-app_assoc.
  - rewrite fmap_app. by apply numbered_snoc.
  - rewrite length_app. simpl. lia.
  - revert H3. revert select (commands rt = _). intros ->. simpl. lia.
Qed.
(** The event queue: every event has the next number, leaves in order, and the drops are
    counted. *)
Record event_inv (tr : list label) (s : System B) : Prop := {
  ei_fifo : published tr = (removed tr).*1 ++ events (sys_rt s);
  ei_ids : numbered (ev_sequence <$> published tr) (next_sequence (sys_rt s));
  ei_drops : dropped_events (sys_rt s) = wrap64 (drops tr);
  ei_bound : Z.of_nat (length (events (sys_rt s))) <= ecap;
}.

Lemma event_inv_reachable tr s : 0 < ecap -> reachable start tr s -> event_inv tr s.
Proof.
  intros Hcap. revert tr s. apply reachable_const_inv; [by constructor; try done; simpl; lia|].
  intros tr s l s' (_ & _ & _ & He) [H1 H2 H3 H4] Hs.
  constructor; autorewrite with trace; step_cases; rewrite ?app_nil_r, ?Z.add_0_r; simpl in *; try done; try lia.
  all: try (match goal with Hq : events _ = _ |- _ => rewrite Hq in * end).
  all: rewrite ?fmap_app, ?length_app, ?H1, ?H3, ?wrap64_succ, <-?app_assoc; simpl in *; try done; try lia.
  all: rewrite <-?fmap_app, <-?H1; by apply (numbered_snoc _ (next_sequence rt)).
Qed.
(** A prefix of a trace leads to a state from which its next step was taken. *)
Lemma reachable_split tr1 l tr2 s :
  reachable start (tr1 ++ l :: tr2) s -> exists s1 s2, reachable start tr1 s1 /\ step s1 l s2.
Proof.
  remember (tr1 ++ l :: tr2) as tr eqn:Htr. intros Hr. revert tr2 Htr.
  induction Hr as [|tr s l' s' Hr IH Hs]; intros tr2 Htr; [by destruct tr1|].
  destruct tr2 as [|x tr2 _] using rev_ind.
  - apply app_inj_tail in Htr as [-> ->]. eauto.
  - rewrite app_comm_cons, app_assoc in Htr. apply app_inj_tail in Htr as [-> _]. eauto.
Qed.

(** ** Metadata *)

(** The table of files as a function of the updates. *)
Definition update_map (m : gmap text (list TorrentFileInfo)) (e : BackendEvent) : gmap text (list TorrentFileInfo) :=
  match be_type e with
  | metadata_ready => <[be_torrent_id e := be_files e]> m
  | torrent_removed => delete (be_torrent_id e) m
  | _ => m
  end.

Lemma update_metadata_files rt e : files (update_metadata rt e) = update_map (files rt) e.
Proof. unfold update_metadata, update_map. by destruct (be_type e). Qed.

Lemma files_reachable tr s : reachable start tr s -> files (sys_rt s) = fold_left update_map (updates tr) ∅.
Proof.
  revert tr s. apply reachable_inv; [done|]. intros tr s l s' IH Hs.
  rewrite updates_snoc, fold_left_app, <-IH.
  destruct Hs as [Hs|Hs]; destruct Hs; simpl; try done; try apply update_metadata_files.
  - apply enqueue_cases in H0 as [(-> & ? & -> & _)|(-> & _ & _ & _ & ->)]; done.
  - apply poll_cases in H0 as [(-> & -> & _)|(? & ? & -> & _ & ->)]; done.
  - by apply take_cases in H0 as [(? & ? & ? & ? & ->)|(? & -> & _)].
  - by apply take_cases in H0 as [(? & ? & ? & ? & ->)|(? & -> & _)].
  - by apply take_cases in H0 as [(? & ? & ? & ? & ->)|(? & -> & _)].
  - by apply collect_rt in H0 as [->|(? & ? & ? & ->)].
Qed.

(** The update of the event that the worker publishes is the latest one. *)
Lemma publishing_reachable tr s :
  reachable start tr s ->
  match sys_worker s with WPublish e _ _ => last (updates tr) = Some e | _ => True end.
Proof.
  revert tr s. apply reachable_inv; [by destruct backend|]. intros tr s l s' IH Hs. rewrite updates_snoc.
  destruct Hs as [Hs|Hs]; destruct Hs; simpl in *; rewrite ?app_nil_r; try done; try (by destruct k); by rewrite last_snoc.
Qed.

(** Updates of other torrents, and other events, leave a torrent's files alone. *)
Definition touches (id : text) (e : BackendEvent) : Prop :=
  be_torrent_id e = id /\ (be_type e = metadata_ready \/ be_type e = torrent_removed).

Lemma update_map_other m l id :
  (forall e, e ∈ l -> ~ touches id e) -> fold_left update_map l m !! id = m !! id.
Proof.
  revert m. induction l as [|e l IH]; intros m Hl; [done|]. simpl.
  rewrite IH by (intros e' He'; apply Hl; by right).
  assert (Hne : ~ touches id e) by (apply Hl; by left). unfold touches, update_map in *.
  destruct (be_type e) eqn:Ht; try done.
  - rewrite lookup_insert_ne; [done|]. intros Heq. apply Hne. auto.
  - rewrite lookup_delete_ne; [done|]. intros Heq. apply Hne. auto.
Qed.

(** ** Shutdown *)

Record shutdown_inv (tr : list label) (s : System B) : Prop := {
  si_stopping : forall tr1 tr2, tr = tr1 ++ LStop :: tr2 -> stopping (sys_rt s) = true /\ accepted tr2 = [];
  si_last : match sys_worker s with WShutdown | WStopped => stopping (sys_rt s) = true /\ commands (sys_rt s) = [] | _ => True end;
  si_once : shutdowns tr = match sys_worker s with WStopped => 1%nat | _ => 0%nat end;
}.

Lemma shutdown_inv_reachable tr s : reachable start tr s -> shutdown_inv tr s.
Proof.
  revert tr s. apply reachable_inv; [by destruct backend; constructor; simpl; try done; intros [|]|].
  intros tr s l s' [H1 H2 H3] Hs. constructor.
  - intros tr1 tr2 Htr. destruct tr2 as [|x tr2 _] using rev_ind.
    + apply app_inj_tail in Htr as [_ ->]. split; [|done]. destruct Hs as [Hs|Hs]; inversion Hs; subst; done.
    + rewrite app_comm_cons, app_assoc in Htr. apply app_inj_tail in Htr as [-> ->].
      destruct (H1 _ _ eq_refl) as [Hst Hacc]. rewrite accepted_snoc, Hacc. step_cases; try done; congruence.
  - step_cases; try done; try (by destruct k);
      destruct w; simpl in *; destruct_and?; try done; try congruence; by split.
  - rewrite shutdowns_snoc, H3. step_cases; try done; try (by destruct k); lia.
Qed.
End safety.

(** ** Termination of the worker *)

Section drain.
Context {B : Type} `{ProtocolBackend B}.

(** After [stopping_] is set every worker step decreases, in this order: the number of
    commands in the queue, the stage of the turn, the number of events still to push. *)
Definition stage (w : worker_state) : nat :=
  match w with
  | WProcess _ => 6
  | WPush _ true | WPublish _ _ true => 5
  | WCollect => 4
  | WPush _ false | WPublish _ _ false => 3
  | WWait => 2
  | WShutdown => 1
  | WStopped | WNone => 0
  end.
Definition pending (w : worker_state) : nat :=
  match w with
  | WPush l _ => 2 * length l + 1
  | WPublish _ l _ => 2 * length l + 2
  | _ => 0
  end.

Definition worker_moves (s' s : System B) : Prop := exists l, worker_step s l s'.

Lemma worker_decreases s s' :
  stopping (sys_rt s) = true -> worker_moves s' s ->
  stopping (sys_rt s') = true /\
  let n s := length (commands (sys_rt s)) in
  ((n s' < n s)%nat \/ n s' = n s /\
   ((stage (sys_worker s') < stage (sys_worker s))%nat \/
    stage (sys_worker s') = stage (sys_worker s) /\ (pending (sys_worker s') < pending (sys_worker s))%nat)).
Proof.
  intros Hst [l Hs]. destruct Hs as [rt b c rt' Ht|rt b rt' Ht|rt b rt' Ht|rt b|rt b c pushed b' Hx|rt b now pushed rt' b' Hx|rt b e rest k|rt b e rest k ev Hl|rt b k]; simpl in *.
  - apply take_cases in Ht as [(? & rest & [= <-] & -> & ->)|(_ & _ & [[? _]|[? _]])]; [|done..].
    simpl. split; [done|]. left. lia.
  - apply take_cases in Ht as [(? & rest & ? & _)|(_ & _ & [[? _]|[_ ?]])]; [done|done|congruence].
  - apply take_cases in Ht as [(? & rest & ? & _)|(_ & -> & _)]; [done|]. simpl. split; [done|]. right. split; [done|]. left. lia.
  - split; [done|]. right. split; [done|]. left. lia.
  - split; [done|]. right. split; [done|]. left. lia.
  - apply collect_rt in Hx as [->|(? & ? & ? & ->)]; simpl; (split; [done|]; right; split; [done|]; left; lia).
  - destruct (update_metadata_rt rt e) as [f ->]. simpl. split; [done|]. right. split; [done|]. right.
    split; [by destruct k|]. lia.
  - split; [done|]. right. split; [done|]. right. split; [by destruct k|]. lia.
  - split; [done|]. right. split; [done|]. left. destruct k; simpl; lia.
Qed.

Lemma worker_acc n1 n2 n3 s :
  stopping (sys_rt s) = true -> length (commands (sys_rt s)) = n1 -> stage (sys_worker s) = n2 ->
  pending (sys_worker s) = n3 -> Acc worker_moves s.
Proof.
  revert n2 n3 s. induction n1 as [n1 IH1] using lt_wf_ind. intros n2. induction n2 as [n2 IH2] using lt_wf_ind.
  intros n3. induction n3 as [n3 IH3] using lt_wf_ind. intros s Hst <- <- <-. constructor. intros s' Hm.
  destruct (worker_decreases s s' Hst Hm) as [Hst' [H1|[H1 [H2|[H2 H3]]]]]; [by eapply IH1|by eapply IH2|by eapply IH3].
Qed.

(** The worker is never stuck before it has stopped. *)
Lemma worker_progress s :
  sys_worker s <> WStopped -> sys_worker s <> WNone -> exists l s', worker_step s l s'.
Proof.
  destruct s as [rt b w]. intros H1 H2. destruct w as [| |c| |l k|e rest k| |]; simpl in *; try done.
  - destruct (take_command rt) as [[c| |] rt'] eqn:E; do 2 eexists; econstructor; exact E.
  - destruct (execute b (save_path rt) c) as [pushed b'] eqn:E. do 2 eexists. by econstructor.
  - destruct (collect rt b 0) as [[pushed rt'] b'] eqn:E. do 2 eexists. by econstructor.
  - destruct l; do 2 eexists; econstructor.
  - do 2 eexists. econstructor. unfold publish. simpl. apply last_snoc.
  - do 2 eexists. econstructor.
Qed.

(** ** A turn of the worker on its own *)

Inductive worker_run : System B -> System B -> Prop :=
| run_nil s : worker_run s s
| run_cons s l s' s'' : worker_step s l s' -> worker_run s' s'' -> worker_run s s''.

Lemma worker_run_app s s' s'' : worker_run s s' -> worker_run s' s'' -> worker_run s s''.
Proof. induction 1; [done|]. intros. econstructor; eauto. Qed.

Lemma push_run rt b l (k : bool) :
  worker_run (MkSystem rt b (WPush l k)) (MkSystem (fold_left push_event l rt) b (if k then WCollect else WWait)).
Proof.
  revert rt. induction l as [|e l IH]; intros rt; [eapply run_cons; [apply step_pushed|apply run_nil]|].
  eapply run_cons; [apply step_update|].
  eapply run_cons; [eapply step_publish; unfold publish; simpl; apply last_snoc|]. apply IH.
Qed.

Lemma collect_run rt b now :
  let (rt', b') := collect_backend_events rt b now in
  worker_run (MkSystem rt b WCollect) (MkSystem rt' b' WWait).
Proof.
  unfold collect_backend_events. destruct (collect rt b now) as [[pushed rt'] b'] eqn:E.
  eapply run_cons; [by eapply step_collect|]. apply push_run.
Qed.

Lemma turn_run rt b now :
  let '(stopped, rt', b') := run_turn rt b now in
  worker_run (MkSystem rt b WWait) (MkSystem rt' b' (if stopped then WStopped else WWait)).
Proof.
  unfold run_turn. destruct (take_command rt) as [[c| |] rt1] eqn:E.
  - unfold process_command. destruct (execute b (save_path rt1) c) as [pushed b1] eqn:Ex.
    pose proof (collect_run (fold_left push_event pushed rt1) b1 now) as Hc.
    destruct (collect_backend_events _ _ _) as [rt2 b2].
    eapply run_cons; [by eapply step_take|]. eapply run_cons; [by eapply step_process|].
    eapply worker_run_app; [apply push_run|]. exact Hc.
  - pose proof (collect_run rt1 b now) as Hc. destruct (collect_backend_events _ _ _) as [rt2 b2].
    eapply run_cons; [by eapply step_idle|]. exact Hc.
  - eapply run_cons; [by eapply step_leave|]. eapply run_cons; [apply step_shutdown|]. apply run_nil.
Qed.
End drain.

(** ** Properties *)

(** Commands run in the order in which they were accepted: in every reachable state,
    the accepted commands are the ones the worker took, followed by the ones in the
    queue, which never exceeds its capacity, and the i-th accepted command has the
    request id i. *)
Theorem commands_fifo {B} `{ProtocolBackend B} (backend : bool) (b : B) (path : text) (ccap ecap : Z) tr s
    (Hc : 0 <= ccap) (Hr : reachable (initial backend b path ccap ecap) tr s) :
  accepted tr = taken_commands tr ++ commands (sys_rt s) /\
  Z.of_nat (length (commands (sys_rt s))) <= ccap /\
  forall i c, accepted tr !! i = Some c -> c_request_id c = wrap64 (Z.of_nat i + 1).
Proof.
  destruct (command_inv_reachable backend b path ccap ecap tr s Hc Hr) as [H1 H2 H3].
  split; [done|]. split; [done|]. intros i c Hi. eapply numbered_lookup; [exact H2|].
  by rewrite list_lookup_fmap, Hi.
Qed.

(** No event is lost silently: in every reachable state the published events are the
    ones that left the queue (polled or dropped), in order, followed by the queue, which
    never exceeds its capacity; the i-th published event has the sequence number i, so
    that a gap in the numbers a client polls is the number of events dropped there; and
    the engine counts every drop. *)
Theorem events_accounted {B} `{ProtocolBackend B} (backend : bool) (b : B) (path : text) (ccap ecap : Z) tr s
    (He : 0 < ecap) (Hr : reachable (initial backend b path ccap ecap) tr s) :
  published tr = (removed tr).*1 ++ events (sys_rt s) /\
  Z.of_nat (length (events (sys_rt s))) <= ecap /\
  (forall i e, published tr !! i = Some e -> ev_sequence e = wrap64 (Z.of_nat i + 1)) /\
  dropped_events (sys_rt s) = wrap64 (drops tr).
Proof.
  destruct (event_inv_reachable backend b path ccap ecap tr s He Hr) as [H1 H2 H3 H4].
  split; [done|]. split; [done|]. split; [|done]. intros i e Hi. eapply numbered_lookup; [exact H2|].
  by rewrite list_lookup_fmap, Hi.
Qed.

(** The [dropped_events] member of an event is the number of events dropped up to its
    publication, itself included when it displaced one. *)
Theorem event_reports_drops {B} `{ProtocolBackend B} (backend : bool) (b : B) (path : text) (ccap ecap : Z) tr1 e d tr2 s
    (He : 0 < ecap) (Hr : reachable (initial backend b path ccap ecap) (tr1 ++ LPublish e d :: tr2) s) :
  ev_dropped_events e = wrap64 (drops (tr1 ++ [LPublish e d])).
Proof.
  destruct (reachable_split backend b path ccap ecap _ _ _ _ Hr) as (s1 & s2 & Hr1 & Hs).
  destruct (event_inv_reachable backend b path ccap ecap tr1 s1 He Hr1) as [_ _ H3 _].
  pose proof (constants_inv backend b path ccap ecap tr1 s1 Hr1) as (_ & _ & _ & Hcap).
  rewrite drops_snoc. destruct Hs as [Hs|Hs]; inversion Hs; subst.
  match goal with Hl : last _ = Some _ |- _ => apply publish_cases in Hl as [(Hd & _ & -> & _)|[(x & q & _ & Hd & -> & _)|?]] end;
    [..|simpl in *; lia]; rewrite Hd; simpl in *; rewrite H3.
  - by rewrite Z.add_0_r.
  - apply wrap64_succ.
Qed.

(** Metadata are available before their event: for a published event that says the
    metadata of a torrent are ready, the table of files was updated before, and the
    files can be asked for as long as no later update of the torrent was made. *)
Theorem metadata_before_event {B} `{ProtocolBackend B} (backend : bool) (b : B) (path : text) (ccap ecap : Z) tr1 ev d tr2 s
    (Hr : reachable (initial backend b path ccap ecap) (tr1 ++ LPublish ev d :: tr2) s)
    (Ht : ev_type ev = NUVIO_ENGINE_EVENT_TORRENT_METADATA_READY) :
  exists e before, updates tr1 = before ++ [e] /\ be_type e = metadata_ready /\
    ev_torrent_id ev = copy_text (zero_chars 65) (be_torrent_id e) /\
    ((forall e', e' ∈ updates tr2 -> ~ touches (be_torrent_id e) e') ->
     get_file_count (sys_rt s) (be_torrent_id e) = (NUVIO_ENGINE_STATUS_OK, Some (Z.of_nat (length (be_files e))))).
Proof.
  destruct (reachable_split backend b path ccap ecap _ _ _ _ Hr) as (s1 & s2 & Hr1 & Hs).
  pose proof (publishing_reachable backend b path ccap ecap tr1 s1 Hr1) as Hp.
  destruct Hs as [Hs|Hs]; inversion Hs; subst; simpl in *.
  match goal with Hl : last _ = Some _ |- _ =>
    unfold publish in Hl; simpl in Hl; rewrite last_snoc in Hl; injection Hl as <- end.
  apply last_Some in Hp as [before Hb]. exists e, before. split; [done|].
  assert (be_type e = metadata_ready) as Hm by (simpl in Ht; by destruct (be_type e)).
  split; [done|]. split; [done|]. intros Hno.
  unfold get_file_count. rewrite (files_reachable backend b path ccap ecap _ _ Hr).
  assert (Hu : updates (tr1 ++ LPublish (make_event e (next_sequence rt)
     (if event_capacity rt <=? Z.of_nat (length (events rt)) then wrap64 (dropped_events rt + 1) else dropped_events rt))
     (dropped_by rt) :: tr2) = (before ++ [e]) ++ updates tr2) by (unfold updates in *; by rewrite omap_app, Hb).
  rewrite Hu, !fold_left_app, update_map_other by done. simpl. unfold update_map at 1. rewrite Hm.
  by rewrite lookup_insert_eq.
Qed.

(** C17. The engine stops cleanly: once stopping was requested no command is accepted any
    more, and when the worker has stopped it has taken every command that was accepted
    and has shut the backend down exactly once. *)
Theorem stop_drains {B} `{ProtocolBackend B} (backend : bool) (b : B) (path : text) (ccap ecap : Z) tr s
    (Hc : 0 <= ccap) (Hr : reachable (initial backend b path ccap ecap) tr s) :
  (forall tr1 tr2, tr = tr1 ++ LStop :: tr2 -> accepted tr2 = []) /\
  (sys_worker s = WStopped -> accepted tr = taken_commands tr /\ shutdowns tr = 1%nat /\ stopping (sys_rt s) = true).
Proof.
  destruct (shutdown_inv_reachable backend b path ccap ecap tr s Hr) as [H1 H2 H3].
  destruct (command_inv_reachable backend b path ccap ecap tr s Hc Hr) as [H4 _ _].
  split; [intros tr1 tr2 Ht; by destruct (H1 tr1 tr2 Ht)|]. intros Hw. rewrite Hw in H2, H3. destruct H2 as [H2 H5].
  rewrite H5, app_nil_r in H4. done.
Qed.

(** The worker always stops: from a state in which stopping was requested there is no
    infinite run of the worker, whatever the backend answers, and the worker has a next
    step until it has stopped. *)
Theorem worker_stops {B} `{ProtocolBackend B} (s : System B) (Hs : stopping (sys_rt s) = true) :
  Acc worker_moves s /\
  (sys_worker s <> WStopped -> sys_worker s <> WNone -> exists l s', worker_step s l s' /\ stopping (sys_rt s') = true).
Proof.
  split; [by eapply worker_acc|]. intros H1 H2. destruct (worker_progress s H1 H2) as (l & s' & Hst).
  exists l, s'. split; [done|]. eapply worker_decreases; [exact Hs|]. by exists l.
Qed.

(** The steps of the worker, when no other thread interferes, are the turns of its
    loop: the step relation reaches the state that [run_turn] computes. *)
Theorem run_turn_refines {B} `{ProtocolBackend B} (rt : Runtime) (b : B) (now : Z) :
  worker_run (MkSystem rt b WWait)
    (MkSystem (run_turn rt b now).1.2 (run_turn rt b now).2 (if (run_turn rt b now).1.1 then WStopped else WWait)).
Proof. pose proof (turn_run rt b now) as Ht. by destruct (run_turn rt b now) as [[stopped rt'] b']. Qed.

(** [prepare_stream] asks for the file that the selection chooses: for a torrent with
    known files the status is "not found" exactly when it has none, and otherwise the
    command names an index inside the torrent and carries that very file. *)
Theorem prepare_command_selects (rt : Runtime) (id : text) (requested : option nat) (hint : text) :
  match files rt !! id with
  | None => prepare_command rt id requested hint = inl NUVIO_ENGINE_STATUS_METADATA_NOT_READY
  | Some [] => prepare_command rt id requested hint = inl NUVIO_ENGINE_STATUS_NOT_FOUND
  | Some snapshot =>
    exists i f, sel_index (select_file ((fun f => MkFile (fi_path f) (fi_size f)) <$> snapshot) requested hint) = Some i /\
      snapshot !! i = Some f /\
      prepare_command rt id requested hint =
        inr (MkCommand cmd_prepare_stream 0 (MkInput input_magnet [] []) id [] (wrap32 (Z.of_nat i)) f 0)
  end.
Proof.
  unfold prepare_command. destruct (files rt !! id) as [[|f0 fs]|]; [done| |done].
  set (snapshot := f0 :: fs). set (selectable := _ <$> snapshot).
  pose proof (select_file_in_range selectable requested hint) as Hsel.
  destruct (sel_index (select_file selectable requested hint)) as [i|]; [|done].
  unfold selectable in Hsel. rewrite length_fmap in Hsel. destruct (lookup_lt_is_Some_2 snapshot i Hsel) as [f Hf].
  exists i, f. by rewrite Hf.
Qed.

(** The events a backend has handed over are lost when its statistics then throw: the
    worker publishes the error alone. *)
Lemma collect_loses_events {B} `{ProtocolBackend B} (rt : Runtime) (b b1 b2 : B) (now : Z) (popped : list BackendEvent) what :
  be_pop_events b = (Returned popped, b1) -> popped <> [] -> be_statistics b1 = (Raised what, b2) ->
  (collect rt b now).1.1 = [error_event 0 "unknown protocol event error" what] /\ (collect rt b now).2 = b2.
Proof.
  intros Hp Hne Hs. unfold collect, refresh_stats. rewrite Hp, bool_decide_false, Hs by done. done.
Qed.

(** The path of a file is handed out within its array: it is terminated, it is the
    path itself when that has fewer than 1024 bytes and its first 1023 bytes otherwise,
    and the flag says which. *)
Theorem get_file_path (rt : Runtime) (id : text) (index : nat) (l : list TorrentFileInfo) (f : TorrentFileInfo)
    (Hl : files rt !! id = Some l) (Hf : l !! index = Some f) (Hn : NUL ∉ fi_path f) :
  exists out, get_file rt id index = (NUVIO_ENGINE_STATUS_OK, Some out) /\
    length (ef_path out) = 1024%nat /\ c_str (ef_path out) = take 1023 (fi_path f) /\
    (ef_path_truncated out = 0 <-> c_str (ef_path out) = fi_path f) /\
    ef_offset out = fi_offset f /\ ef_size out = fi_size f.
Proof.
  unfold get_file. rewrite Hl, Hf. eexists. split; [done|]. cbn [ef_path ef_path_truncated ef_offset ef_size].
  assert (Hz : length (zero_chars 1024) = 1024%nat) by apply length_replicate.
  assert (Hne : zero_chars 1024 <> []) by (intros E; rewrite E in Hz; discriminate).
  rewrite copy_text_length, Hz by done. split; [done|]. rewrite copy_text_c_str, Hz by done.
  split; [done|]. split; [|done]. change (1024 - 1)%nat with 1023%nat.
  destruct (Nat.leb_spec 1024 (length (fi_path f))) as [Hlen|Hlen].
  - split; [done|]. intros E. apply (f_equal length) in E. rewrite length_take in E. lia.
  - split; [|done]. intros _. apply take_ge. lia.
Qed.


(** ** Running the system *)

(** Schedules: who makes the next step.  A schedule is executable, and its steps are steps
    of the system. *)
Inductive action := AEnqueue (c : Command) | APoll | AWake | AStop | AWorker (now : Z).

Section exec.
Context {B : Type} `{ProtocolBackend B}.

Definition worker_exec (now : Z) (s : System B) : option (label * System B) :=
  let 'MkSystem rt b w := s in
  match w with
  | WWait => Some match take_command rt with
      | (TakeCommand c, rt') => (LTake c, MkSystem rt' b (WProcess c))
      | (TakeNothing, rt') => (LInternal, MkSystem rt' b WCollect)
      | (TakeShutdown, rt') => (LInternal, MkSystem rt' b WShutdown)
      end
  | WShutdown => Some (LShutdown, MkSystem rt (be_shutdown b).2 WStopped)
  | WProcess c => let (pushed, b') := execute b (save_path rt) c in Some (LInternal, MkSystem rt b' (WPush pushed true))
  | WCollect => let '(pushed, rt', b') := collect rt b now in Some (LInternal, MkSystem rt' b' (WPush pushed false))
  | WPush (e :: rest) k => Some (LUpdate e, MkSystem (update_metadata rt e) b (WPublish e rest k))
  | WPush [] k => Some (LInternal, MkSystem rt b (if k then WCollect else WWait))
  | WPublish e rest k =>
    (fun ev => (LPublish ev (dropped_by rt), MkSystem (publish rt e) b (WPush rest k))) <$> last (events (publish rt e))
  | WNone | WStopped => None
  end.

Definition action_exec (s : System B) (a : action) : option (label * System B) :=
  let 'MkSystem rt b w := s in
  match a with
  | AEnqueue c => let (r, rt') := enqueue rt c in Some (LEnqueue c r, MkSystem rt' b w)
  | APoll => let '(_, e, rt') := poll_event rt in Some (LPoll e, MkSystem rt' b w)
  | AWake => Some (LWake, MkSystem (wake rt) b w)
  | AStop => Some (LStop, MkSystem (request_stop rt) b w)
  | AWorker now => worker_exec now s
  end.

Fixpoint schedule (s : System B) (l : list action) : option (list label * System B) :=
  match l with
  | [] => Some ([], s)
  | a :: l' => '(x, s1) ← action_exec s a; '(tr, s2) ← schedule s1 l'; Some (x :: tr, s2)
  end.

Lemma worker_exec_step now s l s' : worker_exec now s = Some (l, s') -> worker_step s l s'.
Proof.
  destruct s as [rt b w]. destruct w as [| |c| |[|e rest] k|e rest k| |]; simpl; try done.
  - destruct (take_command rt) as [[c| |] rt'] eqn:E; intros [= <- <-]; by econstructor.
  - destruct (execute b (save_path rt) c) as [pushed b'] eqn:E. intros [= <- <-]. by econstructor.
  - destruct (collect rt b now) as [[pushed rt'] b'] eqn:E. intros [= <- <-]. by econstructor.
  - intros [= <- <-]. constructor.
  - intros [= <- <-]. constructor.
  - destruct (last _) eqn:E; [|done]. intros [= <- <-]. by constructor.
  - intros [= <- <-]. constructor.
Qed.

Lemma action_exec_step s a l s' : action_exec s a = Some (l, s') -> step s l s'.
Proof.
  destruct s as [rt b w]. destruct a; simpl.
  - destruct (enqueue rt c) as [r rt'] eqn:E. intros [= <- <-]. left. by constructor.
  - destruct (poll_event rt) as [[st e] rt'] eqn:E. intros [= <- <-]. left. by econstructor.
  - intros [= <- <-]. left. constructor.
  - intros [= <- <-]. left. constructor.
  - intros Hw. right. by eapply worker_exec_step.
Qed.

Lemma schedule_reachable s0 tr0 s l tr s' :
  reachable s0 tr0 s -> schedule s l = Some (tr, s') -> reachable s0 (tr0 ++ tr) s'.
Proof.
  revert tr0 s tr. induction l as [|a l IH]; intros tr0 s tr Hr; simpl.
  - intros [= <- <-]. by rewrite app_nil_r.
  - destruct (action_exec s a) as [[x s1]|] eqn:E; [|done]. simpl.
    destruct (schedule s1 l) as [[tr1 s2]|] eqn:E1; [|done]. simpl. intros [= <- <-].
    rewrite cons_middle, app_assoc. eapply IH; [|done]. eapply reach_step; [done|]. by eapply action_exec_step.
Qed.
End exec.

(** A backend for the examples: it answers an added torrent with its metadata, and fails
    to reclaim disk space. *)
Definition demo_stats : BackendStats :=
  MkBackendStats 0 0 0 0 0 0 0 0 0 0 0 0 0 0 0 0 0 0 0 0 0 0 0 0 0 0 0 0 0 0 0 0 0 0 0 0 0 0 0 0 0 0 0 0 0 0 0 0 0 0 0 false [].
#[local] Instance demo_backend : ProtocolBackend (list BackendEvent) := {
  be_add_torrent b id input _ :=
    (Returned (), b ++ [backend_event metadata_ready id (ti_magnet_uri input) [] [MkFileInfo (str "a.mkv") 0 10]]);
  be_prepare_file b _ _ _ _ := (Returned (), b);
  be_remove_torrent b _ _ := (Returned (), b);
  be_stop_stream b _ _ := (Returned (), b);
  be_reclaim_disk_cache b _ _ := (Raised (Some (str "busy")), b);
  be_shutdown b := (Returned (), []);
  be_pop_events b := (Returned b, []);
  be_statistics b := (Returned demo_stats, b);
}.

(** One torrent and one failing reclaim through a queue of one event: the first event is
    dropped; then the engine stops. *)
Definition demo_actions : list action :=
  [AEnqueue (add_torrent_command (MkInput input_magnet (str "t1") [])); AEnqueue (reclaim_disk_cache_command 5)]
  ++ replicate 7 (AWorker 100) ++ replicate 7 (AWorker 200) ++ [APoll; AStop] ++ replicate 2 (AWorker 300).
Definition demo_start : System (list BackendEvent) := initial true [] (str "/data") 8 1.
Definition demo_run : list label * System (list BackendEvent) :=
  default ([], demo_start) (schedule demo_start demo_actions).
Definition demo_trace : list label := Eval vm_compute in demo_run.1.
Definition demo_final : System (list BackendEvent) := Eval vm_compute in demo_run.2.

Lemma demo_reachable : reachable demo_start demo_trace demo_final.
Proof. apply (schedule_reachable demo_start [] demo_start demo_actions); [constructor|]. vm_compute. reflexivity. Qed.

Example demo_stopped : sys_worker demo_final = WStopped.
Proof. reflexivity. Qed.
Example demo_dropped : drops demo_trace = 1.
Proof. vm_compute. reflexivity. Qed.

(** ** Witnesses *)

(** The trace up to the [n]-th step, the step and the rest. *)
Definition demo_event (n : nat) : nuvio_engine_event :=
  match demo_trace !! n with Some (LPublish e _) => e | _ => make_event (backend_event torrent_error 0 [] [] []) 0 0 end.

Lemma stop_drains_witness :
  accepted demo_trace = taken_commands demo_trace /\ shutdowns demo_trace = 1%nat /\ stopping (sys_rt demo_final) = true.
Proof. apply (stop_drains true [] (str "/data") 8 1 demo_trace demo_final); [done|apply demo_reachable|reflexivity]. Defined.
