(* ===== verification/EngineApi.v ===== *)
(** The C interface of the engine: src/core/engine.cpp.  Callers pass pointers to
    structures of the version they were compiled with, so the model keeps the objects
    behind the pointers with their sizes: an access outside an object is undefined
    behaviour, which the functions answer with [None]. *)
From stdpp Require Import prelude strings list gmap.
From Stdlib Require Import ZArith Lia Ascii.
From S2P Require Import Prelude Text EngineTypes EngineRuntime.

(** ** Memory *)

(** A pointer to bytes: null, or the readable bytes from there on. *)
Abbreviation pointer := (option text).

(** [offsetof(S, name) + sizeof(S::name)]. *)
Fixpoint member_size (l : layout) (name : text) : nat :=
  match l with
  | [] => 0
  | (n, t) :: l' => if text_eqb n name then ctype_size t else member_size l' name
  end.
Definition member_end (l : layout) (name : text) : nat := (offsetof l name + member_size l name)%nat.

(** Reading the member [name], whose value is [v], of an object of [alloc] bytes. *)
Definition read_member {A} (l : layout) (alloc : nat) (name : string) (v : A) : option A :=
  if (member_end l (str name) <=? alloc)%nat then Some v else None.

(** [std::memcpy(buffer + offset, bytes)] into an object. *)
Definition store (buffer : text) (offset : nat) (bytes : text) : option text :=
  if (offset + length bytes <=? length buffer)%nat
  then Some (take offset buffer ++ bytes ++ drop (offset + length bytes) buffer) else None.
Definition load_u32 (buffer : text) (offset : nat) : option Z :=
  if (offset + 4 <=? length buffer)%nat then Some (read_little_endian (substr offset 4 buffer)) else None.

(** ** The objects of the caller *)

Record config_object := MkConfig {
  cf_alloc : nat;                        (* the bytes the caller allocated *)
  cf_struct_size : Z;
  cf_data_directory : pointer;
  cf_cache_directory : pointer;
  cf_memory_cache_capacity_bytes : Z;
  cf_disk_cache_capacity_bytes : Z;
  cf_listen_port : Z;
  cf_upload_mode : Z;
  cf_upload_limit_bytes_per_second : Z;
  cf_stream_inactivity_timeout_milliseconds : Z;
  cf_warm_torrent_timeout_milliseconds : Z;
  cf_tls_ca_bundle_path : pointer;
  cf_torrent_profile : Z;
}.

Record torrent_request_object := MkTorrentRequest {
  tq_alloc : nat; tq_struct_size : Z; tq_magnet_uri : pointer; tq_source_type : Z;
  tq_torrent_data : pointer; tq_torrent_data_size : Z;
}.

Record stream_request_object := MkStreamRequest {
  sq_alloc : nat; sq_struct_size : Z; sq_torrent_id : pointer; sq_file_index : Z; sq_filename_hint : pointer;
}.

(** [struct nuvio_engine]. *)
Record nuvio_engine := MkEngine {
  en_data_directory : text; en_cache_directory : text; en_memory_cache_capacity_bytes : Z;
  en_disk_cache_capacity_bytes : Z; en_listen_port : Z; en_upload_mode : Z; en_upload_limit_bytes_per_second : Z;
  en_stream_inactivity_timeout_milliseconds : Z; en_warm_torrent_timeout_milliseconds : Z; en_torrent_profile : Z;
  en_runtime : Runtime;
}.
Definition with_runtime (e : nuvio_engine) (rt : Runtime) : nuvio_engine :=
  MkEngine (en_data_directory e) (en_cache_directory e) (en_memory_cache_capacity_bytes e)
    (en_disk_cache_capacity_bytes e) (en_listen_port e) (en_upload_mode e) (en_upload_limit_bytes_per_second e)
    (en_stream_inactivity_timeout_milliseconds e) (en_warm_torrent_timeout_milliseconds e) (en_torrent_profile e) rt.

(** ** Constants *)

Definition default_memory_cache_capacity : Z := 64 * 1024 * 1024.
Definition default_disk_cache_capacity : Z := 2 * 1024 * 1024 * 1024.
Definition default_stream_inactivity_timeout_milliseconds : Z := 30000.
Definition default_warm_torrent_timeout_milliseconds : Z := 60000.
Definition default_torrent_profile : Z := NUVIO_ENGINE_TORRENT_PROFILE_BALANCED.
Definition config_v1_size : nat := member_end config_layout (str "upload_limit_bytes_per_second").
Definition config_v2_size : nat := member_end config_layout (str "reserved_1").
Definition config_v3_size : nat := member_end config_layout (str "reserved_2").
Definition config_v4_size : nat := member_end config_layout (str "tls_ca_bundle_path").
Definition config_v5_size : nat := member_end config_layout (str "reserved_3").
Definition torrent_request_v1_size : nat := member_end torrent_request_layout (str "magnet_uri").
Definition torrent_request_v2_size : nat := member_end torrent_request_layout (str "torrent_data_size").
Definition stream_request_v1_size : nat := member_end stream_request_layout (str "filename_hint").
Definition event_v1_size : nat := member_end event_layout (str "message").
Definition file_v1_size : nat := member_end file_layout (str "path").
Definition stats_v1_size : nat := member_end stats_layout (str "memory_cache_entries").
Definition stream_stats_v1_size : nat := member_end stream_stats_layout (str "delivered_bytes").

(** ** Helpers *)

(** [initialize_structure]: the flag it returns and the object after it. *)
Definition initialize_structure (value : option text) (struct_size : Z) : option (bool * option text) :=
  match value with
  | None => Some (false, None)
  | Some object =>
    object ← store object 0 (replicate (Z.to_nat struct_size) NUL);
    if struct_size <? 4 then Some (false, Some object)
    else object ← store object 0 (little_endian 4 struct_size); Some (true, Some object)
  end.

Definition valid_upload_configuration (upload_mode upload_limit : Z) : bool :=
  if (upload_mode =? NUVIO_ENGINE_UPLOAD_DISABLED) || (upload_mode =? NUVIO_ENGINE_UPLOAD_UNLIMITED)
  then upload_limit =? 0
  else if upload_mode =? NUVIO_ENGINE_UPLOAD_LIMITED then 0 <? upload_limit
  else false.

Definition valid_torrent_profile (profile : Z) : bool :=
  (profile =? NUVIO_ENGINE_TORRENT_PROFILE_SOFT) || (profile =? NUVIO_ENGINE_TORRENT_PROFILE_BALANCED)
  || (profile =? NUVIO_ENGINE_TORRENT_PROFILE_FAST).

(** The loop of [bounded_string_length] reads [text[length]] for [length <= maximum];
    [room] is [maximum + 1 - length]. *)
Fixpoint string_length_loop (room : nat) (memory : text) : option nat :=
  match room with
  | O => Some O
  | S room' =>
    match memory with
    | [] => None
    | c :: memory' => if Ascii.eqb c NUL then Some O else S <$> string_length_loop room' memory'
    end
  end.
Definition bounded_string_length (memory : text) (maximum : nat) : option nat :=
  string_length_loop (S maximum) memory.

(** [std::string(text)]: up to the terminator. *)
Fixpoint c_string (memory : text) : option text :=
  match memory with
  | [] => None
  | c :: memory' => if Ascii.eqb c NUL then Some [] else cons c <$> c_string memory'
  end.

(** The loop that checks and lowers the characters of an id. *)
Fixpoint normalize_characters (v : text) : option text :=
  match v with
  | [] => Some []
  | c :: v' => if isxdigit c then cons (tolower c) <$> normalize_characters v' else None
  end.

Definition normalize_torrent_id (torrent_id : pointer) : option (option text) :=
  match torrent_id with
  | None => Some None
  | Some memory =>
    length_ ← bounded_string_length memory 64;
    Some (if negb (length_ =? 40)%nat && negb (length_ =? 64)%nat then None
          else normalize_characters (take length_ memory))
  end.

Definition normalize_stream_id (stream_id : pointer) : option (option text) :=
  match stream_id with
  | None => Some None
  | Some memory =>
    length_ ← bounded_string_length memory 64;
    Some (if negb (length_ =? 64)%nat then None else normalize_characters (take length_ memory))
  end.

(** ** Versions and messages *)

Definition nuvio_engine_api_version : Z := NUVIO_ENGINE_API_VERSION.
Definition nuvio_engine_version_string : text := str "0.1.5".

(** [version] is what libtorrent answers in a build with it. *)
Definition nuvio_engine_protocol_backend_version (version : option text) : text := default (str "unavailable") version.

Definition nuvio_engine_status_message (status : Z) : text :=
  if status =? NUVIO_ENGINE_STATUS_OK then str "ok"
  else if status =? NUVIO_ENGINE_STATUS_INVALID_ARGUMENT then str "invalid argument"
  else if status =? NUVIO_ENGINE_STATUS_INCOMPATIBLE_ABI then str "incompatible ABI"
  else if status =? NUVIO_ENGINE_STATUS_ALLOCATION_FAILED then str "allocation failed"
  else if status =? NUVIO_ENGINE_STATUS_INITIALIZATION_FAILED then str "initialization failed"
  else if status =? NUVIO_ENGINE_STATUS_BACKEND_UNAVAILABLE then str "protocol backend unavailable"
  else if status =? NUVIO_ENGINE_STATUS_QUEUE_FULL then str "command queue full"
  else if status =? NUVIO_ENGINE_STATUS_NO_EVENT then str "no event available"
  else if status =? NUVIO_ENGINE_STATUS_NOT_FOUND then str "torrent not found"
  else if status =? NUVIO_ENGINE_STATUS_METADATA_NOT_READY then str "torrent metadata not ready"
  else if status =? NUVIO_ENGINE_STATUS_OUT_OF_RANGE then str "index out of range"
  else str "unknown status".

(** ** Initialisers *)

(** An assignment [object->name = value] of a structure in memory. *)
Definition assign (l : layout) (name : string) (value : Z) (object : text) : option text :=
  store object (offsetof l (str name)) (little_endian (member_size l (str name)) value).

(** [if (struct_size >= version) object->name = value]. *)
Definition assign_from (version : nat) (struct_size : Z) (l : layout) (name : string) (value : Z) (object : text)
  : option text :=
  if Z.of_nat version <=? struct_size then assign l name value object else Some object.

Definition nuvio_engine_config_init_sized (config : option text) (struct_size : Z) : option (option text) :=
  '(go, config) ← initialize_structure config struct_size;
  match config with
  | Some object =>
    if negb go || (struct_size <? Z.of_nat config_v1_size) then Some (Some object)
    else
      object ← assign config_layout "memory_cache_capacity_bytes" default_memory_cache_capacity object;
      object ← assign config_layout "disk_cache_capacity_bytes" default_disk_cache_capacity object;
      object ← assign config_layout "upload_mode" NUVIO_ENGINE_UPLOAD_UNLIMITED object;
      object ← assign_from config_v2_size struct_size config_layout "stream_inactivity_timeout_milliseconds"
                 default_stream_inactivity_timeout_milliseconds object;
      object ← assign_from config_v3_size struct_size config_layout "warm_torrent_timeout_milliseconds"
                 default_warm_torrent_timeout_milliseconds object;
      object ← assign_from config_v5_size struct_size config_layout "torrent_profile" default_torrent_profile object;
      Some (Some object)
  | None => Some None
  end.

(** The initialisers that only clear the structure: torrent request, file, stats and
    stream stats. *)
Definition plain_init_sized (object : option text) (struct_size : Z) : option (option text) :=
  '(_, object) ← initialize_structure object struct_size; Some object.
Definition nuvio_engine_torrent_request_init_sized := plain_init_sized.
Definition nuvio_engine_file_init_sized := plain_init_sized.
Definition nuvio_engine_stats_init_sized := plain_init_sized.
Definition nuvio_engine_stream_stats_init_sized := plain_init_sized.

(** The two that also set [file_index] to "none", when the structure has it. *)
Definition file_index_init_sized (l : layout) (object : option text) (struct_size : Z) : option (option text) :=
  '(go, object) ← initialize_structure object struct_size;
  match object with
  | Some o =>
    if negb go then Some (Some o)
    else o ← assign_from (member_end l (str "file_index")) struct_size l "file_index" U32_MAX o; Some (Some o)
  | None => Some None
  end.
Definition nuvio_engine_event_init_sized := file_index_init_sized event_layout.
Definition nuvio_engine_stream_request_init_sized := file_index_init_sized stream_request_layout.

Example version_sizes :
  (config_v1_size, config_v2_size, config_v3_size, config_v4_size, config_v5_size) = (56, 64, 72, 80, 88)%nat /\
  (torrent_request_v1_size, torrent_request_v2_size, stream_request_v1_size) = (16, 40, 32)%nat /\
  (event_v1_size, file_v1_size, stats_v1_size, stream_stats_v1_size) = (353, 1056, 112, 40)%nat.
Proof. vm_compute. done. Qed.

(** ** Creation *)

(** What the [catch] clauses of every function return. *)
Definition caught (kind : exn_class) : Z :=
  match kind with bad_alloc => NUVIO_ENGINE_STATUS_ALLOCATION_FAILED | _ => NUVIO_ENGINE_STATUS_INITIALIZATION_FAILED end.

(** The TLS bundle path: a status, or the path. *)
Definition read_tls_path (config : config_object) : option (Z + text) :=
  let none := Some (inr []) in
  if cf_struct_size config <? Z.of_nat config_v4_size then none
  else
    p ← read_member config_layout (cf_alloc config) "tls_ca_bundle_path" (cf_tls_ca_bundle_path config);
    match p with
    | None => none
    | Some memory =>
      let maximum_path_length := (16 * 1024)%nat in
      length_ ← bounded_string_length memory maximum_path_length;
      if (length_ =? 0)%nat || (maximum_path_length <? length_)%nat
      then Some (inl NUVIO_ENGINE_STATUS_INVALID_ARGUMENT)
      else Some (inr (take length_ memory))
    end.

(** [config->struct_size >= version ? config->name : fallback]. *)
Definition versioned {A} (config : config_object) (version : nat) (name : string) (v fallback : A) : option A :=
  if Z.of_nat version <=? cf_struct_size config then read_member config_layout (cf_alloc config) name v else Some fallback.

(** [create_protocol_backend] of a build without a backend: protocol_backend_stub.cpp. *)
Definition create_stub_backend {B} (_ : ProtocolBackendConfig) : result (option B) := Ok None.

Section create.
(** [create_protocol_backend], which is chosen when the engine is built: it returns a
    backend or null, or it throws; and [fault], the exception of an allocation in the
    [try] block, if one fails. *)
Context {B : Type} (create_protocol_backend : ProtocolBackendConfig -> result (option B)).

(** The [try] block: the strings, the backend, the runtime with its default capacities. *)
Definition create_engine (config : config_object) (data cache : text) (profile : Z) (fault : option exn_class)
  : option (Z * option (nuvio_engine * option B)) :=
  let a := cf_alloc config in
  inactivity ← versioned config config_v2_size "stream_inactivity_timeout_milliseconds"
    (cf_stream_inactivity_timeout_milliseconds config) default_stream_inactivity_timeout_milliseconds;
  warm ← versioned config config_v3_size "warm_torrent_timeout_milliseconds"
    (cf_warm_torrent_timeout_milliseconds config) default_warm_torrent_timeout_milliseconds;
  tls ← read_tls_path config;
  match tls with
  | inl status => Some (status, None)
  | inr tls_path =>
    memory_cache ← read_member config_layout a "memory_cache_capacity_bytes" (cf_memory_cache_capacity_bytes config);
    disk_cache ← read_member config_layout a "disk_cache_capacity_bytes" (cf_disk_cache_capacity_bytes config);
    port ← read_member config_layout a "listen_port" (cf_listen_port config);
    mode ← read_member config_layout a "upload_mode" (cf_upload_mode config);
    limit ← read_member config_layout a "upload_limit_bytes_per_second" (cf_upload_limit_bytes_per_second config);
    match fault with
    | Some kind => Some (caught kind, None)
    | None =>
      match create_protocol_backend
              (MkBackendConfig mode limit data cache port memory_cache disk_cache inactivity warm profile tls_path) with
      | Throw e => Some (caught (exn_kind e), None)
      | Ok backend =>
        let runtime := new_runtime (bool_decide (is_Some backend)) cache 256 1024 in
        Some (NUVIO_ENGINE_STATUS_OK,
              Some (MkEngine data cache memory_cache disk_cache port mode limit inactivity warm profile runtime, backend))
      end
    end
  end.

(** [nuvio_engine_create]: the status and what is stored in [*engine]. *)
Definition nuvio_engine_create (config : option config_object) (engine_is_null : bool) (fault : option exn_class)
  : option (Z * option (nuvio_engine * option B)) :=
  let invalid := Some (NUVIO_ENGINE_STATUS_INVALID_ARGUMENT, None) in
  if engine_is_null then invalid else
  match config with
  | None => invalid
  | Some config =>
    let a := cf_alloc config in
    struct_size ← read_member config_layout a "struct_size" (cf_struct_size config);
    if struct_size <? Z.of_nat config_v1_size then Some (NUVIO_ENGINE_STATUS_INCOMPATIBLE_ABI, None) else
    data ← read_member config_layout a "data_directory" (cf_data_directory config);
    cache ← read_member config_layout a "cache_directory" (cf_cache_directory config);
    match data, cache with
    | Some data, Some cache =>
      d0 ← head data;
      if Ascii.eqb d0 NUL then invalid else
      c0 ← head cache;
      if Ascii.eqb c0 NUL then invalid else
      mode ← read_member config_layout a "upload_mode" (cf_upload_mode config);
      limit ← read_member config_layout a "upload_limit_bytes_per_second" (cf_upload_limit_bytes_per_second config);
      if negb (valid_upload_configuration mode limit) then invalid else
      profile ← versioned config config_v5_size "torrent_profile" (cf_torrent_profile config) default_torrent_profile;
      if negb (valid_torrent_profile profile) then invalid else
      data ← c_string data; cache ← c_string cache;
      create_engine config data cache profile fault
    | _, _ => invalid
    end
  end.
End create.

(** [nuvio_engine_destroy]: the destructor of the runtime requests the stop and joins the
    worker, which [EngineRuntime.worker_stops] shows to end. *)
Definition nuvio_engine_destroy (engine : option nuvio_engine) : option nuvio_engine :=
  (fun e => with_runtime e (request_stop (en_runtime e))) <$> engine.

(** ** Calls that enqueue a command

    The engine pointer is null or an engine; [request_id] is null or an object whose new
    value is part of the result; [fault] is as above. *)

Record call := MkCall { call_status : Z; call_request_id : option Z; call_engine : option nuvio_engine }.

Definition invalid_call (e : option nuvio_engine) (id : option Z) : call :=
  MkCall NUVIO_ENGINE_STATUS_INVALID_ARGUMENT id e.

(** The call of the runtime at the end of a [try] block: it writes [*request_id] only
    when it accepts. *)
Definition forward (e : nuvio_engine) (id : Z) (run : Runtime -> answer * Runtime) : call :=
  let '((status, new_id), rt) := run (en_runtime e) in
  MkCall status (Some (default id new_id)) (Some (with_runtime e rt)).

Definition faulted (e : nuvio_engine) (fault : option exn_class) (k : option call) : option call :=
  match fault with
  | Some kind => Some (MkCall (caught kind) (Some 0) (Some e))
  | None => k
  end.

Definition read_torrent_input (request : torrent_request_object) : option (option TorrentInput) :=
  let a := tq_alloc request in
  let has_v2_fields := Z.of_nat torrent_request_v2_size <=? tq_struct_size request in
  source_type ← (if has_v2_fields then read_member torrent_request_layout a "source_type" (tq_source_type request)
                 else Some NUVIO_ENGINE_TORRENT_SOURCE_MAGNET);
  if source_type =? NUVIO_ENGINE_TORRENT_SOURCE_MAGNET then
    uri ← read_member torrent_request_layout a "magnet_uri" (tq_magnet_uri request);
    match uri with
    | None => Some None
    | Some memory =>
      let maximum_magnet_length := (16 * 1024)%nat in
      length_ ← bounded_string_length memory maximum_magnet_length;
      if (length_ =? 0)%nat || (maximum_magnet_length <? length_)%nat then Some None
      else Some (Some (MkInput input_magnet (take length_ memory) []))
    end
  else if source_type =? NUVIO_ENGINE_TORRENT_SOURCE_DATA then
    if negb has_v2_fields then Some None else
    data ← read_member torrent_request_layout a "torrent_data" (tq_torrent_data request);
    size ← read_member torrent_request_layout a "torrent_data_size" (tq_torrent_data_size request);
    match data with
    | None => Some None
    | Some memory =>
      if (size =? 0) || (4 * 1024 * 1024 <? size) then Some None
      else if Z.of_nat (length memory) <? size then None
      else Some (Some (MkInput input_torrent_data [] (take (Z.to_nat size) memory)))
    end
  else Some None.

Definition nuvio_engine_add_torrent (engine : option nuvio_engine) (request : option torrent_request_object)
    (request_id : option Z) (fault : option exn_class) : option call :=
  match engine, request, request_id with
  | Some e, Some request, Some _ =>
    struct_size ← read_member torrent_request_layout (tq_alloc request) "struct_size" (tq_struct_size request);
    if struct_size <? Z.of_nat torrent_request_v1_size
    then Some (MkCall NUVIO_ENGINE_STATUS_INCOMPATIBLE_ABI (Some 0) engine)
    else
      input ← read_torrent_input request;
      match input with
      | None => Some (invalid_call engine (Some 0))
      | Some input => faulted e fault (Some (forward e 0 (fun rt => add_torrent rt input)))
      end
  | _, _, _ => Some (invalid_call engine request_id)
  end.

(** The calls that name a torrent or a stream: the id is normalised, then used. *)
Definition call_with_id (engine : option nuvio_engine) (request_id : option Z) (id : option (option text))
    (fault : option exn_class) (run : text -> Runtime -> answer * Runtime) : option call :=
  match engine, request_id with
  | Some e, Some _ =>
    normalized ← id;
    match normalized with
    | None => Some (invalid_call engine (Some 0))
    | Some normalized => faulted e fault (Some (forward e 0 (run normalized)))
    end
  | _, _ => Some (invalid_call engine request_id)
  end.

Definition nuvio_engine_remove_torrent (engine : option nuvio_engine) (torrent_id : pointer) (request_id : option Z)
    (fault : option exn_class) : option call :=
  call_with_id engine request_id (normalize_torrent_id torrent_id) fault (fun id rt => remove_torrent rt id).

Definition nuvio_engine_stop_stream (engine : option nuvio_engine) (stream_id : pointer) (request_id : option Z)
    (fault : option exn_class) : option call :=
  call_with_id engine request_id (normalize_stream_id stream_id) fault (fun id rt => stop_stream rt id).

Definition nuvio_engine_reclaim_disk_cache (engine : option nuvio_engine) (target_bytes : Z) (request_id : option Z)
    (fault : option exn_class) : option call :=
  match engine, request_id with
  | Some e, Some _ => faulted e fault (Some (forward e 0 (fun rt => reclaim_disk_cache rt target_bytes)))
  | _, _ => Some (invalid_call engine request_id)
  end.

Definition read_filename_hint (hint : pointer) : option (option text) :=
  match hint with
  | None => Some (Some [])
  | Some memory =>
    let maximum_hint_length := (4 * 1024)%nat in
    length_ ← bounded_string_length memory maximum_hint_length;
    if (maximum_hint_length <? length_)%nat then Some None else Some (Some (take length_ memory))
  end.

Definition nuvio_engine_prepare_stream (engine : option nuvio_engine) (request : option stream_request_object)
    (request_id : option Z) (fault : option exn_class) : option call :=
  match engine, request, request_id with
  | Some e, Some request, Some _ =>
    let a := sq_alloc request in
    struct_size ← read_member stream_request_layout a "struct_size" (sq_struct_size request);
    if struct_size <? Z.of_nat stream_request_v1_size
    then Some (MkCall NUVIO_ENGINE_STATUS_INCOMPATIBLE_ABI (Some 0) engine)
    else
      id ← read_member stream_request_layout a "torrent_id" (sq_torrent_id request);
      normalized ← normalize_torrent_id id;
      match normalized with
      | None => Some (invalid_call engine (Some 0))
      | Some normalized =>
        hint ← read_member stream_request_layout a "filename_hint" (sq_filename_hint request);
        hint ← read_filename_hint hint;
        match hint with
        | None => Some (invalid_call engine (Some 0))
        | Some hint =>
          index ← read_member stream_request_layout a "file_index" (sq_file_index request);
          let requested_index := if index =? U32_MAX then None else Some (Z.to_nat index) in
          faulted e fault (Some (forward e 0 (fun rt => prepare_stream rt normalized requested_index hint)))
        end
      end
  | _, _, _ => Some (invalid_call engine request_id)
  end.

(** ** Calls that fill a structure of the caller *)

(** [std::memcpy(object, &available, std::min(caller_size, sizeof(available)))]. *)
Definition copy_out (object : text) (caller_size : Z) (available : text) : option text :=
  store object 0 (take (Z.to_nat caller_size) available).

(** The status, the object of the caller and the engine. *)
Abbreviation filled := (Z * option text * option nuvio_engine)%type.

(** The shared shape: check the pointers and the size, compute, copy. *)
Definition fill (engine : option nuvio_engine) (object : option text) (v1_size : nat)
    (compute : nuvio_engine -> option (Z * option text * nuvio_engine)) : option filled :=
  match engine, object with
  | Some e, Some o =>
    caller_size ← load_u32 o 0;
    if caller_size <? Z.of_nat v1_size then Some (NUVIO_ENGINE_STATUS_INCOMPATIBLE_ABI, object, engine)
    else
      '(status, available, e') ← compute e;
      match available with
      | None => Some (status, object, Some e')
      | Some bytes => o' ← copy_out o caller_size bytes; Some (NUVIO_ENGINE_STATUS_OK, Some o', Some e')
      end
  | _, _ => Some (NUVIO_ENGINE_STATUS_INVALID_ARGUMENT, object, engine)
  end.

Definition nuvio_engine_poll_event (engine : option nuvio_engine) (event : option text) : option filled :=
  fill engine event event_v1_size (fun e =>
    let '(status, available, rt) := poll_event (en_runtime e) in
    Some (status, (fun ev => encode event_layout (event_values ev)) <$> available, with_runtime e rt)).

(** The computation of a call that normalises an id and reads the runtime. *)
Definition lookup_with_id {A} (id : option (option text)) (fault : option exn_class) (e : nuvio_engine)
    (look : text -> Z * option A) (bytes : A -> text) : option (Z * option text * nuvio_engine) :=
  normalized ← id;
  match normalized, fault with
  | _, Some kind => Some (caught kind, None, e)
  | None, None => Some (NUVIO_ENGINE_STATUS_INVALID_ARGUMENT, None, e)
  | Some id, None => let (status, a) := look id in Some (status, bytes <$> a, e)
  end.

Definition nuvio_engine_get_file (engine : option nuvio_engine) (torrent_id : pointer) (file_index : nat)
    (file : option text) (fault : option exn_class) : option filled :=
  fill engine file file_v1_size (fun e =>
    lookup_with_id (normalize_torrent_id torrent_id) fault e (fun id => get_file (en_runtime e) id file_index)
      (fun f => encode file_layout (file_values f))).

Definition nuvio_engine_get_stats (engine : option nuvio_engine) (stats : option text) : option filled :=
  fill engine stats stats_v1_size (fun e =>
    Some (NUVIO_ENGINE_STATUS_OK, Some (encode stats_layout (stats_values (get_stats (en_runtime e)))), e)).

Definition nuvio_engine_get_stream_stats (engine : option nuvio_engine) (stream_id : pointer) (stats : option text)
    (fault : option exn_class) : option filled :=
  fill engine stats stream_stats_v1_size (fun e =>
    lookup_with_id (normalize_stream_id stream_id)
      (match fault with Some _ => Some runtime_error | None => None end) e
      (fun id => get_stream_stats (en_runtime e) id) (fun s => encode stream_stats_layout (stream_stats_values s))).

(** [nuvio_engine_get_file_count]: the status and [*file_count]. *)
Definition nuvio_engine_get_file_count (engine : option nuvio_engine) (torrent_id : pointer) (file_count : option Z)
    (fault : option exn_class) : option (Z * option Z) :=
  match engine, file_count with
  | Some e, Some _ =>
    normalized ← normalize_torrent_id torrent_id;
    match normalized, fault with
    | _, Some kind => Some (caught kind, Some 0)
    | None, None => Some (NUVIO_ENGINE_STATUS_INVALID_ARGUMENT, Some 0)
    | Some id, None =>
      let (status, n) := get_file_count (en_runtime e) id in Some (status, Some (default 0 n))
    end
  | _, _ => Some (NUVIO_ENGINE_STATUS_INVALID_ARGUMENT, file_count)
  end.

(** ** Facts on strings and memory *)

(** A null pointer, or a terminated string. *)
Definition terminated (p : pointer) : Prop := match p with Some m => NUL ∈ m | None => True end.

Lemma c_string_terminated m : NUL ∈ m -> c_string m = Some (c_str m).
Proof.
  induction m as [|c m IH]; intros Hin; [by apply elem_of_nil in Hin|]. simpl.
  destruct (Ascii.eqb c NUL) eqn:E; [done|]. apply Ascii.eqb_neq in E.
  apply elem_of_cons in Hin as [<-|Hin]; [done|]. by rewrite IH.
Qed.

Lemma string_length_terminated room m :
  NUL ∈ m -> string_length_loop room m = Some (Nat.min room (length (c_str m))).
Proof.
  revert m. induction room as [|room IH]; intros m Hin; [done|].
  destruct m as [|c m]; [by apply elem_of_nil in Hin|]. simpl.
  destruct (Ascii.eqb c NUL) eqn:E; [done|]. apply Ascii.eqb_neq in E.
  apply elem_of_cons in Hin as [<-|Hin]; [done|]. by rewrite IH.
Qed.

Lemma take_c_str n m : (n <= length (c_str m))%nat -> take n m = take n (c_str m).
Proof.
  revert n. induction m as [|c m IH]; intros n Hn; simpl in *; [by destruct n|].
  destruct (Ascii.eqb c NUL); [simpl in Hn; by replace n with O by lia|].
  destruct n as [|n]; [done|]. simpl in *. by rewrite IH by lia.
Qed.

Lemma bounded_terminated m maximum :
  NUL ∈ m ->
  bounded_string_length m maximum = Some (Nat.min (S maximum) (length (c_str m))) /\
  ((length (c_str m) <= maximum)%nat -> take (Nat.min (S maximum) (length (c_str m))) m = c_str m).
Proof.
  intros Hm. split; [by apply string_length_terminated|]. intros Hl.
  rewrite Nat.min_r by lia. rewrite take_c_str by done. by apply take_ge.
Qed.

Lemma normalize_characters_spec v t :
  normalize_characters v = Some t <-> Forall (fun c => isxdigit c = true) v /\ t = tolower <$> v.
Proof.
  revert t. induction v as [|c v IH]; intros t; simpl; [split; [intros [= <-]; done|intros [_ ->]; done]|].
  destruct (isxdigit c) eqn:E.
  - rewrite fmap_Some. setoid_rewrite IH. rewrite Forall_cons. split.
    + by intros (y & [Hy ->] & ->).
    + intros [[_ Hy] ->]. by eexists.
  - rewrite Forall_cons. split; [done|]. intros [[? _] _]. congruence.
Qed.

Lemma store_length b o d b' : store b o d = Some b' -> length b' = length b.
Proof.
  unfold store. destruct (Nat.leb_spec (o + length d) (length b)); [|done]. intros [= <-].
  rewrite !length_app, length_take, length_drop. lia.
Qed.

Lemma store_ok b o d : (o + length d <= length b)%nat -> exists b', store b o d = Some b'.
Proof. intros Hl. unfold store. rewrite (proj2 (Nat.leb_le _ _) Hl). eauto. Qed.

Lemma store_drop b o d b' n : store b o d = Some b' -> (o + length d <= n)%nat -> drop n b' = drop n b.
Proof.
  unfold store. destruct (Nat.leb_spec (o + length d) (length b)) as [Hl|]; [|done]. intros [= <-] Hn.
  rewrite drop_app_ge by (rewrite length_take; lia). rewrite length_take, Nat.min_l by lia.
  rewrite drop_app_ge by lia. rewrite drop_drop. f_equal. lia.
Qed.

Lemma store_take b o d b' n : store b o d = Some b' -> (n <= o)%nat -> take n b' = take n b.
Proof.
  unfold store. destruct (Nat.leb_spec (o + length d) (length b)) as [Hl|]; [|done]. intros [= <-] Hn.
  rewrite take_app_le by (rewrite length_take; lia). rewrite take_take. f_equal. lia.
Qed.

Lemma store_start b d b' : store b 0 d = Some b' -> take (length d) b' = d.
Proof. unfold store. destruct (_ <=? _)%nat; [|done]. intros [= <-]. simpl. by rewrite take_app_length. Qed.

Lemma load_take b b' : take 4 b = take 4 b' -> length b = length b' -> load_u32 b 0 = load_u32 b' 0.
Proof. intros Ht Hl. unfold load_u32. rewrite Hl. destruct (_ <=? _)%nat; [|done]. unfold substr. rewrite !drop_0. by rewrite Ht. Qed.

Lemma load_stored (b : text) z (b' : text) : 0 <= z <= U32_MAX -> take 4 b' = little_endian 4 z -> length b' = length b -> (4 <= length b)%nat ->
  load_u32 b' 0 = Some z.
Proof.
  intros Hz Ht Hl Hb. unfold load_u32. rewrite Hl, (proj2 (Nat.leb_le _ _)) by lia. unfold substr. rewrite drop_0, Ht.
  f_equal. apply read_little_endian_encode. change (256 ^ Z.of_nat 4) with 4294967296. lia.
Qed.

(** The bytes of a structure have its size. *)
Definition fits (t : ctype) (v : cvalue) : Prop := match v with VBytes b => length b = ctype_size t | VInt _ => True end.

Lemma encode_from_length l vs o :
  Forall2 (fun m v => fits m.2 v) l vs -> (o + length (encode_from o l vs))%nat = end_from o l.
Proof.
  intros Hf. revert o. induction Hf as [|[n t] v l vs Hv _ IH]; intros o; simpl; [lia|].
  rewrite <-IH, !length_app, length_replicate.
  assert (length (encode_value t v) = ctype_size t) as -> by (destruct v; [apply little_endian_length|done]). lia.
Qed.

Lemma encode_length l vs : Forall2 (fun m v => fits m.2 v) l vs -> length (encode l vs) = sizeof l.
Proof.
  intros Hf. unfold encode, sizeof. rewrite length_app, length_replicate.
  pose proof (encode_from_length l vs 0 Hf) as He. simpl in He. by rewrite He.
Qed.

Lemma zero_chars_ne n : (0 < n)%nat -> zero_chars n <> [] /\ length (zero_chars n) = n.
Proof. intros Hn. unfold zero_chars. rewrite length_replicate. destruct n; [lia|]. done. Qed.

Lemma copy_zero_length n s : (0 < n)%nat -> length (copy_text (zero_chars n) s) = n.
Proof. intros Hn. destruct (zero_chars_ne n Hn). by rewrite copy_text_length. Qed.

Lemma make_event_length e sequence dropped :
  length (encode event_layout (event_values (make_event e sequence dropped))) = sizeof event_layout.
Proof. apply encode_length. repeat constructor; simpl; apply copy_zero_length; lia. Qed.

Lemma make_event_size e sequence dropped :
  take 4 (encode event_layout (event_values (make_event e sequence dropped))) = little_endian 4 960.
Proof. reflexivity. Qed.

(** ** Initialisers stay inside the structure *)

Lemma initialize_ok object n :
  0 <= n <= U32_MAX -> n <= Z.of_nat (length object) ->
  exists o, initialize_structure (Some object) n = Some (negb (n <? 4), Some o) /\ length o = length object /\
    drop (Z.to_nat n) o = drop (Z.to_nat n) object /\ (4 <= n -> load_u32 o 0 = Some n).
Proof.
  intros Hn Hl. unfold initialize_structure.
  destruct (store_ok object 0 (replicate (Z.to_nat n) NUL)) as [o1 H1]; [rewrite length_replicate; lia|].
  rewrite H1. cbn [mbind option_bind]. pose proof (store_length _ _ _ _ H1) as L1.
  pose proof (store_drop _ _ _ _ (Z.to_nat n) H1) as D1. rewrite length_replicate in D1. specialize (D1 ltac:(lia)).
  destruct (Z.ltb_spec n 4) as [Hs|Hs]; [exists o1; split_and!; try done; lia|].
  destruct (store_ok o1 0 (little_endian 4 n)) as [o2 H2]; [rewrite little_endian_length; lia|]. rewrite H2.
  pose proof (store_length _ _ _ _ H2) as L2. exists o2. split; [done|]. split; [lia|]. split.
  - rewrite (store_drop _ _ _ _ _ H2) by (rewrite little_endian_length; lia). done.
  - intros _. apply (load_stored o1); [lia| |lia|lia]. pose proof (store_start _ _ _ H2) as Ht. by rewrite little_endian_length in Ht.
Qed.

(** An assignment inside the first [n] bytes and behind [struct_size]. *)
Definition preserves (n : nat) (o o' : text) : Prop :=
  length o' = length o /\ drop n o' = drop n o /\ take 4 o' = take 4 o.

Lemma preserves_trans n a b c : preserves n a b -> preserves n b c -> preserves n a c.
Proof. intros (A1 & A2 & A3) (B1 & B2 & B3). repeat split; congruence. Qed.

Lemma assign_ok l name v o n :
  (member_end l (str name) <= n <= length o)%nat -> (4 <= offsetof l (str name))%nat ->
  exists o', assign l name v o = Some o' /\ preserves n o o'.
Proof.
  intros Hn Ho. unfold assign, member_end in *. set (d := little_endian _ _).
  assert (Hd : length d = member_size l (str name)) by apply little_endian_length.
  destruct (store_ok o (offsetof l (str name)) d) as [o' H]; [lia|]. exists o'. split; [done|].
  split; [by eapply store_length|]. split; [by eapply store_drop; [exact H|lia]|by eapply store_take].
Qed.

Lemma assign_from_ok version size l name v o n :
  (member_end l (str name) <= version)%nat -> Z.to_nat size = n -> 0 <= size -> (n <= length o)%nat ->
  (4 <= offsetof l (str name))%nat ->
  exists o', assign_from version size l name v o = Some o' /\ preserves n o o'.
Proof.
  intros Hv <- H0 Hl Ho. unfold assign_from. destruct (Z.leb_spec (Z.of_nat version) size); [|by exists o].
  apply assign_ok; lia.
Qed.

Definition init_result (object : text) (n : Z) (r : option (option text)) : Prop :=
  exists o, r = Some (Some o) /\ length o = length object /\ drop (Z.to_nat n) o = drop (Z.to_nat n) object /\
    (4 <= n -> load_u32 o 0 = Some n).

Lemma init_result_preserves object n o1 o2 :
  length o1 = length object -> drop (Z.to_nat n) o1 = drop (Z.to_nat n) object -> (4 <= n -> load_u32 o1 0 = Some n) ->
  preserves (Z.to_nat n) o1 o2 -> init_result object n (Some (Some o2)).
Proof.
  intros L D S (L2 & D2 & T2). exists o2. split; [done|]. split; [congruence|]. split; [congruence|].
  intros H4. rewrite <-(S H4). by apply load_take.
Qed.

Lemma config_init_ok object n :
  0 <= n <= U32_MAX -> n <= Z.of_nat (length object) -> init_result object n (nuvio_engine_config_init_sized (Some object) n).
Proof.
  intros Hn Hl. unfold nuvio_engine_config_init_sized.
  destruct (initialize_ok object n Hn Hl) as (o & -> & L & D & S). simpl. rewrite negb_involutive.
  destruct ((n <? 4) || (n <? Z.of_nat config_v1_size)) eqn:E; [by exists o|].
  apply orb_false_iff in E as [_ E%Z.ltb_ge]. change (Z.of_nat config_v1_size) with 56 in E.
  assert (Hstep : forall l name v o1, preserves (Z.to_nat n) o o1 -> (member_end l (str name) <= 56)%nat -> (4 <= offsetof l (str name))%nat ->
            exists o2, assign l name v o1 = Some o2 /\ preserves (Z.to_nat n) o o2).
  { intros l name v o1 P H1 H2. destruct (assign_ok l name v o1 (Z.to_nat n)) as (o2 & A & P2); [destruct P as [-> _]; lia|done|].
    exists o2. split; [done|]. by eapply preserves_trans. }
  assert (Hfrom : forall ver l name v o1, preserves (Z.to_nat n) o o1 -> (member_end l (str name) <= ver)%nat -> (4 <= offsetof l (str name))%nat ->
            exists o2, assign_from ver n l name v o1 = Some o2 /\ preserves (Z.to_nat n) o o2).
  { intros ver l name v o1 P H1 H2. destruct (assign_from_ok ver n l name v o1 (Z.to_nat n)) as (o2 & A & P2); [done|done|lia|destruct P as [-> _]; lia|done|].
    exists o2. split; [done|]. by eapply preserves_trans. }
  assert (P0 : preserves (Z.to_nat n) o o) by done.
  repeat match goal with
  | P : preserves _ o ?o1 |- context [assign ?l ?name ?v ?o1] =>
    let o2 := fresh "o" in let A := fresh "A" in let P2 := fresh "P" in
    destruct (Hstep l name v o1 P ltac:(vm_compute; lia) ltac:(vm_compute; lia)) as (o2 & A & P2); rewrite A; clear P; simpl
  | P : preserves _ o ?o1 |- context [assign_from ?ver n ?l ?name ?v ?o1] =>
    let o2 := fresh "o" in let A := fresh "A" in let P2 := fresh "P" in
    destruct (Hfrom ver l name v o1 P ltac:(vm_compute; lia) ltac:(vm_compute; lia)) as (o2 & A & P2); rewrite A; clear P; simpl
  end.
  by eapply init_result_preserves.
Qed.

Lemma file_index_init_ok l object n :
  (4 <= offsetof l (str "file_index"))%nat ->
  0 <= n <= U32_MAX -> n <= Z.of_nat (length object) -> init_result object n (file_index_init_sized l (Some object) n).
Proof.
  intros Ho Hn Hl. unfold file_index_init_sized. destruct (initialize_ok object n Hn Hl) as (o & -> & L & D & S).
  cbn [mbind option_bind]. rewrite negb_involutive. destruct (n <? 4); [by exists o|].
  destruct (assign_from_ok (member_end l (str "file_index")) n l "file_index" U32_MAX o (Z.to_nat n)) as (o2 & -> & P);
    [done|done|lia|lia|done|]. by eapply init_result_preserves.
Qed.

Lemma plain_init_ok object n :
  0 <= n <= U32_MAX -> n <= Z.of_nat (length object) -> init_result object n (plain_init_sized (Some object) n).
Proof.
  intros Hn Hl. unfold plain_init_sized. destruct (initialize_ok object n Hn Hl) as (o & -> & L & D & S). by exists o.
Qed.

(** ** Calls *)

(** The two ways a command call ends: it accepted a command and wrote its id, or it
    reports an error, writes zero and leaves the engine alone. *)
Definition clean_call (e : nuvio_engine) (r : option call) : Prop :=
  exists c, r = Some c /\
    ((call_status c = NUVIO_ENGINE_STATUS_OK /\ exists cmd next,
        call_request_id c = Some (c_request_id cmd) /\ c_request_id cmd = next_request_id (en_runtime e) /\
        call_engine c = Some (with_runtime e (with_commands (en_runtime e) (commands (en_runtime e) ++ [cmd]) next))) \/
     (call_status c <> NUVIO_ENGINE_STATUS_OK /\ call_request_id c = Some 0 /\ call_engine c = Some e)).

Lemma with_runtime_id e : with_runtime e (en_runtime e) = e.
Proof. by destruct e. Qed.

Lemma forward_clean e cmd run :
  (forall rt, run rt = enqueue rt cmd) -> clean_call e (Some (forward e 0 run)).
Proof.
  intros Hrun. unfold forward. rewrite Hrun. destruct (enqueue (en_runtime e) cmd) as [[status id] rt] eqn:E.
  eexists. split; [done|]. apply enqueue_cases in E as [(-> & st & [= -> ->] & Hne)|([= -> ->] & _ & _ & _ & ->)].
  - right. simpl. by rewrite with_runtime_id.
  - left. simpl. split; [done|]. exists (with_request_id cmd (next_request_id (en_runtime e))). by eexists.
Qed.

Lemma clean_error e status id : status <> NUVIO_ENGINE_STATUS_OK -> id = Some 0 -> clean_call e (Some (MkCall status id (Some e))).
Proof. intros H ->. eexists. split; [done|]. by right. Qed.

Lemma caught_not_ok kind : caught kind <> NUVIO_ENGINE_STATUS_OK.
Proof. by destruct kind. Qed.

Lemma faulted_clean e fault k : clean_call e k -> clean_call e (faulted e fault k).
Proof. intros Hk. destruct fault as [kind|]; [|done]. apply clean_error; [apply caught_not_ok|done]. Qed.

Lemma normalize_total id : terminated id -> exists r, normalize_torrent_id id = Some r.
Proof.
  intros H. unfold normalize_torrent_id. destruct id as [m|]; [|eauto].
  destruct (bounded_terminated m 64 H) as [-> _]. simpl. eauto.
Qed.

Lemma normalize_stream_total id : terminated id -> exists r, normalize_stream_id id = Some r.
Proof.
  intros H. unfold normalize_stream_id. destruct id as [m|]; [|eauto].
  destruct (bounded_terminated m 64 H) as [-> _]. simpl. eauto.
Qed.

Lemma call_with_id_clean e id normalized fault cmd run :
  normalized = Some id -> (forall i rt, run i rt = enqueue rt (cmd i)) ->
  clean_call e (call_with_id (Some e) (Some 0) normalized fault run).
Proof.
  intros -> Hrun. unfold call_with_id. cbn [mbind option_bind]. destruct id as [id|]; [|by apply clean_error].
  apply faulted_clean. by eapply forward_clean.
Qed.

(** A request object: the caller's size is honest, its pointers are null or terminated,
    its data has the size it says. *)
Definition request_honest (q : torrent_request_object) : Prop :=
  (4 <= tq_alloc q)%nat /\ tq_struct_size q <= Z.of_nat (tq_alloc q) /\ terminated (tq_magnet_uri q) /\
  match tq_torrent_data q with Some m => tq_torrent_data_size q <= Z.of_nat (length m) | None => True end.

Definition stream_request_honest (q : stream_request_object) : Prop :=
  (4 <= sq_alloc q)%nat /\ sq_struct_size q <= Z.of_nat (sq_alloc q) /\
  terminated (sq_torrent_id q) /\ terminated (sq_filename_hint q).

Lemma read_member_ok {A} l alloc name (v : A) :
  (member_end l (str name) <= alloc)%nat -> read_member l alloc name v = Some v.
Proof. intros H. unfold read_member. by rewrite (proj2 (Nat.leb_le _ _) H). Qed.

(** Reads the members that lie inside the [n] bytes which, by [Ha], the caller has. *)
Ltac member_within := apply Nat.leb_le; vm_compute; reflexivity.
Ltac read_members Ha :=
  repeat match goal with
  | |- context [read_member ?l ?a ?name ?v] =>
    rewrite (read_member_ok l a name v) by (etransitivity; [|exact Ha]; member_within); cbn [mbind option_bind]
  end.

Lemma read_input_total q :
  request_honest q -> Z.of_nat torrent_request_v1_size <= tq_struct_size q -> exists r, read_torrent_input q = Some r.
Proof.
  intros (H4 & Hs & Hu & Hd) Hv. change (Z.of_nat torrent_request_v1_size) with 16 in Hv.
  assert (Ha : (16 <= tq_alloc q)%nat) by lia. unfold read_torrent_input.
  change (Z.of_nat torrent_request_v2_size) with 40.
  assert (Hty : exists ty, (if 40 <=? tq_struct_size q then read_member torrent_request_layout (tq_alloc q) "source_type" (tq_source_type q)
                            else Some NUVIO_ENGINE_TORRENT_SOURCE_MAGNET) = Some ty).
  { destruct (Z.leb_spec 40 (tq_struct_size q)); [|eauto]. assert (Ha2 : (40 <= tq_alloc q)%nat) by lia. eexists. read_members Ha2. done. }
  destruct Hty as [ty ->]. cbn [mbind option_bind].
  rewrite (read_member_ok torrent_request_layout (tq_alloc q) "magnet_uri") by (etransitivity; [|exact Ha]; member_within).
  cbn [mbind option_bind]. destruct (ty =? NUVIO_ENGINE_TORRENT_SOURCE_MAGNET).
  { destruct (tq_magnet_uri q) as [m|]; [|eauto]. destruct (bounded_terminated m (16 * 1024) Hu) as [-> _].
    cbn [mbind option_bind]. destruct (_ || _); eauto. }
  destruct (ty =? NUVIO_ENGINE_TORRENT_SOURCE_DATA); [|eauto].
  destruct (Z.leb_spec 40 (tq_struct_size q)); [|simpl; eauto]. cbn [negb]. assert (Ha2 : (40 <= tq_alloc q)%nat) by lia.
  read_members Ha2.
  destruct (tq_torrent_data q) as [m|]; [|eauto]. destruct (_ || _); [eauto|].
  rewrite (proj2 (Z.ltb_ge _ _) Hd). eauto.
Qed.

Lemma add_torrent_clean e q fault : request_honest q -> clean_call e (nuvio_engine_add_torrent (Some e) (Some q) (Some 0) fault).
Proof.
  intros Hq. unfold nuvio_engine_add_torrent.
  rewrite read_member_ok by (destruct Hq as [Ha _]; etransitivity; [|exact Ha]; member_within). cbn [mbind option_bind].
  destruct (Z.ltb_spec (tq_struct_size q) (Z.of_nat torrent_request_v1_size)) as [|Hv]; [by apply clean_error|].
  destruct (read_input_total q Hq Hv) as [r ->]. cbn [mbind option_bind].
  destruct r as [input|]; [|by apply clean_error]. apply faulted_clean. by eapply forward_clean.
Qed.

Lemma read_hint_total p : terminated p -> exists r, read_filename_hint p = Some r.
Proof.
  intros Hp. unfold read_filename_hint. destruct p as [m|]; [|eauto].
  destruct (bounded_terminated m (4 * 1024) Hp) as [-> _]. cbn [mbind option_bind]. destruct (_ <? _)%nat; eauto.
Qed.

Lemma prepare_clean e id index hint : clean_call e (Some (forward e 0 (fun rt => prepare_stream rt id index hint))).
Proof.
  unfold prepare_stream. destruct (prepare_command (en_runtime e) id index hint) as [status|cmd] eqn:E.
  - unfold forward. rewrite E. rewrite with_runtime_id. apply clean_error; [|done].
    revert E. unfold prepare_command. by repeat case_match; intros [= <-].
  - unfold forward. rewrite E. by apply (forward_clean e cmd (fun rt => enqueue rt cmd)).
Qed.

Lemma prepare_stream_clean e q fault :
  stream_request_honest q -> clean_call e (nuvio_engine_prepare_stream (Some e) (Some q) (Some 0) fault).
Proof.
  intros (Ha & Hs & Hi & Hh). unfold nuvio_engine_prepare_stream.
  rewrite (read_member_ok stream_request_layout (sq_alloc q) "struct_size") by (etransitivity; [|exact Ha]; member_within). cbn [mbind option_bind].
  destruct (Z.ltb_spec (sq_struct_size q) (Z.of_nat stream_request_v1_size)) as [|Hv]; [by apply clean_error|].
  change (Z.of_nat stream_request_v1_size) with 32 in Hv. assert (Ha2 : (32 <= sq_alloc q)%nat) by lia.
  read_members Ha2.
  destruct (normalize_total _ Hi) as [r ->]. cbn [mbind option_bind]. destruct r as [id|]; [|by apply clean_error].
  destruct (read_hint_total _ Hh) as [h ->]. cbn [mbind option_bind]. destruct h as [hint|]; [|by apply clean_error].
  apply faulted_clean, prepare_clean.
Qed.

(** An id of [n] digits. *)
Lemma normalize_length_iff m t (ok : nat -> bool) :
  NUL ∈ m -> (forall n, ok n = true -> (n <= 64)%nat) ->
  (length_ ← bounded_string_length m 64; Some (if negb (ok length_) then None else normalize_characters (take length_ m)))
    = Some (Some t) <->
  ok (length (c_str m)) = true /\ Forall (fun c => isxdigit c = true) (c_str m) /\ t = tolower <$> c_str m.
Proof.
  intros Hm Hok. destruct (bounded_terminated m 64 Hm) as [-> Htk]. cbn [mbind option_bind].
  rewrite <-normalize_characters_spec.
  destruct (decide (length (c_str m) <= 64)%nat) as [Hl|Hl].
  - rewrite (Htk Hl), Nat.min_r by lia. destruct (ok (length (c_str m))); simpl.
    + split; [by intros [= ->]|by intros [_ ->]].
    + split; [done|by intros [? _]].
  - rewrite Nat.min_l by lia. destruct (ok 65%nat) eqn:E; [apply Hok in E; lia|]. simpl.
    split; [done|]. intros [H _]. apply Hok in H. lia.
Qed.

Lemma normalize_torrent_iff m t :
  NUL ∈ m ->
  normalize_torrent_id (Some m) = Some (Some t) <->
    (length (c_str m) = 40%nat \/ length (c_str m) = 64%nat) /\ Forall (fun c => isxdigit c = true) (c_str m) /\
    t = tolower <$> c_str m.
Proof.
  intros Hm. pose proof (normalize_length_iff m t (fun n => (n =? 40)%nat || (n =? 64)%nat) Hm) as H.
  rewrite orb_true_iff, !Nat.eqb_eq in H. rewrite <-H; [|intros n; rewrite orb_true_iff, !Nat.eqb_eq; lia].
  unfold normalize_torrent_id. destruct (bounded_string_length m 64); cbn [mbind option_bind]; [by rewrite negb_orb|done].
Qed.

Lemma normalize_stream_iff m t :
  NUL ∈ m ->
  normalize_stream_id (Some m) = Some (Some t) <->
    length (c_str m) = 64%nat /\ Forall (fun c => isxdigit c = true) (c_str m) /\ t = tolower <$> c_str m.
Proof.
  intros Hm. pose proof (normalize_length_iff m t (fun n => (n =? 64)%nat) Hm) as H.
  rewrite Nat.eqb_eq in H. rewrite <-H; [done|]. intros n. rewrite Nat.eqb_eq. lia.
Qed.

(** ** Properties *)

(** Initialising a structure of any caller's size writes only its first [struct_size]
    bytes and leaves that size in it: older and newer callers are safe. *)
Theorem initialisers_in_bounds (object : text) (n : Z) (Hn : 0 <= n <= U32_MAX) (Hl : n <= Z.of_nat (length object)) :
  init_result object n (nuvio_engine_config_init_sized (Some object) n) /\
  init_result object n (nuvio_engine_event_init_sized (Some object) n) /\
  init_result object n (nuvio_engine_stream_request_init_sized (Some object) n) /\
  init_result object n (nuvio_engine_torrent_request_init_sized (Some object) n) /\
  init_result object n (nuvio_engine_file_init_sized (Some object) n) /\
  init_result object n (nuvio_engine_stats_init_sized (Some object) n) /\
  init_result object n (nuvio_engine_stream_stats_init_sized (Some object) n).
Proof.
  split; [by apply config_init_ok|]. do 2 (split; [apply file_index_init_ok; [by apply Nat.leb_le; vm_compute|done|done]|]).
  repeat split; by apply plain_init_ok.
Qed.

(** Every call that sends a command is clean: for honest objects it reads nothing
    outside them; either it accepts one command, appended to the queue, and writes its
    id, or it reports an error, writes the id zero and changes nothing. *)
Theorem calls_are_clean (e : nuvio_engine) (fault : option exn_class) (q : torrent_request_object)
    (sq : stream_request_object) (torrent_id stream_id : pointer) (target : Z)
    (Hq : request_honest q) (Hsq : stream_request_honest sq) (Ht : terminated torrent_id) (Hs : terminated stream_id) :
  clean_call e (nuvio_engine_add_torrent (Some e) (Some q) (Some 0) fault) /\
  clean_call e (nuvio_engine_prepare_stream (Some e) (Some sq) (Some 0) fault) /\
  clean_call e (nuvio_engine_remove_torrent (Some e) torrent_id (Some 0) fault) /\
  clean_call e (nuvio_engine_stop_stream (Some e) stream_id (Some 0) fault) /\
  clean_call e (nuvio_engine_reclaim_disk_cache (Some e) target (Some 0) fault).
Proof.
  split; [by apply add_torrent_clean|]. split; [by apply prepare_stream_clean|].
  destruct (normalize_total _ Ht) as [r Hr], (normalize_stream_total _ Hs) as [r' Hr'].
  split; [by eapply (call_with_id_clean _ _ _ _ remove_torrent_command)|].
  split; [by eapply (call_with_id_clean _ _ _ _ stop_stream_command)|].
  apply faulted_clean. by eapply forward_clean.
Qed.

(** An id is accepted exactly when it has 40 or 64 hexadecimal digits (64 for a
    stream), and is then lowered; a lowered id is its own normal form. *)
Theorem normalize_id_correct (m : text) (Hm : NUL ∈ m) (t : text) :
  (normalize_torrent_id (Some m) = Some (Some t) <->
     (length (c_str m) = 40%nat \/ length (c_str m) = 64%nat) /\ Forall (fun c => isxdigit c = true) (c_str m) /\
     t = tolower <$> c_str m) /\
  (normalize_stream_id (Some m) = Some (Some t) <->
     length (c_str m) = 64%nat /\ Forall (fun c => isxdigit c = true) (c_str m) /\ t = tolower <$> c_str m) /\
  (normalize_torrent_id (Some m) = Some (Some t) -> normalize_torrent_id (Some (t ++ [NUL])) = Some (Some t)).
Proof.
  split; [by apply normalize_torrent_iff|]. split; [by apply normalize_stream_iff|].
  rewrite normalize_torrent_iff by done. intros (Hl & Hx & ->).
  assert (Hx' : Forall (fun c => isxdigit c = true) (tolower <$> c_str m)).
  { apply Forall_fmap. eapply Forall_impl; [exact Hx|]. intros c. apply isxdigit_tolower. }
  assert (Hc : c_str ((tolower <$> c_str m) ++ [NUL]) = tolower <$> c_str m).
  { apply c_str_app. rewrite Forall_forall in Hx'. intros Hin%Hx'. by vm_compute in Hin. }
  apply normalize_torrent_iff; [set_solver|]. rewrite Hc, length_fmap. split; [done|]. split; [done|].
  rewrite <-list_fmap_compose. apply list_fmap_ext. intros i c _. simpl. by rewrite tolower_idemp.
Qed.

(** ** Calls that fill a structure *)

(** The result of a call on an object whose size member is [n]. *)
Definition filled_ok (o : text) (n : Z) (r : option filled) : Prop :=
  exists status o' e', r = Some (status, Some o', e') /\ length o' = length o /\
    drop (Z.to_nat n) o' = drop (Z.to_nat n) o /\ (status <> NUVIO_ENGINE_STATUS_OK -> o' = o).

Definition total_compute (compute : nuvio_engine -> option (Z * option text * nuvio_engine)) : Prop :=
  forall e, exists status available e', compute e = Some (status, available, e') /\
    (status = NUVIO_ENGINE_STATUS_OK <-> is_Some available).

Lemma fill_ok e o n v1 compute :
  0 <= n -> load_u32 o 0 = Some n -> n <= Z.of_nat (length o) -> total_compute compute ->
  filled_ok o n (fill (Some e) (Some o) v1 compute).
Proof.
  intros H0 Hn Hl Hc. unfold fill. rewrite Hn. cbn [mbind option_bind].
  destruct (n <? Z.of_nat v1); [by eexists _, o, _|]. destruct (Hc e) as (status & available & e' & -> & Hs).
  cbn [mbind option_bind]. destruct available as [bytes|].
  - unfold copy_out. destruct (store_ok o 0 (take (Z.to_nat n) bytes)) as [o' Ho']; [rewrite length_take; lia|].
    rewrite Ho'. cbn [mbind option_bind]. eexists _, o', _. split; [done|]. split; [by eapply store_length|].
    split; [|done]. eapply store_drop; [exact Ho'|]. rewrite length_take. lia.
  - by eexists _, o, _.
Qed.

Lemma lookup_total {A} id fault (look : text -> Z * option A) bytes :
  (exists r, id = Some r) -> (forall i, (look i).1 = NUVIO_ENGINE_STATUS_OK <-> is_Some (look i).2) ->
  total_compute (fun e => lookup_with_id id fault e look bytes).
Proof.
  intros [r ->] Hl e. unfold lookup_with_id. cbn [mbind option_bind].
  assert (Hk : forall kind, exists status available e', Some (caught kind, None, e) = Some (status, available, e') /\
            (status = NUVIO_ENGINE_STATUS_OK <-> is_Some (available : option text))).
  { intros kind. do 3 eexists. split; [done|]. split; [by intros ?%caught_not_ok|by intros []]. }
  destruct r as [i|], fault as [kind|]; try apply Hk.
  - specialize (Hl i). destruct (look i) as [status a]. do 3 eexists. split; [done|]. by rewrite fmap_is_Some.
  - do 3 eexists. split; [done|]. split; [done|by intros []].
Qed.

Lemma poll_total :
  total_compute (fun e =>
    let '(status, available, rt) := poll_event (en_runtime e) in
    Some (status, (fun ev => encode event_layout (event_values ev)) <$> available, with_runtime e rt)).
Proof.
  intros e. unfold poll_event. destruct (events (en_runtime e)) as [|ev rest]; do 3 eexists; (split; [done|]); simpl.
  - split; [done|by intros []].
  - by split; [eexists|].
Qed.

Lemma get_file_status rt i index : (get_file rt i index).1 = NUVIO_ENGINE_STATUS_OK <-> is_Some (get_file rt i index).2.
Proof.
  unfold get_file. destruct (files rt !! i) as [l|]; [|by split; [|intros []]].
  destruct (l !! index); simpl; [by split; [eexists|]|by split; [|intros []]].
Qed.

Lemma get_stream_stats_status rt i : (get_stream_stats rt i).1 = NUVIO_ENGINE_STATUS_OK <-> is_Some (get_stream_stats rt i).2.
Proof. unfold get_stream_stats. destruct (stream_stats rt !! i); simpl; [by split; [eexists|]|by split; [|intros []]]. Qed.

Lemma fill_get_file e o n id index fault :
  0 <= n -> load_u32 o 0 = Some n -> n <= Z.of_nat (length o) -> terminated id ->
  filled_ok o n (nuvio_engine_get_file (Some e) id index (Some o) fault).
Proof.
  intros H0 Hn Hl Hid. apply fill_ok; [done..|]. intros e'.
  apply (lookup_total _ _ (fun i => get_file (en_runtime e') i index)); [by apply normalize_total|].
  intros i. apply get_file_status.
Qed.

Lemma fill_stream_stats e o n id fault :
  0 <= n -> load_u32 o 0 = Some n -> n <= Z.of_nat (length o) -> terminated id ->
  filled_ok o n (nuvio_engine_get_stream_stats (Some e) id (Some o) fault).
Proof.
  intros H0 Hn Hl Hid. apply fill_ok; [done..|]. intros e'.
  apply (lookup_total _ _ (fun i => get_stream_stats (en_runtime e') i)); [by apply normalize_stream_total|].
  intros i. apply get_stream_stats_status.
Qed.

(** C39. A call that fills a structure writes only the bytes that the caller's size member
    announces, and nothing when it reports an error. *)
Theorem fills_in_bounds (e : nuvio_engine) (o : text) (n : Z) (torrent_id stream_id : pointer) (index : nat)
    (fault : option exn_class) (H0 : 0 <= n) (Hn : load_u32 o 0 = Some n) (Hl : n <= Z.of_nat (length o))
    (Ht : terminated torrent_id) (Hs : terminated stream_id) :
  filled_ok o n (nuvio_engine_poll_event (Some e) (Some o)) /\
  filled_ok o n (nuvio_engine_get_file (Some e) torrent_id index (Some o) fault) /\
  filled_ok o n (nuvio_engine_get_stats (Some e) (Some o)) /\
  filled_ok o n (nuvio_engine_get_stream_stats (Some e) stream_id (Some o) fault).
Proof.
  split; [apply fill_ok; [done..|]; apply poll_total|]. split; [by apply fill_get_file|].
  split; [|by apply fill_stream_stats]. apply fill_ok; [done..|]. intros e'. do 3 eexists. split; [done|]. by split; [eexists|].
Qed.

(** C40. The size member does not survive the copy.  A caller compiled against a smaller
    version of [nuvio_engine_event] polls twice into the same object, as a polling loop
    does: the first call overwrites the size member with the engine's own size, and the
    second one, which trusts it, writes outside the object. *)
Theorem poll_twice_overruns (e : nuvio_engine) (o : text) (a b : BackendEvent) (sa da sb db : Z) rest
    (Ho : (event_v1_size <= length o < sizeof event_layout)%nat) (Hn : load_u32 o 0 = Some (Z.of_nat (length o)))
    (He : events (en_runtime e) = make_event a sa da :: make_event b sb db :: rest) :
  exists o' e', nuvio_engine_poll_event (Some e) (Some o) = Some (NUVIO_ENGINE_STATUS_OK, Some o', Some e') /\
    length o' = length o /\ load_u32 o' 0 = Some (Z.of_nat (sizeof event_layout)) /\
    nuvio_engine_poll_event (Some e') (Some o') = None.
Proof.
  change event_v1_size with 353%nat in Ho. change (sizeof event_layout) with 960%nat in *.
  unfold nuvio_engine_poll_event at 1, fill. rewrite Hn. cbn [mbind option_bind].
  rewrite (proj2 (Z.ltb_ge _ _)) by (change event_v1_size with 353%nat; lia).
  unfold poll_event at 1. rewrite He. cbn [fmap option_fmap option_map mbind option_bind].
  pose proof (make_event_length a sa da) as La. change (sizeof event_layout) with 960%nat in La.
  pose proof (make_event_length b sb db) as Lb. change (sizeof event_layout) with 960%nat in Lb.
  pose proof (make_event_size a sa da) as Ta.
  set (A := encode _ (event_values (make_event a sa da))) in *. unfold copy_out at 1. rewrite Nat2Z.id.
  destruct (store_ok o 0 (take (length o) A)) as [o' Ho']; [rewrite length_take; lia|]. rewrite Ho'.
  cbn [mbind option_bind]. eexists o', _. split; [done|].
  pose proof (store_length _ _ _ _ Ho') as Lo. split; [done|].
  assert (H4 : load_u32 o' 0 = Some 960).
  { apply (load_stored o); [lia| |done|lia]. rewrite <-Ta. apply store_start in Ho'.
    apply (f_equal (take 4)) in Ho'. rewrite length_take, La, !take_take in Ho'.
    rewrite !Nat.min_l in Ho' by lia. done. }
  split; [done|]. unfold nuvio_engine_poll_event, fill. rewrite H4. cbn [mbind option_bind].
  change (960 <? Z.of_nat event_v1_size) with false. cbv iota. unfold poll_event. cbn [en_runtime with_runtime events with_events].
  cbn [fmap option_fmap option_map mbind option_bind]. unfold copy_out.
  set (Bb := encode _ (event_values (make_event b sb db))) in *. unfold store.
  rewrite (proj2 (Nat.leb_gt _ _)); [done|]. rewrite length_take, Lb, Lo. change (Z.to_nat 960) with 960%nat. lia.
Qed.

(** ** Creation *)

(** The configuration a caller means: members its version does not have take their
    defaults. *)
Definition effective {A} (c : config_object) (version : nat) (v fallback : A) : A :=
  if Z.of_nat version <=? cf_struct_size c then v else fallback.
Definition inactivity_of (c : config_object) : Z :=
  effective c config_v2_size (cf_stream_inactivity_timeout_milliseconds c) default_stream_inactivity_timeout_milliseconds.
Definition warm_of (c : config_object) : Z :=
  effective c config_v3_size (cf_warm_torrent_timeout_milliseconds c) default_warm_torrent_timeout_milliseconds.
Definition tls_of (c : config_object) : pointer := effective c config_v4_size (cf_tls_ca_bundle_path c) None.
Definition profile_of (c : config_object) : Z := effective c config_v5_size (cf_torrent_profile c) default_torrent_profile.
Definition text_of (p : pointer) : text := match p with Some m => c_str m | None => [] end.

Record config_accepted (c : config_object) : Prop := {
  ca_version : Z.of_nat config_v1_size <= cf_struct_size c;
  ca_data : text_of (cf_data_directory c) <> [];
  ca_cache : text_of (cf_cache_directory c) <> [];
  ca_upload : valid_upload_configuration (cf_upload_mode c) (cf_upload_limit_bytes_per_second c) = true;
  ca_profile : valid_torrent_profile (profile_of c) = true;
  ca_tls : match tls_of c with Some m => (0 < length (c_str m) <= 16 * 1024)%nat | None => True end;
}.

Definition backend_config (c : config_object) : ProtocolBackendConfig :=
  MkBackendConfig (cf_upload_mode c) (cf_upload_limit_bytes_per_second c) (text_of (cf_data_directory c))
    (text_of (cf_cache_directory c)) (cf_listen_port c) (cf_memory_cache_capacity_bytes c)
    (cf_disk_cache_capacity_bytes c) (inactivity_of c) (warm_of c) (profile_of c) (text_of (tls_of c)).

Definition configured (c : config_object) (backend : bool) : nuvio_engine :=
  MkEngine (text_of (cf_data_directory c)) (text_of (cf_cache_directory c)) (cf_memory_cache_capacity_bytes c)
    (cf_disk_cache_capacity_bytes c) (cf_listen_port c) (cf_upload_mode c) (cf_upload_limit_bytes_per_second c)
    (inactivity_of c) (warm_of c) (profile_of c) (new_runtime backend (text_of (cf_cache_directory c)) 256 1024).

(** The caller's size is honest and the strings of the configuration are terminated. *)
Record config_honest (c : config_object) : Prop := {
  ch_alloc : (4 <= cf_alloc c)%nat;
  ch_size : cf_struct_size c <= Z.of_nat (cf_alloc c);
  ch_data : terminated (cf_data_directory c);
  ch_cache : terminated (cf_cache_directory c);
  ch_tls : terminated (cf_tls_ca_bundle_path c);
}.

Lemma versioned_effective {A} c version name (v fallback : A) :
  config_honest c -> (member_end config_layout (str name) <= version)%nat ->
  versioned c version name v fallback = Some (effective c version v fallback).
Proof.
  intros Hc Hm. unfold versioned, effective. destruct (Z.leb_spec (Z.of_nat version) (cf_struct_size c)); [|done].
  apply read_member_ok. pose proof (ch_size c Hc). lia.
Qed.

Lemma tls_terminated c : config_honest c -> terminated (tls_of c).
Proof. intros Hc. unfold tls_of, effective. destruct (_ <=? _); [apply (ch_tls c Hc)|done]. Qed.

Lemma read_tls_effective c :
  config_honest c ->
  read_tls_path c = Some (match tls_of c with
    | Some m => if bool_decide (0 < length (c_str m) <= 16 * 1024)%nat then inr (c_str m) else inl NUVIO_ENGINE_STATUS_INVALID_ARGUMENT
    | None => inr [] end).
Proof.
  intros Hc. pose proof (tls_terminated c Hc) as Ht. unfold read_tls_path, tls_of, effective in *.
  destruct (Z.ltb_spec (cf_struct_size c) (Z.of_nat config_v4_size)), (Z.leb_spec (Z.of_nat config_v4_size) (cf_struct_size c)); try lia; [done|].
  assert (Hin : (80 <= cf_alloc c)%nat) by (pose proof (ch_size c Hc); change (Z.of_nat config_v4_size) with 80 in *; lia).
  rewrite read_member_ok by (etransitivity; [|exact Hin]; member_within). cbn [mbind option_bind].
  destruct (cf_tls_ca_bundle_path c) as [m|]; [|done]. destruct (bounded_terminated m (16 * 1024) Ht) as [-> Htk].
  cbn [mbind option_bind]. set (max := (16 * 1024)%nat) in *. set (n := length (c_str m)) in *.
  destruct (decide (n <= max)%nat) as [Hle|Hgt].
  - rewrite (Htk Hle), Nat.min_r by lia. rewrite (proj2 (Nat.ltb_ge _ _)) by lia. rewrite orb_false_r.
    destruct (Nat.eqb_spec n 0); [rewrite bool_decide_false by lia|rewrite bool_decide_true by lia]; done.
  - rewrite Nat.min_l by lia. rewrite (proj2 (Nat.ltb_lt _ _)) by lia. rewrite orb_true_r.
    by rewrite bool_decide_false by lia.
Qed.

Section create_spec.
Context {B : Type} (create_protocol_backend : ProtocolBackendConfig -> result (option B)).

(** The status for a configuration whose members can be used. *)
Lemma create_engine_spec c data cache fault :
  config_honest c -> Z.of_nat config_v1_size <= cf_struct_size c ->
  data = text_of (cf_data_directory c) -> cache = text_of (cf_cache_directory c) ->
  create_engine create_protocol_backend c data cache (profile_of c) fault =
    Some match tls_of c with
    | Some m => if bool_decide (0 < length (c_str m) <= 16 * 1024)%nat
                then match fault with
                     | Some kind => (caught kind, None)
                     | None => match create_protocol_backend (backend_config c) with
                               | Throw x => (caught (exn_kind x), None)
                               | Ok b => (NUVIO_ENGINE_STATUS_OK, Some (configured c (bool_decide (is_Some b)), b)) end
                     end
                else (NUVIO_ENGINE_STATUS_INVALID_ARGUMENT, None)
    | None => match fault with
              | Some kind => (caught kind, None)
              | None => match create_protocol_backend (backend_config c) with
                        | Throw x => (caught (exn_kind x), None)
                        | Ok b => (NUVIO_ENGINE_STATUS_OK, Some (configured c (bool_decide (is_Some b)), b)) end
              end
    end.
Proof.
  intros Hc Hv -> ->. change (Z.of_nat config_v1_size) with 56 in Hv.
  assert (Ha : (56 <= cf_alloc c)%nat) by (pose proof (ch_size c Hc); lia). unfold create_engine.
  rewrite versioned_effective by (done || member_within). cbn [mbind option_bind].
  rewrite versioned_effective by (done || member_within). cbn [mbind option_bind].
  rewrite read_tls_effective by done. cbn [mbind option_bind].
  fold (inactivity_of c) (warm_of c). unfold backend_config, configured.
  destruct (tls_of c) as [m|] eqn:Etls; [destruct (bool_decide _); [|done]|];
    read_members Ha; cbn [text_of];
    (destruct fault; [done|]); by destruct (create_protocol_backend _).
Qed.

Lemma head_terminated m : NUL ∈ m -> exists c, head m = Some c /\ (c = NUL <-> c_str m = []).
Proof.
  destruct m as [|c m]; [by intros ?%elem_of_nil|]. intros _. exists c. split; [done|]. simpl.
  destruct (Ascii.eqb c NUL) eqn:E; [apply Ascii.eqb_eq in E|apply Ascii.eqb_neq in E]; done.
Qed.

(** The statuses of [nuvio_engine_create], in the order of the checks. *)
Lemma create_spec c fault :
  config_honest c ->
  nuvio_engine_create create_protocol_backend (Some c) false fault =
    if cf_struct_size c <? Z.of_nat config_v1_size then Some (NUVIO_ENGINE_STATUS_INCOMPATIBLE_ABI, None)
    else if bool_decide (text_of (cf_data_directory c) = []) || bool_decide (text_of (cf_cache_directory c) = []) ||
            negb (valid_upload_configuration (cf_upload_mode c) (cf_upload_limit_bytes_per_second c)) ||
            negb (valid_torrent_profile (profile_of c))
    then Some (NUVIO_ENGINE_STATUS_INVALID_ARGUMENT, None)
    else create_engine create_protocol_backend c (text_of (cf_data_directory c)) (text_of (cf_cache_directory c)) (profile_of c) fault.
Proof.
  intros Hc. unfold nuvio_engine_create.
  rewrite (read_member_ok config_layout (cf_alloc c) "struct_size") by
    (etransitivity; [|exact (ch_alloc c Hc)]; member_within). cbn [mbind option_bind].
  destruct (Z.ltb_spec (cf_struct_size c) (Z.of_nat config_v1_size)) as [|Hv]; [done|].
  change (Z.of_nat config_v1_size) with 56 in Hv.
  assert (Ha : (56 <= cf_alloc c)%nat) by (pose proof (ch_size c Hc); lia).
  read_members Ha. pose proof (ch_data c Hc) as Hd. pose proof (ch_cache c Hc) as Hk.
  destruct (cf_data_directory c) as [data|] eqn:Ed; [|by rewrite bool_decide_true].
  destruct (cf_cache_directory c) as [cache|] eqn:Ek; [|by rewrite (bool_decide_true (text_of None = [])), orb_true_r].
  destruct (head_terminated data Hd) as (d0 & -> & Hd0), (head_terminated cache Hk) as (c0 & Hc0 & Hc1).
  rewrite Hc0. cbn [mbind option_bind text_of]. rewrite <-(bool_decide_ext _ _ Hd0), <-(bool_decide_ext _ _ Hc1).
  destruct (Ascii.eqb_spec d0 NUL); [by rewrite bool_decide_true|]. rewrite (bool_decide_false (d0 = NUL)) by done.
  destruct (Ascii.eqb_spec c0 NUL); [by rewrite bool_decide_true|]. rewrite (bool_decide_false (c0 = NUL)) by done. simpl orb.
  destruct (valid_upload_configuration _ _); [|done]. simpl orb.
  rewrite versioned_effective by (done || member_within). cbn [mbind option_bind]. fold (profile_of c).
  cbn [negb]. destruct (valid_torrent_profile (profile_of c)); [|done]. cbn [negb].
  by rewrite !c_string_terminated by done.
Qed.
End create_spec.

(** C19. Creation: for a caller of any version whose object is honest, nothing outside the
    object is read; the status is ok exactly when the effective configuration is
    acceptable, no allocation fails and a backend (or none) is made from exactly that
    configuration; the engine then has that configuration, and otherwise there is none. *)
Theorem create_correct {B} (create_protocol_backend : ProtocolBackendConfig -> result (option B))
    (c : config_object) (fault : option exn_class) (Hc : config_honest c) :
  exists status out, nuvio_engine_create create_protocol_backend (Some c) false fault = Some (status, out) /\
    (status = NUVIO_ENGINE_STATUS_OK <->
       config_accepted c /\ fault = None /\ exists b, create_protocol_backend (backend_config c) = Ok b) /\
    match out with
    | Some (e, b) => status = NUVIO_ENGINE_STATUS_OK /\ e = configured c (bool_decide (is_Some b)) /\
                     create_protocol_backend (backend_config c) = Ok b
    | None => status <> NUVIO_ENGINE_STATUS_OK
    end.
Proof.
  rewrite create_spec by done.
  destruct (Z.ltb_spec (cf_struct_size c) (Z.of_nat config_v1_size)) as [Hv|Hv].
  { do 2 eexists. split; [done|]. split; [|done]. split; [done|]. intros ([Hv' _ _ _ _ _] & _). lia. }
  destruct (_ || _) eqn:E.
  { do 2 eexists. split; [done|]. split; [|done]. split; [done|]. intros ([_ H1 H2 H3 H4 _] & _).
    rewrite H3, H4, !bool_decide_false in E by done. done. }
  rewrite !orb_false_iff, !bool_decide_eq_false, !negb_false_iff in E. destruct E as [[[E1 E2] E3] E4].
  rewrite create_engine_spec by done.
  assert (Hacc : match tls_of c with Some m => (0 < length (c_str m) <= 16 * 1024)%nat | None => True end -> config_accepted c) by (by constructor).
  assert (Hfin : exists status out,
    match fault with
    | Some kind => (caught kind, None)
    | None => match create_protocol_backend (backend_config c) with
              | Throw x => (caught (exn_kind x), None)
              | Ok b => (NUVIO_ENGINE_STATUS_OK, Some (configured c (bool_decide (is_Some b)), b)) end
    end = (status, out) /\
    (status = NUVIO_ENGINE_STATUS_OK <-> fault = None /\ exists b, create_protocol_backend (backend_config c) = Ok b) /\
    match out with
    | Some (e, b) => status = NUVIO_ENGINE_STATUS_OK /\ e = configured c (bool_decide (is_Some b)) /\
                     create_protocol_backend (backend_config c) = Ok b
    | None => status <> NUVIO_ENGINE_STATUS_OK
    end).
  { destruct fault as [kind|].
    - do 2 eexists. split; [done|]. split; [|apply caught_not_ok]. split; [by intros ?%caught_not_ok|by intros [? _]].
    - destruct (create_protocol_backend (backend_config c)) as [b|x]; do 2 eexists; (split; [done|]).
      + split; [|done]. split; [eauto|done].
      + split; [|apply caught_not_ok]. split; [by intros ?%caught_not_ok|by intros [_ [? ?]]]. }
  destruct Hfin as (status & out & Hf & Hs & Ho). rewrite Hf.
  destruct (tls_of c) as [m|] eqn:Etls; [case_bool_decide as Hm|].
  - do 2 eexists. split; [done|]. split; [|done]. rewrite Hs. split; [auto|tauto].
  - do 2 eexists. split; [done|]. split; [|done]. split; [done|]. intros ([_ _ _ _ _ H] & _). by rewrite Etls in H.
  - do 2 eexists. split; [done|]. split; [|done]. rewrite Hs. split; [auto|tauto].
Qed.

(** ** Witnesses *)

Definition c_literal (s : string) : pointer := Some (str s ++ [NUL]).

(** A configuration of the first version: 56 bytes. *)
Definition demo_config : config_object :=
  MkConfig 56 56 (c_literal "/data") (c_literal "/cache") 1000 2000 0 NUVIO_ENGINE_UPLOAD_LIMITED 10 0 0 None 0.

Lemma literal_terminated s : terminated (c_literal s).
Proof. simpl. apply elem_of_app. right. by left. Qed.

Lemma demo_config_honest : config_honest demo_config.
Proof. constructor; [simpl; lia|simpl; lia|apply literal_terminated|apply literal_terminated|done]. Qed.

Definition no_backend : ProtocolBackendConfig -> result (option unit) := create_stub_backend.
Definition demo_engine : nuvio_engine := configured demo_config false.

Example demo_create :
  nuvio_engine_create no_backend (Some demo_config) false None = Some (NUVIO_ENGINE_STATUS_OK, Some (demo_engine, None)).
Proof. vm_compute. reflexivity. Qed.

Lemma create_correct_witness :
  exists status out, nuvio_engine_create no_backend (Some demo_config) false None = Some (status, out) /\
    (status = NUVIO_ENGINE_STATUS_OK <->
       config_accepted demo_config /\ None = (None : option exn_class) /\ exists b, no_backend (backend_config demo_config) = Ok b) /\
    match out with
    | Some (e, b) => status = NUVIO_ENGINE_STATUS_OK /\ e = configured demo_config (bool_decide (is_Some b)) /\
                     no_backend (backend_config demo_config) = Ok b
    | None => status <> NUVIO_ENGINE_STATUS_OK
    end.
Proof. apply (create_correct no_backend demo_config None demo_config_honest). Defined.

Definition demo_request : torrent_request_object := MkTorrentRequest 16 16 (c_literal "magnet:?x") 0 None 0.
Definition demo_stream_request : stream_request_object := MkStreamRequest 32 32 (c_literal "abc") U32_MAX None.

Definition demo_id : text := replicate 40 (chr 65) ++ [NUL].
Definition old_event : text := little_endian 4 360 ++ replicate 356 NUL.
Definition demo_event_data : BackendEvent := backend_event torrent_added 1 (str "t") [] [].
Definition demo_polling : nuvio_engine :=
  with_runtime demo_engine (with_events (en_runtime demo_engine) [make_event demo_event_data 1 0; make_event demo_event_data 2 0] 3 0).

Lemma poll_twice_overruns_witness :
  exists o' e', nuvio_engine_poll_event (Some demo_polling) (Some old_event) = Some (NUVIO_ENGINE_STATUS_OK, Some o', Some e') /\
    length o' = length old_event /\ load_u32 o' 0 = Some (Z.of_nat (sizeof event_layout)) /\
    nuvio_engine_poll_event (Some e') (Some o') = None.
Proof.
  apply (poll_twice_overruns demo_polling old_event demo_event_data demo_event_data 1 0 2 0 []);
    [split; apply Nat.leb_le; vm_compute; reflexivity|vm_compute; reflexivity|reflexivity].
Defined.

Lemma fills_in_bounds_witness :
  filled_ok old_event 360 (nuvio_engine_poll_event (Some demo_polling) (Some old_event)).
Proof.
  apply (fills_in_bounds demo_polling old_event 360 (c_literal "a") (c_literal "b") 0 None);
    [lia|vm_compute; reflexivity|vm_compute; congruence|apply literal_terminated..].
Defined.
