(* ===== verification/JniBridge.v ===== *)
(** The JNI bridge of the Android library: platform/android/engine/src/main/cpp/jni_bridge.cpp.
    A native function gets references to Java objects and a handle, converts its arguments,
    calls the C interface ([EngineApi]) and makes a Java object of the answer.  The JNI
    environment is a class of calls; the engines are the ones at the addresses that handles
    stand for. *)
From stdpp Require Import prelude strings list gmap.
From Stdlib Require Import ZArith Lia Ascii.
From S2P Require Import Prelude State Objects Text EngineTypes EngineRuntime EngineApi.

(** ** The environment *)

(** References and method ids; 0 is null. *)
Definition null : Z := 0.

Inductive jvalue := jint (z : Z) | jlong (z : Z) | jboolean (b : bool) | jobject (r : Z).

Class Jni (J : Type) := {
  FindClass : J -> text -> J * Z;
  GetMethodID : J -> Z -> text -> text -> J * Z;
  NewStringUTF : J -> text -> J * Z;
  CallObjectMethod : J -> Z -> Z -> list jvalue -> J * Z;
  NewObject : J -> Z -> Z -> list jvalue -> J * Z;
  NewByteArray : J -> Z -> J * Z;
  NewLongArray : J -> Z -> J * Z;
  NewObjectArray : J -> Z -> Z -> J * Z;                 (* filled with null *)
  GetArrayLength : J -> Z -> Z;
  GetByteArrayRegion : J -> Z -> Z -> Z -> J * text;
  SetByteArrayRegion : J -> Z -> Z -> text -> J;
  SetLongArrayRegion : J -> Z -> Z -> list Z -> J;
  SetObjectArrayElement : J -> Z -> Z -> Z -> J;
  GetByteArrayElements : J -> Z -> J * option text;
  ReleaseByteArrayElements : J -> Z -> J;                (* JNI_ABORT *)
  DeleteLocalRef : J -> Z -> J;
  ExceptionCheck : J -> bool;
  ThrowNew : J -> Z -> text -> J;
}.

(** ** Integers *)

(** [static_cast] between the integers of C and those of Java. *)
Definition to_jint (z : Z) : Z := let z := wrap32 z in if z <? 2147483648 then z else z - 4294967296.
Definition to_jlong (z : Z) : Z := let z := wrap64 z in if z <? 9223372036854775808 then z else z - 18446744073709551616.
Definition to_uint16 (z : Z) : Z := z mod 65536.

(** ** Conversions *)

Section conversions.
Context {J : Type} `{Jni J}.

(** [None]: the function returns false. *)
Definition read_utf8 (value : Z) : state J (option text) :=
  if value =? null then mret None
  else
    string_class ← invoke (fun j => FindClass j (str "java/lang/String"));
    if string_class =? null then mret None
    else
      get_bytes ← invoke (fun j => GetMethodID j string_class (str "getBytes") (str "(Ljava/lang/String;)[B"));
      charset ← invoke (fun j => NewStringUTF j (str "UTF-8"));
      if (get_bytes =? null) || (charset =? null) then _ ← effect (fun j => DeleteLocalRef j string_class); mret None
      else
        bytes ← invoke (fun j => CallObjectMethod j value get_bytes [jobject charset]);
        _ ← effect (fun j => DeleteLocalRef j charset);
        _ ← effect (fun j => DeleteLocalRef j string_class);
        thrown ← reading ExceptionCheck;
        if thrown || (bytes =? null) then mret None
        else
          length_ ← reading (fun j => GetArrayLength j bytes);
          output ← (if 0 <? length_ then invoke (fun j => GetByteArrayRegion j bytes 0 length_) else mret []);
          _ ← effect (fun j => DeleteLocalRef j bytes);
          thrown ← reading ExceptionCheck;
          mret (if thrown || bool_decide (NUL ∈ (output : text)) then None else Some output).

(** A Java string of the characters of [text_], which has no terminator here. *)
Definition make_utf8 (text_ : text) : state J Z :=
  let length_ := Z.of_nat (length text_) in
  bytes ← invoke (fun j => NewByteArray j length_);
  if bytes =? null then mret null
  else
    _ ← (if 0 <? length_ then effect (fun j => SetByteArrayRegion j bytes 0 text_) else mret tt);
    string_class ← invoke (fun j => FindClass j (str "java/lang/String"));
    constructor ← (if string_class =? null then mret null
                   else invoke (fun j => GetMethodID j string_class (str "<init>") (str "([BLjava/lang/String;)V")));
    charset ← invoke (fun j => NewStringUTF j (str "UTF-8"));
    result ← (if negb (constructor =? null) && negb (charset =? null)
              then invoke (fun j => NewObject j string_class constructor [jobject bytes; jobject charset]) else mret null);
    _ ← (if negb (charset =? null) then effect (fun j => DeleteLocalRef j charset) else mret tt);
    _ ← (if negb (string_class =? null) then effect (fun j => DeleteLocalRef j string_class) else mret tt);
    _ ← effect (fun j => DeleteLocalRef j bytes);
    mret result.

(** An array of [values], or null. *)
Definition make_longs (values : list Z) : state J Z :=
  result ← invoke (fun j => NewLongArray j (Z.of_nat (length values)));
  if negb (result =? null) then _ ← effect (fun j => SetLongArrayRegion j result 0 values); mret result else mret result.

Definition make_command_result (status request_id : Z) : state J Z := make_longs [to_jlong status; to_jlong request_id].

Definition throw_illegal_state (message : text) : state J unit :=
  exception_class ← invoke (fun j => FindClass j (str "java/lang/IllegalStateException"));
  if negb (exception_class =? null)
  then _ ← effect (fun j => ThrowNew j exception_class message); effect (fun j => DeleteLocalRef j exception_class)
  else mret tt.
End conversions.

(** ** Native functions *)

(** A native function in an environment and among the engines that exist; [None] when the C
    interface leaves an object. *)
Definition native (J A : Type) : Type := J * gmap Z nuvio_engine -> option ((J * gmap Z nuvio_engine) * A).
Arguments native : simpl never.

#[global] Instance native_ret {J} : MRet (native J) := fun A a w => Some (w, a).
#[global] Instance native_bind {J} : MBind (native J) := fun A B f m w =>
  match m w with Some (w', a) => f a w' | None => None end.

Definition jni {J A} (m : state J A) : native J A := fun w => let '(j, a) := m w.1 in Some ((j, w.2), a).
Definition defined {J A} (a : option A) : native J A := fun w => (fun a => (w, a)) <$> a.

(** The engine of a handle: null, or what is at its address. *)
Definition engine_from_handle (handle : Z) (engines : gmap Z nuvio_engine) : option (option nuvio_engine) :=
  if wrap64 handle =? 0 then Some None else Some <$> engines !! wrap64 handle.
Definition handle_from_engine (address : Z) : Z := to_jlong address.

(** A call of the C interface with the engine of a handle, which it may change. *)
Definition with_handle {J A} (handle : Z) (f : option nuvio_engine -> option (A * option nuvio_engine)) : native J A := fun w =>
  engine ← engine_from_handle handle w.2;
  '(a, engine') ← f engine;
  Some ((w.1, match engine' with Some e => <[wrap64 handle := e]> w.2 | None => w.2 end), a).

(** The status and [request_id] of a call that enqueues a command. *)
Definition outcome_of (c : option call) : option ((Z * Z) * option nuvio_engine) :=
  (fun c => ((call_status c, default 0 (call_request_id c)), call_engine c)) <$> c.
(** The status and the object of a call that fills one. *)
Definition filled_of (f : option filled) : option ((Z * text) * option nuvio_engine) :=
  (fun f => ((f.1.1, default [] f.1.2), f.2)) <$> f.

(** [std::string::c_str]. *)
Definition c_str_of (t : text) : pointer := Some (t ++ [NUL]).

(** The members of a structure in memory: an integer, and the string that starts at one. *)
Definition member (l : layout) (object : text) (name : string) : option Z :=
  let start := offsetof l (str name) in let size_ := member_size l (str name) in
  if (start + size_ <=? length object)%nat then Some (read_little_endian (substr start size_ object)) else None.
Definition member_string (l : layout) (object : text) (name : string) : option text :=
  c_string (drop (offsetof l (str name)) object).

(** [Structure value{}; Structure_init(&value)]. *)
Definition initialised (l : layout) (init : option text -> Z -> option (option text)) : option text :=
  o ← init (Some (replicate (sizeof l) NUL)) (Z.of_nat (sizeof l)); o.

Section natives.
Context {J B : Type} `{Jni J} (create_protocol_backend : ProtocolBackendConfig -> result (option B)).

(** [fault] is the exception of an allocation inside the C interface, if one fails. *)
Context (fault : option exn_class).

Definition command_result (r : Z * Z) : native J Z := jni (make_command_result r.1 r.2).
Definition invalid_argument_result : native J Z := command_result (NUVIO_ENGINE_STATUS_INVALID_ARGUMENT, 0).

(** [address] is where the engine is allocated. *)
Definition nativeCreate (address : Z) (data_directory cache_directory memory_cache_capacity disk_cache_capacity torrent_profile
    listen_port upload_mode upload_limit stream_inactivity_timeout warm_torrent_timeout tls_ca_bundle_path_value : Z) : native J Z :=
  data ← jni (read_utf8 data_directory);
  match data with
  | None => invalid_argument_result
  | Some data_path =>
    cache ← jni (read_utf8 cache_directory);
    match cache with
    | None => invalid_argument_result
    | Some cache_path =>
      tls ← jni (read_utf8 tls_ca_bundle_path_value);
      match tls with
      | None => invalid_argument_result
      | Some tls_ca_bundle_path =>
        let config := {|
          cf_alloc := sizeof config_layout; cf_struct_size := Z.of_nat (sizeof config_layout);
          cf_data_directory := c_str_of data_path; cf_cache_directory := c_str_of cache_path;
          cf_memory_cache_capacity_bytes := wrap64 memory_cache_capacity;
          cf_disk_cache_capacity_bytes := wrap64 disk_cache_capacity;
          cf_listen_port := to_uint16 listen_port; cf_upload_mode := wrap32 upload_mode;
          cf_upload_limit_bytes_per_second := wrap64 upload_limit;
          cf_stream_inactivity_timeout_milliseconds := wrap32 stream_inactivity_timeout;
          cf_warm_torrent_timeout_milliseconds := wrap32 warm_torrent_timeout;
          cf_tls_ca_bundle_path := c_str_of tls_ca_bundle_path; cf_torrent_profile := wrap32 torrent_profile |} in
        '(status, created) ← defined (nuvio_engine_create create_protocol_backend (Some config) false fault);
        match created with
        | None => command_result (status, wrap64 (handle_from_engine 0))
        | Some (engine, _) =>
          _ ← (fun w => Some ((w.1, <[address := engine]> w.2), tt));
          command_result (status, wrap64 (handle_from_engine address))
        end
      end
    end
  end.

(** [nuvio_engine_destroy] deletes the engine after its worker has ended. *)
Definition nativeDestroy (handle : Z) : native J unit := fun w =>
  engine ← engine_from_handle handle w.2;
  Some ((w.1, match engine with Some _ => delete (wrap64 handle) w.2 | None => w.2 end), tt).

Definition nativeAddMagnet (handle magnet_uri : Z) : native J Z :=
  magnet ← jni (read_utf8 magnet_uri);
  match magnet with
  | None => invalid_argument_result
  | Some magnet =>
    let request := MkTorrentRequest (sizeof torrent_request_layout) (Z.of_nat (sizeof torrent_request_layout)) (c_str_of magnet)
                     NUVIO_ENGINE_TORRENT_SOURCE_MAGNET None 0 in
    r ← with_handle handle (fun e => outcome_of (nuvio_engine_add_torrent e (Some request) (Some 0) fault));
    command_result r
  end.

Definition nativeAddTorrentData (handle torrent_data : Z) : native J Z :=
  if torrent_data =? null then invalid_argument_result
  else
    length_ ← jni (reading (fun j => GetArrayLength j torrent_data));
    bytes ← jni (invoke (fun j => GetByteArrayElements j torrent_data));
    match bytes with
    | None => command_result (NUVIO_ENGINE_STATUS_ALLOCATION_FAILED, 0)
    | Some bytes =>
      let request := MkTorrentRequest (sizeof torrent_request_layout) (Z.of_nat (sizeof torrent_request_layout)) None
                       NUVIO_ENGINE_TORRENT_SOURCE_DATA (Some bytes) length_ in
      r ← with_handle handle (fun e => outcome_of (nuvio_engine_add_torrent e (Some request) (Some 0) fault));
      _ ← jni (effect (fun j => ReleaseByteArrayElements j torrent_data));
      command_result r
    end.

Definition nativePrepareStream (handle torrent_id_value file_index filename_hint_value : Z) : native J Z :=
  torrent_id ← jni (read_utf8 torrent_id_value);
  match torrent_id with
  | None => invalid_argument_result
  | Some torrent_id =>
    hint ← (if filename_hint_value =? null then mret (Some None)
            else hint ← jni (read_utf8 filename_hint_value); mret (Some <$> hint));
    match hint with
    | None => invalid_argument_result
    | Some hint =>
      let request := MkStreamRequest (sizeof stream_request_layout) (Z.of_nat (sizeof stream_request_layout)) (c_str_of torrent_id)
                       (wrap32 file_index) (hint ≫= c_str_of) in
      r ← with_handle handle (fun e => outcome_of (nuvio_engine_prepare_stream e (Some request) (Some 0) fault));
      command_result r
    end
  end.

Definition nativeStopStream (handle stream_id_value : Z) : native J Z :=
  stream_id ← jni (read_utf8 stream_id_value);
  match stream_id with
  | None => invalid_argument_result
  | Some stream_id =>
    r ← with_handle handle (fun e => outcome_of (nuvio_engine_stop_stream e (c_str_of stream_id) (Some 0) fault));
    command_result r
  end.

Definition nativeRemoveTorrent (handle torrent_id_value : Z) : native J Z :=
  torrent_id ← jni (read_utf8 torrent_id_value);
  match torrent_id with
  | None => invalid_argument_result
  | Some torrent_id =>
    r ← with_handle handle (fun e => outcome_of (nuvio_engine_remove_torrent e (c_str_of torrent_id) (Some 0) fault));
    command_result r
  end.

Definition nativeReclaimDiskCache (handle target_bytes : Z) : native J Z :=
  r ← with_handle handle (fun e => outcome_of (nuvio_engine_reclaim_disk_cache e (wrap64 target_bytes) (Some 0) fault));
  command_result r.

(** The numbers that an array has after the status. *)
Definition stats_members : list string := [
  "active_torrents"; "active_streams"; "active_http_requests"; "connected_peers"; "connected_seeds";
  "pending_piece_reads"; "download_rate_bytes_per_second"; "upload_rate_bytes_per_second";
  "total_payload_download_bytes"; "total_payload_upload_bytes"; "memory_cache_capacity_bytes";
  "memory_cache_used_bytes"; "memory_cache_hits"; "memory_cache_misses"; "memory_cache_evictions";
  "memory_cache_entries"; "warm_torrents"; "quiesced_torrents"; "disk_cache_capacity_bytes"; "disk_cache_used_bytes";
  "disk_cache_protected_bytes"; "disk_cache_evictions"; "disk_cache_reclaimed_bytes"; "disk_cache_over_budget";
  "known_peers"; "connect_candidates"; "interested_peers"; "unchoked_peers"; "downloading_peers"; "snubbed_peers";
  "pending_block_requests"; "target_block_requests"; "timed_out_block_requests"; "connecting_peers";
  "handshaking_peers"; "target_piece_peers"; "target_piece_unchoked_peers"; "target_piece_downloading_peers";
  "off_target_downloading_peers"; "tracker_reply_events"; "tracker_error_events"; "dht_reply_events";
  "tracker_peers_returned"; "dht_peers_returned"; "peer_connect_events"; "peer_disconnect_events";
  "peer_disconnect_timeouts"; "peer_disconnect_connect_failures"; "peer_disconnect_redundant";
  "peer_disconnect_turnover"; "peer_disconnect_other"; "torrent_finished_events"]%string.
Definition stream_stats_members : list string := [
  "file_index"; "file_size"; "contiguous_ready_bytes"; "verified_file_bytes"; "delivered_bytes"; "active_demands";
  "scheduled_pieces"; "blocking_pieces"; "primary_blocking_piece"; "secondary_blocking_piece"; "last_ready_piece";
  "primary_demand_start"; "primary_demand_end"; "secondary_demand_start"; "secondary_demand_end"; "schedule_revision"]%string.

Definition stats_number (object : text) (name : string) : option Z :=
  z ← member stats_layout object name;
  Some (to_jlong (if bool_decide (name = "disk_cache_over_budget"%string) then (if z =? 0 then 0 else 1) else z)).

Definition nativeGetStats (handle : Z) : native J Z :=
  stats ← defined (initialised stats_layout nuvio_engine_stats_init_sized);
  '(status, stats) ← with_handle handle (fun e => filled_of (nuvio_engine_get_stats e (Some stats)));
  values ← defined (mapM (stats_number stats) stats_members);
  jni (make_longs (to_jlong status :: values)).

Definition nativeGetStreamStats (handle stream_id_value : Z) : native J Z :=
  stats ← defined (initialised stream_stats_layout nuvio_engine_stream_stats_init_sized);
  stream_id ← jni (read_utf8 stream_id_value);
  '(status, stats) ← match stream_id with
    | Some stream_id =>
        with_handle handle (fun e => filled_of (nuvio_engine_get_stream_stats e (c_str_of stream_id) (Some stats) fault))
    | None => mret (NUVIO_ENGINE_STATUS_INVALID_ARGUMENT, stats)
    end;
  values ← defined (mapM (fun name => to_jlong <$> member stream_stats_layout stats name) stream_stats_members);
  jni (make_longs (to_jlong status :: values)).

(** The object of [event], made by the constructor of its class, which is given back. *)
Definition event_payload (payload_class constructor : Z) (event : text) : native J Z :=
  torrent_id ← defined (member_string event_layout event "torrent_id"); torrent_id ← jni (make_utf8 torrent_id);
  message ← defined (member_string event_layout event "message"); message ← jni (make_utf8 message);
  stream_id ← defined (member_string event_layout event "stream_id"); stream_id ← jni (make_utf8 stream_id);
  stream_url ← defined (member_string event_layout event "stream_url"); stream_url ← jni (make_utf8 stream_url);
  type ← defined (member event_layout event "type"); sequence ← defined (member event_layout event "sequence");
  request_id ← defined (member event_layout event "request_id");
  dropped_events ← defined (member event_layout event "dropped_events");
  file_index ← defined (member event_layout event "file_index"); file_size ← defined (member event_layout event "file_size");
  result ← jni (invoke (fun j => NewObject j payload_class constructor
    [jint (to_jint type); jlong (to_jlong sequence); jlong (to_jlong request_id); jlong (to_jlong dropped_events);
     jobject torrent_id; jobject message; jint (to_jint file_index); jlong (to_jlong file_size); jobject stream_id; jobject stream_url]));
  _ ← jni (effect (fun j => DeleteLocalRef j torrent_id)); _ ← jni (effect (fun j => DeleteLocalRef j message));
  _ ← jni (effect (fun j => DeleteLocalRef j stream_id)); _ ← jni (effect (fun j => DeleteLocalRef j stream_url));
  _ ← jni (effect (fun j => DeleteLocalRef j payload_class));
  mret result.

(** The object of an event, or null. *)
Definition nativePollEvent (handle : Z) : native J Z :=
  event ← defined (initialised event_layout nuvio_engine_event_init_sized);
  '(status, event) ← with_handle handle (fun e => filled_of (nuvio_engine_poll_event e (Some event)));
  if status =? NUVIO_ENGINE_STATUS_NO_EVENT then mret null
  else if negb (status =? NUVIO_ENGINE_STATUS_OK)
  then _ ← jni (throw_illegal_state (nuvio_engine_status_message status)); mret null
  else
    payload_class ← jni (invoke (fun j => FindClass j (str "com/nuvio/engine/internal/NativeEventPayload")));
    constructor ← (if payload_class =? null then mret null
                   else jni (invoke (fun j => GetMethodID j payload_class (str "<init>")
                     (str "(IJJJLjava/lang/String;Ljava/lang/String;IJLjava/lang/String;Ljava/lang/String;)V"))));
    if constructor =? null then mret null
    else event_payload payload_class constructor event.

(** The loop of [nativeGetFiles] from [index] on, with [count] files to go: the status. *)
Fixpoint get_files (handle : Z) (torrent_id : text) (files file_class file_constructor : Z) (index count : nat) : native J Z :=
  match count with
  | O => mret NUVIO_ENGINE_STATUS_OK
  | S count =>
    file ← defined (initialised file_layout nuvio_engine_file_init_sized);
    '(status, file) ← with_handle handle (fun e => filled_of (nuvio_engine_get_file e (c_str_of torrent_id) index (Some file) fault));
    if negb (status =? NUVIO_ENGINE_STATUS_OK) then mret status
    else
      path ← defined (member_string file_layout file "path"); path ← jni (make_utf8 path);
      file_index ← defined (member file_layout file "index"); offset ← defined (member file_layout file "offset");
      size_ ← defined (member file_layout file "size"); truncated ← defined (member file_layout file "path_truncated");
      payload ← jni (invoke (fun j => NewObject j file_class file_constructor
        [jint (to_jint file_index); jlong (to_jlong offset); jlong (to_jlong size_); jboolean (negb (truncated =? 0)); jobject path]));
      _ ← jni (effect (fun j => SetObjectArrayElement j files (Z.of_nat index) payload));
      _ ← jni (effect (fun j => DeleteLocalRef j payload)); _ ← jni (effect (fun j => DeleteLocalRef j path));
      get_files handle torrent_id files file_class file_constructor (S index) count
  end.

(** A class and its constructor; null when one is not found. *)
Definition find_constructor (name signature : string) : state J (Z * Z) :=
  class ← invoke (fun j => FindClass j (str name));
  constructor ← (if class =? null then mret null else invoke (fun j => GetMethodID j class (str "<init>") (str signature)));
  mret (class, constructor).

Definition nativeGetFiles (handle torrent_id_value : Z) : native J Z :=
  torrent_id ← jni (read_utf8 torrent_id_value);
  match torrent_id with
  | None => mret null
  | Some torrent_id =>
    '(status, file_count) ← with_handle handle (fun e =>
      (fun r => ((r.1, default 0 r.2), e)) <$> nuvio_engine_get_file_count e (c_str_of torrent_id) (Some 0) fault);
    '(file_class, file_constructor) ← jni (find_constructor "com/nuvio/engine/internal/NativeFilePayload" "(IJJZLjava/lang/String;)V");
    if file_constructor =? null then mret null
    else
      let count := if status =? NUVIO_ENGINE_STATUS_OK then file_count else 0 in
      files ← jni (invoke (fun j => NewObjectArray j (to_jint count) file_class));
      if files =? null then _ ← jni (effect (fun j => DeleteLocalRef j file_class)); mret null
      else
        status ← (if status =? NUVIO_ENGINE_STATUS_OK
                  then get_files handle torrent_id files file_class file_constructor 0 (Z.to_nat file_count) else mret status);
        _ ← jni (effect (fun j => DeleteLocalRef j file_class));
        '(result_class, result_constructor) ← jni (find_constructor "com/nuvio/engine/internal/NativeFilesPayload"
          "(I[Lcom/nuvio/engine/internal/NativeFilePayload;)V");
        if result_constructor =? null then _ ← jni (effect (fun j => DeleteLocalRef j files)); mret null
        else
          result ← jni (invoke (fun j => NewObject j result_class result_constructor [jint (to_jint status); jobject files]));
          _ ← jni (effect (fun j => DeleteLocalRef j result_class));
          _ ← jni (effect (fun j => DeleteLocalRef j files));
          mret result
  end.

Definition nativeStatusMessage (status : Z) : native J Z := jni (make_utf8 (nuvio_engine_status_message (wrap32 status))).
Definition nativeEngineVersion : native J Z := jni (make_utf8 nuvio_engine_version_string).
(** The version of the library that the engine is built with, if it is. *)
Definition nativeBackendVersion (version : option text) : native J Z := jni (make_utf8 (nuvio_engine_protocol_backend_version version)).
End natives.
