(* ===== verification/JniMembers.v ===== *)
(** The members of the structures that the C interface fills, as [JniBridge] reads them. *)
From stdpp Require Import prelude strings list gmap.
From Stdlib Require Import ZArith Lia Ascii.
From S2P Require Import Prelude State Objects Text EngineTypes EngineRuntime EngineApi JniBridge.

(** ** Members of structures *)

(** The value of a member, with its type. *)
Fixpoint value_at (l : layout) (vs : list cvalue) (name : text) : option (ctype * cvalue) :=
  match l, vs with
  | (n, t) :: l', v :: vs' => if text_eqb n name then Some (t, v) else value_at l' vs' name
  | _, _ => None
  end.
(** An integer with its size, and an array of characters. *)
Definition value_of (l : layout) (vs : list cvalue) (name : text) : option (nat * Z) :=
  match value_at l vs name with Some (t, VInt z) => Some (ctype_size t, z) | _ => None end.
Definition characters_of (l : layout) (vs : list cvalue) (name : text) : option text :=
  match value_at l vs name with Some (_, VBytes b) => Some b | _ => None end.
Definition truncated (p : nat * Z) : Z := p.2 mod 256 ^ Z.of_nat p.1.

Lemma read_little_endian_mod n z : read_little_endian (little_endian n z) = z mod 256 ^ Z.of_nat n.
Proof.
  revert z. induction n as [|n IH]; intros z; cbn [little_endian read_little_endian]; [by rewrite Z.mod_1_r|].
  rewrite code_chr by (pose proof (Z.mod_pos_bound z 256); lia). rewrite IH, Nat2Z.inj_succ, Z.pow_succ_r by lia.
  rewrite (Z.rem_mul_r z 256 (256 ^ Z.of_nat n)) by lia. lia.
Qed.

Lemma encode_value_length t v : fits t v -> length (encode_value t v) = ctype_size t.
Proof. destruct v; [intros _; apply little_endian_length|done]. Qed.

(** A member is found at its offset, after the bytes [pre] of the members before. *)
Lemma member_at l vs pre post name t v : Forall2 (fun m v => fits m.2 v) l vs -> value_at l vs name = Some (t, v) ->
  let start := offset_from (length pre) l name in
  fits t v /\ member_size l name = ctype_size t /\ (start + ctype_size t <= length (pre ++ encode_from (length pre) l vs ++ post))%nat /\
  substr start (ctype_size t) (pre ++ encode_from (length pre) l vs ++ post) = encode_value t v.
Proof.
  intros Hf. revert pre. induction Hf as [|[x t'] v' l vs Hv _ IH]; intros pre Hz; [done|].
  cbn [value_at] in Hz. cbn [member_size offset_from encode_from]. set (pad := replicate _ NUL).
  set (o := (length pre + _)%nat). assert (Ho : length (pre ++ pad) = o) by (unfold pad; by rewrite length_app, length_replicate).
  destruct (text_eqb x name).
  - injection Hz as <- <-. split; [done|]. split; [done|].
    replace (pre ++ (pad ++ _ ++ _) ++ post) with ((pre ++ pad) ++ encode_value t' v' ++ encode_from (o + ctype_size t') l vs ++ post)
      by (by rewrite <-!app_assoc).
    split; [rewrite !length_app in *; rewrite encode_value_length by done; lia|]. unfold substr. rewrite drop_app_length' by done.
    by rewrite take_app_length' by (by rewrite encode_value_length).
  - assert (He : length (pre ++ pad ++ encode_value t' v') = (o + ctype_size t')%nat).
    { rewrite app_assoc, length_app, encode_value_length; [by f_equal|done]. }
    destruct (IH (pre ++ pad ++ encode_value t' v')) as (Hs & Hl & Hr); [done|]. rewrite He in *.
    replace (pre ++ (pad ++ _ ++ _) ++ post) with ((pre ++ pad ++ encode_value t' v') ++ encode_from (o + ctype_size t') l vs ++ post)
      by (by rewrite <-!app_assoc). done.
Qed.

Lemma encoded_at l vs name t v : Forall2 (fun m v => fits m.2 v) l vs -> value_at l vs (str name) = Some (t, v) ->
  fits t v /\ member_size l (str name) = ctype_size t /\ (offsetof l (str name) + ctype_size t <= length (encode l vs))%nat /\
  substr (offsetof l (str name)) (ctype_size t) (encode l vs) = encode_value t v.
Proof. intros Hf Hv. exact (member_at l vs [] (replicate (padding (length (encode_from 0 l vs)) (layout_align l)) NUL) (str name) t v Hf Hv). Qed.

Lemma member_encode l vs name p : Forall2 (fun m v => fits m.2 v) l vs -> value_of l vs (str name) = Some p ->
  member l (encode l vs) name = Some (truncated p).
Proof.
  intros Hf. unfold value_of. destruct (value_at l vs (str name)) as [[t [z|b]]|] eqn:E; [|done..]. intros [= <-].
  destruct (encoded_at _ _ _ _ _ Hf E) as (_ & Hs & Hl & Hr). unfold member.
  rewrite Hs, (proj2 (Nat.leb_le _ _) Hl), Hr. cbn [encode_value]. by rewrite read_little_endian_mod.
Qed.

Lemma c_string_app b rest : NUL ∈ b -> c_string (b ++ rest) = Some (c_str b).
Proof.
  induction b as [|c b IH]; intros Hin; [by apply not_elem_of_nil in Hin|]. cbn [app c_string c_str].
  destruct (Ascii.eqb c NUL) eqn:Hc; [done|]. apply Ascii.eqb_neq in Hc.
  apply elem_of_cons in Hin as [?|Hin]; [congruence|]. by rewrite (IH Hin).
Qed.

Lemma member_string_encode l vs name b : Forall2 (fun m v => fits m.2 v) l vs -> characters_of l vs (str name) = Some b -> NUL ∈ b ->
  member_string l (encode l vs) name = Some (c_str b).
Proof.
  intros Hf. unfold characters_of. destruct (value_at l vs (str name)) as [[t [z|b']]|] eqn:E; [done| |done]. intros [= <-] Hin.
  destruct (encoded_at _ _ _ _ _ Hf E) as (_ & _ & _ & Hr). unfold member_string.
  rewrite <-(take_drop (ctype_size t) (drop (offsetof l (str name)) (encode l vs))). fold (substr (offsetof l (str name)) (ctype_size t) (encode l vs)).
  rewrite Hr. by apply c_string_app.
Qed.

Lemma members_encode {A} l vs (g : string -> option A) (f : string -> Z -> A) names ps : Forall2 (fun m v => fits m.2 v) l vs ->
  (forall name z, member l (encode l vs) name = Some z -> g name = Some (f name z)) ->
  Forall2 (fun name p => value_of l vs (str name) = Some p) names ps ->
  mapM g names = Some (zip_with (fun name p => f name (truncated p)) names ps).
Proof.
  intros Hf Hg Hps. induction Hps as [|name p names ps Hp _ IH]; [done|]. cbn. by rewrite (Hg _ _ (member_encode _ _ _ _ Hf Hp)), IH.
Qed.

(** ** Calls that fill a structure *)

(** A structure of the size of the object replaces it. *)
Lemma replaced o n bytes : length o = Z.to_nat n -> 0 <= n -> length bytes = Z.to_nat n -> copy_out o n bytes = Some bytes.
Proof.
  intros Ho Hn Hb. assert (length bytes = length o) as Hl by congruence. rewrite <-(Z2Nat.id n), <-Ho by done. clear n Ho Hn Hb. unfold copy_out, store. rewrite Nat2Z.id, take_ge by lia. rewrite Hl, Nat.leb_refl. cbn [Nat.add].
  by rewrite take_0, drop_ge, app_nil_r by done.
Qed.

(** Objects of the size of a structure, with that size in them. *)
Definition sized (o : text) (n : Z) : Prop := load_u32 o 0 = Some n /\ length o = Z.to_nat n.
Lemma fill_sized e o l v1 compute : sized o (Z.of_nat (sizeof l)) -> (v1 <= sizeof l)%nat ->
  fill (Some e) (Some o) v1 compute =
    '(status, available, e') ← compute e;
    match available with
    | None => Some (status, Some o, Some e')
    | Some bytes => o' ← copy_out o (Z.of_nat (sizeof l)) bytes; Some (NUVIO_ENGINE_STATUS_OK, Some o', Some e')
    end.
Proof. intros [Ho Hl] Hv. unfold fill. rewrite Ho. cbn [mbind option_bind]. by rewrite (proj2 (Z.ltb_ge _ _)) by lia. Qed.

Lemma replaced_sized o l vs : sized o (Z.of_nat (sizeof l)) -> Forall2 (fun m v => fits m.2 v) l vs ->
  copy_out o (Z.of_nat (sizeof l)) (encode l vs) = Some (encode l vs).
Proof. intros [_ Ho] Hf. apply replaced; [done|lia|]. by rewrite Nat2Z.id, encode_length. Qed.

Lemma fill_encoded e e' o l v1 vs compute : sized o (Z.of_nat (sizeof l)) -> (v1 <= sizeof l)%nat -> Forall2 (fun m v => fits m.2 v) l vs ->
  compute e = Some (NUVIO_ENGINE_STATUS_OK, Some (encode l vs), e') ->
  fill (Some e) (Some o) v1 compute = Some (NUVIO_ENGINE_STATUS_OK, Some (encode l vs), Some e').
Proof. intros Ho Hv Hf Hc. rewrite (fill_sized e o l) by done. rewrite Hc. cbn [mbind option_bind]. by rewrite (replaced_sized o l vs Ho Hf). Qed.

Lemma fill_failed e e' o l v1 status compute : sized o (Z.of_nat (sizeof l)) -> (v1 <= sizeof l)%nat ->
  compute e = Some (status, None, e') -> fill (Some e) (Some o) v1 compute = Some (status, Some o, Some e').
Proof. intros Ho Hv Hc. rewrite (fill_sized e o l) by done. by rewrite Hc. Qed.

(** ** Casts *)

Lemma wrap_mod a b c z : 0 < a -> b = a * c -> 0 < c -> (z mod b) mod a = z mod a.
Proof.
  intros Ha -> Hc. rewrite (Z.rem_mul_r z a c) by lia. rewrite (Z.mul_comm a), Z.mod_add by lia. apply Z.mod_mod. lia.
Qed.

Lemma to_jlong_mod z : to_jlong z mod 18446744073709551616 = z mod 18446744073709551616.
Proof.
  unfold to_jlong, wrap64. cbv zeta. destruct (_ <? _); [apply Z.mod_mod; lia|].
  rewrite Zminus_mod, Z.mod_same, Z.sub_0_r, !Z.mod_mod by lia. done.
Qed.
Lemma to_jlong_u64 z : to_jlong (truncated (8%nat, z)) = to_jlong z.
Proof. unfold to_jlong, truncated, wrap64. cbn [fst snd]. change (256 ^ Z.of_nat 8) with 18446744073709551616. by rewrite Z.mod_mod. Qed.
Lemma to_jint_u32 z : to_jint (to_jlong (truncated (4%nat, z))) = to_jint z.
Proof.
  unfold to_jint, wrap32. rewrite <-(wrap_mod 4294967296 18446744073709551616 4294967296 (to_jlong _)) by lia.
  rewrite to_jlong_mod, (wrap_mod 4294967296 18446744073709551616 4294967296) by lia.
  unfold truncated. cbn [fst snd]. change (256 ^ Z.of_nat 4) with 4294967296. by rewrite Z.mod_mod.
Qed.
