(* ===== verification/JniResults.v ===== *)
(** What the native functions of [JniBridge] do in a Java machine that has memory: the Java
    objects they make and the references they leave, by the documented behaviour of the
    JNI calls. *)
From stdpp Require Import prelude strings list gmap.
From Stdlib Require Import ZArith Lia Ascii.
From S2P Require Import Prelude State Objects Text EngineTypes EngineRuntime EngineApi JniBridge.

(** ** Java objects *)

(** A string is its UTF-8 encoding; an instance has the arguments of its constructor. *)
#[warnings="-register-all"]
Inductive java_object :=
| java_class (name : text)
| java_string (utf8 : text)
| java_bytes (bytes : text)
| java_longs (values : list Z)
| java_objects (elements : list java_object)
| java_instance (class : text) (fields : list java_field)
| java_null
with java_field :=
| field_int (z : Z) | field_long (z : Z) | field_boolean (b : bool) | field_object (o : java_object).

(** The methods that the bridge looks up, by class, name and signature. *)
Definition bridge_methods : list (text * text * text) := [
  (str "java/lang/String", str "getBytes", str "(Ljava/lang/String;)[B");
  (str "java/lang/String", str "<init>", str "([BLjava/lang/String;)V");
  (str "com/nuvio/engine/internal/NativeEventPayload", str "<init>",
    str "(IJJJLjava/lang/String;Ljava/lang/String;IJLjava/lang/String;Ljava/lang/String;)V");
  (str "com/nuvio/engine/internal/NativeFilePayload", str "<init>", str "(IJJZLjava/lang/String;)V");
  (str "com/nuvio/engine/internal/NativeFilesPayload", str "<init>", str "(I[Lcom/nuvio/engine/internal/NativeFilePayload;)V")].
Definition has_class (name : text) : bool :=
  existsb (fun m => text_eqb m.1.1 name) bridge_methods || text_eqb name (str "java/lang/IllegalStateException").
Definition has_method (class name signature : text) : bool := bool_decide ((class, name, signature) ∈ bridge_methods).

(** Those that each function looks up. *)
Lemma has_string : has_class (str "java/lang/String") = true. Proof. by vm_compute. Qed.
Lemma has_getBytes : has_method (str "java/lang/String") (str "getBytes") (str "(Ljava/lang/String;)[B") = true. Proof. by vm_compute. Qed.
Lemma has_new_string : has_method (str "java/lang/String") (str "<init>") (str "([BLjava/lang/String;)V") = true. Proof. by vm_compute. Qed.

Section laws.
Context {J : Type} `{Jni J, ObjectView J java_object}.
Implicit Types j : J.

(** Which number is the id of a method; and the characters that Java reads from bytes. *)
Context (is_method : Z -> text -> text -> text -> Prop) (repair : text -> text).

Definition field_of j (v : jvalue) : java_field :=
  match v with
  | jint z => field_int z
  | jlong z => field_long z
  | jboolean b => field_boolean b
  | jobject r => field_object (if r =? null then java_null else content j r)
  end.

(** A call that answers a new reference. *)
Definition makes (o : java_object) j (r : J * Z) : Prop := r.2 <> null /\ creates o j r.1 (Some r.2).
(** A call that changes the object of a reference. *)
Definition updates (a : Z) (o : java_object) j j' : Prop :=
  keeps_objects (owned j ∖ {[a]}) j j' /\ owned j' = owned j /\ content j' a = o.

(** The documented behaviour of the calls, when no exception is pending and there is memory. *)
Record jni_laws : Prop := {
  law_stays j j' : stays j j' -> failed j' = failed j;
  law_FindClass j name : has_class name = true -> makes (java_class name) j (FindClass j name);
  law_GetMethodID j c class name signature j' m : GetMethodID j c name signature = (j', m) -> content j c = java_class class ->
    has_method class name signature = true -> m <> null /\ unchanged j j' /\ is_method m class name signature;
  law_NewStringUTF j t : makes (java_string t) j (NewStringUTF j t);
  law_getBytes j v m c t : is_method m (str "java/lang/String") (str "getBytes") (str "(Ljava/lang/String;)[B") ->
    content j v = java_string t -> content j c = java_string (str "UTF-8") ->
    makes (java_bytes t) j (CallObjectMethod j v m [jobject c]);
  law_GetArrayLength j a t : content j a = java_bytes t -> GetArrayLength j a = Z.of_nat (length t);
  law_GetByteArrayRegion j a t j' b : content j a = java_bytes t -> GetByteArrayRegion j a 0 (Z.of_nat (length t)) = (j', b) ->
    unchanged j j' /\ b = t;
  law_GetByteArrayElements j a t j' b : content j a = java_bytes t -> GetByteArrayElements j a = (j', b) -> unchanged j j' /\ b = Some t;
  law_ReleaseByteArrayElements j a : unchanged j (ReleaseByteArrayElements j a);
  law_NewByteArray j n : 0 <= n -> makes (java_bytes (replicate (Z.to_nat n) NUL)) j (NewByteArray j n);
  law_SetByteArrayRegion j a t t' : a ∈ owned j -> content j a = java_bytes t -> length t' = length t ->
    updates a (java_bytes t') j (SetByteArrayRegion j a 0 t');
  law_new_string j c m b s t : is_method m (str "java/lang/String") (str "<init>") (str "([BLjava/lang/String;)V") ->
    content j b = java_bytes t -> content j s = java_string (str "UTF-8") ->
    makes (java_string (repair t)) j (NewObject j c m [jobject b; jobject s]);
  law_new_instance j c m class signature args : is_method m class (str "<init>") signature -> class <> str "java/lang/String" ->
    makes (java_instance class (field_of j <$> args)) j (NewObject j c m args);
  law_NewLongArray j n : 0 <= n -> makes (java_longs (replicate (Z.to_nat n) 0)) j (NewLongArray j n);
  law_SetLongArrayRegion j a l l' : a ∈ owned j -> content j a = java_longs l -> length l' = length l ->
    updates a (java_longs l') j (SetLongArrayRegion j a 0 l');
  law_DeleteLocalRef j r : r ∈ owned j -> releases r j (DeleteLocalRef j r);
  law_ExceptionCheck j : ExceptionCheck j = failed j;
}.

(** A call that makes an object, as a rule: the case that it answers null is not reached. *)
Lemma makes_spec {f : J -> J * Z} {o j0 S j} {Q : Z -> J -> Prop} : holding j0 S j -> makes o j (f j) ->
  (forall j' r, r <> null -> holding j0 ({[r]} ∪ S) j' -> content j' r = o -> (r ∉ S) ->
    (forall r', r' ∈ S -> content j' r' = content j r') -> Q r j') -> ends (invoke f) j Q.
Proof.
  intros Hh Hm HQ. apply ends_invoke. intros j' r E. rewrite E in Hm. destruct Hm as [Hr Hm].
  destruct (holding_creates _ _ _ _ _ _ Hh Hm) as (_ & Hk & Hh' & Hc & Hn). by apply HQ.
Qed.

Lemma update_spec {f : J -> J} {a o j0 S j} {Q : unit -> J -> Prop} : holding j0 S j -> a ∈ S -> updates a o j (f j) ->
  (forall j', holding j0 S j' -> content j' a = o -> (forall r', r' ∈ S -> r' <> a -> content j' r' = content j r') -> Q tt j') ->
  ends (effect f) j Q.
Proof.
  intros Hh Ha (Hm & Ho & Hc) HQ. apply ends_effect. destruct (holding_modified _ _ _ _ _ Hh Ha Hm Ho) as (Hh' & Hk & _). by apply HQ.
Qed.

Lemma delete_spec (laws : jni_laws) {r j0 S j} {Q : unit -> J -> Prop} : holding j0 S j -> r ∈ S ->
  (forall j', holding j0 (S ∖ {[r]}) j' -> (forall r', r' ∈ S -> r' <> r -> content j' r' = content j r') -> Q tt j') ->
  ends (effect (fun j => DeleteLocalRef j r)) j Q.
Proof. intros Hh Hr HQ. apply (object_released_spec _ _ Hh Hr (law_DeleteLocalRef laws j r)). auto. Qed.

Lemma method_spec (laws : jni_laws) {c class name signature j0 S j} {Q : Z -> J -> Prop} :
  holding j0 S j -> content j c = java_class class -> has_method class name signature = true ->
  (forall j' m, m <> null -> is_method m class name signature -> holding j0 S j' ->
    (forall r', r' ∈ S -> content j' r' = content j r') -> Q m j') ->
  ends (invoke (fun j => GetMethodID j c name signature)) j Q.
Proof.
  intros Hh Hc Hhas HQ. apply ends_invoke. intros j' m E. destruct (law_GetMethodID laws _ _ _ _ _ _ _ E Hc Hhas) as (Hm & Hu & Hi).
  destruct (holding_unchanged _ _ _ _ Hh Hu) as (Hh' & Hk & _). by apply HQ.
Qed.

(** An argument: null, or a string that the caller holds. *)
Definition is_text j (v : Z) (t : option text) : Prop :=
  match t with None => v = null | Some t => v <> null /\ v ∈ owned j /\ content j v = java_string t end.

(** The strings that are taken: those without the character U+0000. *)
Definition taken (t : option text) : option text := t ← t; if bool_decide (NUL ∈ t) then None else Some t.

Lemma read_utf8_spec (laws : jni_laws) j v t : is_text j v t -> failed j = false ->
  ends (read_utf8 v) j (fun r j' => unchanged j j' /\ r = taken t).
Proof.
  intros Hv Hf. unfold read_utf8. destruct t as [t|]; [|cbn in Hv; subst v; apply ends_ret; split; [apply unchanged_refl|done]].
  destruct Hv as (Hv & Hin & Hc). rewrite (proj2 (Z.eqb_neq v null) Hv). pose proof (holding_start j) as Hh.
  assert (Hcontent : forall S j', holding j S j' -> content j' v = java_string t) by (intros S j' (_ & _ & _ & ->); done).
  assert (Hfail : forall S j', holding j S j' -> failed j' = false) by (intros S j' (Hs & _); by rewrite (law_stays laws _ _ Hs)).
  apply ends_bind, (makes_spec Hh (law_FindClass laws _ _ has_string)). intros j1 c Hc1 Hh1 Hcc _ _. rewrite (proj2 (Z.eqb_neq c null) Hc1).
  apply ends_bind, (method_spec laws Hh1 Hcc has_getBytes). intros j2 m Hm2 Him Hh2 Hk2.
  apply ends_bind, (makes_spec Hh2 (law_NewStringUTF laws _ _)). intros j3 s Hs3 Hh3 Hcs Hns _.
  rewrite (proj2 (Z.eqb_neq m null) Hm2), (proj2 (Z.eqb_neq s null) Hs3). cbn [orb].
  apply ends_bind, (makes_spec Hh3 (law_getBytes laws _ _ _ _ t Him (Hcontent _ _ Hh3) Hcs)). intros j4 b Hb4 Hh4 Hcb Hnb _.
  assert (b <> s /\ b <> c /\ s <> c) as (Hbs & Hbc & Hsc) by (clear -Hnb Hns; set_solver).
  apply ends_bind, (delete_spec laws Hh4 (r := s)); [clear; set_solver|]. intros j5 Hh5 Hk5.
  apply ends_bind, (delete_spec laws Hh5 (r := c)); [clear -Hsc; set_solver|]. intros j6 Hh6 Hk6.
  assert (Hset : ({[b]} ∪ ({[s]} ∪ ({[c]} ∪ ∅)) : gset Z) ∖ {[s]} ∖ {[c]} = {[b]}) by (clear -Hbs Hbc Hsc; set_solver). rewrite Hset in Hh6.
  assert (Hb6 : content j6 b = java_bytes t).
  { rewrite Hk6, Hk5; [done|clear; set_solver|done|clear -Hbs; set_solver|done]. }
  apply ends_bind, ends_reading. rewrite (law_ExceptionCheck laws), (Hfail _ _ Hh6), (proj2 (Z.eqb_neq b null) Hb4). cbn [orb].
  apply ends_bind, ends_reading. rewrite (law_GetArrayLength laws _ _ _ Hb6). apply ends_bind.
  eapply (ends_conseq _ _ (fun r j' => holding j {[b]} j' /\ r = t)).
  { destruct t as [|x t]; [apply ends_ret; done|]. apply ends_invoke. intros j7 r E7.
    destruct (law_GetByteArrayRegion laws _ _ _ _ _ Hb6 E7) as [Hu ->]. by destruct (holding_unchanged _ _ _ _ Hh6 Hu). }
  intros r j7 [Hh7 ->]. apply ends_bind, (delete_spec laws Hh7 (r := b)); [clear; set_solver|]. intros j8 Hh8 _.
  assert (Hend : ({[b]} : gset Z) ∖ {[b]} = ∅) by (clear; set_solver). rewrite Hend in Hh8.
  apply ends_bind, ends_reading. rewrite (law_ExceptionCheck laws), (Hfail _ _ Hh8). apply ends_ret. split; [|done].
  apply holding_end; [done|]. by rewrite Hf.
Qed.

Lemma make_longs_spec (laws : jni_laws) j l : failed j = false ->
  ends (make_longs l) j (fun r j' => makes (java_longs l) j (j', r)).
Proof.
  intros Hf. unfold make_longs. pose proof (holding_start j) as Hh.
  apply ends_bind, (makes_spec Hh (law_NewLongArray laws _ _ (Nat2Z.is_nonneg _))). intros j1 r Hr Hh1 Hc1 _ _.
  rewrite (proj2 (Z.eqb_neq r null) Hr). cbn [negb]. rewrite Nat2Z.id in Hc1.
  apply ends_bind, (update_spec Hh1 (a := r) (o := java_longs l)); [clear; set_solver| |].
  - apply (law_SetLongArrayRegion laws) with (2 := Hc1); [|by rewrite length_replicate]. destruct Hh1 as (_ & -> & _). clear. set_solver.
  - intros j2 Hh2 Hc2 _. apply ends_ret. split; [done|]. rewrite (right_id_L ∅ (∪)) in Hh2. by apply holding_made.
Qed.

Lemma make_utf8_spec (laws : jni_laws) j t : failed j = false ->
  ends (make_utf8 t) j (fun r j' => makes (java_string (repair t)) j (j', r)).
Proof.
  intros Hf. unfold make_utf8. pose proof (holding_start j) as Hh.
  apply ends_bind, (makes_spec Hh (law_NewByteArray laws _ _ (Nat2Z.is_nonneg _))). intros j1 b Hb Hh1 Hc1 _ _.
  rewrite (proj2 (Z.eqb_neq b null) Hb). rewrite Nat2Z.id in Hc1. rewrite (right_id_L ∅ (∪)) in Hh1. apply ends_bind.
  eapply (ends_conseq _ _ (fun _ j' => holding j {[b]} j' /\ content j' b = java_bytes t)).
  { destruct t as [|x t]; [by apply ends_ret|]. cbn [length]. rewrite (proj2 (Z.ltb_lt 0 _)) by lia.
    apply (update_spec Hh1 (a := b) (o := java_bytes (x :: t))); [clear; set_solver| |auto].
    apply (law_SetByteArrayRegion laws) with (2 := Hc1); [|by rewrite length_replicate]. destruct Hh1 as (_ & -> & _). clear. set_solver. }
  intros [] j2 [Hh2 Hb2]. apply ends_bind, (makes_spec Hh2 (law_FindClass laws _ _ has_string)). intros j3 c Hc Hh3 Hcc Hnc Hk3.
  rewrite (proj2 (Z.eqb_neq c null) Hc). apply ends_bind, (method_spec laws Hh3 Hcc has_new_string). intros j4 m Hm Him Hh4 Hk4.
  apply ends_bind, (makes_spec Hh4 (law_NewStringUTF laws _ _)). intros j5 s Hs Hh5 Hcs Hns Hk5.
  assert (s <> c /\ s <> b /\ c <> b) as (Hsc & Hsb & Hcb) by (clear -Hns Hnc; set_solver).
  assert (Hb5 : content j5 b = java_bytes t) by (rewrite Hk5, Hk4, Hk3; [done|clear; set_solver..]).
  rewrite (proj2 (Z.eqb_neq m null) Hm), (proj2 (Z.eqb_neq s null) Hs). cbn [negb andb].
  apply ends_bind, (makes_spec Hh5 (law_new_string laws _ _ _ _ _ t Him Hb5 Hcs)). intros j6 r Hr Hh6 Hcr Hnr _.
  assert (r <> s /\ r <> c /\ r <> b) as (Hrs & Hrc & Hrb) by (clear -Hnr; set_solver).
  apply ends_bind, (delete_spec laws Hh6 (r := s)); [clear; set_solver|]. intros j7 Hh7 Hk7.
  apply ends_bind, (delete_spec laws Hh7 (r := c)); [clear -Hsc; set_solver|]. intros j8 Hh8 Hk8.
  apply ends_bind, (delete_spec laws Hh8 (r := b)); [clear -Hsb Hcb; set_solver|]. intros j9 Hh9 Hk9.
  assert (Hset : ({[r]} ∪ ({[s]} ∪ ({[c]} ∪ {[b]})) : gset Z) ∖ {[s]} ∖ {[c]} ∖ {[b]} = {[r]}) by (clear -Hrs Hrc Hrb Hsc Hsb Hcb; set_solver).
  rewrite Hset in Hh9. apply ends_ret. split; [done|]. apply holding_made; [done| |done].
  rewrite Hk9, Hk8, Hk7; [done|clear; set_solver|done|clear -Hrs; set_solver|done|clear -Hrs Hrc; set_solver|done].
Qed.

(** ** Native functions *)

(** What a native function does: it returns, and leaves no object of the C interface. *)
Definition returns {A} (m : native J A) (w : J * gmap Z nuvio_engine) (Q : A -> J * gmap Z nuvio_engine -> Prop) : Prop :=
  exists w' a, m w = Some (w', a) /\ Q a w'.

Lemma returns_ret {A} (a : A) w (Q : A -> J * gmap Z nuvio_engine -> Prop) : Q a w -> returns (mret a : native J A) w Q.
Proof. intros HQ. by exists w, a. Qed.

Lemma returns_bind {A B} (m : native J A) (f : A -> native J B) w Q : returns m w (fun a w' => returns (f a) w' Q) -> returns (m ≫= f) w Q.
Proof. intros (w' & a & Hm & w2 & b & Hf & HQ). exists w2, b. split; [|done]. unfold mbind, native_bind. by rewrite Hm. Qed.

Lemma returns_jni {A} (m : state J A) j es (Q : A -> J * gmap Z nuvio_engine -> Prop) :
  ends m j (fun a j' => Q a (j', es)) -> returns (jni m) (j, es) Q.
Proof. unfold ends, returns, jni. cbn. destruct (m j) as [j' a]. cbn. eauto. Qed.

Lemma returns_defined {A} (x : option A) a w (Q : A -> J * gmap Z nuvio_engine -> Prop) : x = Some a -> Q a w -> returns (defined x) w Q.
Proof. intros -> HQ. by exists w, a. Qed.

Section handles.
Context (handle : Z) (e : nuvio_engine) (es : gmap Z nuvio_engine).

(** The handle is that of the engine [e]. *)
Definition is_handle : Prop := wrap64 handle <> 0 /\ es !! wrap64 handle = Some e.

Lemma returns_handle {A} (f : option nuvio_engine -> option (A * option nuvio_engine)) j a e' Q : is_handle ->
  f (Some e) = Some (a, Some e') -> Q a (j, <[wrap64 handle := e']> es) -> returns (with_handle handle f) (j, es) Q.
Proof.
  intros [Hn He] Hf HQ. eexists _, a. split; [|exact HQ]. unfold with_handle, engine_from_handle.
  rewrite (proj2 (Z.eqb_neq _ 0) Hn). cbn [snd]. rewrite He. cbn. by rewrite Hf.
Qed.

(** The array with the answer of a call that enqueues a command, which left [e']. *)
Definition command_answer j (c : option call) (r : Z) (w' : J * gmap Z nuvio_engine) : Prop :=
  exists status id e', c = Some (MkCall status (Some id) (Some e')) /\
    makes (java_longs [to_jlong status; to_jlong id]) j (w'.1, r) /\ w'.2 = <[wrap64 handle := e']> es.

Lemma makes_after o j j1 j2 r : unchanged j j1 -> makes o j1 (j2, r) -> makes o j (j2, r).
Proof.
  intros [Hu Ho] [Hr [Hk (Hn & Ho' & Hc)]]. split; [done|]. cbn in *. rewrite Ho in Hk, Hn, Ho'.
  split; [by eapply keeps_objects_trans|done].
Qed.

Lemma command_spec (laws : jni_laws) j j1 c f : is_handle -> failed j = false -> unchanged j j1 -> clean_call e c -> f (Some e) = outcome_of c ->
  returns (r ← with_handle handle f; command_result r) (j1, es) (command_answer j c).
Proof.
  intros Hh Hf Hu (call & -> & Hc) Hcall.
  assert (exists status id e', call = MkCall status (Some id) (Some e')) as (status & id & e' & ->).
  { destruct call as [status id e']. destruct Hc as [(_ & cmd & next & Hid & _ & He)|(_ & Hid & He)]; cbn in *; subst; eauto. }
  apply returns_bind, (returns_handle f j1 (status, id) e'); [done|done|]. apply returns_jni.
  eapply ends_conseq; [apply (make_longs_spec laws)|].
  - destruct Hu as [(Hs & _) _]. by rewrite (law_stays laws _ _ Hs).
  - intros r j2 Hr. exists status, id, e'. split_and!; [done|by eapply makes_after|done].
Qed.

Lemma invalid_spec (laws : jni_laws) j j1 : is_handle -> failed j = false -> unchanged j j1 ->
  returns invalid_argument_result (j1, es) (command_answer j (Some (invalid_call (Some e) (Some 0)))).
Proof.
  intros [_ He] Hf Hu. apply returns_jni. eapply ends_conseq; [apply (make_longs_spec laws)|].
  - destruct Hu as [(Hs & _) _]. by rewrite (law_stays laws _ _ Hs).
  - intros r j2 Hr. exists NUVIO_ENGINE_STATUS_INVALID_ARGUMENT, 0, e. split_and!; [done|by eapply makes_after|].
    cbn. by rewrite insert_id.
Qed.
End handles.

Lemma terminated_c_str t : terminated (c_str_of t).
Proof. cbn. apply elem_of_app. right. by left. Qed.

(** The call that a native function with a string makes, when the string is taken. *)
Definition with_text (e : nuvio_engine) (t : option text) (f : text -> option call) : option call :=
  match taken t with Some t => f t | None => Some (invalid_call (Some e) (Some 0)) end.

(** The request of a magnet, of data, of a stream, in objects of their full size. *)
Definition magnet_request (t : text) : torrent_request_object :=
  MkTorrentRequest (sizeof torrent_request_layout) (Z.of_nat (sizeof torrent_request_layout)) (c_str_of t) NUVIO_ENGINE_TORRENT_SOURCE_MAGNET None 0.
Definition data_request (t : text) : torrent_request_object :=
  MkTorrentRequest (sizeof torrent_request_layout) (Z.of_nat (sizeof torrent_request_layout)) None NUVIO_ENGINE_TORRENT_SOURCE_DATA (Some t) (Z.of_nat (length t)).
Definition prepare_request (t : text) (index : Z) (hint : option text) : stream_request_object :=
  MkStreamRequest (sizeof stream_request_layout) (Z.of_nat (sizeof stream_request_layout)) (c_str_of t) (wrap32 index) (hint ≫= c_str_of).

Lemma magnet_honest t : request_honest (magnet_request t).
Proof. split_and!; [vm_compute; lia|vm_compute; congruence|apply terminated_c_str|done]. Qed.
Lemma data_honest t : request_honest (data_request t).
Proof. split_and!; [vm_compute; lia|vm_compute; congruence|done|cbn; lia]. Qed.
Lemma prepare_honest t index hint : stream_request_honest (prepare_request t index hint).
Proof. split_and!; [vm_compute; lia|vm_compute; congruence|apply terminated_c_str|]. destruct hint; [apply terminated_c_str|done]. Qed.

(** A native function that reads one string and calls. *)
Lemma text_command_spec (laws : jni_laws) handle e es j v t (f : text -> option nuvio_engine -> option call) :
  is_handle handle e es -> failed j = false -> is_text j v t -> (forall s, clean_call e (f s (Some e))) ->
  returns (s ← jni (read_utf8 v);
           match s with None => invalid_argument_result
           | Some s => r ← with_handle handle (fun e => outcome_of (f s e)); command_result r end) (j, es)
    (command_answer handle es j (with_text e t (fun s => f s (Some e)))).
Proof.
  intros Hh Hf Ht Hc. apply returns_bind, returns_jni. eapply ends_conseq; [by apply (read_utf8_spec laws)|].
  intros r j1 [Hu ->]. unfold with_text. destruct (taken t) as [s|].
  - by apply (command_spec handle e es laws j j1 _ (fun e => outcome_of (f s e))).
  - by apply (invalid_spec handle e es laws).
Qed.

(** The call of [nativePrepareStream]: a hint may be null, but not a string that is not taken. *)
Definition prepare_call (e : nuvio_engine) (fault : option exn_class) (t hint : option text) (index : Z) : option call :=
  with_text e t (fun s =>
    match hint with
    | None => nuvio_engine_prepare_stream (Some e) (Some (prepare_request s index None)) (Some 0) fault
    | Some _ => with_text e hint (fun h => nuvio_engine_prepare_stream (Some e) (Some (prepare_request s index (Some h))) (Some 0) fault)
    end).

Lemma prepare_spec (laws : jni_laws) handle e es j fault v t v' hint index :
  is_handle handle e es -> failed j = false -> is_text j v t -> is_text j v' hint ->
  returns (nativePrepareStream fault handle v index v') (j, es) (command_answer handle es j (prepare_call e fault t hint index)).
Proof.
  intros Hh Hf Ht Ht'. unfold nativePrepareStream, prepare_call, with_text at 1.
  apply returns_bind, returns_jni. eapply ends_conseq; [by apply (read_utf8_spec laws)|]. intros r j1 [Hu ->].
  destruct (taken t) as [s|]; [|by apply (invalid_spec handle e es laws)]. destruct hint as [hint|].
  - pose proof Ht' as (Hn & Hin & Hc). rewrite (proj2 (Z.eqb_neq v' null) Hn). apply returns_bind, returns_bind, returns_jni.
    assert (Ht1 : is_text j1 v' (Some hint)) by (destruct Hu as [(_ & _ & Hk) Ho]; split_and!; [done|by rewrite Ho|by rewrite Hk]).
    assert (Hf1 : failed j1 = false) by (destruct Hu as [(Hs & _) _]; by rewrite (law_stays laws _ _ Hs)).
    eapply ends_conseq; [by apply (read_utf8_spec laws)|]. intros r j2 [Hu2 ->]. apply returns_ret.
    assert (Hu12 : unchanged j j2) by (by eapply unchanged_trans). unfold with_text. destruct (taken (Some hint)) as [h|].
    + apply (command_spec handle e es laws j j2 _ (fun e => outcome_of (nuvio_engine_prepare_stream e (Some (prepare_request s index (Some h))) (Some 0) fault)));
        [done..|by apply prepare_stream_clean, prepare_honest|done].
    + by apply (invalid_spec handle e es laws).
  - cbn in Ht'. subst v'. apply returns_bind, returns_ret.
    apply (command_spec handle e es laws j j1 _ (fun e => outcome_of (nuvio_engine_prepare_stream e (Some (prepare_request s index None)) (Some 0) fault)));
      [done..|by apply prepare_stream_clean, prepare_honest|done].
Qed.

Lemma data_spec (laws : jni_laws) handle e es j fault data bytes :
  is_handle handle e es -> failed j = false -> data <> null -> content j data = java_bytes bytes ->
  returns (nativeAddTorrentData fault handle data) (j, es)
    (command_answer handle es j (nuvio_engine_add_torrent (Some e) (Some (data_request bytes)) (Some 0) fault)).
Proof.
  intros Hh Hf Hd Hc. unfold nativeAddTorrentData. rewrite (proj2 (Z.eqb_neq data null) Hd).
  apply returns_bind, returns_jni, ends_reading. rewrite (law_GetArrayLength laws _ _ _ Hc).
  apply returns_bind, returns_jni, ends_invoke. intros j1 b E. destruct (law_GetByteArrayElements laws _ _ _ _ _ Hc E) as [Hu ->].
  pose proof (add_torrent_clean e (data_request bytes) fault (data_honest bytes)) as Hclean.
  destruct Hclean as (c & Hcall & Hc'). assert (exists status id e', c = MkCall status (Some id) (Some e')) as (status & id & e' & ->).
  { destruct c as [status id e']. destruct Hc' as [(_ & cmd & next & Hid & _ & He)|(_ & Hid & He)]; cbn in *; subst; eauto. }
  apply returns_bind, (returns_handle handle e es _ j1 (status, id) e' _ Hh).
  { unfold outcome_of. fold (data_request bytes). by rewrite Hcall. }
  apply returns_bind, returns_jni, ends_effect. apply returns_jni.
  assert (Hu2 : unchanged j (ReleaseByteArrayElements j1 data)) by (eapply unchanged_trans; [exact Hu|apply (law_ReleaseByteArrayElements laws)]).
  eapply ends_conseq; [apply (make_longs_spec laws)|].
  - destruct Hu2 as [(Hs & _) _]. by rewrite (law_stays laws _ _ Hs).
  - intros r j2 Hr. exists status, id, e'. split_and!; [done|by eapply makes_after|done].
Qed.

(** C25. In a Java machine that has memory the native functions that send a command hand the C
    interface exactly the bytes of their Java strings and arrays, cast their integers, and
    answer a new array of the status and the request id of that call, which changes the
    engine of the handle only; a string that is null or has the character U+0000 is an
    invalid argument.  No other reference is left over, and nothing is read or written
    outside the objects of the C interface. *)
Theorem commands_forwarded (laws : jni_laws) (handle : Z) (e : nuvio_engine) (es : gmap Z nuvio_engine) j (fault : option exn_class)
    (v v' data index target : Z) (t hint : option text) (bytes : text)
    (Hh : is_handle handle e es) (Hf : failed j = false) (Ht : is_text j v t) (Ht' : is_text j v' hint)
    (Hd : data <> null) (Hc : content j data = java_bytes bytes) :
  returns (nativeAddMagnet fault handle v) (j, es) (command_answer handle es j
    (with_text e t (fun s => nuvio_engine_add_torrent (Some e) (Some (magnet_request s)) (Some 0) fault))) /\
  returns (nativeAddTorrentData fault handle data) (j, es) (command_answer handle es j
    (nuvio_engine_add_torrent (Some e) (Some (data_request bytes)) (Some 0) fault)) /\
  returns (nativePrepareStream fault handle v index v') (j, es) (command_answer handle es j (prepare_call e fault t hint index)) /\
  returns (nativeStopStream fault handle v) (j, es) (command_answer handle es j
    (with_text e t (fun s => nuvio_engine_stop_stream (Some e) (c_str_of s) (Some 0) fault))) /\
  returns (nativeRemoveTorrent fault handle v) (j, es) (command_answer handle es j
    (with_text e t (fun s => nuvio_engine_remove_torrent (Some e) (c_str_of s) (Some 0) fault))) /\
  returns (nativeReclaimDiskCache fault handle target) (j, es) (command_answer handle es j
    (nuvio_engine_reclaim_disk_cache (Some e) (wrap64 target) (Some 0) fault)).
Proof.
  split_and!.
  - apply (text_command_spec laws handle e es j v t (fun s e => nuvio_engine_add_torrent e (Some (magnet_request s)) (Some 0) fault)); [done..|].
    intros s. apply add_torrent_clean, magnet_honest.
  - by apply data_spec.
  - by apply prepare_spec.
  - apply (text_command_spec laws handle e es j v t (fun s e => nuvio_engine_stop_stream e (c_str_of s) (Some 0) fault)); [done..|].
    intros s. destruct (normalize_stream_total _ (terminated_c_str s)) as [r Hr]. by eapply (call_with_id_clean _ _ _ _ stop_stream_command).
  - apply (text_command_spec laws handle e es j v t (fun s e => nuvio_engine_remove_torrent e (c_str_of s) (Some 0) fault)); [done..|].
    intros s. destruct (normalize_total _ (terminated_c_str s)) as [r Hr]. by eapply (call_with_id_clean _ _ _ _ remove_torrent_command).
  - apply (command_spec handle e es laws j j _ (fun e => outcome_of (nuvio_engine_reclaim_disk_cache e (wrap64 target) (Some 0) fault)));
      [done..|apply unchanged_refl| |done]. apply faulted_clean. by eapply forward_clean.
Qed.
End laws.

Section lives.
Context {J B : Type} `{Jni J, ObjectView J java_object}.
Context (is_method : Z -> text -> text -> text -> Prop) (repair : text -> text).
Context (create_protocol_backend : ProtocolBackendConfig -> result (option B)).
Implicit Types j : J.

(** The configuration that [nativeCreate] hands on, for the strings that are taken. *)
Definition native_config (data cache tls : text) (memory disk profile port mode limit inactivity warm : Z) : config_object := {|
  cf_alloc := sizeof config_layout; cf_struct_size := Z.of_nat (sizeof config_layout);
  cf_data_directory := c_str_of data; cf_cache_directory := c_str_of cache;
  cf_memory_cache_capacity_bytes := wrap64 memory; cf_disk_cache_capacity_bytes := wrap64 disk;
  cf_listen_port := to_uint16 port; cf_upload_mode := wrap32 mode; cf_upload_limit_bytes_per_second := wrap64 limit;
  cf_stream_inactivity_timeout_milliseconds := wrap32 inactivity; cf_warm_torrent_timeout_milliseconds := wrap32 warm;
  cf_tls_ca_bundle_path := c_str_of tls; cf_torrent_profile := wrap32 profile |}.

Lemma wrap64_handle address : 0 < address < 18446744073709551616 -> wrap64 (to_jlong address) = address.
Proof.
  intros Ha. unfold to_jlong, wrap64. cbv zeta. rewrite (Z.mod_small address) by lia. destruct (Z.ltb_spec address 9223372036854775808).
  - by rewrite Z.mod_small by lia.
  - rewrite <-(Z.mod_add _ 1) by lia. rewrite Z.mod_small by lia. lia.
Qed.

(** An engine that is created at a new address is the one of the handle that Java gets, and
    destroying that handle takes away this engine and no other. *)
Theorem handle_lives (laws : jni_laws is_method repair) (fault : option exn_class) (address : Z) (es : gmap Z nuvio_engine) j
    (v1 v2 v3 memory disk profile port mode limit inactivity warm : Z) (data cache tls : text) (engine : nuvio_engine) (backend : option B)
    (Hf : failed j = false) (H1 : is_text j v1 (Some data)) (H2 : is_text j v2 (Some cache)) (H3 : is_text j v3 (Some tls))
    (Hz1 : NUL ∉ data) (Hz2 : NUL ∉ cache) (Hz3 : NUL ∉ tls) (Ha : 0 < address < 18446744073709551616) (Hfree : es !! address = None)
    (Hcreate : nuvio_engine_create create_protocol_backend (Some (native_config data cache tls memory disk profile port mode limit inactivity warm))
       false fault = Some (NUVIO_ENGINE_STATUS_OK, Some (engine, backend))) :
  returns (nativeCreate create_protocol_backend fault address v1 v2 memory disk profile port mode limit inactivity warm v3) (j, es)
    (fun r w' => makes (java_longs [0; to_jlong address]) j (w'.1, r) /\ is_handle (to_jlong address) engine w'.2 /\
       returns (nativeDestroy (to_jlong address)) w' (fun _ w2 => w2 = (w'.1, es))).
Proof.
  assert (Hread : forall v t j', unchanged j j' -> is_text j v (Some t) -> NUL ∉ t ->
    ends (read_utf8 v) j' (fun r j2 => unchanged j j2 /\ r = Some t)).
  { intros v t j' Hu (Hv & Hin & Hc) Hz. destruct Hu as [(Hs & Hcont & Hk) Ho].
    eapply ends_conseq; [apply (read_utf8_spec _ _ laws j' v (Some t))|].
    - split_and!; [done|by rewrite Ho|by rewrite Hk].
    - by rewrite (law_stays _ _ laws _ _ Hs).
    - intros r j2 [Hu2 ->]. split; [by eapply unchanged_trans; [split; [split_and!; [exact Hs|exact Hcont|exact Hk]|exact Ho]|]|].
      unfold taken. cbn. by rewrite bool_decide_false. }
  unfold nativeCreate.
  apply returns_bind, returns_jni. eapply ends_conseq; [by apply (Hread v1 data j (unchanged_refl j))|]. intros r j1 [Hu1 ->].
  apply returns_bind, returns_jni. eapply ends_conseq; [by apply (Hread v2 cache j1)|]. intros r j2 [Hu2 ->].
  apply returns_bind, returns_jni. eapply ends_conseq; [by apply (Hread v3 tls j2)|]. intros r j3 [Hu3 ->].
  cbv zeta. fold (native_config data cache tls memory disk profile port mode limit inactivity warm).
  apply returns_bind, (returns_defined _ (NUVIO_ENGINE_STATUS_OK, Some (engine, backend))); [exact Hcreate|]. apply returns_bind.
  eexists _, tt. split; [reflexivity|]. apply returns_jni. unfold handle_from_engine. cbn [fst snd].
  assert (Hf3 : failed j3 = false) by (destruct Hu3 as [(Hs & _) _]; by rewrite (law_stays _ _ laws _ _ Hs)).
  eapply ends_conseq; [by apply (make_longs_spec _ _ laws)|]. intros r j4 Hr. cbn [fst snd] in *. split_and!.
  - eapply makes_after; [exact Hu3|]. rewrite (wrap64_handle address Ha) in Hr. exact Hr.
  - unfold is_handle. rewrite (wrap64_handle address Ha). split; [lia|apply lookup_insert_eq].
  - unfold nativeDestroy, engine_from_handle. eexists _, tt. cbn [fst snd]. rewrite (wrap64_handle address Ha), (proj2 (Z.eqb_neq _ _)) by lia.
    rewrite lookup_insert_eq. cbn. split; [reflexivity|]. by rewrite delete_insert_id.
Qed.
End lives.
