(* ===== verification/JniMachine.v ===== *)
(** A Java machine with memory, in which the laws of [JniResults] hold, and runs of the
    native functions in it. *)
From stdpp Require Import prelude strings list gmap.
From Stdlib Require Import ZArith Lia Ascii.
From S2P Require Import Prelude State Objects Text EngineTypes EngineRuntime EngineApi JniBridge JniResults.

(** The objects of the references that exist, and whether an exception is pending. *)
Record java := MkJava { j_objects : gmap Z java_object; j_pending : bool }.

Definition look_up (j : java) (r : Z) : java_object := default java_null (j_objects j !! r).
Definition make (o : java_object) (j : java) : java * Z :=
  let r := fresh ({[null]} ∪ dom (j_objects j)) in (MkJava (<[r := o]> (j_objects j)) (j_pending j), r).
Definition replace (r : Z) (o : java_object) (j : java) : java := MkJava (<[r := o]> (j_objects j)) (j_pending j).
Definition give_back (r : Z) (j : java) : java := MkJava (delete r (j_objects j)) (j_pending j).
Definition throw (j : java) : java := MkJava (j_objects j) true.
Definition same_pending (j j' : java) : Prop := j_pending j' = j_pending j.

Lemma same_pending_trans j1 j2 j3 : same_pending j1 j2 -> same_pending j2 j3 -> same_pending j1 j3.
Proof. unfold same_pending. congruence. Qed.

#[export] Instance java_view : ObjectView java java_object :=
  {| owned j := dom (j_objects j); content := look_up; failed := j_pending; stays := same_pending;
     stays_refl j := eq_refl; stays_trans := same_pending_trans |}.

(** The id of a method is its place among those of the bridge, from 1. *)
Definition method_of (m : Z) : option (text * text * text) := if 0 <? m then bridge_methods !! Z.to_nat (m - 1) else None.
Definition java_method (m : Z) (class name signature : text) : Prop := method_of m = Some (class, name, signature).
Definition find_method (class name signature : text) : option Z :=
  (fun r => Z.of_nat r.1 + 1) <$> list_find (fun m => m = (class, name, signature)) bridge_methods.

(** The arguments of [getBytes] and of the constructor of a string are encodings: UTF-8. *)
Definition is_utf8 (j : java) (charset : Z) : bool :=
  match look_up j charset with java_string t => text_eqb t (str "UTF-8") | _ => false end.

(** [repair]: here the bytes of a string are kept as they are. *)
Definition kept (t : text) : text := t.

(** A Java value as it is stored in a field: [field_of] of this machine. *)
Definition stored (j : java) (v : jvalue) : java_field :=
  match v with
  | jint z => field_int z
  | jlong z => field_long z
  | jboolean b => field_boolean b
  | jobject r => field_object (if r =? null then java_null else look_up j r)
  end.

Definition new_object (j : java) (m : Z) (args : list jvalue) : java * Z :=
  match method_of m with
  | None => (throw j, null)
  | Some (class, _, _) =>
    if text_eqb class (str "java/lang/String") then
      match args with
      | [jobject b; jobject s] =>
        match look_up j b with java_bytes t => if is_utf8 j s then make (java_string (kept t)) j else (throw j, null) | _ => (throw j, null) end
      | _ => (throw j, null)
      end
    else make (java_instance class (stored j <$> args)) j
  end.

(** Elements of an array, which are written from [start] on. *)
Definition splice {A} (start : Z) (l l' : list A) : option (list A) :=
  if (0 <=? start) && (start + Z.of_nat (length l') <=? Z.of_nat (length l))
  then Some (take (Z.to_nat start) l ++ l' ++ drop (Z.to_nat start + length l') l) else None.

Definition array_length (o : java_object) : Z :=
  match o with java_bytes l => Z.of_nat (length l) | java_longs l => Z.of_nat (length l) | java_objects l => Z.of_nat (length l) | _ => 0 end.

#[export] Instance java_jni : Jni java := {|
  FindClass j name := if has_class name then make (java_class name) j else (throw j, null);
  GetMethodID j c name signature :=
    match look_up j c with
    | java_class class => match find_method class name signature with Some m => (j, m) | None => (throw j, null) end
    | _ => (throw j, null)
    end;
  NewStringUTF j t := make (java_string t) j;
  CallObjectMethod j v m args :=
    match look_up j v, method_of m, args with
    | java_string t, Some (_, name, _), [jobject s] =>
        if text_eqb name (str "getBytes") && is_utf8 j s then make (java_bytes t) j else (throw j, null)
    | _, _, _ => (throw j, null)
    end;
  NewObject j _ m args := new_object j m args;
  NewByteArray j n := make (java_bytes (replicate (Z.to_nat n) NUL)) j;
  NewLongArray j n := make (java_longs (replicate (Z.to_nat n) 0)) j;
  NewObjectArray j n _ := make (java_objects (replicate (Z.to_nat n) java_null)) j;
  GetArrayLength j a := array_length (look_up j a);
  GetByteArrayRegion j a start n :=
    match look_up j a with java_bytes t => (j, substr (Z.to_nat start) (Z.to_nat n) t) | _ => (throw j, []) end;
  SetByteArrayRegion j a start t :=
    match look_up j a with java_bytes l => match splice start l t with Some l => replace a (java_bytes l) j | None => throw j end | _ => throw j end;
  SetLongArrayRegion j a start t :=
    match look_up j a with java_longs l => match splice start l t with Some l => replace a (java_longs l) j | None => throw j end | _ => throw j end;
  SetObjectArrayElement j a i r :=
    match look_up j a with
    | java_objects l => if (0 <=? i) && (i <? Z.of_nat (length l)) then replace a (java_objects (<[Z.to_nat i := look_up j r]> l)) j else throw j
    | _ => throw j
    end;
  GetByteArrayElements j a := match look_up j a with java_bytes t => (j, Some t) | _ => (throw j, None) end;
  ReleaseByteArrayElements j _ := j;
  DeleteLocalRef j r := give_back r j;
  ExceptionCheck := j_pending;
  ThrowNew j _ _ := throw j;
|}.

Arguments make : simpl never.
Arguments find_method : simpl never.
Arguments method_of : simpl never.
Arguments is_utf8 : simpl never.
Arguments splice : simpl never.
Arguments str : simpl never.

(** ** The laws *)

Lemma make_makes o j : makes o j (make o j).
Proof.
  unfold make. set (r := fresh _). assert (Hr : r ∉ ({[null]} ∪ dom (j_objects j) : gset Z)) by apply is_fresh.
  split; [cbn; set_solver|]. split; [split; [done|split; [by intros ?|]]|].
  - intros r' Hr'. cbn in *. unfold look_up. cbn. rewrite lookup_insert_ne; [done|]. intros <-. set_solver.
  - cbn. split_and!; [set_solver|by rewrite dom_insert_L|]. unfold look_up. cbn. by rewrite lookup_insert_eq.
Qed.

Lemma replace_updates a o j : a ∈ owned j -> updates a o j (replace a o j).
Proof.
  intros Ha. cbn in Ha. split; [split; [done|split; [by intros ?|]]|split].
  - intros r' Hr'. cbn in *. unfold look_up. cbn. rewrite lookup_insert_ne; [done|]. set_solver.
  - cbn. rewrite dom_insert_L. set_solver.
  - cbn. unfold look_up. cbn. by rewrite lookup_insert_eq.
Qed.

Lemma java_releases r j : releases r j (give_back r j).
Proof.
  split; [split; [done|split; [by intros ?|]]|cbn; by rewrite dom_delete_L].
  intros r' Hr'. cbn in *. unfold look_up. cbn. rewrite lookup_delete_ne; [done|]. set_solver.
Qed.

Lemma splice_all {A} (l l' : list A) : length l' = length l -> splice 0 l l' = Some l'.
Proof.
  intros Hl. unfold splice. rewrite Z.leb_refl, (proj2 (Z.leb_le _ _)) by lia. cbn [andb].
  by rewrite Hl, take_0, drop_ge, app_nil_r by done.
Qed.

Lemma find_method_spec class name signature : has_method class name signature = true ->
  exists m, find_method class name signature = Some m /\ 0 < m /\ java_method m class name signature.
Proof.
  intros H%bool_decide_eq_true. unfold find_method. destruct (list_find_elem_of (fun m => m = (class, name, signature)) _ _ H eq_refl) as [[i x] E].
  rewrite E. apply list_find_Some in E as (Hi & -> & _). cbn. eexists; split_and!; [done|lia|].
  unfold java_method, method_of. rewrite (proj2 (Z.ltb_lt 0 _)) by lia. by replace (Z.to_nat _) with i by lia.
Qed.

Lemma text_eqb_same t : text_eqb t t = true.
Proof. by apply bool_decide_eq_true. Qed.

Lemma utf8_charset j s : look_up j s = java_string (str "UTF-8") -> is_utf8 j s = true.
Proof. unfold is_utf8. intros ->. apply text_eqb_same. Qed.

Lemma java_laws : jni_laws java_method kept.
Proof.
  split.
  - intros j j' Hs. exact Hs.
  - intros j name Hn. cbn. rewrite Hn. apply make_makes.
  - intros j c class name signature j' m Hm Hc Hhas. cbn in Hm, Hc. rewrite Hc in Hm.
    destruct (find_method_spec _ _ _ Hhas) as (m' & Hf & Hp & Hi). rewrite Hf in Hm. injection Hm as <- <-.
    split_and!; [unfold null; lia|apply unchanged_refl|done].
  - intros j t. apply make_makes.
  - intros j v m c t Hm Hv Hc. cbn in *. rewrite Hv, Hm. cbn [app]. rewrite text_eqb_same, (utf8_charset _ _ Hc). cbn [andb]. apply make_makes.
  - intros j a t Ha. cbn in *. by rewrite Ha.
  - intros j a t j' b Ha. cbn in *. rewrite Ha. cbn. intros [= <- <-]. split; [apply unchanged_refl|].
    unfold substr. rewrite drop_0. apply take_ge. lia.
  - intros j a t j' b Ha. cbn in *. rewrite Ha. intros [= <- <-]. split; [apply unchanged_refl|done].
  - intros j a. apply unchanged_refl.
  - intros j n _. apply make_makes.
  - intros j a t t' Ho Ha Hl. cbn in Ha |- *. rewrite Ha, (splice_all _ _ Hl). by apply replace_updates.
  - intros j c m b s t Hm Hb Hs. cbn in *. unfold new_object. rewrite Hm, text_eqb_same, Hb, (utf8_charset _ _ Hs). apply make_makes.
  - intros j c m class signature args Hm Hc. cbn. unfold new_object. rewrite Hm.
    destruct (text_eqb class (str "java/lang/String")) eqn:E; [by apply bool_decide_eq_true in E|]. apply make_makes.
  - intros j n _. apply make_makes.
  - intros j a l l' Ho Ha Hl. cbn in Ha |- *. rewrite Ha, (splice_all _ _ Hl). by apply replace_updates.
  - intros j r _. apply java_releases.
  - done.
Qed.

(** ** Runs *)

(** The strings and the array of a caller, under their references. *)
Definition demo_java : java := MkJava {[ 1 := java_string (str "magnet:?xt=urn:btih:0"); 2 := java_bytes (str "d4:infode"); 3 := java_null ]} false.
Definition demo_backed : nuvio_engine := configured demo_config true.
Definition demo_engines : gmap Z nuvio_engine := {[ 4096 := demo_backed; 8192 := demo_polling ]}.

Lemma commands_forwarded_witness :
  (is_handle 4096 demo_backed demo_engines /\ failed demo_java = false /\ is_text demo_java 1 (Some (str "magnet:?xt=urn:btih:0")) /\
   is_text demo_java 0 None /\ 2 <> null /\ content demo_java 2 = java_bytes (str "d4:infode")) /\
  returns (nativeAddMagnet None 4096 1) (demo_java, demo_engines) (command_answer 4096 demo_engines demo_java
    (with_text demo_backed (Some (str "magnet:?xt=urn:btih:0")) (fun s => nuvio_engine_add_torrent (Some demo_backed) (Some (magnet_request s)) (Some 0) None))).
Proof.
  assert (is_handle 4096 demo_backed demo_engines) as Hh by (by split).
  assert (is_text demo_java 1 (Some (str "magnet:?xt=urn:btih:0"))) as Ht by (split_and!; [done|by apply (bool_decide_unpack _); vm_compute|done]).
  assert (content demo_java 2 = java_bytes (str "d4:infode")) as Hc by done.
  split; [by split_and!|].
  by apply (commands_forwarded java_method kept java_laws 4096 demo_backed demo_engines demo_java None 1 0 2 3 7
    (Some (str "magnet:?xt=urn:btih:0")) None (str "d4:infode")).
Defined.

(** What a run answers: the object, whether an exception is pending, and the references that
    it has left. *)
Definition outcome (r : option ((java * gmap Z nuvio_engine) * Z)) : option (java_object * bool * gset Z) :=
  (fun r => (content r.1.1 r.2, j_pending r.1.1, owned r.1.1 ∖ {[r.2]})) <$> r.
Definition demo_owned : gset Z := owned demo_java.

Example demo_add : outcome (nativeAddMagnet None 4096 1 (demo_java, demo_engines)) = Some (java_longs [0; 1], false, demo_owned).
Proof. by vm_compute. Qed.

Example demo_add_null : outcome (nativeAddMagnet None 4096 0 (demo_java, demo_engines)) = Some (java_longs [1; 0], false, demo_owned).
Proof. by vm_compute. Qed.

Example demo_poll : outcome (nativePollEvent 8192 (demo_java, demo_engines)) = Some (java_instance (str "com/nuvio/engine/internal/NativeEventPayload")
  [field_int 1; field_long 1; field_long 1; field_long 0; field_object (java_string (str "t")); field_object (java_string []);
   field_int (-1); field_long 0; field_object (java_string []); field_object (java_string [])], false, demo_owned).
Proof. by vm_compute. Qed.

(** Without an event the answer is null. *)
Example demo_poll_none : outcome (nativePollEvent 4096 (demo_java, demo_engines)) = Some (java_null, false, demo_owned).
Proof. by vm_compute. Qed.

(** When [getBytes] throws, [read_utf8] answers false with the exception pending, and the
    native function makes its array all the same: JNI does not allow NewLongArray there. *)
Example array_made_with_exception_pending :
  j_pending (read_utf8 3 demo_java).1 = true /\ (read_utf8 3 demo_java).2 = None /\
  outcome (nativeAddMagnet None 4096 3 (demo_java, demo_engines)) = Some (java_longs [1; 0], true, demo_owned).
Proof. by vm_compute. Qed.
