(* ===== verification/JniStats.v ===== *)
(** The statistics on their way to Kotlin: the arrays of longs that [nativeGetStats] and
    [nativeGetStreamStats] make and what NuvioEngine.kt reads from them, field by field. *)
From stdpp Require Import prelude strings list gmap.
From Stdlib Require Import ZArith Lia Ascii.
From S2P Require Import Prelude State Objects Text EngineTypes EngineRuntime EngineApi JniBridge JniMembers JniResults JniMachine.

(** ** The models of Kotlin *)

Record NuvioEngineStats := MkNuvioEngineStats {
  activeTorrents : Z; activeStreams : Z; activeHttpRequests : Z; connectedPeers : Z; connectedSeeds : Z;
  knownPeers : Z; connectCandidates : Z; interestedPeers : Z; unchokedPeers : Z; downloadingPeers : Z;
  snubbedPeers : Z; pendingBlockRequests : Z; targetBlockRequests : Z; timedOutBlockRequests : Z;
  connectingPeers : Z; handshakingPeers : Z; targetPiecePeers : Z; targetPieceUnchokedPeers : Z;
  targetPieceDownloadingPeers : Z; offTargetDownloadingPeers : Z; trackerReplyEvents : Z;
  trackerErrorEvents : Z; dhtReplyEvents : Z; trackerPeersReturned : Z; dhtPeersReturned : Z;
  peerConnectEvents : Z; peerDisconnectEvents : Z; peerDisconnectTimeouts : Z;
  peerDisconnectConnectFailures : Z; peerDisconnectRedundant : Z; peerDisconnectTurnover : Z;
  peerDisconnectOther : Z; torrentFinishedEvents : Z; pendingPieceReads : Z; downloadRateBytesPerSecond : Z;
  uploadRateBytesPerSecond : Z; totalPayloadDownloadBytes : Z; totalPayloadUploadBytes : Z;
  memoryCacheCapacityBytes : Z; memoryCacheUsedBytes : Z; memoryCacheHits : Z; memoryCacheMisses : Z;
  memoryCacheEvictions : Z; memoryCacheEntries : Z; warmTorrents : Z; quiescedTorrents : Z;
  diskCacheCapacityBytes : Z; diskCacheUsedBytes : Z; diskCacheProtectedBytes : Z; diskCacheEvictions : Z;
  diskCacheReclaimedBytes : Z; diskCacheOverBudget : bool }.

Record NuvioStreamStats := MkNuvioStreamStats {
  fileIndex : Z; fileSize : Z; contiguousReadyBytes : Z; verifiedFileBytes : Z; deliveredBytes : Z;
  activeDemands : Z; scheduledPieces : Z; blockingPieces : Z; primaryBlockingPiece : Z;
  secondaryBlockingPiece : Z; lastReadyPiece : Z; primaryDemandStart : Z; primaryDemandEnd : Z;
  secondaryDemandStart : Z; secondaryDemandEnd : Z; scheduleRevision : Z }.

Definition STATUS_OK : Z := 0.
Definition NATIVE_STATS_VALUE_COUNT : nat := 53.
Definition NATIVE_STREAM_STATS_VALUE_COUNT : nat := 17.

(** [sampleStats], for the array that it gets: [None] when the statistics stay as they are.
    [toInt] keeps the low 32 bits; the size of the array is known where it is read. *)
Definition sampleStats (values : list Z) : option NuvioEngineStats :=
  let at_ i := nth i values 0 in
  if negb (length values =? NATIVE_STATS_VALUE_COUNT)%nat || negb (to_jint (at_ 0%nat) =? STATUS_OK) then None
  else Some {|
    activeTorrents := to_jint (at_ 1%nat); activeStreams := to_jint (at_ 2%nat); activeHttpRequests := to_jint (at_ 3%nat);
    connectedPeers := to_jint (at_ 4%nat); connectedSeeds := to_jint (at_ 5%nat); pendingPieceReads := to_jint (at_ 6%nat);
    downloadRateBytesPerSecond := at_ 7%nat; uploadRateBytesPerSecond := at_ 8%nat; totalPayloadDownloadBytes := at_ 9%nat;
    totalPayloadUploadBytes := at_ 10%nat; memoryCacheCapacityBytes := at_ 11%nat; memoryCacheUsedBytes := at_ 12%nat;
    memoryCacheHits := at_ 13%nat; memoryCacheMisses := at_ 14%nat; memoryCacheEvictions := at_ 15%nat;
    memoryCacheEntries := at_ 16%nat; warmTorrents := to_jint (at_ 17%nat); quiescedTorrents := to_jint (at_ 18%nat);
    diskCacheCapacityBytes := at_ 19%nat; diskCacheUsedBytes := at_ 20%nat; diskCacheProtectedBytes := at_ 21%nat;
    diskCacheEvictions := at_ 22%nat; diskCacheReclaimedBytes := at_ 23%nat; diskCacheOverBudget := negb (at_ 24%nat =? 0);
    knownPeers := to_jint (at_ 25%nat); connectCandidates := to_jint (at_ 26%nat); interestedPeers := to_jint (at_ 27%nat);
    unchokedPeers := to_jint (at_ 28%nat); downloadingPeers := to_jint (at_ 29%nat); snubbedPeers := to_jint (at_ 30%nat);
    pendingBlockRequests := to_jint (at_ 31%nat); targetBlockRequests := to_jint (at_ 32%nat);
    timedOutBlockRequests := to_jint (at_ 33%nat); connectingPeers := to_jint (at_ 34%nat);
    handshakingPeers := to_jint (at_ 35%nat); targetPiecePeers := to_jint (at_ 36%nat);
    targetPieceUnchokedPeers := to_jint (at_ 37%nat); targetPieceDownloadingPeers := to_jint (at_ 38%nat);
    offTargetDownloadingPeers := to_jint (at_ 39%nat); trackerReplyEvents := to_jint (at_ 40%nat);
    trackerErrorEvents := to_jint (at_ 41%nat); dhtReplyEvents := to_jint (at_ 42%nat); trackerPeersReturned := at_ 43%nat;
    dhtPeersReturned := at_ 44%nat; peerConnectEvents := at_ 45%nat; peerDisconnectEvents := at_ 46%nat;
    peerDisconnectTimeouts := at_ 47%nat; peerDisconnectConnectFailures := at_ 48%nat;
    peerDisconnectRedundant := at_ 49%nat; peerDisconnectTurnover := at_ 50%nat; peerDisconnectOther := at_ 51%nat;
    torrentFinishedEvents := at_ 52%nat |}.

(** What a call throws: IllegalArgumentException, or NuvioEngineException with a status. *)
Inductive thrown := illegal_argument | engine_exception (status : Z).

(** [currentStreamStats], for the array that it gets. *)
Definition currentStreamStats (values : list Z) : thrown + NuvioStreamStats :=
  let at_ i := nth i values 0 in
  if negb (length values =? NATIVE_STREAM_STATS_VALUE_COUNT)%nat then inl illegal_argument
  else if negb (to_jint (at_ 0%nat) =? STATUS_OK) then inl (engine_exception (to_jint (at_ 0%nat)))
  else inr {|
    fileIndex := to_jint (at_ 1%nat); fileSize := at_ 2%nat; contiguousReadyBytes := at_ 3%nat; verifiedFileBytes := at_ 4%nat;
    deliveredBytes := at_ 5%nat; activeDemands := to_jint (at_ 6%nat); scheduledPieces := to_jint (at_ 7%nat);
    blockingPieces := to_jint (at_ 8%nat); primaryBlockingPiece := to_jint (at_ 9%nat);
    secondaryBlockingPiece := to_jint (at_ 10%nat); lastReadyPiece := to_jint (at_ 11%nat);
    primaryDemandStart := at_ 12%nat; primaryDemandEnd := at_ 13%nat; secondaryDemandStart := at_ 14%nat;
    secondaryDemandEnd := at_ 15%nat; scheduleRevision := at_ 16%nat |}.

(** ** What the fields are to be *)

Definition kotlin_stats (s : nuvio_engine_stats) : NuvioEngineStats := {|
  activeTorrents := to_jint (es_active_torrents s); activeStreams := to_jint (es_active_streams s);
  activeHttpRequests := to_jint (es_active_http_requests s); connectedPeers := to_jint (es_connected_peers s);
  connectedSeeds := to_jint (es_connected_seeds s); knownPeers := to_jint (es_known_peers s);
  connectCandidates := to_jint (es_connect_candidates s); interestedPeers := to_jint (es_interested_peers s);
  unchokedPeers := to_jint (es_unchoked_peers s); downloadingPeers := to_jint (es_downloading_peers s);
  snubbedPeers := to_jint (es_snubbed_peers s); pendingBlockRequests := to_jint (es_pending_block_requests s);
  targetBlockRequests := to_jint (es_target_block_requests s);
  timedOutBlockRequests := to_jint (es_timed_out_block_requests s);
  connectingPeers := to_jint (es_connecting_peers s); handshakingPeers := to_jint (es_handshaking_peers s);
  targetPiecePeers := to_jint (es_target_piece_peers s);
  targetPieceUnchokedPeers := to_jint (es_target_piece_unchoked_peers s);
  targetPieceDownloadingPeers := to_jint (es_target_piece_downloading_peers s);
  offTargetDownloadingPeers := to_jint (es_off_target_downloading_peers s);
  trackerReplyEvents := to_jint (es_tracker_reply_events s);
  trackerErrorEvents := to_jint (es_tracker_error_events s); dhtReplyEvents := to_jint (es_dht_reply_events s);
  trackerPeersReturned := to_jlong (es_tracker_peers_returned s);
  dhtPeersReturned := to_jlong (es_dht_peers_returned s);
  peerConnectEvents := to_jlong (es_peer_connect_events s);
  peerDisconnectEvents := to_jlong (es_peer_disconnect_events s);
  peerDisconnectTimeouts := to_jlong (es_peer_disconnect_timeouts s);
  peerDisconnectConnectFailures := to_jlong (es_peer_disconnect_connect_failures s);
  peerDisconnectRedundant := to_jlong (es_peer_disconnect_redundant s);
  peerDisconnectTurnover := to_jlong (es_peer_disconnect_turnover s);
  peerDisconnectOther := to_jlong (es_peer_disconnect_other s);
  torrentFinishedEvents := to_jlong (es_torrent_finished_events s);
  pendingPieceReads := to_jint (es_pending_piece_reads s);
  downloadRateBytesPerSecond := to_jlong (es_download_rate_bytes_per_second s);
  uploadRateBytesPerSecond := to_jlong (es_upload_rate_bytes_per_second s);
  totalPayloadDownloadBytes := to_jlong (es_total_payload_download_bytes s);
  totalPayloadUploadBytes := to_jlong (es_total_payload_upload_bytes s);
  memoryCacheCapacityBytes := to_jlong (es_memory_cache_capacity_bytes s);
  memoryCacheUsedBytes := to_jlong (es_memory_cache_used_bytes s);
  memoryCacheHits := to_jlong (es_memory_cache_hits s);
  memoryCacheMisses := to_jlong (es_memory_cache_misses s);
  memoryCacheEvictions := to_jlong (es_memory_cache_evictions s);
  memoryCacheEntries := to_jlong (es_memory_cache_entries s); warmTorrents := to_jint (es_warm_torrents s);
  quiescedTorrents := to_jint (es_quiesced_torrents s);
  diskCacheCapacityBytes := to_jlong (es_disk_cache_capacity_bytes s);
  diskCacheUsedBytes := to_jlong (es_disk_cache_used_bytes s);
  diskCacheProtectedBytes := to_jlong (es_disk_cache_protected_bytes s);
  diskCacheEvictions := to_jlong (es_disk_cache_evictions s);
  diskCacheReclaimedBytes := to_jlong (es_disk_cache_reclaimed_bytes s);
  diskCacheOverBudget := negb (es_disk_cache_over_budget s mod 256 =? 0) |}.

Definition kotlin_stream_stats (s : nuvio_engine_stream_stats) : NuvioStreamStats := {|
  fileIndex := to_jint (ss_file_index s); fileSize := to_jlong (ss_file_size s);
  contiguousReadyBytes := to_jlong (ss_contiguous_ready_bytes s);
  verifiedFileBytes := to_jlong (ss_verified_file_bytes s); deliveredBytes := to_jlong (ss_delivered_bytes s);
  activeDemands := to_jint (ss_active_demands s); scheduledPieces := to_jint (ss_scheduled_pieces s);
  blockingPieces := to_jint (ss_blocking_pieces s);
  primaryBlockingPiece := to_jint (ss_primary_blocking_piece s);
  secondaryBlockingPiece := to_jint (ss_secondary_blocking_piece s);
  lastReadyPiece := to_jint (ss_last_ready_piece s);
  primaryDemandStart := to_jlong (ss_primary_demand_start s);
  primaryDemandEnd := to_jlong (ss_primary_demand_end s);
  secondaryDemandStart := to_jlong (ss_secondary_demand_start s);
  secondaryDemandEnd := to_jlong (ss_secondary_demand_end s);
  scheduleRevision := to_jlong (ss_schedule_revision s) |}.

(** The members in the order of the arrays, with their sizes. *)
Definition stats_numbers (s : nuvio_engine_stats) : list (nat * Z) := [
  (4%nat, es_active_torrents s); (4%nat, es_active_streams s); (4%nat, es_active_http_requests s);
  (4%nat, es_connected_peers s); (4%nat, es_connected_seeds s); (4%nat, es_pending_piece_reads s);
  (8%nat, es_download_rate_bytes_per_second s); (8%nat, es_upload_rate_bytes_per_second s);
  (8%nat, es_total_payload_download_bytes s); (8%nat, es_total_payload_upload_bytes s);
  (8%nat, es_memory_cache_capacity_bytes s); (8%nat, es_memory_cache_used_bytes s); (8%nat, es_memory_cache_hits s);
  (8%nat, es_memory_cache_misses s); (8%nat, es_memory_cache_evictions s); (8%nat, es_memory_cache_entries s);
  (4%nat, es_warm_torrents s); (4%nat, es_quiesced_torrents s); (8%nat, es_disk_cache_capacity_bytes s);
  (8%nat, es_disk_cache_used_bytes s); (8%nat, es_disk_cache_protected_bytes s); (8%nat, es_disk_cache_evictions s);
  (8%nat, es_disk_cache_reclaimed_bytes s); (1%nat, es_disk_cache_over_budget s); (4%nat, es_known_peers s);
  (4%nat, es_connect_candidates s); (4%nat, es_interested_peers s); (4%nat, es_unchoked_peers s);
  (4%nat, es_downloading_peers s); (4%nat, es_snubbed_peers s); (4%nat, es_pending_block_requests s);
  (4%nat, es_target_block_requests s); (4%nat, es_timed_out_block_requests s); (4%nat, es_connecting_peers s);
  (4%nat, es_handshaking_peers s); (4%nat, es_target_piece_peers s); (4%nat, es_target_piece_unchoked_peers s);
  (4%nat, es_target_piece_downloading_peers s); (4%nat, es_off_target_downloading_peers s);
  (4%nat, es_tracker_reply_events s); (4%nat, es_tracker_error_events s); (4%nat, es_dht_reply_events s);
  (8%nat, es_tracker_peers_returned s); (8%nat, es_dht_peers_returned s); (8%nat, es_peer_connect_events s);
  (8%nat, es_peer_disconnect_events s); (8%nat, es_peer_disconnect_timeouts s);
  (8%nat, es_peer_disconnect_connect_failures s); (8%nat, es_peer_disconnect_redundant s);
  (8%nat, es_peer_disconnect_turnover s); (8%nat, es_peer_disconnect_other s); (8%nat, es_torrent_finished_events s)].
Definition stream_stats_numbers (s : nuvio_engine_stream_stats) : list (nat * Z) := [
  (4%nat, ss_file_index s); (8%nat, ss_file_size s); (8%nat, ss_contiguous_ready_bytes s); (8%nat, ss_verified_file_bytes s);
  (8%nat, ss_delivered_bytes s); (4%nat, ss_active_demands s); (4%nat, ss_scheduled_pieces s); (4%nat, ss_blocking_pieces s);
  (4%nat, ss_primary_blocking_piece s); (4%nat, ss_secondary_blocking_piece s); (4%nat, ss_last_ready_piece s);
  (8%nat, ss_primary_demand_start s); (8%nat, ss_primary_demand_end s); (8%nat, ss_secondary_demand_start s);
  (8%nat, ss_secondary_demand_end s); (8%nat, ss_schedule_revision s)].

(** ** Reading *)

Lemma over_budget_flag z : negb (to_jlong (if truncated (1%nat, z) =? 0 then 0 else 1) =? 0) = negb (z mod 256 =? 0).
Proof. unfold truncated. cbn [fst snd]. change (256 ^ Z.of_nat 1) with 256. by destruct (z mod 256 =? 0). Qed.

(** ** The arrays *)

Definition stats_array (s : nuvio_engine_stats) : list Z :=
  to_jlong NUVIO_ENGINE_STATUS_OK :: zip_with (fun name p => to_jlong (if bool_decide (name = "disk_cache_over_budget"%string)
    then (if truncated p =? 0 then 0 else 1) else truncated p)) stats_members (stats_numbers s).
Definition stream_stats_array (s : nuvio_engine_stream_stats) : list Z :=
  to_jlong NUVIO_ENGINE_STATUS_OK :: zip_with (fun _ p => to_jlong (truncated p)) stream_stats_members (stream_stats_numbers s).

Lemma stats_fits s : length (es_reserved_1 s) = 7%nat -> Forall2 (fun m v => fits m.2 v) stats_layout (stats_values s).
Proof. intros Hr. repeat constructor. exact Hr. Qed.
Lemma stream_stats_fits s : Forall2 (fun m v => fits m.2 v) stream_stats_layout (stream_stats_values s).
Proof. repeat constructor. Qed.

Lemma stats_found s : Forall2 (fun name p => value_of stats_layout (stats_values s) (str name) = Some p) stats_members (stats_numbers s).
Proof. destruct s. repeat constructor. Qed.
Lemma stream_stats_found s :
  Forall2 (fun name p => value_of stream_stats_layout (stream_stats_values s) (str name) = Some p) stream_stats_members (stream_stats_numbers s).
Proof. destruct s. repeat constructor. Qed.

Lemma read_stats s : length (es_reserved_1 s) = 7%nat ->
  exists values, mapM (stats_number (encode stats_layout (stats_values s))) stats_members = Some values /\
    stats_array s = to_jlong NUVIO_ENGINE_STATUS_OK :: values.
Proof.
  intros Hr. eexists. split; [|reflexivity]. erewrite (members_encode _ _ _ (fun name z => to_jlong (if bool_decide (name = "disk_cache_over_budget"%string)
    then (if z =? 0 then 0 else 1) else z)) _ _ (stats_fits s Hr)); [done| |apply stats_found]. intros name z Hm. unfold stats_number. by rewrite Hm.
Qed.

Lemma read_stream_stats s :
  exists values, mapM (fun name => to_jlong <$> member stream_stats_layout (encode stream_stats_layout (stream_stats_values s)) name)
      stream_stats_members = Some values /\ stream_stats_array s = to_jlong NUVIO_ENGINE_STATUS_OK :: values.
Proof.
  eexists. split; [|reflexivity]. erewrite (members_encode _ _ _ (fun _ z => to_jlong z) _ _ (stream_stats_fits s));
    [done| |apply stream_stats_found]. intros name z Hm. by rewrite Hm.
Qed.

(** What Kotlin reads from the arrays. *)
Lemma sampled s : sampleStats (stats_array s) = Some (kotlin_stats s).
Proof.
  unfold stats_array. rewrite <-(zip_with_fmap_l (fun (flag : bool) p => to_jlong (if flag then (if truncated p =? 0 then 0 else 1) else truncated p))
    (fun name => bool_decide (name = "disk_cache_over_budget"%string))).
  set (flags := _ <$> stats_members). vm_compute in flags. subst flags.
  unfold sampleStats, stats_numbers, kotlin_stats. cbn [zip_with length nth Nat.eqb negb orb NATIVE_STATS_VALUE_COUNT].
  change (to_jint (to_jlong NUVIO_ENGINE_STATUS_OK) =? STATUS_OK) with true. cbn [negb]. rewrite over_budget_flag.
  by rewrite !to_jint_u32, !to_jlong_u64.
Qed.

Lemma current s : currentStreamStats (stream_stats_array s) = inr (kotlin_stream_stats s).
Proof.
  unfold currentStreamStats, stream_stats_array, stream_stats_members, stream_stats_numbers, kotlin_stream_stats.
  cbn [zip_with length nth Nat.eqb negb NATIVE_STREAM_STATS_VALUE_COUNT].
  change (to_jint (to_jlong NUVIO_ENGINE_STATUS_OK) =? STATUS_OK) with true. cbn [negb]. by rewrite !to_jint_u32, !to_jlong_u64.
Qed.

(** ** The calls *)

(** The object of [nativeGetStats] before the call, and that of [nativeGetStreamStats]. *)
Definition fresh_stats : text := default [] (initialised stats_layout nuvio_engine_stats_init_sized).
Definition fresh_stream_stats : text := default [] (initialised stream_stats_layout nuvio_engine_stream_stats_init_sized).
(** The numbers in the latter. *)
Definition fresh_array : list Z := default [] (mapM (fun name => to_jlong <$> member stream_stats_layout fresh_stream_stats name) stream_stats_members).

Lemma initialised_stats : initialised stats_layout nuvio_engine_stats_init_sized = Some fresh_stats.
Proof. by vm_compute. Qed.
Lemma initialised_stream_stats : initialised stream_stats_layout nuvio_engine_stream_stats_init_sized = Some fresh_stream_stats.
Proof. by vm_compute. Qed.
Lemma fresh_numbers : mapM (fun name => to_jlong <$> member stream_stats_layout fresh_stream_stats name) stream_stats_members = Some fresh_array.
Proof. by vm_compute. Qed.

Lemma fresh_stats_sized : sized fresh_stats (Z.of_nat (sizeof stats_layout)).
Proof. split; by vm_compute. Qed.
Lemma fresh_stream_stats_sized : sized fresh_stream_stats (Z.of_nat (sizeof stream_stats_layout)).
Proof. split; by vm_compute. Qed.

Lemma stats_v1_le : (stats_v1_size <= sizeof stats_layout)%nat.
Proof. apply Nat.leb_le. by vm_compute. Qed.
Lemma stream_stats_v1_le : (stream_stats_v1_size <= sizeof stream_stats_layout)%nat.
Proof. apply Nat.leb_le. by vm_compute. Qed.

Lemma filled_stats e o : sized o (Z.of_nat (sizeof stats_layout)) -> length (es_reserved_1 (get_stats (en_runtime e))) = 7%nat ->
  nuvio_engine_get_stats (Some e) (Some o) =
    Some (NUVIO_ENGINE_STATUS_OK, Some (encode stats_layout (stats_values (get_stats (en_runtime e)))), Some e).
Proof. intros Ho Hr. by apply fill_encoded; [|apply stats_v1_le|apply stats_fits|]. Qed.

(** The stream that a text names: an id of 64 digits, in small letters. *)
Definition named (t : text) : option text := default None (normalize_stream_id (c_str_of t)).

Lemma filled_stream_stats e o t : sized o (Z.of_nat (sizeof stream_stats_layout)) ->
  nuvio_engine_get_stream_stats (Some e) (c_str_of t) (Some o) None =
    match named t with
    | None => Some (NUVIO_ENGINE_STATUS_INVALID_ARGUMENT, Some o, Some e)
    | Some id =>
      match stream_stats (en_runtime e) !! id with
      | None => Some (NUVIO_ENGINE_STATUS_NOT_FOUND, Some o, Some e)
      | Some s => Some (NUVIO_ENGINE_STATUS_OK, Some (encode stream_stats_layout (stream_stats_values s)), Some e)
      end
    end.
Proof.
  intros Ho. unfold named. destruct (normalize_stream_total (c_str_of t) (terminated_c_str t)) as [r Hr]. rewrite Hr. cbn [default id].
  destruct r as [sid|]; [destruct (stream_stats (en_runtime e) !! sid) as [s|] eqn:Hs|].
  - apply fill_encoded; [done|apply stream_stats_v1_le|apply stream_stats_fits|]. rewrite Hr. cbn [lookup_with_id mbind option_bind]. unfold get_stream_stats. by rewrite Hs.
  - apply (fill_failed _ _ _ stream_stats_layout); [done|apply stream_stats_v1_le|]. rewrite Hr. cbn [lookup_with_id mbind option_bind]. unfold get_stream_stats. by rewrite Hs.
  - apply (fill_failed _ _ _ stream_stats_layout); [done|apply stream_stats_v1_le|]. by rewrite Hr.
Qed.

Section laws.
Context {J : Type} `{Jni J, ObjectView J java_object}.
Context (is_method : Z -> text -> text -> text -> Prop) (repair : text -> text).
Context (laws : jni_laws is_method repair).

(** A call leaves the engines, and its array is read as [expected]. *)
Definition array_read {A} (read : list Z -> A) (expected : A) (j : J) (es : gmap Z nuvio_engine) (r : Z) (w' : J * gmap Z nuvio_engine) : Prop :=
  w'.2 = es /\ exists values, makes (java_longs values) j (w'.1, r) /\ read values = expected.

Lemma array_spec {A} (read : list Z -> A) j j1 es values : failed j = false -> unchanged j j1 ->
  returns (jni (make_longs values)) (j1, es) (array_read read (read values) j es).
Proof.
  intros Hf Hu. apply returns_jni. eapply ends_conseq; [apply (make_longs_spec _ _ laws)|].
  - destruct Hu as [(Hs & _) _]. by rewrite (law_stays _ _ laws _ _ Hs).
  - intros r j2 Hr. split; [done|]. exists values. split; [by eapply makes_after|done].
Qed.

(** What the caller of [nativeGetStreamStats] gets for a text. *)
Definition stream_answer (e : nuvio_engine) (t : option text) : thrown + NuvioStreamStats :=
  match taken t ≫= named with
  | None => inl (engine_exception NUVIO_ENGINE_STATUS_INVALID_ARGUMENT)
  | Some id =>
    match stream_stats (en_runtime e) !! id with
    | None => inl (engine_exception NUVIO_ENGINE_STATUS_NOT_FOUND)
    | Some s => inr (kotlin_stream_stats s)
    end
  end.

(** C27. The statistics of the engine reach Kotlin field by field: [sampleStats] and
    [currentStreamStats] read from the arrays of [nativeGetStats] and [nativeGetStreamStats]
    exactly the members of the engine's structures, through their bytes and the casts of
    both sides, the low 32 bits as an Int and 64 bits as a Long; a stream that the engine
    does not know, or a text that is no stream id, gives the exception with its status. *)
Theorem statistics_reach_kotlin (handle : Z) (e : nuvio_engine) (es : gmap Z nuvio_engine) j (v : Z) (t : option text)
    (Hh : is_handle handle e es) (Hf : failed j = false) (Ht : is_text j v t)
    (Hr : length (es_reserved_1 (get_stats (en_runtime e))) = 7%nat) :
  returns (nativeGetStats handle) (j, es) (array_read sampleStats (Some (kotlin_stats (get_stats (en_runtime e)))) j es) /\
  returns (nativeGetStreamStats None handle v) (j, es) (array_read currentStreamStats (stream_answer e t) j es).
Proof.
  pose proof Hh as [_ He]. split.
  - unfold nativeGetStats. apply returns_bind, (returns_defined _ fresh_stats); [apply initialised_stats|].
    apply returns_bind, (returns_handle handle e es _ j (NUVIO_ENGINE_STATUS_OK, encode stats_layout (stats_values (get_stats (en_runtime e)))) e _ Hh); [unfold filled_of; by rewrite (filled_stats e _ fresh_stats_sized Hr)|].
    rewrite insert_id by done. cbn [default id fst snd]. destruct (read_stats _ Hr) as (values & Hv & Ha).
    apply returns_bind, (returns_defined _ values); [done|]. rewrite <-sampled, Ha. apply array_spec; [done|apply unchanged_refl].
  - unfold nativeGetStreamStats. apply returns_bind, (returns_defined _ fresh_stream_stats); [apply initialised_stream_stats|].
    apply returns_bind, returns_jni. eapply ends_conseq; [by apply (read_utf8_spec _ _ laws)|]. intros r j1 [Hu ->].
    unfold stream_answer. destruct (taken t) as [s|]; cbn [mbind option_bind].
    + pose proof (filled_stream_stats e _ s fresh_stream_stats_sized) as Hc. destruct (named s) as [sid|]; [destruct (_ !! sid) as [st|]|].
      * apply returns_bind, (returns_handle handle e es _ j1 (NUVIO_ENGINE_STATUS_OK, encode stream_stats_layout (stream_stats_values st)) e _ Hh);
          [unfold filled_of; by rewrite Hc|].
        rewrite insert_id by done. destruct (read_stream_stats st) as (values & Hv & Ha).
        apply returns_bind, (returns_defined _ values); [done|]. rewrite <-current, Ha. by apply array_spec.
      * apply returns_bind, (returns_handle handle e es _ j1 (NUVIO_ENGINE_STATUS_NOT_FOUND, fresh_stream_stats) e _ Hh);
          [unfold filled_of; by rewrite Hc|].
        rewrite insert_id by done. apply returns_bind, (returns_defined _ fresh_array); [apply fresh_numbers|]. by apply (array_spec currentStreamStats).
      * apply returns_bind, (returns_handle handle e es _ j1 (NUVIO_ENGINE_STATUS_INVALID_ARGUMENT, fresh_stream_stats) e _ Hh);
          [unfold filled_of; by rewrite Hc|].
        rewrite insert_id by done. apply returns_bind, (returns_defined _ fresh_array); [apply fresh_numbers|]. by apply (array_spec currentStreamStats).
    + apply returns_bind, returns_ret, returns_bind, (returns_defined _ fresh_array); [apply fresh_numbers|]. by apply (array_spec currentStreamStats).
Qed.
End laws.

(** ** A run *)

Definition demo_stream_id : text := replicate 64 (chr 65).
Definition demo_stream_stats : nuvio_engine_stream_stats :=
  MkStreamStats 112 3 5000000000 4096 4096 1024 1 2 1 7 U32_MAX 6 0 65536 0 0 12.
Definition demo_streaming : nuvio_engine :=
  with_runtime demo_backed (with_stats (en_runtime demo_backed) (get_stats (en_runtime demo_backed))
    {[ replicate 64 (chr 97) := demo_stream_stats ]} 0).
Definition demo_caller : java := MkJava {[ 1 := java_string demo_stream_id ]} false.

Lemma statistics_reach_kotlin_witness :
  (is_handle 4096 demo_streaming {[ 4096 := demo_streaming ]} /\ failed demo_caller = false /\ is_text demo_caller 1 (Some demo_stream_id) /\
   length (es_reserved_1 (get_stats (en_runtime demo_streaming))) = 7%nat) /\
  returns (nativeGetStreamStats None 4096 1) (demo_caller, {[ 4096 := demo_streaming ]})
    (array_read currentStreamStats (stream_answer demo_streaming (Some demo_stream_id)) demo_caller {[ 4096 := demo_streaming ]}).
Proof.
  assert (is_handle 4096 demo_streaming {[ 4096 := demo_streaming ]}) as Hh by (by split).
  assert (is_text demo_caller 1 (Some demo_stream_id)) as Ht by (split_and!; [done|by apply (bool_decide_unpack _); vm_compute|done]).
  assert (length (es_reserved_1 (get_stats (en_runtime demo_streaming))) = 7%nat) as Hr by (by vm_compute).
  split; [by split_and!|]. by apply (statistics_reach_kotlin java_method kept java_laws).
Defined.

(** No second blocking piece, which is 4294967295 in the structure, is -1 in Kotlin. *)
Example demo_stream_read : stream_answer demo_streaming (Some demo_stream_id) =
  inr (MkNuvioStreamStats 3 5000000000 4096 4096 1024 1 2 1 7 (-1) 6 0 65536 0 0 12).
Proof. by vm_compute. Qed.
