(* ===== verification/JniEvents.v ===== *)
(** An event on its way to Kotlin: from the queue of the engine through the structure of the
    C interface and the object that [nativePollEvent] makes into the event of the Kotlin
    library, by the code of NuvioEngine.kt and NuvioModels.kt that reads the object. *)
From stdpp Require Import prelude strings list gmap.
From Stdlib Require Import ZArith Lia Ascii.
From S2P Require Import Prelude State Objects Text EngineTypes EngineRuntime EngineApi JniBridge JniMembers JniResults JniMachine.

(** ** The models of Kotlin *)

Inductive NuvioEventType :=
| TorrentAdded | TorrentMetadataReady | TorrentError | StreamPrepared | TorrentRemoved | StreamStopped | DiskCacheReclaimed.
Definition entries : list NuvioEventType :=
  [TorrentAdded; TorrentMetadataReady; TorrentError; StreamPrepared; TorrentRemoved; StreamStopped; DiskCacheReclaimed].
Definition nativeValue (t : NuvioEventType) : Z :=
  match t with
  | TorrentAdded => 1 | TorrentMetadataReady => 2 | TorrentError => 3 | StreamPrepared => 4
  | TorrentRemoved => 5 | StreamStopped => 6 | DiskCacheReclaimed => 7
  end.
(** [None]: it throws. *)
Definition fromNative (value : Z) : option NuvioEventType := find (fun t => nativeValue t =? value) entries.

Record NuvioEvent := MkNuvioEvent {
  type : NuvioEventType; sequence : Z; requestId : Z; droppedEvents : Z; torrentId : option text; message : option text;
  fileIndex : option Z; fileSize : Z; streamId : option text; streamUrl : option text }.

(** [ifEmpty { null }] and [takeIf { it >= 0 }]. *)
Definition if_empty_null (t : text) : option text := match t with [] => None | _ => Some t end.
Definition take_nonnegative (z : Z) : option Z := if 0 <=? z then Some z else None.

(** [toPublicEvent] of a NativeEventPayload, whose fields are in the order of its constructor. *)
Definition toPublicEvent (payload : java_object) : option NuvioEvent :=
  match payload with
  | java_instance _ [field_int t; field_long sequence; field_long requestId; field_long droppedEvents;
      field_object (java_string torrentId); field_object (java_string message); field_int fileIndex; field_long fileSize;
      field_object (java_string streamId); field_object (java_string streamUrl)] =>
    t ← fromNative t;
    Some {| type := t; sequence := sequence; requestId := requestId; droppedEvents := droppedEvents;
            torrentId := if_empty_null torrentId; message := if_empty_null message; fileIndex := take_nonnegative fileIndex;
            fileSize := fileSize; streamId := if_empty_null streamId; streamUrl := if_empty_null streamUrl |}
  | _ => None
  end.

(** ** What the event is to be *)

Definition kotlin_type (t : BackendEventType) : NuvioEventType :=
  match t with
  | torrent_added => TorrentAdded | metadata_ready => TorrentMetadataReady | torrent_error => TorrentError
  | stream_prepared => StreamPrepared | stream_stopped => StreamStopped
  | disk_cache_reclaimed => DiskCacheReclaimed | torrent_removed => TorrentRemoved
  end.

(** What is left of a text in an array of [n] characters. *)
Definition carried (n : nat) (t : text) : text := c_str (copy_text (zero_chars n) t).

Lemma carried_short n t : (0 < n)%nat -> NUL ∉ t -> carried n t = take (n - 1) t.
Proof.
  intros Hn Ht. destruct (zero_chars_ne n Hn) as [Hz Hl]. unfold carried. by rewrite copy_text_c_str, Hl.
Qed.

Definition kotlin_event (repair : text -> text) (b : BackendEvent) (seq dropped : Z) : NuvioEvent := {|
  type := kotlin_type (be_type b); sequence := to_jlong seq; requestId := to_jlong (be_request_id b); droppedEvents := to_jlong dropped;
  torrentId := if_empty_null (repair (carried 65 (be_torrent_id b))); message := if_empty_null (repair (carried 256 (be_message b)));
  fileIndex := take_nonnegative (to_jint (be_file_index b)); fileSize := to_jlong (be_file_size b);
  streamId := if_empty_null (repair (carried 65 (be_stream_id b))); streamUrl := if_empty_null (repair (carried 512 (be_stream_url b))) |}.

(** ** The structure *)

Definition fresh_event : text := default [] (initialised event_layout nuvio_engine_event_init_sized).

Lemma initialised_event : initialised event_layout nuvio_engine_event_init_sized = Some fresh_event.
Proof. by vm_compute. Qed.
Lemma fresh_event_sized : sized fresh_event (Z.of_nat (sizeof event_layout)).
Proof. split; by vm_compute. Qed.
Lemma event_v1_le : (event_v1_size <= sizeof event_layout)%nat.
Proof. apply Nat.leb_le. by vm_compute. Qed.

Section event.
Context (b : BackendEvent) (seq dropped : Z).
Definition event_bytes : text := encode event_layout (event_values (make_event b seq dropped)).

Lemma event_fits : Forall2 (fun m v => fits m.2 v) event_layout (event_values (make_event b seq dropped)).
Proof. repeat constructor; simpl; apply copy_zero_length; lia. Qed.

Lemma event_number name n z : value_of event_layout (event_values (make_event b seq dropped)) (str name) = Some (n, z) ->
  member event_layout event_bytes name = Some (truncated (n, z)).
Proof. apply member_encode, event_fits. Qed.

Lemma copied_terminated n t : (0 < n)%nat -> NUL ∈ copy_text (zero_chars n) t.
Proof. intros _. unfold copy_text. apply elem_of_app. right. apply elem_of_app. left. by left. Qed.

Lemma event_string name n t : (0 < n)%nat ->
  characters_of event_layout (event_values (make_event b seq dropped)) (str name) = Some (copy_text (zero_chars n) t) ->
  member_string event_layout event_bytes name = Some (carried n t).
Proof. intros Hn Hc. apply (member_string_encode _ _ _ _ event_fits Hc), copied_terminated, Hn. Qed.

Lemma event_type_read : fromNative (to_jint (truncated (4%nat, event_code (be_type b)))) = Some (kotlin_type (be_type b)).
Proof. by destruct (be_type b). Qed.

Lemma to_jint_truncated z : to_jint (truncated (4%nat, z)) = to_jint z.
Proof. unfold to_jint, truncated, wrap32. cbn [fst snd]. change (256 ^ Z.of_nat 4) with 4294967296. by rewrite Z.mod_mod. Qed.
End event.

Lemma polled_event e ev rest o b seq dropped : sized o (Z.of_nat (sizeof event_layout)) -> events (en_runtime e) = ev :: rest ->
  ev = make_event b seq dropped ->
  nuvio_engine_poll_event (Some e) (Some o) = Some (NUVIO_ENGINE_STATUS_OK, Some (event_bytes b seq dropped),
    Some (with_runtime e (with_events (en_runtime e) rest (next_sequence (en_runtime e)) (dropped_events (en_runtime e))))).
Proof.
  intros Ho He ->. unfold nuvio_engine_poll_event. apply fill_encoded; [done|apply event_v1_le|apply event_fits|].
  unfold poll_event. by rewrite He.
Qed.

Lemma polled_none e o : sized o (Z.of_nat (sizeof event_layout)) -> events (en_runtime e) = [] ->
  nuvio_engine_poll_event (Some e) (Some o) = Some (NUVIO_ENGINE_STATUS_NO_EVENT, Some o, Some e).
Proof.
  intros Ho He. unfold nuvio_engine_poll_event. rewrite (fill_failed e e o event_layout _ NUVIO_ENGINE_STATUS_NO_EVENT); [done|done|apply event_v1_le|].
  unfold poll_event. rewrite He. by destruct e.
Qed.

(** ** The call *)

Definition event_class : text := str "com/nuvio/engine/internal/NativeEventPayload".
Definition event_signature : text := str "(IJJJLjava/lang/String;Ljava/lang/String;IJLjava/lang/String;Ljava/lang/String;)V".
Lemma has_event_class : has_class event_class = true. Proof. by vm_compute. Qed.
Lemma has_event_constructor : has_method event_class (str "<init>") event_signature = true. Proof. by vm_compute. Qed.

Lemma kept_member (r r' : Z) (S : gset Z) : r ∈ S -> r <> r' -> r ∈ S ∖ {[r']}.
Proof. set_solver. Qed.

Section laws.
Context {J : Type} `{Jni J, ObjectView J java_object}.
Context (is_method : Z -> text -> text -> text -> Prop) (repair : text -> text).
Context (laws : jni_laws is_method repair).
Implicit Types j : J.

(** [make_utf8] on the way from [j0]. *)
Lemma utf8_rule {t j0 S j} {Q : Z -> J -> Prop} : failed j0 = false -> holding j0 S j ->
  (forall j' r, r <> null -> holding j0 ({[r]} ∪ S) j' -> content j' r = java_string (repair t) -> (r ∉ S) ->
    (forall r', r' ∈ S -> content j' r' = content j r') -> Q r j') -> ends (make_utf8 t) j Q.
Proof.
  intros Hf Hh HQ. assert (failed j = false) as Hfj by (destruct Hh as [Hs _]; by rewrite (law_stays _ _ laws _ _ Hs)).
  eapply ends_conseq; [by apply (make_utf8_spec _ _ laws)|]. intros r j' [Hr Hm]. cbn in Hr.
  destruct (holding_creates _ _ _ _ _ _ Hh Hm) as (_ & Hk & Hh' & Hc & Hn). by apply HQ.
Qed.

(** The object of an event is made, and everything else is given back. *)
Lemma event_payload_spec (b : BackendEvent) (n dropped : Z) c m j0 j es : failed j0 = false -> holding j0 {[c]} j ->
  is_method m event_class (str "<init>") event_signature ->
  returns (event_payload c m (event_bytes b n dropped)) (j, es) (fun r w' => w'.2 = es /\
    exists o, makes o j0 (w'.1, r) /\ toPublicEvent o = Some (kotlin_event repair b n dropped)).
Proof.
  intros Hf Hh Him. unfold event_payload.
  apply returns_bind, (returns_defined _ (carried 65 (be_torrent_id b))); [by apply event_string; [lia|]|].
  apply returns_bind, returns_jni, (utf8_rule Hf Hh). intros j1 s1 H1 Hh1 Hc1 Hn1 _.
  apply returns_bind, (returns_defined _ (carried 256 (be_message b))); [by apply event_string; [lia|]|].
  apply returns_bind, returns_jni, (utf8_rule Hf Hh1). intros j2 s2 H2 Hh2 Hc2 Hn2 Hk2.
  apply returns_bind, (returns_defined _ (carried 65 (be_stream_id b))); [by apply event_string; [lia|]|].
  apply returns_bind, returns_jni, (utf8_rule Hf Hh2). intros j3 s3 H3 Hh3 Hc3 Hn3 Hk3.
  apply returns_bind, (returns_defined _ (carried 512 (be_stream_url b))); [by apply event_string; [lia|]|].
  apply returns_bind, returns_jni, (utf8_rule Hf Hh3). intros j4 s4 H4 Hh4 Hc4 Hn4 Hk4.
  do 6 (apply returns_bind; eapply returns_defined; [by apply event_number|]).
  assert (Hclass : event_class <> str "java/lang/String") by (by vm_compute).
  apply returns_bind, returns_jni, (makes_spec Hh4 (law_new_instance _ _ laws _ c m _ _ _ Him Hclass)). intros j5 r Hr Hh5 Hcr Hnr _.
  assert (Hf1 : content j4 s1 = java_string (repair (carried 65 (be_torrent_id b)))) by (rewrite Hk4, Hk3, Hk2; [done|clear; set_solver..]).
  assert (Hf2 : content j4 s2 = java_string (repair (carried 256 (be_message b)))) by (rewrite Hk4, Hk3; [done|clear; set_solver..]).
  assert (Hf3 : content j4 s3 = java_string (repair (carried 65 (be_stream_id b)))) by (rewrite Hk4; [done|clear; set_solver]).
  cbn [fmap list_fmap field_of] in Hcr.
  rewrite !(proj2 (Z.eqb_neq _ _) H1), !(proj2 (Z.eqb_neq _ _) H2), !(proj2 (Z.eqb_neq _ _) H3), !(proj2 (Z.eqb_neq _ _) H4), Hf1, Hf2, Hf3, Hc4 in Hcr.
  clear Hf1 Hf2 Hf3 Hk2 Hk3 Hk4 H1 H2 H3 H4 Hc1 Hc2 Hc3 Hc4.
  assert (s1 <> c /\ s2 <> c /\ s3 <> c /\ s4 <> c /\ r <> c) as (?&?&?&?&?) by (clear -Hn1 Hn2 Hn3 Hn4 Hnr; set_solver).
  assert (s1 <> s2 /\ s1 <> s3 /\ s1 <> s4 /\ s1 <> r) as (?&?&?&?) by (clear -Hn2 Hn3 Hn4 Hnr; set_solver).
  assert (s2 <> s3 /\ s2 <> s4 /\ s2 <> r /\ s3 <> s4 /\ s3 <> r /\ s4 <> r) as (?&?&?&?&?&?) by (clear -Hn3 Hn4 Hnr; set_solver).
  assert (Hset : ({[r]} ∪ ({[s4]} ∪ ({[s3]} ∪ ({[s2]} ∪ ({[s1]} ∪ {[c]})))) : gset Z) ∖ {[s1]} ∖ {[s2]} ∖ {[s3]} ∖ {[s4]} ∖ {[c]} = {[r]})
    by (clear Hh1 Hh2 Hh3 Hh4 Hh5 Hn1 Hn2 Hn3 Hn4 Hnr Hcr Hh Him; set_solver).
  apply returns_bind, returns_jni, (delete_spec _ _ laws Hh5 (r := s1)); [clear; set_solver|]. intros j6 Hh6 Hk6.
  apply returns_bind, returns_jni, (delete_spec _ _ laws Hh6 (r := s2)); [by apply kept_member; [clear; set_solver|congruence]|]. intros j7 Hh7 Hk7.
  apply returns_bind, returns_jni, (delete_spec _ _ laws Hh7 (r := s3)); [repeat (apply kept_member; [|congruence]); clear; set_solver|]. intros j8 Hh8 Hk8.
  apply returns_bind, returns_jni, (delete_spec _ _ laws Hh8 (r := s4)); [repeat (apply kept_member; [|congruence]); clear; set_solver|]. intros j9 Hh9 Hk9.
  apply returns_bind, returns_jni, (delete_spec _ _ laws Hh9 (r := c)); [repeat (apply kept_member; [|congruence]); clear; set_solver|]. intros j10 Hh10 Hk10.
  rewrite Hset in Hh10. apply returns_ret. split; [done|]. eexists. split.
  - split; [done|]. apply (holding_made j0 r _ j10); [exact Hh10| |exact Hf].
    rewrite Hk10, Hk9, Hk8, Hk7, Hk6; [exact Hcr|..]; try congruence; repeat (apply kept_member; [|congruence]); clear; set_solver.
  - cbn [toPublicEvent ctype_size ev_type ev_sequence ev_request_id ev_dropped_events ev_file_index ev_file_size make_event]. rewrite event_type_read. cbn [mbind option_bind].
    unfold kotlin_event. by rewrite !to_jint_truncated, !to_jlong_u64.
Qed.

(** C26. Events reach Kotlin: without one in the queue [nativePollEvent] answers null and
    changes nothing; else it takes the oldest, and the object it makes is read by the Kotlin
    library as that event, with its type, its numbers cut to Int and Long and its texts cut
    to the sizes of the structure, an absent one as null.  No other reference is left. *)
Theorem events_reach_kotlin (handle : Z) (e : nuvio_engine) (es : gmap Z nuvio_engine) j (Hh : is_handle handle e es) (Hf : failed j = false) :
  (events (en_runtime e) = [] -> nativePollEvent handle (j, es) = Some ((j, es), null)) /\
  (forall b n dropped rest, events (en_runtime e) = make_event b n dropped :: rest ->
   returns (nativePollEvent handle) (j, es) (fun r w' =>
     w'.2 = <[wrap64 handle := with_runtime e (with_events (en_runtime e) rest (next_sequence (en_runtime e)) (dropped_events (en_runtime e)))]> es /\
     exists o, makes o j (w'.1, r) /\ toPublicEvent o = Some (kotlin_event repair b n dropped))).
Proof.
  split.
  - intros He. assert (Hr : returns (nativePollEvent handle) (j, es) (fun r w' => r = null /\ w' = (j, es))).
    { unfold nativePollEvent. apply returns_bind, (returns_defined _ fresh_event); [apply initialised_event|].
      apply returns_bind, (returns_handle handle e es _ j (NUVIO_ENGINE_STATUS_NO_EVENT, fresh_event) e _ Hh);
        [unfold filled_of; by rewrite (polled_none e _ fresh_event_sized He)|].
      rewrite insert_id by apply Hh. by apply returns_ret. }
    destruct Hr as (w' & r & Hr & -> & ->). exact Hr.
  - intros b n dropped rest He. set (e' := with_runtime e _). unfold nativePollEvent. apply returns_bind, (returns_defined _ fresh_event); [apply initialised_event|].
    apply returns_bind, (returns_handle handle e es _ j (NUVIO_ENGINE_STATUS_OK, event_bytes b n dropped) e' _ Hh);
      [unfold filled_of; by rewrite (polled_event e _ _ _ _ _ _ fresh_event_sized He eq_refl)|].
    cbn [Z.eqb negb]. change (NUVIO_ENGINE_STATUS_OK =? NUVIO_ENGINE_STATUS_NO_EVENT) with false. change (NUVIO_ENGINE_STATUS_OK =? NUVIO_ENGINE_STATUS_OK) with true. cbn [negb].
    apply returns_bind, returns_jni, (makes_spec (holding_start j) (law_FindClass _ _ laws _ _ has_event_class)). intros j1 c Hc Hh1 Hcc _ _.
    rewrite (proj2 (Z.eqb_neq _ _) Hc), (right_id_L ∅ (∪)) in *.
    apply returns_bind, returns_jni, (method_spec _ _ laws Hh1 Hcc has_event_constructor). intros j2 m Hm Him Hh2 _.
    rewrite (proj2 (Z.eqb_neq _ _) Hm).
    destruct (event_payload_spec b n dropped c m j j2 (<[wrap64 handle := e']> es) Hf Hh2 Him) as (w' & r & Hrun & Hes & Ho).
    exists w', r. split; [exact Hrun|]. by split.
Qed.
End laws.

(** ** A run *)

Lemma events_reach_kotlin_witness :
  (is_handle 8192 demo_polling demo_engines /\ failed demo_java = false /\
   events (en_runtime demo_polling) = make_event demo_event_data 1 0 :: [make_event demo_event_data 2 0]) /\
  returns (nativePollEvent 8192) (demo_java, demo_engines) (fun r w' =>
    w'.2 = <[wrap64 8192 := with_runtime demo_polling (with_events (en_runtime demo_polling) [make_event demo_event_data 2 0]
      (next_sequence (en_runtime demo_polling)) (dropped_events (en_runtime demo_polling)))]> demo_engines /\
    exists o, makes o demo_java (w'.1, r) /\ toPublicEvent o = Some (kotlin_event kept demo_event_data 1 0)).
Proof.
  assert (is_handle 8192 demo_polling demo_engines) as Hh by (by split).
  split; [by split_and!|]. by apply (events_reach_kotlin java_method kept java_laws 8192 demo_polling demo_engines demo_java Hh eq_refl).
Defined.

Example demo_kotlin_event : kotlin_event kept demo_event_data 1 0 =
  MkNuvioEvent TorrentAdded 1 1 0 (Some (str "t")) None None 0 None None.
Proof. by vm_compute. Qed.
