(* ===== verification/Posix.v ===== *)
(** The operating system as the storage and security code sees it: the calls of
    src/storage and src/security as an interface, [Posix], and the small monad in which
    the functions that make them are written.  What a call does is up to an instance; the
    theorems that need it state the documented behaviour of the calls they rely on. *)
From stdpp Require Import prelude strings list.
From Stdlib Require Import ZArith Lia Ascii.
From S2P Require Import Prelude Text.

(** [std::filesystem::file_type], as far as the code tells the types apart. *)
Inductive file_type := ft_none | ft_not_found | ft_regular | ft_directory | ft_other.

#[global] Instance file_type_eq_dec : EqDecision file_type.
Proof. solve_decision. Defined.

(** [std::error_code]: [None] is success, [Some errno] a failure. *)
Abbreviation error_code := (option Z).
Definition ENOENT : Z := 2.
Definition EINTR : Z := 4.

(** A call that returns [-1] leaves [errno]: [inl errno]. *)
Class Posix (W : Type) := {
  px_open_read : W -> text -> W * (Z + Z);             (* open, O_RDONLY *)
  px_open_directory : W -> text -> W * (Z + Z);        (* open, O_RDONLY | O_DIRECTORY *)
  px_create_exclusive : W -> text -> W * (Z + Z);      (* open, O_WRONLY | O_CREAT | O_EXCL *)
  px_read : W -> Z -> nat -> W * (Z + text);
  px_pread : W -> Z -> nat -> Z -> W * (Z + text);
  px_write : W -> Z -> text -> W * (Z + nat);
  px_fsync : W -> Z -> W * error_code;
  px_close : W -> Z -> W * error_code;
  px_rename : W -> text -> text -> W * error_code;
  px_remove : W -> text -> W * error_code;             (* std::filesystem::remove *)
  px_create_directories : W -> text -> W * error_code; (* std::filesystem::create_directories *)
  px_symlink_status : W -> text -> error_code * file_type;
  px_file_size : W -> text -> error_code * Z;
  (* std::ifstream: [None] when it cannot be opened, else the bytes of [read] of that
     many characters and whether [peek] then finds another. *)
  px_read_stream : W -> text -> nat -> option (text * bool);
}.

(** ** Programs that make calls *)

(** A program runs in a world and returns or throws; [None] when the fuel of a loop is
    used up. *)
Definition io (W A : Type) : Type := W -> option (W * result A).

#[global] Instance io_ret {W} : MRet (io W) := fun A a w => Some (w, Ok a).
#[global] Instance io_bind {W} : MBind (io W) := fun A B f m w =>
  match m w with
  | None => None
  | Some (w', Ok a) => f a w'
  | Some (w', Throw e) => Some (w', Throw e)
  end.

Definition raise {W A} (cls : exn_class) (what : string) : io W A := fun w => Some (w, throw cls what).
Definition diverge {W A} : io W A := fun _ => None.
(** One call. *)
Definition call {W A} (f : W -> W * A) : io W A := fun w => let '(w', a) := f w in Some (w', Ok a).
(** A call that does not change the world. *)
Definition ask {W A} (f : W -> A) : io W A := fun w => Some (w, Ok (f w)).
(** [try { body } catch (...) { handler; throw; }]. *)
Definition cleanup {W A B} (body : io W A) (handler : io W B) : io W A := fun w =>
  match body w with
  | None => None
  | Some (w', Ok a) => Some (w', Ok a)
  | Some (w', Throw e) => match handler w' with None => None | Some (w'', _) => Some (w'', Throw e) end
  end.

Arguments io : simpl never.

Lemma bind_call {W A B} (f : W -> W * A) (k : A -> io W B) w : (call f ≫= k) w = let '(w', a) := f w in k a w'.
Proof. unfold call, mbind, io_bind. by destruct (f w). Qed.

Lemma bind_result {W A B} (m : io W A) (k : A -> io W B) w w' r : m w = Some (w', r) ->
  (m ≫= k) w = match r with Ok a => k a w' | Throw e => Some (w', Throw e) end.
Proof. unfold mbind, io_bind. intros ->. by destruct r. Qed.

(** ** Recording *)

(** A world with its past: the same calls, each adding the world it leaves. *)
Section recorded.
Context {W : Type} `{Posix W}.
Abbreviation past := (W * list W)%type.

Definition record {A} (r : W * A) (before : list W) : past * A := ((r.1, r.1 :: before), r.2).

#[global] Instance recorded : Posix past := {|
  px_open_read w p := record (px_open_read w.1 p) w.2;
  px_open_directory w p := record (px_open_directory w.1 p) w.2;
  px_create_exclusive w p := record (px_create_exclusive w.1 p) w.2;
  px_read w fd n := record (px_read w.1 fd n) w.2;
  px_pread w fd n off := record (px_pread w.1 fd n off) w.2;
  px_write w fd t := record (px_write w.1 fd t) w.2;
  px_fsync w fd := record (px_fsync w.1 fd) w.2;
  px_close w fd := record (px_close w.1 fd) w.2;
  px_rename w a b := record (px_rename w.1 a b) w.2;
  px_remove w p := record (px_remove w.1 p) w.2;
  px_create_directories w p := record (px_create_directories w.1 p) w.2;
  px_symlink_status w p := px_symlink_status w.1 p;
  px_file_size w p := px_file_size w.1 p;
  px_read_stream w p n := px_read_stream w.1 p n;
|}.

(** A program in a recorded world does what the same program does without the record. *)
Definition agrees {A} (m : io past A) (m' : io W A) : Prop :=
  forall w, match m w with Some (w', r) => m' w.1 = Some (w'.1, r) | None => m' w.1 = None end.

Lemma agrees_ret {A} (a : A) : agrees (mret a) (mret a).
Proof. done. Qed.

Lemma agrees_raise {A} cls what : agrees (raise cls what : io past A) (raise cls what).
Proof. done. Qed.

Lemma agrees_call {A} (f : W -> W * A) : agrees (call (fun w : past => record (f w.1) w.2)) (call f).
Proof. intros w. unfold call, record. by destruct (f w.1). Qed.

Lemma agrees_bind {A B} (m : io past A) m' (k : A -> io past B) k' :
  agrees m m' -> (forall a, agrees (k a) (k' a)) -> agrees (m ≫= k) (m' ≫= k').
Proof.
  intros Hm Hk w. specialize (Hm w). unfold mbind, io_bind. destruct (m w) as [[w' [a|e]]|]; rewrite Hm; [apply Hk|done..].
Qed.

Lemma agrees_cleanup {A B} (m : io past A) m' (handler : io past B) handler' :
  agrees m m' -> agrees handler handler' -> agrees (cleanup m handler) (cleanup m' handler').
Proof.
  intros Hm Hh w. specialize (Hm w). unfold cleanup. destruct (m w) as [[w' [a|e]]|]; rewrite Hm; [done| |done].
  specialize (Hh w'). by destruct (handler w') as [[w2 r]|]; rewrite Hh.
Qed.
End recorded.

(** ** Reasoning about programs *)

(** From a world where [P] holds the program ends, in a result and a world related by
    [Q], and every world it leaves on the way is [good]. *)
Section triples.
Context {W : Type} `{Posix W} (good : W -> Prop).

Definition triple {A} (P : W -> Prop) (m : io (W * list W) A) (Q : result A -> W -> Prop) : Prop :=
  forall w h, P w -> Forall good h ->
  exists w' h' r, m (w, h) = Some ((w', h'), r) /\ Q r w' /\ Forall good h'.

Lemma triple_conseq {A} (P P' : W -> Prop) (m : io (W * list W) A) Q Q' :
  triple P m Q -> (forall w, P' w -> P w) -> (forall r w, Q r w -> Q' r w) -> triple P' m Q'.
Proof.
  intros Hm HP HQ w h Hw Hh. destruct (Hm w h (HP w Hw) Hh) as (w' & h' & r & E & Hr & Hg).
  exists w', h', r. auto.
Qed.

Lemma triple_ret {A} (P : W -> Prop) (a : A) Q : (forall w, P w -> Q (Ok a) w) -> triple P (mret a) Q.
Proof. intros HQ w h Hw Hh. exists w, h, (Ok a). split; [done|]. auto. Qed.

Lemma triple_raise {A} (P : W -> Prop) cls what (Q : result A -> W -> Prop) :
  (forall w, P w -> Q (throw cls what) w) -> triple P (raise cls what) Q.
Proof. intros HQ w h Hw Hh. exists w, h, (throw cls what). split; [done|]. auto. Qed.

Lemma triple_call {A} (P : W -> Prop) (f : W -> W * A) (Q : result A -> W -> Prop) :
  (forall w w' a, P w -> f w = (w', a) -> Q (Ok a) w' /\ good w') ->
  triple P (call (fun w : W * list W => record (f w.1) w.2)) Q.
Proof.
  intros HQ w h Hw Hh. destruct (f w) as [w' a] eqn:E. destruct (HQ w w' a Hw E) as [Hq Hg].
  exists w', (w' :: h), (Ok a). unfold call, record. simpl. rewrite E. auto.
Qed.

Lemma triple_bind {A B} (P : W -> Prop) (m : io (W * list W) A) (f : A -> io (W * list W) B) R Q :
  triple P m R -> (forall a, triple (R (Ok a)) (f a) Q) -> (forall e w, R (Throw e) w -> Q (Throw e) w) ->
  triple P (m ≫= f) Q.
Proof.
  intros Hm Hf He w h Hw Hh. destruct (Hm w h Hw Hh) as (w' & h' & [a|e] & E & Hr & Hg); unfold mbind, io_bind; rewrite E.
  - by apply Hf.
  - exists w', h', (Throw e). auto.
Qed.

Lemma triple_cleanup {A B} (P : W -> Prop) (m : io (W * list W) A) (handler : io (W * list W) B) R Q :
  triple P m R -> (forall a w, R (Ok a) w -> Q (Ok a) w) ->
  (forall e, triple (R (Throw e)) handler (fun _ => Q (Throw e))) -> triple P (cleanup m handler) Q.
Proof.
  intros Hm Ha He w h Hw Hh. destruct (Hm w h Hw Hh) as (w' & h' & [a|e] & E & Hr & Hg); unfold cleanup; rewrite E.
  - exists w', h', (Ok a). auto.
  - destruct (He e w' h' Hr Hg) as (w2 & h2 & r2 & -> & Hq & Hg2). exists w2, h2, (Throw e). auto.
Qed.
End triples.
