(* ===== verification/DiskCache.v ===== *)
(** The disk cache of torrent payloads: src/cache/disk_cache_manager.cpp and .hpp (the
    POSIX branch).  The file system is an interface, [FileSystem]: the calls the code
    makes, with what they return and how they change the disk.  [enforce] is compared
    with a specification over the payload directories in the order of their last use. *)
From stdpp Require Import prelude strings list sorting gmap.
From Stdlib Require Import ZArith Lia Ascii.
From S2P Require Import Prelude Text Posix.

(** ** The file system *)

(** A path is the list of its components. *)
Abbreviation path := (list text).

(** What a directory iterator goes through; [listing_breaks] when an increment throws
    after the last of the items. *)
Record listing (A : Type) := MkListing { listing_items : list A; listing_breaks : bool }.
Arguments MkListing {_} _ _.
Arguments listing_items {_} _.
Arguments listing_breaks {_} _.

(** The system calls of the manager on a disk of type [D]. *)
Class FileSystem (D : Type) := {
  symlink_status : D -> path -> error_code * file_type;
  directory_iterator : D -> path -> error_code * listing text;
  recursive_directory_iterator : D -> path -> error_code * listing path;
  stat : D -> path -> Z + (Z * Z);                       (* errno, or st_size and st_blocks *)
  last_write_time : D -> path -> error_code * Z;
  set_last_write_time : D -> path -> Z -> D * error_code;
  remove_all : D -> path -> D * (error_code * Z);        (* the number of files removed *)
}.

(** ** The code *)

Definition maximum_payload_directories : Z := 4096.
Definition maximum_payload_entries : Z := 100000.

Record Candidate := MkCandidate { cd_torrent_id : text; cd_path : path; cd_last_use : Z; cd_size : Z }.

Definition canonical_torrent_id (value : text) : bool :=
  if negb (length value =? 40)%nat && negb (length value =? 64)%nat then false
  else forallb (fun character => isxdigit character && Ascii.eqb character (tolower character)) value.

Record DiskCacheStats := MkStats {
  capacity_bytes : Z; used_bytes : Z; protected_bytes : Z; evictions : Z; reclaimed_bytes : Z; over_budget : bool }.

Record DiskCacheManager := MkManager {
  payload_root : path; stats : DiskCacheStats; measured_sizes : gmap text Z }.

(** The constructor. *)
Definition disk_cache_manager (root : path) (capacity : Z) : DiskCacheManager :=
  MkManager root (MkStats capacity 0 0 0 0 false) ∅.

(** [left < right] on [std::string]: bytes compared as unsigned characters. *)
Fixpoint text_ltb (left right : text) : bool :=
  match left, right with
  | _, [] => false
  | [], _ :: _ => true
  | x :: left', y :: right' => (code x <? code y) || ((code x =? code y) && text_ltb left' right')
  end.

(** The comparison of [std::ranges::sort]. *)
Definition candidate_before (left right : Candidate) : bool :=
  if negb (cd_last_use left =? cd_last_use right) then cd_last_use left <? cd_last_use right
  else text_ltb (cd_torrent_id left) (cd_torrent_id right).
Definition candidate_le (left right : Candidate) : Prop := candidate_before right left = false.
#[global] Instance candidate_le_dec : RelDecision candidate_le := fun x y => decide (candidate_before y x = false).
Definition sort_candidates (candidates : list Candidate) : list Candidate := merge_sort candidate_le candidates.

Section manager.
Context {D : Type} `{FileSystem D}.

Definition stored_file_size (d : D) (p : path) : result Z :=
  match stat d p with
  | inl errno =>
    if errno =? ENOENT then Ok 0 else throw system_error "measure allocated torrent payload entry"
  | inr (st_size, st_blocks) =>
    let logical_size := if 0 <? st_size then st_size else 0 in
    let blocks := if 0 <? st_blocks then st_blocks else 0 in
    let allocated_size := if U64_MAX / 512 <? blocks then U64_MAX else blocks * 512 in
    Ok (Z.min logical_size allocated_size)
  end.

(** An iteration whose last increment may throw. *)
Definition for_each {S A} (body : S -> A -> result S) (s : S) (entries : listing A) : result S :=
  s' ← fold_result body s (listing_items entries);
  if listing_breaks entries then throw system_error "directory iterator cannot advance" else Ok s'.

(** One entry of a payload directory; the state is [(size, inspected_entries)]. *)
Definition inspect_entry (d : D) (s : Z * Z) (entry : path) : result (Z * Z) :=
  let inspected := s.2 + 1 in
  if maximum_payload_entries <? inspected then throw runtime_error "torrent payload scan entry limit exceeded"
  else match symlink_status d entry with
  | (Some _, _) => throw system_error "inspect torrent payload entry"
  | (None, type) =>
    if negb (bool_decide (type = ft_regular)) then Ok (s.1, inspected)
    else size ← stored_file_size d entry; Ok (saturating_add s.1 size, inspected)
  end.

Definition directory_size (d : D) (root : path) (inspected : Z) : result (Z * Z) :=
  match recursive_directory_iterator d root with
  | (Some error, _) =>
    if error =? ENOENT then Ok (0, inspected) else throw system_error "scan torrent payload directory"
  | (None, entries) => for_each (inspect_entry d) (0, inspected) entries
  end.

(** One entry of the root; the state is [inspected_directories] and the visitor's. *)
Definition visit_entry {S} (d : D) (root : path) (visit : S -> text -> path -> result S) (s : Z * S) (id : text) :
    result (Z * S) :=
  let inspected := s.1 + 1 in
  if maximum_payload_directories <? inspected then throw runtime_error "disk cache directory limit exceeded"
  else match symlink_status d (root ++ [id]) with
  | (Some _, _) => throw system_error "inspect disk cache directory"
  | (None, type) =>
    if negb (canonical_torrent_id id) then Ok (inspected, s.2)
    else if negb (bool_decide (type = ft_directory)) then throw runtime_error "canonical disk cache entry is not a real directory"
    else s' ← visit s.2 id (root ++ [id]); Ok (inspected, s')
  end.

Definition visit_torrent_directories {S} (d : D) (root : path) (visit : S -> text -> path -> result S) (s : S) : result S :=
  let '(error, type) := symlink_status d root in
  if bool_decide (error = Some ENOENT) || bool_decide (type = ft_not_found) then Ok s
  else if bool_decide (is_Some error) then throw system_error "inspect disk cache root"
  else if negb (bool_decide (type = ft_directory)) then throw runtime_error "disk cache root is not a real directory"
  else match directory_iterator d root with
  | (Some _, _) => throw system_error "scan disk cache root"
  | (None, entries) => s' ← for_each (visit_entry d root visit) (0, s) entries; Ok s'.2
  end.

(** [touch], at the time [now]. *)
Definition touch (m : DiskCacheManager) (d : D) (torrent_id : text) (now : Z) : D * result unit :=
  if negb (canonical_torrent_id torrent_id) then
    (d, throw invalid_argument "disk cache touch requires a canonical torrent ID")
  else
    let p := payload_root m ++ [torrent_id] in
    let '(error, type) := symlink_status d p in
    if bool_decide (error = Some ENOENT) || bool_decide (type = ft_not_found) then (d, Ok tt)
    else if bool_decide (is_Some error) then (d, throw system_error "inspect disk cache entry")
    else if negb (bool_decide (type = ft_directory)) then (d, throw runtime_error "disk cache entry is not a real directory")
    else match set_last_write_time d p now with
    | (d', Some _) => (d', throw system_error "touch disk cache entry")
    | (d', None) => (d', Ok tt)
    end.

(** The locals of a scan. *)
Record Scan := MkScan {
  sc_candidates : list Candidate; sc_sizes : gmap text Z; sc_used : Z; sc_protected : Z; sc_inspected : Z }.

(** [sizes.emplace(id, size)]: an id already there keeps its size. *)
Definition emplace (id : text) (size : Z) (sizes : gmap text Z) : gmap text Z :=
  match sizes !! id with Some _ => sizes | None => <[id := size]> sizes end.

(** The visitor of [enforce]. *)
Definition enforce_visit (d : D) (protected_torrents : gset text) (s : Scan) (id : text) (entry : path) : result Scan :=
  r ← directory_size d entry (sc_inspected s);
  let '(size, inspected) := (r : Z * Z) in
  let sizes := emplace id size (sc_sizes s) in
  let used := saturating_add (sc_used s) size in
  if bool_decide (id ∈ protected_torrents) then
    Ok (MkScan (sc_candidates s) sizes used (saturating_add (sc_protected s) size) inspected)
  else match last_write_time d entry with
  | (Some _, _) => throw system_error "inspect disk cache recency"
  | (None, last_use) =>
    Ok (MkScan (sc_candidates s ++ [MkCandidate id entry last_use size]) sizes used (sc_protected s) inspected)
  end.

(** The state of the eviction loop: the disk, [used], [measured_sizes_] and [stats_]. *)
Record Eviction := MkEviction { ev_disk : D; ev_used : Z; ev_sizes : gmap text Z; ev_stats : DiskCacheStats }.

Definition count_eviction (s : DiskCacheStats) (size : Z) : DiskCacheStats :=
  MkStats (capacity_bytes s) (used_bytes s) (protected_bytes s) (saturating_increment (evictions s))
    (saturating_add (reclaimed_bytes s) size) (over_budget s).

(** The eviction loop; what it changed before an exception stays changed. *)
Fixpoint evict_candidates (target : Z) (candidates : list Candidate) (s : Eviction) : Eviction * result unit :=
  match candidates with
  | [] => (s, Ok tt)
  | candidate :: candidates' =>
    if ev_used s <=? target then (s, Ok tt)
    else
      let '(d, (error, removed)) := remove_all (ev_disk s) (cd_path candidate) in
      if bool_decide (is_Some error) then
        (MkEviction d (ev_used s) (ev_sizes s) (ev_stats s), throw system_error "evict disk cache directory")
      else if removed =? 0 then evict_candidates target candidates' (MkEviction d (ev_used s) (ev_sizes s) (ev_stats s))
      else evict_candidates target candidates'
        (MkEviction d (if ev_used s <? cd_size candidate then 0 else ev_used s - cd_size candidate)
           (delete (cd_torrent_id candidate) (ev_sizes s)) (count_eviction (ev_stats s) (cd_size candidate)))
  end.

Definition report (s : DiskCacheStats) (used protected : Z) : DiskCacheStats :=
  MkStats (capacity_bytes s) used protected (evictions s) (reclaimed_bytes s) (capacity_bytes s <? used).

(** [enforce(protected_torrents, requested_target_bytes)]. *)
Definition enforce (m : DiskCacheManager) (d : D) (protected_torrents : gset text) (requested_target_bytes : Z) :
    D * DiskCacheManager * result DiskCacheStats :=
  let target_bytes := Z.min requested_target_bytes (capacity_bytes (stats m)) in
  match visit_torrent_directories d (payload_root m) (enforce_visit d protected_torrents) (MkScan [] ∅ 0 0 0) with
  | Throw e => (d, m, Throw e)
  | Ok scan =>
    match evict_candidates target_bytes (sort_candidates (sc_candidates scan)) (MkEviction d (sc_used scan) (sc_sizes scan) (stats m)) with
    | (s, Throw e) => (ev_disk s, MkManager (payload_root m) (ev_stats s) (ev_sizes s), Throw e)
    | (s, Ok _) =>
      let st := report (ev_stats s) (ev_used s) (sc_protected scan) in
      (ev_disk s, MkManager (payload_root m) st (ev_sizes s), Ok st)
    end
  end.

(** [enforce(protected_torrents)]. *)
Definition enforce_capacity (m : DiskCacheManager) (d : D) (protected_torrents : gset text) :=
  enforce m d protected_torrents (capacity_bytes (stats m)).

(** The visitor of [measure]. *)
Definition measure_visit (d : D) (m : DiskCacheManager) (protected_torrents : gset text) (s : Scan) (id : text) (entry : path) :
    result Scan :=
  let is_protected := bool_decide (id ∈ protected_torrents) in
  r ← match measured_sizes m !! id with
      | Some known => if is_protected then directory_size d entry (sc_inspected s) else Ok (known, sc_inspected s)
      | None => directory_size d entry (sc_inspected s)
      end;
  let '(size, inspected) := (r : Z * Z) in
  Ok (MkScan [] (emplace id size (sc_sizes s)) (saturating_add (sc_used s) size)
       (if is_protected then saturating_add (sc_protected s) size else sc_protected s) inspected).

Definition measure (m : DiskCacheManager) (d : D) (protected_torrents : gset text) : DiskCacheManager * result DiskCacheStats :=
  match visit_torrent_directories d (payload_root m) (measure_visit d m protected_torrents) (MkScan [] ∅ 0 0 0) with
  | Throw e => (m, Throw e)
  | Ok scan =>
    let st := report (stats m) (sc_used scan) (sc_protected scan) in
    (MkManager (payload_root m) st (sc_sizes scan), Ok st)
  end.
End manager.

(** ** The specification *)
Section spec.
Context {D : Type} `{FileSystem D}.
Implicit Types (d : D) (p : path) (id : text).

(** The bytes a file takes: the smaller of its length and its blocks. *)
Definition file_bytes d p : Z :=
  match stat d p with
  | inl _ => 0
  | inr (st_size, st_blocks) => Z.min (Z.max 0 st_size) (Z.min U64_MAX (512 * Z.max 0 st_blocks))
  end.

Definition payload_entries d p : list path :=
  match recursive_directory_iterator d p with (None, l) => listing_items l | _ => [] end.
Definition is_file d p : bool := bool_decide ((symlink_status d p).2 = ft_regular).

(** The bytes of a payload: those of its regular files. *)
Definition payload_bytes d p : Z := Z.min U64_MAX (zsum (file_bytes d <$> filter (fun q => is_file d q = true) (payload_entries d p))).

Definition file_readable d p : Prop :=
  (symlink_status d p).1 = None /\
  match stat d p with inl errno => errno = ENOENT | inr (st_size, _) => st_size <= I64_MAX end.
#[global] Instance file_readable_dec d p : Decision (file_readable d p).
Proof. unfold file_readable. destruct (stat d p) as [|[]]; apply _. Defined.

Definition payload_readable d p : Prop :=
  Forall (file_readable d) (payload_entries d p) /\
  match recursive_directory_iterator d p with
  | (None, l) => listing_breaks l = false
  | (Some errno, _) => errno = ENOENT
  end.

(** The payload directories of a list of names. *)
Definition torrents (names : list text) : list text := filter (fun id => canonical_torrent_id id = true) names.
Definition names_of d (root : path) : list text := listing_items (directory_iterator d root).2.

Definition bytes_of d (root : path) id : Z := payload_bytes d (root ++ [id]).
Definition entries_of d (root : path) id : Z := Z.of_nat (length (payload_entries d (root ++ [id]))).

(** A root the code can scan: every call it makes succeeds, and the directory is within
    the limits of the code. *)
Record scannable d (root : path) (protected : gset text) : Prop := {
  scan_root : symlink_status d root = (None, ft_directory);
  scan_listing : (directory_iterator d root).1 = None /\ listing_breaks (directory_iterator d root).2 = false;
  scan_nodup : NoDup (names_of d root);
  scan_length : Z.of_nat (length (names_of d root)) <= maximum_payload_directories;
  scan_status : forall id, id ∈ names_of d root -> (symlink_status d (root ++ [id])).1 = None;
  scan_payload : forall id, id ∈ torrents (names_of d root) ->
    symlink_status d (root ++ [id]) = (None, ft_directory) /\ payload_readable d (root ++ [id]) /\
    (id ∉ protected -> (last_write_time d (root ++ [id])).1 = None);
  scan_entries : zsum (entries_of d root <$> torrents (names_of d root)) <= maximum_payload_entries;
  scan_bytes : zsum (bytes_of d root <$> torrents (names_of d root)) <= U64_MAX;
}.

Definition candidate_of d (root : path) id : Candidate :=
  MkCandidate id (root ++ [id]) (last_write_time d (root ++ [id])).2 (bytes_of d root id).

(** What the loop body of [enforce] has gathered from the payload directories [ids]. *)
Definition scan_of d (root : path) (protected : gset text) (ids : list text) : Scan :=
  MkScan (candidate_of d root <$> filter (fun id => id ∉ protected) ids)
    (list_to_map ((fun id => (id, bytes_of d root id)) <$> ids))
    (zsum (bytes_of d root <$> ids)) (zsum (bytes_of d root <$> filter (fun id => id ∈ protected) ids))
    (zsum (entries_of d root <$> ids)).

(** ** Scanning *)

Lemma file_bytes_u64 d p : is_u64 (file_bytes d p).
Proof. unfold file_bytes. destruct (stat d p) as [|[]]; ulia. Qed.

Lemma payload_bytes_u64 d p : is_u64 (payload_bytes d p).
Proof.
  unfold payload_bytes. pose proof (zsum_nonneg (file_bytes d) (filter (fun q => is_file d q = true) (payload_entries d p))).
  pose proof (fun q => file_bytes_u64 d q). unfold is_u64 in *.
  assert (0 <= zsum (file_bytes d <$> filter (fun q => is_file d q = true) (payload_entries d p))); [|lia]. apply H0. intros. apply H1.
Qed.

Lemma stored_file_size_ok d p : file_readable d p -> stored_file_size d p = Ok (file_bytes d p).
Proof.
  unfold file_readable, stored_file_size, file_bytes. destruct (stat d p) as [e|[s b]]; intros [_ Hs].
  - by rewrite Hs.
  - f_equal. change (U64_MAX / 512) with 36028797018963967. zcases; lia.
Qed.

Lemma inspect_entry_ok d s q : file_readable d q -> s.2 + 1 <= maximum_payload_entries ->
  inspect_entry d s q = Ok (if is_file d q then saturating_add s.1 (file_bytes d q) else s.1, s.2 + 1).
Proof.
  intros Hq Hl. unfold inspect_entry, is_file. destruct (Z.ltb_spec maximum_payload_entries (s.2 + 1)); [lia|].
  pose proof Hq as [Hst _]. destruct (symlink_status d q) as [e ty]. simpl in Hst |- *. subst e.
  destruct (bool_decide_reflect (ty = ft_regular)); simpl; [|done]. by rewrite stored_file_size_ok.
Qed.

(** A directory is measured as the sum of its files, and its entries are counted. *)
Lemma inspect_fold d (entries : list path) (size inspected : Z) :
  Forall (file_readable d) entries -> is_u64 size -> 0 <= inspected -> inspected + Z.of_nat (length entries) <= maximum_payload_entries ->
  fold_result (inspect_entry d) (size, inspected) entries =
    Ok (Z.min U64_MAX (size + zsum (file_bytes d <$> filter (fun q => is_file d q = true) entries)), inspected + Z.of_nat (length entries)).
Proof.
  revert size inspected. induction entries as [|q l IH]; intros size inspected Hf Hs Hi Hl.
  - simpl. do 2 f_equal; ulia.
  - apply Forall_cons in Hf as [Hq Hf]. cbn [fold_result length] in *. rewrite inspect_entry_ok by (done || simpl; lia).
    cbn [mbind result_bind fst snd]. pose proof (file_bytes_u64 d q) as Hb. rewrite filter_cons.
    destruct (is_file d q) eqn:E.
    + rewrite decide_True by done. rewrite IH; [|done|by apply saturating_add_u64|lia|lia].
      rewrite saturating_add_min by done. rewrite fmap_cons, zsum_cons.
      pose proof (zsum_nonneg (file_bytes d) (filter (fun q => is_file d q = true) l) ltac:(intros y _; apply (file_bytes_u64 d y))).
      do 2 f_equal; ulia.
    + rewrite decide_False by done. rewrite IH by (done || lia). do 2 f_equal; lia.
Qed.

Lemma directory_size_ok d p inspected :
  payload_readable d p -> 0 <= inspected -> inspected + Z.of_nat (length (payload_entries d p)) <= maximum_payload_entries ->
  directory_size d p inspected = Ok (payload_bytes d p, inspected + Z.of_nat (length (payload_entries d p))).
Proof.
  unfold payload_readable, payload_bytes, payload_entries, directory_size.
  destruct (recursive_directory_iterator d p) as [[e|] l]; intros [Hf Hb] Hi Hl.
  - rewrite Hb. simpl. by rewrite Z.add_0_r.
  - unfold for_each. rewrite inspect_fold by (done || ulia). cbn [mbind result_bind]. by rewrite Hb.
Qed.

(** The loop over the root gathers what the visitor gathers from the payloads. *)
Lemma visit_fold {S} d (root : path) (visit : S -> text -> path -> result S) (gathered : list text -> S) (names : list text) :
  Z.of_nat (length names) <= maximum_payload_directories ->
  (forall id, id ∈ names -> (symlink_status d (root ++ [id])).1 = None /\
     (canonical_torrent_id id = true -> (symlink_status d (root ++ [id])).2 = ft_directory)) ->
  (forall ids id rest, torrents names = ids ++ id :: rest -> visit (gathered ids) id (root ++ [id]) = Ok (gathered (ids ++ [id]))) ->
  fold_result (visit_entry d root visit) (0, gathered []) names = Ok (Z.of_nat (length names), gathered (torrents names)).
Proof.
  induction names as [|id names IH] using rev_ind; intros Hl Hs Hv; [done|].
  rewrite length_app in *. simpl in Hl. rewrite fold_result_app, IH; [..|lia|set_solver|].
  - cbn [mbind result_bind fold_result]. unfold visit_entry. cbn [fst snd].
    destruct (Z.ltb_spec maximum_payload_directories (Z.of_nat (length names) + 1)); [lia|].
    destruct (Hs id) as [H1 H2]; [set_solver|]. destruct (symlink_status d (root ++ [id])) as [e ty]. simpl in H1, H2. subst e.
    unfold torrents in *. rewrite filter_app, filter_cons, filter_nil in *. destruct (canonical_torrent_id id); simpl negb; cbv iota.
    + rewrite decide_True in * by done. rewrite H2 by done. simpl negb. cbv iota. rewrite (Hv _ _ [] eq_refl).
      cbn [mbind result_bind]. do 2 f_equal. simpl. lia.
    + rewrite decide_False by done. rewrite app_nil_r. cbn [mbind result_bind]. do 2 f_equal. simpl. lia.
  - intros ids i rest E. apply (Hv ids i (rest ++ torrents [id])).
    unfold torrents in *. by rewrite filter_app, E, <-app_assoc.
Qed.

Lemma visit_ok {S} d (root : path) protected (visit : S -> text -> path -> result S) (gathered : list text -> S) :
  scannable d root protected ->
  (forall ids id rest, torrents (names_of d root) = ids ++ id :: rest ->
     visit (gathered ids) id (root ++ [id]) = Ok (gathered (ids ++ [id]))) ->
  visit_torrent_directories d root visit (gathered []) = Ok (gathered (torrents (names_of d root))).
Proof.
  intros Hsc Hv. unfold visit_torrent_directories. rewrite (scan_root _ _ _ Hsc).
  rewrite !bool_decide_false by (by intros [? ?] || done). simpl negb. simpl orb. cbv iota.
  destruct (scan_listing _ _ _ Hsc) as [He Hb]. unfold names_of in *.
  destruct (directory_iterator d root) as [e l] eqn:E. simpl in He, Hb. subst e.
  assert (Hn : listing_items l = names_of d root) by (unfold names_of; by rewrite E).
  unfold for_each. rewrite Hn. cbn [snd] in Hv. rewrite Hn in Hv. rewrite visit_fold; [..|done].
  - cbn [mbind result_bind]. rewrite Hb. cbn [mbind result_bind snd]. by rewrite <-Hn.
  - apply (scan_length _ _ _ Hsc).
  - intros id Hid. split; [by apply (scan_status _ _ _ Hsc)|]. intros Hc.
    destruct (scan_payload _ _ _ Hsc id) as [-> _]; [|done]. apply list_elem_of_filter. done.
Qed.
End spec.
(** ** The order of eviction *)

(** The order of strings: the first byte that differs decides, and a proper prefix is first. *)
Definition lexicographic (a b : text) : Prop :=
  a `prefix_of` b \/ exists p x y a' b', a = p ++ x :: a' /\ b = p ++ y :: b' /\ code x < code y.

(** Least recently used first; equal times in the order of the ids. *)
Definition used_before (x y : Candidate) : Prop :=
  cd_last_use x < cd_last_use y \/ (cd_last_use x = cd_last_use y /\ lexicographic (cd_torrent_id x) (cd_torrent_id y)).

Lemma text_ltb_trans a b c : text_ltb b a = false -> text_ltb c b = false -> text_ltb c a = false.
Proof.
  revert b c. induction a as [|x a IH]; intros [|y b] [|z c]; simpl; try done.
  rewrite !orb_false_iff, !andb_false_iff, !Z.ltb_ge, !Z.eqb_neq. intros [H1 H2] [H3 H4]. split; [lia|].
  destruct (Z.eq_dec (code z) (code x)); [right|by left]. apply (IH b); intuition lia.
Qed.

Lemma text_ltb_total a b : text_ltb a b = false \/ text_ltb b a = false.
Proof.
  revert b. induction a as [|x a IH]; intros [|y b]; simpl; auto.
  rewrite !orb_false_iff, !andb_false_iff, !Z.ltb_ge, !Z.eqb_neq. destruct (IH b), (Z.lt_trichotomy (code x) (code y)) as [|[]]; intuition lia.
Qed.

Lemma text_ltb_lexicographic a b : text_ltb b a = false <-> lexicographic a b.
Proof.
  split.
  - revert b. induction a as [|x a IH]; intros [|y b]; simpl; [by left|left; by eexists|done|].
    rewrite orb_false_iff, andb_false_iff, Z.ltb_ge, Z.eqb_neq. intros [H1 H2].
    destruct (Z.eq_dec (code y) (code x)) as [E|E].
    + apply code_inj in E as ->. destruct (IH b) as [[k ->]|(p & u & v & a' & b' & -> & -> & Hc)]; [by intuition|left; by exists k|].
      right. by exists (x :: p), u, v, a', b'.
    + right. exists [], x, y, a, b. split; [done|]. split; [done|lia].
  - intros [[k ->]|(p & x & y & a' & b' & -> & -> & Hc)].
    + induction a as [|x a IH]; [by destruct k|]. simpl. by rewrite Z.ltb_irrefl, IH, andb_false_r.
    + induction p as [|z p IH]; simpl; [|by rewrite Z.ltb_irrefl, IH, andb_false_r].
      destruct (Z.ltb_spec (code y) (code x)), (Z.eqb_spec (code y) (code x)); [lia..|done].
Qed.

Lemma candidate_le_before x y : candidate_le x y <-> used_before x y.
Proof.
  unfold candidate_le, candidate_before, used_before. rewrite <-text_ltb_lexicographic.
  destruct (Z.eqb_spec (cd_last_use y) (cd_last_use x)) as [->|]; simpl; [intuition lia|]. rewrite Z.ltb_ge. intuition lia.
Qed.

#[global] Instance used_before_trans : Transitive used_before.
Proof.
  intros x y z. unfold used_before. rewrite <-!text_ltb_lexicographic. intros [H1|[H1 H2]] [H3|[H3 H4]]; [left; lia..|].
  right. split; [lia|]. by eapply text_ltb_trans.
Qed.

#[global] Instance candidate_le_total : Total candidate_le.
Proof.
  intros x y. rewrite !candidate_le_before. unfold used_before. rewrite <-!text_ltb_lexicographic.
  destruct (text_ltb_total (cd_torrent_id x) (cd_torrent_id y)), (Z.lt_trichotomy (cd_last_use x) (cd_last_use y)) as [|[]]; auto.
Qed.

Lemma sort_candidates_spec l : sort_candidates l ≡ₚ l /\ StronglySorted used_before (sort_candidates l).
Proof.
  unfold sort_candidates. split; [apply merge_sort_Permutation|].
  assert (Hs : Sorted candidate_le (merge_sort candidate_le l)) by apply (Sorted_merge_sort candidate_le).
  apply Sorted_StronglySorted; [exact used_before_trans|]. revert Hs. generalize (merge_sort candidate_le l). clear l.
  induction 1 as [|x l Hs IH Hh]; constructor; [done|]. inversion Hh; constructor. by apply candidate_le_before.
Qed.

(** ** Evicting *)
Section evicting.
Context {D : Type} `{FileSystem D}.
Implicit Types (d : D) (root : path) (id : text).

(** Removing the candidates [tried] in order; [found] are those that were still there. *)
Inductive removing : D -> list Candidate -> list Candidate -> D -> Prop :=
| removing_nil d : removing d [] [] d
| removing_found d c n d1 tried found d2 :
    remove_all d (cd_path c) = (d1, (None, n)) -> n <> 0 -> removing d1 tried found d2 ->
    removing d (c :: tried) (c :: found) d2
| removing_gone d c d1 tried found d2 :
    remove_all d (cd_path c) = (d1, (None, 0)) -> removing d1 tried found d2 -> removing d (c :: tried) found d2.

Definition sizes_of (cs : list Candidate) : Z := zsum (cd_size <$> cs).

#[export] Instance sizes_of_proper : Proper (Permutation ==> eq) sizes_of.
Proof. intros l1 l2 Hl. unfold sizes_of. by rewrite Hl. Qed.

Lemma sizes_of_app cs1 cs2 : sizes_of (cs1 ++ cs2) = sizes_of cs1 + sizes_of cs2.
Proof. unfold sizes_of. by rewrite fmap_app, zsum_app. Qed.

Lemma sizes_of_nonneg cs : (forall c, c ∈ cs -> 0 <= cd_size c) -> 0 <= sizes_of cs.
Proof. apply zsum_nonneg. Qed.

Definition stats_ok (s : DiskCacheStats) : Prop :=
  is_u64 (capacity_bytes s) /\ is_u64 (evictions s) /\ is_u64 (reclaimed_bytes s).

(** The statistics after evicting [found]. *)
Definition counted (s : DiskCacheStats) (found : list Candidate) (s' : DiskCacheStats) : Prop :=
  capacity_bytes s' = capacity_bytes s /\
  evictions s' = Z.min (evictions s + Z.of_nat (length found)) U64_MAX /\
  reclaimed_bytes s' = Z.min (reclaimed_bytes s + sizes_of found) U64_MAX.

(** What the loop has done when it stops: candidates [tried] in order, [found] removed,
    and none of them after the cache fitted. *)
Record evicted (target used : Z) (s s' : Eviction) (tried found : list Candidate) : Prop := {
  evicted_disk : removing (ev_disk s) tried found (ev_disk s');
  evicted_used : ev_used s' = used - sizes_of found;
  evicted_needed : found = [] \/ target < used - sizes_of (removelast found);
  evicted_sizes : ev_sizes s' = foldl (fun sizes c => delete (cd_torrent_id c) sizes) (ev_sizes s) found;
  evicted_counted : counted (ev_stats s) found (ev_stats s');
}.

Lemma removing_subseteq d tried found d' : removing d tried found d' -> found ⊆ tried.
Proof. induction 1; set_solver. Qed.

Lemma removing_sizes d tried found d' : removing d tried found d' -> (forall c, c ∈ tried -> 0 <= cd_size c) ->
  0 <= sizes_of found <= sizes_of tried.
Proof.
  unfold sizes_of. induction 1 as [d|d c n d1 tried found d2 Hr Hn Hrm IH|d c d1 tried found d2 Hr Hrm IH]; intros Hc; [done|..];
    rewrite !fmap_cons, !zsum_cons; pose proof (Hc c (list_elem_of_here _ _));
    destruct (IH (fun y Hy => Hc y (list_elem_of_further y c tried Hy))); lia.
Qed.
End evicting.

Section evict_candidates.
Context {D : Type} `{FileSystem D}.

Lemma counted_refl s : stats_ok s -> counted s [] s.
Proof. intros (Hc & He & Hr). unfold counted, sizes_of. simpl. ulia. Qed.

Lemma counted_cons s c found s' : stats_ok s -> is_u64 (cd_size c) -> 0 <= sizes_of found ->
  counted (count_eviction s (cd_size c)) found s' -> counted s (c :: found) s'.
Proof.
  intros (Hc & He & Hr) Hs Hf (H1 & H2 & H3). unfold counted, sizes_of in *. rewrite fmap_cons, zsum_cons. simpl in *.
  unfold saturating_increment in H2. rewrite saturating_add_min in H3 by done.
  split; [done|]. split; [zcases; ulia|ulia].
Qed.

Lemma count_eviction_ok s size : stats_ok s -> is_u64 size -> stats_ok (count_eviction s size).
Proof. intros (Hc & He & Hr) Hs. split; [done|]. split; simpl; auto with width. Qed.

(** One more candidate, removed now. *)
Lemma evicted_found target s c d1 n s' tried found :
  stats_ok (ev_stats s) -> is_u64 (cd_size c) -> 0 <= sizes_of found -> target < ev_used s ->
  remove_all (ev_disk s) (cd_path c) = (d1, (None, n)) -> n <> 0 ->
  evicted target (ev_used s - cd_size c)
    (MkEviction d1 (ev_used s - cd_size c) (delete (cd_torrent_id c) (ev_sizes s)) (count_eviction (ev_stats s) (cd_size c)))
    s' tried found ->
  evicted target (ev_used s) s s' (c :: tried) (c :: found).
Proof.
  intros Hok Hs Hf Ht Hrm Hn [H1 H2 H3 H4 H5]. simpl in *. split.
  - by eapply removing_found.
  - rewrite H2. unfold sizes_of. rewrite fmap_cons, zsum_cons. lia.
  - right. destruct found as [|c' found]; [unfold sizes_of; simpl; lia|]. destruct H3 as [H3|H3]; [done|].
    change (removelast (c :: c' :: found)) with (c :: removelast (c' :: found)).
    unfold sizes_of in *. rewrite fmap_cons, zsum_cons. lia.
  - done.
  - by apply counted_cons.
Qed.

(** One more candidate, which was gone already. *)
Lemma evicted_gone target s c d1 s' tried found :
  remove_all (ev_disk s) (cd_path c) = (d1, (None, 0)) ->
  evicted target (ev_used s) (MkEviction d1 (ev_used s) (ev_sizes s) (ev_stats s)) s' tried found ->
  evicted target (ev_used s) s s' (c :: tried) found.
Proof. intros Hrm [H1 H2 H3 H4 H5]. split; [by eapply removing_gone|done..]. Qed.

(** The loop stopped at a removal that failed. *)
Definition eviction_failed (target : Z) (rest : list Candidate) (s1 s' : Eviction) : Prop :=
  exists c rest' err n, rest = c :: rest' /\ target < ev_used s1 /\
    remove_all (ev_disk s1) (cd_path c) = (ev_disk s', (Some err, n)) /\
    ev_used s' = ev_used s1 /\ ev_sizes s' = ev_sizes s1 /\ ev_stats s' = ev_stats s1.

Lemma evict_candidates_spec target cs s :
  (forall c, c ∈ cs -> is_u64 (cd_size c)) -> sizes_of cs <= ev_used s -> stats_ok (ev_stats s) ->
  exists tried rest found s1, cs = tried ++ rest /\ evicted target (ev_used s) s s1 tried found /\
    match evict_candidates target cs s with
    | (s', Ok _) => s' = s1 /\ (rest = [] \/ ev_used s' <= target)
    | (s', Throw e) => exn_kind e = system_error /\ eviction_failed target rest s1 s'
    end.
Proof.
  assert (Hnil : forall s, stats_ok (ev_stats s) -> evicted target (ev_used s) s s [] []).
  { intros s0 Hs0. split; [constructor|unfold sizes_of; simpl; lia|by left|done|by apply counted_refl]. }
  revert s. induction cs as [|c cs IH]; intros s Hc Hu Hok; cbn [evict_candidates].
  - exists [], [], [], s. auto.
  - destruct (Z.leb_spec (ev_used s) target); [exists [], (c :: cs), [], s; auto|].
    pose proof (Hc c (list_elem_of_here _ _)) as Hcs. assert (Hc' : forall c, c ∈ cs -> is_u64 (cd_size c)) by (intros; apply Hc; by right).
    assert (0 <= sizes_of cs) by (apply zsum_nonneg; intros y Hy; apply (Hc' y Hy)).
    unfold sizes_of in Hu. rewrite fmap_cons, zsum_cons in Hu. change (zsum (cd_size <$> cs)) with (sizes_of cs) in Hu.
    destruct (remove_all (ev_disk s) (cd_path c)) as [d1 [[err|] n]] eqn:Erm.
    + rewrite bool_decide_true by done. exists [], (c :: cs), [], s. split; [done|]. split; [by apply Hnil|].
      split; [done|]. by exists c, cs, err, n.
    + rewrite bool_decide_false by (by intros [? ?]). destruct (Z.eqb_spec n 0) as [->|Hn].
      * destruct (IH (MkEviction d1 (ev_used s) (ev_sizes s) (ev_stats s))) as (tried & rest & found & s1 & -> & Hev & Hm); [done|simpl; ulia|done|].
        exists (c :: tried), rest, found, s1. split; [done|]. split; [by eapply evicted_gone|done].
      * destruct (Z.ltb_spec (ev_used s) (cd_size c)); [ulia|].
        edestruct (IH (MkEviction d1 (ev_used s - cd_size c) (delete (cd_torrent_id c) (ev_sizes s)) (count_eviction (ev_stats s) (cd_size c))))
          as (tried & rest & found & s1 & -> & Hev & Hm); [done|simpl; ulia|by apply count_eviction_ok|].
        exists (c :: tried), rest, (c :: found), s1. split; [done|]. split; [|done].
        eapply evicted_found; [done..| |done|done|done|exact Hev].
        apply (removing_sizes _ _ _ _ (evicted_disk _ _ _ _ _ _ Hev)). intros y Hy. apply Hc'. set_solver.
Qed.
End evict_candidates.

(** ** The two scans *)
Section scans.
Context {D : Type} `{FileSystem D}.
Implicit Types (d : D) (root : path) (id : text).

Lemma bytes_of_u64 d root id : is_u64 (bytes_of d root id).
Proof. apply payload_bytes_u64. Qed.

Lemma list_to_map_snoc {A} (l : list (text * A)) k a : k ∉ l.*1 ->
  list_to_map (M := gmap text A) (l ++ [(k, a)]) = <[k := a]> (list_to_map l).
Proof.
  induction l as [|[k' a'] l IH]; intros Hk; [done|]. simpl in *. apply not_elem_of_cons in Hk as [Hne Hk].
  rewrite IH by done. by rewrite insert_insert_ne.
Qed.

(** The table of sizes after one more payload. *)
Lemma emplace_table (f : text -> Z) ids id : id ∉ ids ->
  emplace id (f id) (list_to_map ((fun i => (i, f i)) <$> ids)) = list_to_map ((fun i => (i, f i)) <$> (ids ++ [id])).
Proof.
  intros Hid. rewrite fmap_app. assert (Hn : id ∉ ((fun i => (i, f i)) <$> ids).*1).
  { rewrite <-list_fmap_compose. intros (i & -> & Hi)%list_elem_of_fmap. done. }
  simpl. rewrite list_to_map_snoc by done. unfold emplace. by rewrite not_elem_of_list_to_map_1.
Qed.

Lemma table_lookup (f : text -> Z) ids id :
  (list_to_map ((fun i => (i, f i)) <$> ids) : gmap text Z) !! id = if decide (id ∈ ids) then Some (f id) else None.
Proof.
  induction ids as [|i ids IH]; [done|]. rewrite fmap_cons. simpl. destruct (decide (i = id)) as [->|Hne].
  - rewrite lookup_insert_eq, decide_True by (by left). done.
  - rewrite lookup_insert_ne, IH by done. repeat case_decide; set_solver.
Qed.

(** The facts a scan knows at each payload directory. *)
Lemma scan_step d root protected ids id rest :
  scannable d root protected -> torrents (names_of d root) = ids ++ id :: rest ->
  (id ∉ ids) /\ payload_readable d (root ++ [id]) /\ ((id ∉ protected) -> (last_write_time d (root ++ [id])).1 = None) /\
  zsum (entries_of d root <$> ids) + entries_of d root id <= maximum_payload_entries /\ 0 <= zsum (entries_of d root <$> ids) /\
  zsum (bytes_of d root <$> ids) + bytes_of d root id <= U64_MAX /\ 0 <= zsum (bytes_of d root <$> ids) /\
  zsum (bytes_of d root <$> filter (fun i => i ∈ protected) ids) <= zsum (bytes_of d root <$> ids) /\
  0 <= zsum (bytes_of d root <$> filter (fun i => i ∈ protected) ids).
Proof.
  intros Hsc E. assert (Hnd : NoDup (torrents (names_of d root))) by (apply NoDup_filter, (scan_nodup _ _ _ Hsc)).
  rewrite E in Hnd. apply NoDup_app in Hnd as (_ & Hd & _).
  pose proof (scan_entries _ _ _ Hsc) as He. pose proof (scan_bytes _ _ _ Hsc) as Hb.
  rewrite E, fmap_app, zsum_app, fmap_cons, zsum_cons in He, Hb.
  assert (Hbn : forall l, 0 <= zsum (bytes_of d root <$> l)) by (intros l; apply zsum_nonneg; intros i _; apply (bytes_of_u64 d root i)).
  assert (Hen : forall l, 0 <= zsum (entries_of d root <$> l)) by (intros l; apply zsum_nonneg; intros i _; unfold entries_of; lia).
  pose proof (Hbn rest). pose proof (Hen rest). destruct (scan_payload _ _ _ Hsc id) as (_ & Hp & Hw); [rewrite E; set_solver|].
  split; [intros Hin; apply (Hd id Hin); by left|]. split; [done|]. split; [done|]. split; [lia|]. split; [done|]. split; [lia|]. split; [done|].
  split; [|done]. apply zsum_filter_le. intros i _. apply (bytes_of_u64 d root i).
Qed.

Lemma enforce_visit_ok d root protected ids id rest :
  scannable d root protected -> torrents (names_of d root) = ids ++ id :: rest ->
  enforce_visit d protected (scan_of d root protected ids) id (root ++ [id]) = Ok (scan_of d root protected (ids ++ [id])).
Proof.
  intros Hsc E. destruct (scan_step _ _ _ _ _ _ Hsc E) as (Hid & Hp & Hw & He & He0 & Hb & Hb0 & Hpl & Hp0).
  unfold enforce_visit, scan_of. cbn [sc_inspected sc_used sc_sizes sc_protected sc_candidates].
  rewrite directory_size_ok; [|done|done|exact He]. cbn [mbind result_bind].
  change (payload_bytes d (root ++ [id])) with (bytes_of d root id). pose proof (bytes_of_u64 d root id) as Hu.
  rewrite (emplace_table (bytes_of d root)) by done. rewrite !fmap_app, !zsum_app, !filter_app, !filter_cons, !filter_nil, !fmap_app, !zsum_app.
  rewrite (saturating_add_sum _ _ (zsum (bytes_of d root <$> ids) + bytes_of d root id)) by ulia.
  change (Z.of_nat (length (payload_entries d (root ++ [id])))) with (entries_of d root id).
  destruct (bool_decide_reflect (id ∈ protected)) as [Hin|Hin].
  - rewrite (decide_False (P := id ∉ protected)), (decide_True (P := id ∈ protected)) by (done || tauto).
    rewrite (saturating_add_sum _ _ (zsum (bytes_of d root <$> filter (fun i => i ∈ protected) ids) + bytes_of d root id)) by ulia.
    rewrite app_nil_r. simpl. do 2 f_equal; lia.
  - rewrite (decide_True (P := id ∉ protected)), (decide_False (P := id ∈ protected)) by done.
    specialize (Hw Hin). destruct (last_write_time d (root ++ [id])) as [e w] eqn:Ew. simpl in Hw. subst e.
    simpl. do 2 f_equal; try lia. unfold candidate_of at 3. by rewrite Ew.
Qed.

(** The bytes [measure] counts for a payload: those remembered from the last scan,
    unless it is protected or new. *)
Definition measured_bytes d (m : DiskCacheManager) (protected : gset text) id : Z :=
  match measured_sizes m !! id with
  | Some known => if bool_decide (id ∈ protected) then bytes_of d (payload_root m) id else known
  | None => bytes_of d (payload_root m) id
  end.

Definition is_scanned (m : DiskCacheManager) (protected : gset text) id : bool :=
  bool_decide (id ∈ protected) || negb (bool_decide (is_Some (measured_sizes m !! id))).

Definition measure_scan_of d (m : DiskCacheManager) (protected : gset text) (ids : list text) : Scan :=
  let bytes := measured_bytes d m protected in
  MkScan [] (list_to_map ((fun id => (id, bytes id)) <$> ids))
    (Z.min U64_MAX (zsum (bytes <$> ids))) (Z.min U64_MAX (zsum (bytes <$> filter (fun id => id ∈ protected) ids)))
    (zsum (entries_of d (payload_root m) <$> filter (fun id => is_scanned m protected id = true) ids)).

Definition manager_ok (m : DiskCacheManager) : Prop :=
  stats_ok (stats m) /\ map_Forall (fun _ size => is_u64 size) (measured_sizes m).

Lemma measured_bytes_u64 d m protected id : manager_ok m -> is_u64 (measured_bytes d m protected id).
Proof.
  intros [_ Hm]. unfold measured_bytes. destruct (measured_sizes m !! id) as [known|] eqn:E; [case_bool_decide|]; try apply bytes_of_u64.
  by eapply Hm.
Qed.

(** How large the payload is taken to be, and how many entries that costs. *)
Lemma measure_size d root m protected ids id rest :
  root = payload_root m -> scannable d root protected -> torrents (names_of d root) = ids ++ id :: rest ->
  let n := zsum (entries_of d root <$> filter (fun i => is_scanned m protected i = true) ids) in
  match measured_sizes m !! id with
  | Some known => if bool_decide (id ∈ protected) then directory_size d (root ++ [id]) n else Ok (known, n)
  | None => directory_size d (root ++ [id]) n
  end = Ok (measured_bytes d m protected id,
            zsum (entries_of d root <$> filter (fun i => is_scanned m protected i = true) (ids ++ [id]))).
Proof.
  intros -> Hsc E n. destruct (scan_step _ _ _ _ _ _ Hsc E) as (Hid & Hp & Hw & He & He0 & _).
  assert (Hn : 0 <= n <= zsum (entries_of d (payload_root m) <$> ids)).
  { unfold n. split; [apply zsum_nonneg|apply zsum_filter_le]; intros; unfold entries_of; lia. }
  assert (Hds : directory_size d (payload_root m ++ [id]) n = Ok (bytes_of d (payload_root m) id, n + entries_of d (payload_root m) id)).
  { apply directory_size_ok; [done|lia|]. unfold entries_of in *. lia. }
  rewrite filter_app, filter_cons, filter_nil, fmap_app, zsum_app. unfold measured_bytes.
  destruct (measured_sizes m !! id) as [known|] eqn:Em; [case_bool_decide|]; rewrite ?Hds.
  - rewrite decide_True; [simpl; rewrite Z.add_0_r; done|]. unfold is_scanned. by rewrite bool_decide_true.
  - rewrite decide_False; [simpl; rewrite Z.add_0_r; done|]. unfold is_scanned. rewrite Em, (bool_decide_false (id ∈ protected)), (bool_decide_true (is_Some (Some known))) by done. done.
  - rewrite decide_True; [simpl; rewrite Z.add_0_r; done|]. unfold is_scanned. rewrite Em, (bool_decide_false (is_Some None)) by (by intros [? ?]). by rewrite orb_true_r.
Qed.

Lemma measure_visit_ok d root m protected ids id rest :
  root = payload_root m -> manager_ok m -> scannable d root protected -> torrents (names_of d root) = ids ++ id :: rest ->
  measure_visit d m protected (measure_scan_of d m protected ids) id (root ++ [id]) = Ok (measure_scan_of d m protected (ids ++ [id])).
Proof.
  intros Hroot Hm Hsc E. destruct (scan_step _ _ _ _ _ _ Hsc E) as (Hid & _).
  unfold measure_visit, measure_scan_of. cbn [sc_inspected sc_used sc_sizes sc_protected]. subst root.
  rewrite (measure_size _ _ _ _ _ _ _ eq_refl Hsc E). cbn [mbind result_bind].
  assert (Hb : forall l, 0 <= zsum (measured_bytes d m protected <$> l)) by (intros l; apply zsum_nonneg; intros i _; apply (measured_bytes_u64 d m protected i Hm)).
  pose proof (measured_bytes_u64 d m protected id Hm). rewrite (emplace_table (measured_bytes d m protected)) by done.
  rewrite !saturating_add_step by done. rewrite (filter_app (fun i => i ∈ protected)), (filter_cons (fun i => i ∈ protected)), !fmap_app, !zsum_app, filter_nil.
  case_bool_decide; [rewrite decide_True by done|rewrite decide_False by done]; simpl; rewrite ?Z.add_0_r; done.
Qed.
End scans.

(** ** What a removal can touch *)
Section safety.
Context {D : Type} `{FileSystem D}.
Implicit Types (d : D) (root : path) (id : text).

(** What the calls tell of a path. *)
Definition observe d (q : path) := (symlink_status d q, stat d q, last_write_time d q).

(** The documented effect of [remove_all]: it touches nothing but the path and what is below it. *)
Definition removal_is_local : Prop :=
  forall d p q, ~ p `prefix_of` q -> observe (remove_all d p).1 q = observe d q.

(** The candidate of a real directory of the root that is named by an id and not protected. *)
Definition evictable d root (protected : gset text) (c : Candidate) : Prop :=
  canonical_torrent_id (cd_torrent_id c) = true /\ (cd_torrent_id c ∉ protected) /\
  cd_path c = root ++ [cd_torrent_id c] /\ symlink_status d (cd_path c) = (None, ft_directory).

(** A path that is neither an evictable directory nor below one. *)
Definition out_of_reach d root (protected : gset text) (q : path) : Prop :=
  forall id, canonical_torrent_id id = true -> id ∉ protected -> symlink_status d (root ++ [id]) = (None, ft_directory) ->
  ~ (root ++ [id]) `prefix_of` q.

Lemma for_each_inv {S A} (body : S -> A -> result S) (P : S -> Prop) s entries s' :
  (forall t x t', P t -> body t x = Ok t' -> P t') -> P s -> for_each body s entries = Ok s' -> P s'.
Proof.
  intros Hb Hs. unfold for_each. rewrite bind_Ok. intros (t & Ht & Hl). destruct (listing_breaks entries); [done|].
  injection Hl as <-. eapply fold_result_inv; [|exact Hs|exact Ht]. intros ? ? ? _. apply Hb.
Qed.

(** A property of the visitor's state that every visit of a real, canonical directory keeps. *)
Lemma visit_inv {S} d root (visit : S -> text -> path -> result S) (P : S -> Prop) s s' :
  (forall t id t', canonical_torrent_id id = true -> symlink_status d (root ++ [id]) = (None, ft_directory) ->
     P t -> visit t id (root ++ [id]) = Ok t' -> P t') ->
  P s -> visit_torrent_directories d root visit s = Ok s' -> P s'.
Proof.
  intros Hv Hs. unfold visit_torrent_directories. destruct (symlink_status d root) as [e ty].
  destruct (_ || _); [by intros [= <-]|]. destruct (bool_decide (is_Some e)); [done|]. destruct (negb _); [done|].
  destruct (directory_iterator d root) as [[?|] l]; [done|]. rewrite bind_Ok. intros (t & Ht & [= <-]).
  apply (for_each_inv _ (fun t => P t.2) _ _ _) in Ht; [done| |done].
  intros u id u' Hu. unfold visit_entry. destruct (_ <? _); [done|]. destruct (symlink_status d (root ++ [id])) as [[?|] ty'] eqn:Est; [done|].
  destruct (canonical_torrent_id id) eqn:Ec; simpl negb; cbv iota; [|by intros [= <-]].
  destruct (bool_decide_reflect (ty' = ft_directory)) as [->|]; [|done]. simpl negb. cbv iota.
  rewrite bind_Ok. intros (v & Hvis & [= <-]). by eapply Hv.
Qed.

Lemma enforce_scan_evictable d root protected scan :
  visit_torrent_directories d root (enforce_visit d protected) (MkScan [] ∅ 0 0 0) = Ok scan ->
  Forall (evictable d root protected) (sc_candidates scan).
Proof.
  apply (visit_inv _ _ _ (fun s => Forall (evictable d root protected) (sc_candidates s))); [|constructor].
  intros t id t' Hc Hst Ht. unfold enforce_visit. rewrite bind_Ok. intros ([size inspected] & _ & Hv). revert Hv.
  destruct (bool_decide_reflect (id ∈ protected)); [by intros [= <-]|].
  destruct (last_write_time d (root ++ [id])) as [[?|] w]; [done|]. intros [= <-]. simpl.
  apply Forall_app. split; [done|]. apply Forall_singleton. repeat split; simpl; done.
Qed.

(** The loop keeps what no candidate's path is a prefix of, whatever its calls return. *)
Lemma evict_candidates_local target cs s q (Hlocal : removal_is_local) :
  Forall (fun c => ~ cd_path c `prefix_of` q) cs ->
  let s' := (evict_candidates target cs s).1 in
  observe (ev_disk s') q = observe (ev_disk s) q /\ capacity_bytes (ev_stats s') = capacity_bytes (ev_stats s).
Proof.
  intros Hq. revert s. induction Hq as [|c cs Hc Hq IH]; intros s; cbn [evict_candidates]; [done|].
  destruct (_ <=? _); [done|]. pose proof (Hlocal (ev_disk s) (cd_path c) q Hc) as Hd.
  destruct (remove_all (ev_disk s) (cd_path c)) as [d1 [e n]]. simpl in Hd. destruct (bool_decide (is_Some e)); [done|].
  destruct (n =? 0); [destruct (IH (MkEviction d1 (ev_used s) (ev_sizes s) (ev_stats s))) as [H1 H2]; by rewrite H1, H2|].
  match goal with |- context [evict_candidates target cs ?s1] => destruct (IH s1) as [H1 H2]; by rewrite H1, H2 end.
Qed.
End safety.

(** ** Properties *)
Section properties.
Context {D : Type} `{FileSystem D}.
Implicit Types (d : D) (id : text).

Lemma deleted_lookup (found : list Candidate) (sizes : gmap text Z) id :
  foldl (fun sizes c => delete (cd_torrent_id c) sizes) sizes found !! id =
  if bool_decide (id ∈ cd_torrent_id <$> found) then None else sizes !! id.
Proof.
  revert sizes. induction found as [|c found IH]; intros sizes; [done|]. simpl. rewrite IH.
  destruct (decide (cd_torrent_id c = id)) as [<-|Hne].
  - rewrite lookup_delete_eq, (bool_decide_true (cd_torrent_id c ∈ cd_torrent_id c :: _)) by (by left). by case_bool_decide.
  - rewrite lookup_delete_ne by done. repeat case_bool_decide; set_solver.
Qed.

(** What is removed is a part of the candidates. *)
Lemma found_within (cands : list Candidate) d d' tried rest found : (forall c, c ∈ cands -> is_u64 (cd_size c)) ->
  tried ++ rest ≡ₚ cands -> removing d tried found d' -> 0 <= sizes_of found <= sizes_of cands.
Proof.
  intros Hpos Hperm Hrm. assert (Hpos' : forall c, c ∈ tried ++ rest -> 0 <= cd_size c) by (intros c; rewrite Hperm; apply Hpos).
  rewrite <-Hperm, sizes_of_app. apply removing_sizes in Hrm; [|intros; apply Hpos'; set_solver].
  assert (0 <= sizes_of rest) by (apply sizes_of_nonneg; intros; apply Hpos'; set_solver). lia.
Qed.

(** C18. [enforce] is least-recently-used eviction: on a disk whose calls succeed it measures
    every payload, and removes unprotected payloads in the order of their last use, no more
    and no fewer than needed to reach the target; its statistics and its table of sizes
    account for exactly what was removed.  It fails only where a removal fails. *)
Theorem enforce_correct (m : DiskCacheManager) (d : D) (protected : gset text) (requested : Z)
    (Hm : manager_ok m) (Hd : scannable d (payload_root m) protected) :
  let root := payload_root m in
  let payloads := torrents (names_of d root) in
  let total := zsum (bytes_of d root <$> payloads) in
  let target := Z.min requested (capacity_bytes (stats m)) in
  exists tried rest found d1,
    tried ++ rest ≡ₚ candidate_of d root <$> filter (fun id => id ∉ protected) payloads /\
    StronglySorted used_before (tried ++ rest) /\
    removing d tried found d1 /\
    (found = [] \/ target < total - sizes_of (removelast found)) /\
    match enforce m d protected requested with
    | (d', m', Ok st) =>
      d' = d1 /\ used_bytes st = total - sizes_of found /\ 0 <= used_bytes st /\
      (rest = [] \/ used_bytes st <= target) /\
      protected_bytes st = zsum (bytes_of d root <$> filter (fun id => id ∈ protected) payloads) /\
      (over_budget st = true <-> capacity_bytes st < used_bytes st) /\ counted (stats m) found st /\ stats m' = st /\
      forall id, measured_sizes m' !! id =
        if decide (id ∈ payloads /\ id ∉ (cd_torrent_id <$> found)) then Some (bytes_of d root id) else None
    | (d', m', Throw e) =>
      exn_kind e = system_error /\ exists c rest' err n,
        rest = c :: rest' /\ target < total - sizes_of found /\ remove_all d1 (cd_path c) = (d', (Some err, n))
    end.
Proof.
  intros root payloads total target.
  pose proof (visit_ok d root protected (enforce_visit d protected) (scan_of d root protected) Hd
    (fun ids id rest => enforce_visit_ok d root protected ids id rest Hd)) as Hscan.
  change (scan_of d root protected []) with (MkScan [] ∅ 0 0 0) in Hscan. fold payloads in Hscan.
  set (cands := candidate_of d root <$> filter (fun id => id ∉ protected) payloads).
  destruct (sort_candidates_spec cands) as [Hperm Hsort].
  assert (Htot : sizes_of cands <= total).
  { unfold sizes_of, cands. rewrite <-list_fmap_compose. apply (zsum_filter_le (bytes_of d root)). intros i _. apply (bytes_of_u64 d root i). }
  assert (Hpos : forall c, c ∈ cands -> is_u64 (cd_size c)) by (intros c (i & -> & _)%list_elem_of_fmap; apply bytes_of_u64).
  destruct (evict_candidates_spec target (sort_candidates cands) (MkEviction d total (sc_sizes (scan_of d root protected payloads)) (stats m)))
    as (tried & rest & found & s1 & E & Hev & Hres).
  { intros c. rewrite Hperm. apply Hpos. }
  { rewrite Hperm. done. }
  { apply Hm. }
  rewrite E in Hperm, Hsort. exists tried, rest, found, (ev_disk s1).
  split; [done|]. split; [done|]. split; [apply (evicted_disk _ _ _ _ _ _ Hev)|]. split; [apply (evicted_needed _ _ _ _ _ _ Hev)|].
  unfold enforce. fold root target. rewrite Hscan. cbn [scan_of sc_candidates sc_used sc_sizes sc_protected] in *. fold cands total in Hres |- *.
  destruct (evict_candidates target (sort_candidates cands) _) as [s' [[]|e]].
  - destruct Hres as [-> Hrest]. split; [done|]. cbn [report used_bytes protected_bytes over_budget capacity_bytes].
    pose proof (evicted_used _ _ _ _ _ _ Hev) as Hu. simpl in Hu.
    pose proof (found_within cands d (ev_disk s1) tried rest found Hpos Hperm (evicted_disk _ _ _ _ _ _ Hev)).
    split; [done|]. split; [lia|]. split; [done|]. split; [done|]. split; [apply Z.ltb_lt|]. split; [apply (evicted_counted _ _ _ _ _ _ Hev)|].
    split; [done|]. intros id. cbn [measured_sizes]. rewrite (evicted_sizes _ _ _ _ _ _ Hev), deleted_lookup. cbn [ev_sizes].
    rewrite table_lookup. case_bool_decide; repeat case_decide; done || tauto.
  - destruct Hres as [He (c & rest' & err & n & -> & Ht & Hrm & _)]. split; [done|]. exists c, rest', err, n.
    pose proof (evicted_used _ _ _ _ _ _ Hev) as Hu. cbn [ev_used] in Hu. by rewrite <-Hu.
Qed.

(** Whatever the file system answers, errors included, [enforce] leaves alone every path
    but real directories directly under the root that are named by a torrent id and not
    protected; symbolic links, other names and protected payloads survive, and the
    capacity does not change. *)
Theorem enforce_spares (Hlocal : removal_is_local) (m : DiskCacheManager) (d : D) (protected : gset text) (requested : Z) (q : path)
    (Hq : out_of_reach d (payload_root m) protected q) :
  let '(d', m', _) := enforce m d protected requested in
  observe d' q = observe d q /\ payload_root m' = payload_root m /\ capacity_bytes (stats m') = capacity_bytes (stats m).
Proof.
  unfold enforce. destruct (visit_torrent_directories _ _ _ _) as [scan|e] eqn:Escan; [|done].
  apply enforce_scan_evictable in Escan.
  destruct (evict_candidates_local (Z.min requested (capacity_bytes (stats m))) (sort_candidates (sc_candidates scan))
    (MkEviction d (sc_used scan) (sc_sizes scan) (stats m)) q Hlocal) as [H1 H2].
  { destruct (sort_candidates_spec (sc_candidates scan)) as [Hp _]. rewrite Hp. eapply Forall_impl; [exact Escan|].
    intros c (Hc & Hpr & Hpath & Hst). rewrite Hpath in *. by apply Hq. }
  destruct (evict_candidates _ _ _) as [s' [[]|e]]; done.
Qed.

(** [measure] removes nothing and trusts the table of the last scan: it counts the
    remembered size of a payload that is known and not protected, and measures the others;
    the table then holds what it counted, and the counters of evictions do not move. *)
Theorem measure_correct (m : DiskCacheManager) (d : D) (protected : gset text)
    (Hm : manager_ok m) (Hd : scannable d (payload_root m) protected) :
  let payloads := torrents (names_of d (payload_root m)) in
  let bytes := measured_bytes d m protected in
  exists m' st, measure m d protected = (m', Ok st) /\ stats m' = st /\ payload_root m' = payload_root m /\
    used_bytes st = Z.min U64_MAX (zsum (bytes <$> payloads)) /\
    protected_bytes st = Z.min U64_MAX (zsum (bytes <$> filter (fun id => id ∈ protected) payloads)) /\
    (over_budget st = true <-> capacity_bytes st < used_bytes st) /\
    capacity_bytes st = capacity_bytes (stats m) /\ evictions st = evictions (stats m) /\ reclaimed_bytes st = reclaimed_bytes (stats m) /\
    (forall id, measured_sizes m' !! id = if decide (id ∈ payloads) then Some (bytes id) else None) /\
    ((forall id known, id ∈ payloads -> measured_sizes m !! id = Some known -> known = bytes_of d (payload_root m) id) ->
     used_bytes st = zsum (bytes_of d (payload_root m) <$> payloads)).
Proof.
  intros payloads bytes.
  pose proof (visit_ok d (payload_root m) protected (measure_visit d m protected) (measure_scan_of d m protected) Hd
    (fun ids id rest => measure_visit_ok d (payload_root m) m protected ids id rest eq_refl Hm Hd)) as Hscan.
  change (measure_scan_of d m protected []) with (MkScan [] ∅ 0 0 0) in Hscan. fold payloads in Hscan.
  unfold measure. rewrite Hscan. do 2 eexists. split; [done|]. cbn.
  do 4 (split; [done|]). split; [apply Z.ltb_lt|]. do 3 (split; [done|]).
  split; [intros id; apply (table_lookup bytes)|]. intros Hknown.
  replace (bytes <$> payloads) with (bytes_of d (payload_root m) <$> payloads); [pose proof (scan_bytes _ _ _ Hd) as Hb; fold payloads in Hb|].
  { apply Z.min_r. exact Hb. }
  apply list_fmap_ext. intros i id Hi%list_elem_of_lookup_2. unfold bytes, measured_bytes.
  destruct (measured_sizes m !! id) as [known|] eqn:E; [|done]. case_bool_decide; [done|]. by apply eq_sym, Hknown.
Qed.

(** [touch] makes the payload the most recent one: when the time is written, no payload
    last used before [now] follows it in the order of eviction. *)
Lemma touch_makes_recent (m : DiskCacheManager) (d d' : D) id now :
  touch m d id now = (d', Ok tt) -> d' <> d ->
  canonical_torrent_id id = true /\ symlink_status d (payload_root m ++ [id]) = (None, ft_directory) /\
  set_last_write_time d (payload_root m ++ [id]) now = (d', None) /\
  ((last_write_time d' (payload_root m ++ [id])).2 = now ->
   forall c, cd_last_use c < now -> ~ used_before (candidate_of d' (payload_root m) id) c).
Proof.
  unfold touch. destruct (canonical_torrent_id id); [|done]. simpl negb. cbv iota.
  destruct (symlink_status d (payload_root m ++ [id])) as [e ty]. destruct (_ || _) eqn:Eo; [by intros [= <-]|].
  destruct (bool_decide_reflect (is_Some e)) as [|He]; [done|]. destruct (bool_decide_reflect (ty = ft_directory)) as [->|]; [|done].
  simpl negb. cbv iota. destruct (set_last_write_time _ _ _) as [d1 [?|]] eqn:Ew; [done|]. intros [= <-] _.
  destruct e; [exfalso; eauto|]. do 3 (split; [done|]). intros Hnow c Hc. unfold used_before, candidate_of. simpl. lia.
Qed.
End properties.

(** ** A concrete file system and the witnesses *)
Module Memory.

(** A disk is the list of its files: the path, its type, its length and its time. *)
Record node := MkNode { nd_path : path; nd_type : file_type; nd_size : Z; nd_time : Z }.
Abbreviation disk := (list node).

Definition lookup_path (d : disk) (p : path) : option node := head (filter (fun n => nd_path n = p) d).
Definition below (p : path) (n : node) : Prop := p `prefix_of` nd_path n.
#[export] Instance below_dec p n : Decision (below p n) := decide (p `prefix_of` nd_path n).

Definition child_name (p : path) (n : node) : option text :=
  if decide (removelast (nd_path n) = p /\ nd_path n <> []) then last (nd_path n) else None.

#[global] Instance memory_fs : FileSystem disk := {|
  symlink_status d p := match lookup_path d p with Some n => (None, nd_type n) | None => (Some ENOENT, ft_not_found) end;
  directory_iterator d p := (None, MkListing (omap (child_name p) d) false);
  recursive_directory_iterator d p := (None, MkListing (nd_path <$> filter (fun n => below p n /\ nd_path n <> p) d) false);
  stat d p := match lookup_path d p with Some n => inr (nd_size n, (nd_size n + 511) / 512) | None => inl ENOENT end;
  last_write_time d p := match lookup_path d p with Some n => (None, nd_time n) | None => (Some ENOENT, 0) end;
  set_last_write_time d p t :=
    ((fun n => if decide (nd_path n = p) then MkNode (nd_path n) (nd_type n) (nd_size n) t else n) <$> d, None);
  remove_all d p := (filter (fun n => ~ below p n) d, (None, Z.of_nat (length (filter (below p) d))));
|}.

Definition id_of (z : Z) : text := replicate 40 (chr z).
Definition demo_root : path := [str "cache"].
Definition demo_disk : disk := [
  MkNode demo_root ft_directory 0 0;
  MkNode (demo_root ++ [id_of 97]) ft_directory 0 30; MkNode (demo_root ++ [id_of 97; str "a"]) ft_regular 1000 0;
  MkNode (demo_root ++ [id_of 98]) ft_directory 0 10; MkNode (demo_root ++ [id_of 98; str "b"]) ft_regular 2000 0;
  MkNode (demo_root ++ [id_of 99]) ft_directory 0 20; MkNode (demo_root ++ [id_of 99; str "c"]) ft_regular 4000 0;
  MkNode (demo_root ++ [str "notes"]) ft_regular 5 0].
Definition demo_manager : DiskCacheManager := disk_cache_manager demo_root 6000.
Definition demo_protected : gset text := {[ id_of 98 ]}.

(** The oldest payload is protected: the next one goes, and that is enough. *)
Example enforce_demo :
  let '(d, m, r) := enforce demo_manager demo_disk demo_protected 5000 in
  names_of d demo_root = [id_of 97; id_of 98; str "notes"] /\
  r = Ok (MkStats 6000 3000 2000 1 4000 false) /\ measured_sizes m !! id_of 97 = Some 1000 /\ measured_sizes m !! id_of 99 = None.
Proof. vm_compute. repeat split. Qed.

Lemma demo_scannable : scannable demo_disk demo_root demo_protected.
Proof.
  assert (Hn : names_of demo_disk demo_root = [id_of 97; id_of 98; id_of 99; str "notes"]) by (vm_compute; reflexivity).
  assert (Ht : torrents (names_of demo_disk demo_root) = [id_of 97; id_of 98; id_of 99]) by (vm_compute; reflexivity).
  split; [reflexivity|split; reflexivity| |apply Z.leb_le; vm_compute; reflexivity|..].
  - rewrite Hn. apply (bool_decide_unpack _). vm_compute. exact I.
  - rewrite Hn. apply Forall_forall. repeat constructor.
  - rewrite Ht. apply Forall_forall. repeat (apply Forall_cons; split); [..|constructor].
    all: split; [vm_compute; reflexivity|]; split; [|intros _; vm_compute; reflexivity].
    all: split; [|vm_compute; reflexivity]; apply (bool_decide_unpack (Forall _ _)); vm_compute; exact I.
  - apply Z.leb_le. vm_compute. reflexivity.
  - apply Z.leb_le. vm_compute. reflexivity.
Qed.

Lemma demo_manager_ok : manager_ok demo_manager.
Proof. split; [|by apply map_Forall_empty]. repeat split; simpl; done. Qed.

(** Removing what is below [p] does not change what is found at [q]. *)
Lemma memory_removal_is_local : removal_is_local (D := disk).
Proof.
  intros d p q Hq. assert (Hl : lookup_path (remove_all d p).1 q = lookup_path d q).
  { unfold lookup_path. change (remove_all d p).1 with (filter (fun n => ~ below p n) d). rewrite list_filter_filter. f_equal. apply filter_ext_in.
    intros n _. split; [by intros []|]. intros Hn. split; [done|]. unfold below. by rewrite Hn. }
  unfold observe. simpl in *. by rewrite Hl.
Qed.

Lemma demo_out_of_reach : out_of_reach demo_disk demo_root demo_protected (demo_root ++ [id_of 98; str "b"]).
Proof. intros id _ Hp _ [k Hk]. simplify_eq/=. apply Hp. set_solver. Qed.
End Memory.

Lemma enforce_correct_witness :
  exists tried rest found d1, removing Memory.demo_disk tried found d1 /\
    candidate_of Memory.demo_disk Memory.demo_root (Memory.id_of 99) ∈ tried ++ rest.
Proof.
  destruct (enforce_correct Memory.demo_manager Memory.demo_disk Memory.demo_protected 5000 Memory.demo_manager_ok Memory.demo_scannable)
    as (tried & rest & found & d1 & Hp & _ & Hr & _).
  exists tried, rest, found, d1. split; [exact Hr|]. rewrite Hp. apply list_elem_of_fmap. exists (Memory.id_of 99).
  split; [reflexivity|]. apply (bool_decide_unpack _). vm_compute. exact I.
Defined.
