(* ===== verification/AtomicFile.v ===== *)
(** State files: src/storage/atomic_file.cpp and .hpp (the POSIX branch), over the calls
    of [Posix].  The main theorem follows a write through every world it passes: a reader,
    and a crash, always find the old contents or the new ones, whole. *)
From stdpp Require Import prelude strings list functions.
From Stdlib Require Import ZArith Lia Ascii.
From S2P Require Import Prelude Text Posix.

(** ** Paths *)

Definition SLASH : ascii := chr 47.

(** The text after the last slash; [path::filename]. *)
Fixpoint filename (p : text) : text :=
  match p with
  | [] => []
  | c :: p' => if bool_decide (SLASH ∈ p) then filename p' else p
  end.

(** The text up to the last slash, without it and the slashes before it ([path::parent_path]);
    the root is its own text. *)
Fixpoint strip_slashes (reversed : text) : text :=
  match reversed with c :: r => if Ascii.eqb c SLASH then strip_slashes r else reversed | [] => [] end.
Definition parent_path (p : text) : text :=
  let before := take (length p - length (filename p)) p in
  match before, strip_slashes (rev before) with
  | [], _ => []
  | _ :: _, [] => [SLASH]
  | _ :: _, r => rev r
  end.

Definition temporary_path (p : text) : text := p ++ str ".tmp".

(** ** The code *)
Section code.
Context {W : Type} `{Posix W}.

Definition throw_system_error {A} (operation : string) : io W A := raise system_error operation.

(** The loop of [write_all]; [contents] is what remains from [offset] on. *)
Fixpoint write_all (fuel : nat) (file : Z) (contents : text) : io W unit :=
  match fuel with
  | O => diverge
  | S fuel =>
    match contents with
    | [] => mret tt
    | _ :: _ =>
      r ← call (fun w => px_write w file contents);
      match r with
      | inl errno => if errno =? EINTR then write_all fuel file contents else throw_system_error "write state file"
      | inr O => raise runtime_error "state file write made no progress"
      | inr n => write_all fuel file (drop n contents)
      end
    end
  end.

Definition sync_parent_directory (destination : text) : io W unit :=
  let parent := match parent_path destination with [] => str "." | p => p end in
  directory ← call (fun w => px_open_directory w parent);
  match directory with
  | inl _ => throw_system_error "open state directory"
  | inr directory =>
    synced ← call (fun w => px_fsync w directory);
    match synced with
    | Some _ => _ ← call (fun w => px_close w directory); throw_system_error "flush state directory"
    | None =>
      closed ← call (fun w => px_close w directory);
      match closed with Some _ => throw_system_error "close state directory" | None => mret tt end
    end
  end.

Definition commit_file (fuel : nat) (temporary destination contents : text) : io W unit :=
  file ← call (fun w => px_create_exclusive w temporary);
  match file with
  | inl _ => throw_system_error "create state file"
  | inr file =>
    _ ← cleanup (_ ← write_all fuel file contents;
                 synced ← call (fun w => px_fsync w file);
                 match synced with Some _ => throw_system_error "flush state file" | None => mret tt end)
                (call (fun w => px_close w file));
    closed ← call (fun w => px_close w file);
    match closed with
    | Some _ => throw_system_error "close state file"
    | None =>
      renamed ← call (fun w => px_rename w temporary destination);
      match renamed with
      | Some _ => throw_system_error "replace state file"
      | None => sync_parent_directory destination
      end
    end
  end.

Definition write_file_atomically (fuel : nat) (path contents : text) : io W unit :=
  if bool_decide (path = []) || bool_decide (filename path = []) then
    raise invalid_argument "state file path must include a filename"
  else
    let parent := parent_path path in
    created ← (if bool_decide (parent = []) then mret None else call (fun w => px_create_directories w parent));
    match created with
    | Some _ => throw_system_error "cannot create directories"
    | None =>
      let temporary := temporary_path path in
      _ ← call (fun w => px_remove w temporary);
      cleanup (commit_file fuel temporary path contents) (call (fun w => px_remove w temporary))
    end.

Definition read_bounded_file (path : text) (maximum_size : Z) : io W (option text) :=
  status ← ask (fun w => px_symlink_status w path);
  let '(error, type) := (status : error_code * file_type) in
  if bool_decide (error = Some ENOENT) || bool_decide (type = ft_not_found) then mret None
  else if bool_decide (is_Some error) then throw_system_error "inspect state file"
  else if negb (bool_decide (type = ft_regular)) then raise runtime_error "state file is not a regular file"
  else
    size ← ask (fun w => px_file_size w path);
    let '(error, size) := (size : error_code * Z) in
    if bool_decide (is_Some error) then throw_system_error "inspect state file"
    else if maximum_size <? size then raise runtime_error "state file exceeds configured size limit"
    else if I64_MAX <? size then raise runtime_error "state file exceeds stream size limit"
    else
      input ← ask (fun w => px_read_stream w path (Z.to_nat size));
      match input with
      | None => raise runtime_error "open state file for reading failed"
      | Some (contents, another) =>
        if negb (size =? 0) && negb (Z.of_nat (length contents) =? size) then raise runtime_error "state file changed while being read"
        else if (another : bool) then raise runtime_error "state file changed while being read"
        else mret (Some contents)
      end.

Definition remove_file_if_present (path : text) : io W unit :=
  error ← call (fun w => px_remove w path);
  match error with
  | Some errno => if errno =? ENOENT then mret tt else throw_system_error "remove state file"
  | None => mret tt
  end.
End code.

(** ** The file system that the theorems assume *)

(** What is seen of a world: the file a name stands for and its bytes; the names and bytes
    that a crash at this point may leave; the open descriptors; and how many more calls
    will be interrupted. *)
Class FileView (W : Type) := {
  fv_entry : W -> text -> option nat;
  fv_data : W -> nat -> text;
  fv_crash_entry : W -> text -> option nat -> Prop;
  fv_crash_data : W -> nat -> text -> Prop;
  fv_file : W -> Z -> option nat;
  fv_directory : W -> Z -> option text;
  fv_pending : W -> nat;
}.

(** Two names of one directory. *)
Definition separate (a b : text) : Prop := parent_path a = parent_path b /\ filename a <> filename b.

Section laws.
Context {W : Type} `{Posix W, FileView W}.
Implicit Types (w : W) (p q : text) (i j : nat) (fd : Z).

(** From [w] to [w'] the name stands for the same file and a crash leaves nothing new. *)
Definition same_name w w' p : Prop :=
  fv_entry w' p = fv_entry w p /\ forall e, fv_crash_entry w' p e -> fv_crash_entry w p e.
Definition same_data w w' i : Prop :=
  fv_data w' i = fv_data w i /\ forall t, fv_crash_data w' i t -> fv_crash_data w i t.
Definition later w w' : Prop := (fv_pending w' <= fv_pending w)%nat.
Definition unchanged w w' : Prop :=
  (forall p, same_name w w' p) /\ (forall i, same_data w w' i) /\
  (forall fd, fv_file w' fd = fv_file w fd) /\ (forall fd, fv_directory w' fd = fv_directory w fd) /\ later w w'.

(** A file that a name stands for, now or after a crash. *)
Definition refers w p i : Prop := fv_entry w p = Some i \/ fv_crash_entry w p (Some i).

(** The documented behaviour of the calls, for names of one directory. *)
Record file_laws : Prop := {
  (* creating makes an empty file that no other name stands for *)
  law_create w p w' r : px_create_exclusive w p = (w', r) ->
    match r with
    | inl _ => unchanged w w'
    | inr fd => exists i, fv_file w' fd = Some i /\ fv_entry w' p = Some i /\ fv_data w' i = [] /\
        (forall q, separate p q -> ~ refers w q i /\ same_name w w' q) /\ (forall j, j <> i -> same_data w w' j) /\ later w w'
    end;
  (* writing appends a part of the bytes to the file of the descriptor *)
  law_write w fd t w' r i : px_write w fd t = (w', r) -> fv_file w fd = Some i ->
    match r with
    | inl errno => unchanged w w' /\ (errno = EINTR -> (fv_pending w' < fv_pending w)%nat)
    | inr n => (n <= length t)%nat /\ fv_data w' i = fv_data w i ++ take n t /\ fv_file w' fd = Some i /\
        (forall q, same_name w w' q) /\ (forall j, j <> i -> same_data w w' j) /\ later w w'
    end;
  (* a flushed file survives a crash with its bytes *)
  law_fsync_file w fd w' r i : px_fsync w fd = (w', r) -> fv_file w fd = Some i ->
    fv_data w' i = fv_data w i /\ fv_file w' fd = Some i /\ (forall q, same_name w w' q) /\ (forall j, j <> i -> same_data w w' j) /\
    (r = None -> forall t, fv_crash_data w' i t -> t = fv_data w i);
  (* a flushed directory survives a crash with its names *)
  law_fsync_directory w fd w' r d : px_fsync w fd = (w', r) -> fv_directory w fd = Some d ->
    unchanged w w' /\
    (r = None -> forall q e, parent_path q = d \/ (parent_path q = [] /\ d = str ".") -> fv_crash_entry w' q e -> e = fv_entry w q);
  law_open_directory w d w' r : px_open_directory w d = (w', r) ->
    (forall p, same_name w w' p) /\ (forall i, same_data w w' i) /\
    match r with inl _ => True | inr fd => fv_directory w' fd = Some d end;
  law_close w fd w' r : px_close w fd = (w', r) -> (forall p, same_name w w' p) /\ (forall i, same_data w w' i);
  (* renaming is atomic: a crash leaves the old file or the new one under the name *)
  law_rename w a b w' r : px_rename w a b = (w', r) -> separate a b ->
    (forall i, same_data w w' i) /\
    match r with
    | Some _ => forall q, same_name w w' q
    | None => fv_entry w' b = fv_entry w a /\ fv_entry w' a = None /\
        forall e, fv_crash_entry w' b e -> fv_crash_entry w b e \/ e = fv_entry w a
    end;
  law_remove w p w' r : px_remove w p = (w', r) ->
    (forall q, separate p q -> same_name w w' q) /\ (forall i, same_data w w' i) /\ later w w';
  law_create_directories w p w' r : px_create_directories w p = (w', r) -> unchanged w w';
}.

(** What a reader finds under a name, and what a crash may leave there. *)
Definition visible w p : option text := fv_data w <$> fv_entry w p.
Definition may_survive w p (c : option text) : Prop :=
  exists e, fv_crash_entry w p e /\ match e with None => c = None | Some i => exists t, fv_crash_data w i t /\ c = Some t end.

(** The world is safe for a file being replaced by [contents] since [w0]. *)
Definition old_or_new (w0 : W) p (contents : text) (w : W) : Prop :=
  (visible w p = visible w0 p \/ visible w p = Some contents) /\
  forall c, may_survive w p c -> may_survive w0 p c \/ c = Some contents.
End laws.

(** ** The phases of a write *)
Section phases.
Context {W : Type} `{Posix W, FileView W}.
Context (laws : file_laws (W := W)) (w0 : W) (path contents : text).
Implicit Types (w : W) (i j : nat) (fd : Z).

Let tmp := temporary_path path.
Context (Hsep : separate tmp path).
Let good := old_or_new w0 path contents.

(** Nothing has happened to the destination. *)
Definition untouched w : Prop := same_name w0 w path /\ forall j, refers w path j -> same_data w0 w j.

(** The temporary file [i] is open and holds [written]. *)
Definition writing i fd (written : text) w : Prop :=
  untouched w /\ fv_file w fd = Some i /\ fv_entry w tmp = Some i /\ fv_data w i = written /\ ~ refers w path i.

(** The temporary file holds the contents and a crash cannot change them. *)
Definition staged i w : Prop :=
  untouched w /\ fv_entry w tmp = Some i /\ fv_data w i = contents /\ (forall t, fv_crash_data w i t -> t = contents).

(** The destination is the new file; a crash may still bring the old name back. *)
Definition replaced i w : Prop :=
  fv_entry w path = Some i /\ fv_data w i = contents /\ (forall t, fv_crash_data w i t -> t = contents) /\
  forall e, fv_crash_entry w path e -> e = Some i \/ (fv_crash_entry w0 path e /\ forall j, e = Some j -> same_data w0 w j).

Definition durable w : Prop := visible w path = Some contents /\ forall c, may_survive w path c -> c = Some contents.
Definition settled w : Prop := untouched w \/ exists i, replaced i w.

Lemma same_data_trans w1 w2 w3 i : same_data w1 w2 i -> same_data w2 w3 i -> same_data w1 w3 i.
Proof. intros [H1 H2] [H3 H4]. split; [by rewrite H3|auto]. Qed.

Lemma same_name_trans w1 w2 w3 p : same_name w1 w2 p -> same_name w2 w3 p -> same_name w1 w3 p.
Proof. intros [H1 H2] [H3 H4]. split; [by rewrite H3|auto]. Qed.

Lemma refers_same w w' p i : same_name w w' p -> refers w' p i -> refers w p i.
Proof. intros [H1 H2] [Hr|Hr]; [left; congruence|right; auto]. Qed.

Lemma untouched_step w w' : untouched w -> same_name w w' path -> (forall j, refers w path j -> same_data w w' j) -> untouched w'.
Proof.
  intros [Hn Hd] Hn' Hd'. split; [by eapply same_name_trans|]. intros j Hj%(refers_same w w'); [|done].
  eapply same_data_trans; [by apply Hd|by apply Hd'].
Qed.

Lemma untouched_good w : untouched w -> good w.
Proof.
  intros [[He Hc] Hd]. split.
  - left. unfold visible. rewrite He. destruct (fv_entry w0 path) as [i|] eqn:E; [|done]. simpl. f_equal. apply Hd. by left.
  - intros c (e & Hce & Hm). left. exists e. split; [auto|]. destruct e as [i|]; [|done].
    destruct Hm as (t & Ht & ->). exists t. split; [|done]. apply (Hd i); [by right|done].
Qed.

Lemma replaced_good i w : replaced i w -> good w.
Proof.
  intros (He & Hd & Hs & Hc). split; [right; unfold visible; rewrite He; simpl; by rewrite Hd|].
  intros c (e & Hce & Hm). destruct (Hc e Hce) as [->|[Hold Hsame]].
  - right. destruct Hm as (t & Ht & ->). by rewrite (Hs t).
  - left. exists e. split; [done|]. destruct e as [j|]; [|done]. destruct Hm as (t & Ht & ->). exists t. split; [by apply (Hsame j)|done].
Qed.

Lemma settled_good w : settled w -> good w.
Proof. intros [?|[i ?]]; [by apply untouched_good|by eapply replaced_good]. Qed.

(** A call that keeps the name and all the bytes keeps the phase. *)
Lemma replaced_step i w w' : replaced i w -> same_name w w' path -> (forall j, same_data w w' j) -> replaced i w'.
Proof.
  intros (He & Hd & Hs & Hc) [Hn1 Hn2] Hsame. destruct (Hsame i) as [Hd1 Hd2]. repeat split; [congruence|congruence|auto|].
  intros e Hce. destruct (Hc e) as [|[? Hj]]; [auto|by left|]. right. split; [done|]. intros j ->.
  eapply same_data_trans; [by apply Hj|done].
Qed.

Lemma settled_step w w' : settled w -> same_name w w' path -> (forall j, same_data w w' j) -> settled w'.
Proof.
  intros [Hu|[i Hr]] Hn Hd; [left; by eapply untouched_step|right; exists i; by eapply replaced_step].
Qed.

Lemma writing_step i fd written w w' : writing i fd written w -> unchanged w w' -> writing i fd written w'.
Proof.
  intros (Hu & Hf & He & Hd & Hr) (Hn & Hdd & Hff & _). split; [by eapply untouched_step|].
  split; [by rewrite Hff|]. split; [by destruct (Hn tmp) as [-> _]|]. split; [by destruct (Hdd i) as [-> _]|].
  intros Href. by apply Hr, (refers_same w w').
Qed.

(** The file of the descriptor changes, nothing else. *)
Lemma writing_file i fd written written' w w' :
  writing i fd written w -> fv_data w' i = written' -> fv_file w' fd = Some i -> (forall q, same_name w w' q) ->
  (forall j, j <> i -> same_data w w' j) -> writing i fd written' w'.
Proof.
  intros (Hu & Hf & He & Hd & Hr) Hd' Hf' Hn Hj. split.
  - eapply untouched_step; [done|done|]. intros j Href. apply Hj. by intros ->.
  - split; [done|]. split; [by destruct (Hn tmp) as [-> _]|]. split; [done|]. intros Href. by apply Hr, (refers_same w w').
Qed.

(** [write_all] writes all the bytes, or throws with the destination untouched. *)
Lemma write_all_triple fuel i fd rest written n :
  contents = written ++ rest -> (length rest + n < fuel)%nat ->
  triple good (fun w => writing i fd written w /\ (fv_pending w <= n)%nat) (write_all fuel fd rest)
    (fun r w => match r with Ok _ => writing i fd contents w | Throw _ => untouched w end).
Proof.
  revert rest written n. induction fuel as [|fuel IH]; intros rest written n Hc Hf; [lia|]. cbn [write_all].
  destruct rest as [|c rest].
  { apply triple_ret. intros w [Hw _]. by rewrite Hc, app_nil_r. }
  set (r := c :: rest) in *.
  eapply (triple_bind _ _ _ _ (fun a w => match a with
    | Ok (inl errno) => writing i fd written w /\ (fv_pending w <= n)%nat /\ (errno = EINTR -> (fv_pending w < n)%nat)
    | Ok (inr k) => writing i fd (written ++ take k r) w /\ (k <= length r)%nat /\ (fv_pending w <= n)%nat
    | Throw _ => False end)); [|..|done].
  - apply (triple_call good _ (fun w => px_write w fd r)). intros w w' a [Hw Hp] E. pose proof Hw as (Hu & Hff & _ & Hd & _).
    pose proof (law_write laws _ _ _ _ _ _ E Hff) as Hl. destruct a as [errno|k].
    + destruct Hl as [Hun Hint]. pose proof Hun as (_ & _ & _ & _ & Hlater). unfold later in Hlater.
      pose proof (writing_step _ _ _ _ _ Hw Hun) as Hw'. split; [|apply untouched_good, Hw'].
      split; [done|]. split; [lia|]. intros ?%Hint. lia.
    + destruct Hl as (Hk & Hd' & Hf' & Hn & Hj & Hlater). unfold later in Hlater. rewrite Hd in Hd'.
      pose proof (writing_file _ _ _ _ _ _ Hw Hd' Hf' Hn Hj) as Hw'. split; [|apply untouched_good, Hw'].
      split; [done|]. split; [done|lia].
  - intros [errno|[|k]].
    + destruct (Z.eqb_spec errno EINTR) as [->|].
      * destruct n as [|n]; [intros w h (_ & _ & Hlt) _; specialize (Hlt eq_refl); lia|].
        eapply triple_conseq; [apply (IH r written n); [done|lia]|intros w (Hw & _ & Hlt); specialize (Hlt eq_refl); split; [done|lia]|done].
      * apply triple_raise. intros w (Hw & _). apply Hw.
    + apply triple_raise. intros w (Hw & _). apply Hw.
    + destruct (decide (S k <= length r)%nat); [|intros w h (_ & Hk & _) _; lia].
      eapply triple_conseq; [apply (IH (drop (S k) r) (written ++ take (S k) r) n)|..|done].
      * rewrite <-app_assoc, take_drop. done.
      * rewrite length_drop. unfold r in *. simpl in *. lia.
      * intros w (Hw & _ & Hp). done.
Qed.

(** A call that keeps every name and byte. *)
Lemma triple_keep {A} (f : W -> W * A) :
  (forall w w' a, f w = (w', a) -> (forall p, same_name w w' p) /\ (forall j, same_data w w' j)) ->
  forall i, triple good (replaced i) (call (fun w : W * list W => record (f w.1) w.2))
    (fun r w => match r with Ok _ => replaced i w | Throw _ => False end).
Proof.
  intros Hf i. apply triple_call. intros w w' a Hw E. destruct (Hf w w' a E) as [Hn Hd].
  assert (replaced i w') by (by eapply replaced_step). split; [done|]. by eapply replaced_good.
Qed.

(** Flushing the directory makes the replacement durable. *)
Lemma sync_parent_triple i :
  triple good (replaced i) (sync_parent_directory path)
    (fun r w => match r with Ok _ => durable w | Throw _ => replaced i w end).
Proof.
  unfold sync_parent_directory. set (parent := match parent_path path with [] => _ | _ => _ end).
  eapply (triple_bind _ _ _ _ (fun a w => replaced i w /\ match a with Ok (inr fd) => fv_directory w fd = Some parent | _ => True end)); [|..|by intros e w []].
  { apply (triple_call good _ (fun w => px_open_directory w parent)). intros w w' a Hw E.
    destruct (law_open_directory laws _ _ _ _ E) as (Hn & Hd & Hdir).
    assert (replaced i w') by (by eapply replaced_step). split; [split; [done|by destruct a]|by eapply replaced_good]. }
  intros [e|fd]; [apply triple_raise; by intros w []|].
  eapply (triple_bind _ _ _ _ (fun a w => replaced i w /\ match a with
    | Ok None => forall e, fv_crash_entry w path e -> e = fv_entry w path | _ => True end)); [|..|by intros e w []].
  { apply (triple_call good _ (fun w => px_fsync w fd)). intros w w' a [Hw Hdir] E.
    destruct (law_fsync_directory laws _ _ _ _ _ E Hdir) as [(Hn & Hd & _) Hsync].
    assert (replaced i w') by (by eapply replaced_step). split; [|by eapply replaced_good]. split; [done|].
    destruct a; [done|]. intros e He. destruct (Hn path) as [-> _]. apply (Hsync eq_refl path); [|done].
    unfold parent. destruct (parent_path path); auto. }
  intros [e|].
  - eapply (triple_bind _ _ _ _ (fun _ w => replaced i w)); [|intros a; apply triple_raise; by intros w|by intros].
    eapply triple_conseq; [apply (triple_keep (fun w => px_close w fd) (fun w w' a => law_close laws w fd w' a))|by intros w []|].
    by intros [a|e'] w.
  - eapply (triple_bind _ _ _ _ (fun _ w => replaced i w /\ forall e, fv_crash_entry w path e -> e = fv_entry w path)); [|..|by intros e w []].
    { apply (triple_call good _ (fun w => px_close w fd)). intros w w' a [Hw Hsync] E. destruct (law_close laws _ _ _ _ E) as [Hn Hd].
      assert (replaced i w') by (by eapply replaced_step). split; [|by eapply replaced_good]. split; [done|].
      intros e He. destruct (Hn path) as [Hn1 Hn2]. rewrite Hn1. auto. }
    intros [e|]; [apply triple_raise; by intros w []|]. apply triple_ret. intros w [(He & Hd & Hs & _) Hsync].
    split; [unfold visible; rewrite He; simpl; by rewrite Hd|]. intros c (e & Hce & Hm). rewrite (Hsync e Hce), He in Hm.
    destruct Hm as (t & Ht & ->). by rewrite (Hs t).
Qed.

(** Writing and flushing the temporary file. *)
Lemma stage_triple fuel i fd n :
  (length contents + n < fuel)%nat ->
  triple good (fun w => writing i fd [] w /\ (fv_pending w <= n)%nat)
    (_ ← write_all (W := W * list W) fuel fd contents;
     synced ← call (fun w : W * list W => px_fsync w fd);
     match synced with Some _ => throw_system_error "flush state file" | None => mret tt end)
    (fun r w => match r with Ok _ => staged i w | Throw _ => untouched w end).
Proof.
  intros Hf. eapply triple_bind; [by apply (write_all_triple _ _ _ contents [] n)|..|done]. intros []. simpl.
  eapply (triple_bind _ _ _ _ (fun a w => match a with Ok None => staged i w | Ok _ => untouched w | Throw _ => False end)); [|..|done].
  - apply (triple_call good _ (fun w => px_fsync w fd)). intros w w' a Hw E. pose proof Hw as (_ & Hff & _ & Hd & _).
    destruct (law_fsync_file laws _ _ _ _ _ E Hff) as (Hd' & Hf' & Hn & Hj & Hs). rewrite Hd in Hd', Hs.
    destruct (writing_file _ _ _ _ _ _ Hw Hd' Hf' Hn Hj) as (Hu & _ & He & Hd2 & _). split; [|by apply untouched_good].
    destruct a; [done|]. repeat split; try done; [by apply Hu..|]. by apply Hs.
  - intros [e|]; [by apply triple_raise|by apply triple_ret].
Qed.

Lemma close_triple (P : W -> Prop) fd :
  (forall w, P w -> untouched w) -> (forall w w', P w -> untouched w' -> same_name w w' tmp -> (forall j, same_data w w' j) -> P w') ->
  triple good P (call (fun w : W * list W => px_close w fd)) (fun r w => match r with Ok _ => P w | Throw _ => False end).
Proof.
  intros Hu Hk. apply (triple_call good _ (fun w => px_close w fd)). intros w w' a Hw E.
  destruct (law_close laws _ _ _ _ E) as [Hn Hd]. assert (untouched w') by (eapply untouched_step; eauto).
  split; [|by apply untouched_good]. by eapply Hk.
Qed.

Lemma commit_triple fuel n :
  (length contents + n < fuel)%nat ->
  triple good (fun w => untouched w /\ (fv_pending w <= n)%nat) (commit_file fuel tmp path contents)
    (fun r w => match r with Ok _ => durable w | Throw _ => settled w end).
Proof.
  intros Hf. unfold commit_file.
  eapply (triple_bind _ _ _ _ (fun a w => match a with
    | Ok (inl _) => untouched w | Ok (inr fd) => exists i, writing i fd [] w /\ (fv_pending w <= n)%nat | Throw _ => False end)); [|..|done].
  { apply (triple_call good _ (fun w => px_create_exclusive w tmp)). intros w w' a [Hu Hp] E.
    pose proof (law_create laws _ _ _ _ E) as Hl. destruct a as [e|fd].
    - destruct Hl as (Hn & Hd & _). assert (untouched w') by (by eapply untouched_step). split; [done|by apply untouched_good].
    - destruct Hl as (i & Hff & He & Hd & Hq & Hj & Hlater). unfold later in Hlater. destruct (Hq path Hsep) as [Hr Hn].
      assert (Hu' : untouched w'). { eapply untouched_step; [done|done|]. intros j Href. apply Hj. by intros ->. }
      split; [|by apply untouched_good]. exists i. split; [|lia]. repeat split; try done; [by apply Hu'..|].
      intros Href. by apply Hr, (refers_same w w'). }
  intros [e|fd]; [apply triple_raise; intros w Hw; by left|].
  eapply (triple_bind _ _ _ _ (fun a w => match a with Ok _ => exists i, staged i w | Throw _ => untouched w end)); [|..|intros e w Hw; by left].
  { intros w h (i & Hw & Hp) Hg. revert w h Hg Hw Hp. enough (Ht : triple good (fun w => writing i fd [] w /\ (fv_pending w <= n)%nat) _ _)
      by (intros w h Hg Hw Hp; apply (Ht w h); done).
    eapply triple_cleanup; [by apply stage_triple|intros a w Hw; by exists i|]. intros e.
    eapply triple_conseq; [apply (close_triple untouched); [done|auto]|done|]. by intros [a|?] w. }
  intros []. eapply (triple_bind _ _ _ _ (fun a w => match a with Ok _ => exists i, staged i w | Throw _ => False end)); [|..|done].
  { eapply triple_conseq; [apply (close_triple (fun w => exists i, staged i w))|done|by intros [a|?] w].
    - by intros w [i [Hu _]].
    - intros w w' (i & Hu & He & Hd & Hs) Hu' [Hn _] Hd'. exists i. destruct (Hd' i) as [H1 H2]. split; [done|]. split; [congruence|].
      split; [congruence|auto]. }
  intros [e|]; [apply triple_raise; intros w (i & Hu & _); by left|].
  eapply (triple_bind _ _ _ _ (fun a w => match a with Ok None => exists i, replaced i w | Ok _ => untouched w | Throw _ => False end)); [|..|done].
  { apply (triple_call good _ (fun w => px_rename w tmp path)). intros w w' a (i & Hu & He & Hd & Hs) E.
    destruct (law_rename laws _ _ _ _ _ E Hsep) as [Hsame Hl]. destruct a as [e|].
    - assert (untouched w') by (by eapply untouched_step). split; [done|by apply untouched_good].
    - destruct Hl as (He' & _ & Hc). rewrite He in He', Hc. destruct (Hsame i) as [H1 H2].
      assert (replaced i w'). { repeat split; [done|congruence|auto|]. intros e [Hce| ->]%Hc; [right|by left]. destruct Hu as [[_ Hu1] Hu2].
        split; [auto|]. intros j ->. eapply same_data_trans; [apply Hu2; by right|done]. }
      split; [by exists i|by eapply replaced_good]. }
  intros [e|]; [apply triple_raise; intros w Hw; by left|].
  intros w h [i Hw] Hg. destruct (sync_parent_triple i w h Hw Hg) as (w' & h' & r & Hr & Hq & Hg').
  exists w', h', r. split; [done|]. split; [|done]. destruct r; [done|]. right. by exists i.
Qed.
End phases.

(** ** Names *)

Lemma filename_app p s : SLASH ∉ s -> filename p <> [] -> filename (p ++ s) = filename p ++ s.
Proof.
  intros Hs. induction p as [|c p IH]; intros Hp; [done|]. simpl in *.
  destruct (bool_decide_reflect (SLASH ∈ c :: p)) as [Hin|Hin].
  - rewrite bool_decide_true by set_solver. by apply IH.
  - rewrite bool_decide_false by set_solver. done.
Qed.

Lemma filename_length p : (length (filename p) <= length p)%nat.
Proof. induction p as [|c p IH]; simpl; [done|]. case_bool_decide; simpl; lia. Qed.

Lemma parent_path_app p s : SLASH ∉ s -> filename p <> [] -> parent_path (p ++ s) = parent_path p.
Proof.
  intros Hs Hp. unfold parent_path. rewrite filename_app, !length_app by done. pose proof (filename_length p).
  rewrite take_app_le by lia. replace (_ - _)%nat with (length p - length (filename p))%nat by lia. done.
Qed.

Lemma filename_name p s : SLASH ∉ s -> filename p = [] -> filename (p ++ s) = s.
Proof.
  intros Hs. induction p as [|c p IH]; intros Hp.
  - destruct s as [|c s]; [done|]. simpl. by rewrite bool_decide_false.
  - simpl in *. destruct (bool_decide_reflect (SLASH ∈ c :: p)) as [Hin|Hin]; [|done]. rewrite bool_decide_true by set_solver. by apply IH.
Qed.

(** The temporary name is another name of the same directory. *)
Lemma temporary_separate p : filename p <> [] -> separate (temporary_path p) p.
Proof.
  intros Hp. assert (Hs : SLASH ∉ str ".tmp") by (apply (bool_decide_unpack _); vm_compute; exact I).
  split; unfold temporary_path; [by apply parent_path_app|]. rewrite filename_app by done.
  intros E%(f_equal length). rewrite length_app in E. simpl in E. lia.
Qed.

(** ** Properties *)
Section properties.
Context {W : Type} `{Posix W, FileView W}.

(** A call that neither the names of the directory nor the bytes feel. *)
Lemma untouched_call (laws : file_laws (W := W)) w0 p contents n {A} (f : W -> W * A) :
  (forall w w' a, f w = (w', a) -> same_name w w' p /\ (forall j, same_data w w' j) /\ later w w') ->
  triple (old_or_new w0 p contents) (fun w => untouched w0 p w /\ (fv_pending w <= n)%nat)
    (call (fun w : W * list W => record (f w.1) w.2))
    (fun r w => match r with Ok _ => untouched w0 p w /\ (fv_pending w <= n)%nat | Throw _ => False end).
Proof.
  intros Hf. apply triple_call. intros w w' a [Hu Hp] E. destruct (Hf w w' a E) as (Hn & Hd & Hl). unfold later in Hl.
  assert (untouched w0 p w') by (by eapply untouched_step). split; [split; [done|lia]|by apply untouched_good].
Qed.

Lemma write_triple (laws : file_laws (W := W)) w0 p contents fuel n :
  filename p <> [] -> (length contents + n < fuel)%nat ->
  triple (old_or_new w0 p contents) (fun w => untouched w0 p w /\ (fv_pending w <= n)%nat)
    (write_file_atomically fuel p contents)
    (fun r w => match r with Ok _ => durable p contents w | Throw _ => settled w0 p contents w end).
Proof.
  intros Hp Hf. pose proof (temporary_separate p Hp) as Hsep. unfold write_file_atomically.
  rewrite !bool_decide_false by (done || by intros ->). simpl orb. cbv iota.
  set (P := fun w => untouched w0 p w /\ (fv_pending w <= n)%nat).
  eapply (triple_bind _ _ _ _ (fun r w => match r with Ok _ => P w | Throw _ => False end)); [|..|done].
  { destruct (bool_decide (parent_path p = [])); [by apply triple_ret|].
    apply (untouched_call laws w0 p contents n (fun w => px_create_directories w (parent_path p))). intros w w' a E.
    by destruct (law_create_directories laws _ _ _ _ E) as (Hn & Hd & _ & _ & Hl). }
  intros [e|]; [apply triple_raise; intros w [Hu _]; by left|].
  eapply (triple_bind _ _ _ _ (fun r w => match r with Ok _ => P w | Throw _ => False end)); [|..|done].
  { apply (untouched_call laws w0 p contents n (fun w => px_remove w (temporary_path p))). intros w w' a E.
    destruct (law_remove laws _ _ _ _ E) as (Hn & Hd & Hl). auto. }
  intros r. eapply triple_cleanup; [by apply (commit_triple laws w0 p contents Hsep fuel n)|done|]. intros e.
  apply (triple_call _ _ (fun w => px_remove w (temporary_path p))). intros w w' a Hw E.
  destruct (law_remove laws _ _ _ _ E) as (Hn & Hd & Hl).
  assert (settled w0 p contents w') by (eapply settled_step; eauto). split; [done|by apply settled_good].
Qed.

(** C12. Replacing a file is atomic.  Along every world that [write_file_atomically] passes
    through, errors and interrupted calls included, a reader finds the old contents or the
    whole new ones, and so does a restart after a crash; when it returns, a crash can no
    longer bring the old contents back.  It always ends: the fuel of its loop is used only
    by bytes written and calls interrupted. *)
Theorem write_is_atomic (laws : file_laws (W := W)) (w0 : W) (path contents : text) (fuel : nat)
    (Hf : (length contents + fv_pending w0 < fuel)%nat) :
  (filename path = [] -> exists what, write_file_atomically fuel path contents (w0, [w0]) = Some ((w0, [w0]), throw invalid_argument what)) /\
  (filename path <> [] -> exists w past r, write_file_atomically fuel path contents (w0, [w0]) = Some ((w, past), r) /\
    Forall (old_or_new w0 path contents) past /\
    match r with
    | Ok _ => visible w path = Some contents /\ forall c, may_survive w path c -> c = Some contents
    | Throw _ => old_or_new w0 path contents w
    end).
Proof.
  split.
  - intros Hp. unfold write_file_atomically. rewrite (bool_decide_true (filename path = [])), orb_true_r by done. by eexists.
  - intros Hp. assert (Hu : untouched w0 path w0) by (repeat split; auto).
    destruct (write_triple laws w0 path contents fuel (fv_pending w0) Hp Hf w0 [w0]) as (w & h & r & E & Hr & Hg).
    + done.
    + apply Forall_singleton. by apply untouched_good.
    + exists w, h, r. split; [done|]. split; [done|]. destruct r; [exact Hr|by apply settled_good].
Qed.

(** Without the record. *)
Lemma write_all_agrees fuel fd contents : agrees (write_all fuel fd contents) (write_all fuel fd contents).
Proof.
  revert contents. induction fuel as [|fuel IH]; intros [|c contents]; [done..|]. cbn [write_all].
  apply agrees_bind; [apply (agrees_call (fun w => px_write w fd (c :: contents)))|].
  intros [errno|[|n]]; [destruct (errno =? EINTR); [apply IH|apply agrees_raise]|apply agrees_raise|apply IH].
Qed.

Lemma sync_parent_agrees p : agrees (sync_parent_directory p) (sync_parent_directory p).
Proof.
  unfold sync_parent_directory, throw_system_error. set (parent := match parent_path p with [] => _ | q => q end).
  apply agrees_bind; [apply (agrees_call (fun w => px_open_directory w parent))|].
  intros [e|fd]; [apply agrees_raise|]. apply agrees_bind; [apply (agrees_call (fun w => px_fsync w fd))|].
  intros [e|]; (apply agrees_bind; [apply (agrees_call (fun w => px_close w fd))|]).
  - intros _. apply agrees_raise.
  - intros [e|]; [apply agrees_raise|apply agrees_ret].
Qed.

Lemma commit_agrees fuel a b contents : agrees (commit_file fuel a b contents) (commit_file fuel a b contents).
Proof.
  unfold commit_file, throw_system_error. apply agrees_bind; [apply (agrees_call (fun w => px_create_exclusive w a))|].
  intros [e|fd]; [apply agrees_raise|]. apply agrees_bind.
  - apply agrees_cleanup; [|apply (agrees_call (fun w => px_close w fd))]. apply agrees_bind; [apply write_all_agrees|]. intros _.
    apply agrees_bind; [apply (agrees_call (fun w => px_fsync w fd))|]. intros [e|]; [apply agrees_raise|apply agrees_ret].
  - intros _. apply agrees_bind; [apply (agrees_call (fun w => px_close w fd))|]. intros [e|]; [apply agrees_raise|].
    apply agrees_bind; [apply (agrees_call (fun w => px_rename w a b))|]. intros [e|]; [apply agrees_raise|apply sync_parent_agrees].
Qed.

Lemma write_agrees fuel p contents : agrees (write_file_atomically fuel p contents) (write_file_atomically fuel p contents).
Proof.
  unfold write_file_atomically, throw_system_error. destruct (_ || _); [apply agrees_raise|]. cbv zeta. apply agrees_bind.
  - destruct (bool_decide _); [apply agrees_ret|apply (agrees_call (fun w => px_create_directories w (parent_path p)))].
  - intros [e|]; [apply agrees_raise|]. apply agrees_bind; [apply (agrees_call (fun w => px_remove w (temporary_path p)))|]. intros _.
    apply agrees_cleanup; [apply commit_agrees|apply (agrees_call (fun w => px_remove w (temporary_path p)))].
Qed.

(** The end of a write: it ends, and left the new contents for good, or the old or the new ones. *)
Lemma write_ends (laws : file_laws (W := W)) (w : W) (p contents : text) (fuel : nat) :
  filename p <> [] -> (length contents + fv_pending w < fuel)%nat ->
  exists w' r, write_file_atomically fuel p contents w = Some (w', r) /\
    match r with Ok _ => durable p contents w' | Throw _ => old_or_new w p contents w' end.
Proof.
  intros Hp Hf. assert (Hu : untouched w p w) by (repeat split; auto).
  destruct (write_triple laws w p contents fuel (fv_pending w) Hp Hf w [w]) as (w' & h & r & E & Hr & _);
    [done|apply Forall_singleton; by apply untouched_good|].
  pose proof (write_agrees fuel p contents (w, [w])) as Ha. rewrite E in Ha. exists w', r. split; [exact Ha|].
  destruct r; [exact Hr|by apply settled_good].
Qed.

(** What the reading calls return for a regular file. *)
Definition reads_visible (p : text) (w : W) : Prop :=
  forall t, visible w p = Some t ->
  px_symlink_status w p = (None, ft_regular) /\ px_file_size w p = (None, Z.of_nat (length t)) /\
  forall n, px_read_stream w p n = Some (take n t, (n <? length t)%nat).

Lemma read_bounded_visible (p t : text) (maximum : Z) (w : W) :
  reads_visible p w -> visible w p = Some t ->
  read_bounded_file p maximum w =
    Some (w, if Z.of_nat (length t) <=? Z.min maximum I64_MAX then Ok (Some t)
             else if maximum <? Z.of_nat (length t) then throw runtime_error "state file exceeds configured size limit"
             else throw runtime_error "state file exceeds stream size limit").
Proof.
  intros Hr Hv. destruct (Hr t Hv) as (Hs & Hz & Hd). unfold read_bounded_file, ask, mbind, io_bind. rewrite Hs. simpl. rewrite Hz. simpl.
  destruct (Z.ltb_spec maximum (Z.of_nat (length t))); [by rewrite (proj2 (Z.leb_gt _ _)) by lia|].
  destruct (Z.ltb_spec I64_MAX (Z.of_nat (length t))); [by rewrite (proj2 (Z.leb_gt _ _)) by lia|].
  rewrite (proj2 (Z.leb_le _ _)) by lia. rewrite Hd, Nat2Z.id, firstn_all, Z.eqb_refl, Nat.ltb_irrefl. by rewrite andb_false_r.
Qed.

(** A file written with [write_file_atomically] is what [read_bounded_file] returns, when
    it is within the limit; a longer one is refused and never cut. *)
Theorem write_then_read (laws : file_laws (W := W)) (w0 w : W) (past : list W) (path contents : text) (fuel : nat) (maximum : Z)
    (Hf : (length contents + fv_pending w0 < fuel)%nat)
    (Hw : write_file_atomically fuel path contents (w0, [w0]) = Some ((w, past), Ok tt)) (Hr : reads_visible path w) :
  (Z.of_nat (length contents) <= Z.min maximum I64_MAX -> read_bounded_file path maximum w = Some (w, Ok (Some contents))) /\
  (maximum < Z.of_nat (length contents) ->
     read_bounded_file path maximum w = Some (w, throw runtime_error "state file exceeds configured size limit")).
Proof.
  assert (Hp : filename path <> []).
  { intros Hp. unfold write_file_atomically in Hw. rewrite (bool_decide_true (filename path = [])), orb_true_r in Hw by done. done. }
  assert (Hu : untouched w0 path w0) by (repeat split; auto).
  destruct (write_triple laws w0 path contents fuel (fv_pending w0) Hp Hf w0 [w0]) as (w1 & h & r & E & Hd & _);
    [done|apply Forall_singleton; by apply untouched_good|].
  rewrite Hw in E. injection E as <- <- <-. destruct Hd as [Hv _]. rewrite (read_bounded_visible _ _ maximum _ Hr Hv).
  split; intros Hl; [by rewrite (proj2 (Z.leb_le _ _)) by lia|].
  rewrite (proj2 (Z.leb_gt _ _)) by lia. by rewrite (proj2 (Z.ltb_lt _ _)).
Qed.
End properties.

(** ** A concrete file system and the witnesses *)
Module Memory.

(** The names are a log of what each name stood for since the last flush of the directory,
    newest first: a crash may go back to any of them.  The bytes of a file that was not
    flushed may be anything after a crash.  A write takes at most four bytes and the first
    [w_signals] writes are interrupted. *)
Record world := MkWorld {
  w_names : list (text * option nat); w_data : nat -> text; w_flushed : nat -> bool;
  w_files : Z -> option nat; w_directories : Z -> option text; w_next : Z; w_signals : nat }.

Fixpoint current (names : list (text * option nat)) (p : text) : option nat :=
  match names with [] => None | (q, e) :: names' => if decide (q = p) then e else current names' p end.
Definition fresh_inode (names : list (text * option nat)) : nat := S (foldr (fun n m => Nat.max (default 0%nat n.2) m) 0%nat names).
Definition synced (names : list (text * option nat)) : list (text * option nat) :=
  (fun p => (p, current names p)) <$> names.*1.

Definition with_names (w : world) names := MkWorld names (w_data w) (w_flushed w) (w_files w) (w_directories w) (w_next w) (w_signals w).
Definition bad_descriptor : Z := 9.

#[global] Instance memory : Posix world := {|
  px_open_read w p := (w, inl ENOENT);
  px_open_directory w p :=
    (MkWorld (w_names w) (w_data w) (w_flushed w) (w_files w) (<[w_next w := Some p]> (w_directories w)) (w_next w + 1) (w_signals w), inr (w_next w));
  px_create_exclusive w p :=
    match current (w_names w) p with
    | Some _ => (w, inl 17)
    | None => let i := fresh_inode (w_names w) in
      (MkWorld ((p, Some i) :: w_names w) (<[i := []]> (w_data w)) (<[i := false]> (w_flushed w))
         (<[w_next w := Some i]> (w_files w)) (w_directories w) (w_next w + 1) (w_signals w), inr (w_next w))
    end;
  px_read w fd n := (w, inl bad_descriptor);
  px_pread w fd n off := (w, inl bad_descriptor);
  px_write w fd t :=
    match w_signals w, w_files w fd with
    | S s, _ => (MkWorld (w_names w) (w_data w) (w_flushed w) (w_files w) (w_directories w) (w_next w) s, inl EINTR)
    | O, None => (w, inl bad_descriptor)
    | O, Some i => let n := Nat.min 4 (length t) in
      (MkWorld (w_names w) (<[i := w_data w i ++ take n t]> (w_data w)) (<[i := false]> (w_flushed w)) (w_files w) (w_directories w) (w_next w) O, inr n)
    end;
  px_fsync w fd :=
    let flushed := match w_files w fd with Some i => <[i := true]> (w_flushed w) | None => w_flushed w end in
    let names := match w_directories w fd with Some _ => synced (w_names w) | None => w_names w end in
    (MkWorld names (w_data w) flushed (w_files w) (w_directories w) (w_next w) (w_signals w), None);
  px_close w fd := (w, None);
  px_rename w a b := (with_names w ((b, current (w_names w) a) :: (a, None) :: w_names w), None);
  px_remove w p := (with_names w ((p, None) :: w_names w), None);
  px_create_directories w p := (w, None);
  px_symlink_status w p := match current (w_names w) p with Some _ => (None, ft_regular) | None => (Some ENOENT, ft_not_found) end;
  px_file_size w p := match current (w_names w) p with Some i => (None, Z.of_nat (length (w_data w i))) | None => (Some ENOENT, 0) end;
  px_read_stream w p n :=
    match current (w_names w) p with
    | Some i => Some (take n (w_data w i), (n <? length (w_data w i))%nat)
    | None => None
    end;
|}.

#[global] Instance memory_view : FileView world := {|
  fv_entry w p := current (w_names w) p;
  fv_data w i := w_data w i;
  fv_crash_entry w p e := e = current (w_names w) p \/ (p, e) ∈ w_names w;
  fv_crash_data w i t := if w_flushed w i then t = w_data w i else True;
  fv_file w fd := w_files w fd;
  fv_directory w fd := w_directories w fd;
  fv_pending w := w_signals w;
|}.

Lemma fresh_spec names p e : (p, e) ∈ names -> e <> Some (fresh_inode names).
Proof.
  unfold fresh_inode. intros Hin ->. set (i := S _) in Hin.
  assert (Hle : (i <= foldr (fun n m => Nat.max (default 0%nat n.2) m) 0%nat names)%nat); [|unfold i in Hle; lia].
  generalize dependent i. intros i Hin. induction names as [|[q e] names IH]; [set_solver|].
  apply elem_of_cons in Hin as [[= <- <-]|Hin]; simpl; [lia|]. apply IH in Hin. lia.
Qed.

Lemma current_in names p : current names p = None \/ (p, current names p) ∈ names.
Proof.
  induction names as [|[q e] names IH]; simpl; [by left|]. destruct (decide (q = p)) as [->|]; [right; by left|].
  destruct IH as [?|?]; [by left|right; by right].
Qed.

Lemma current_synced names p : current (synced names) p = current names p.
Proof.
  unfold synced. assert (Hall : forall l, (forall e, (p, e) ∈ names -> p ∈ l \/ current names p = None) ->
    current ((fun q => (q, current names q)) <$> l) p = current names p).
  { induction l as [|q l IH]; intros Hl; simpl.
    - destruct (current_in names p) as [->|Hin]; [done|]. destruct (Hl _ Hin) as [H|H]; [set_solver|by rewrite H].
    - destruct (decide (q = p)) as [->|Hne]; [done|]. apply IH. intros e He. destruct (Hl e He); [|by right]. set_solver. }
  apply Hall. intros e He. left. apply list_elem_of_fmap. by exists (p, e).
Qed.

Lemma synced_in names p e : (p, e) ∈ synced names -> e = current names p.
Proof. unfold synced. by intros (q & [= -> ->] & _)%list_elem_of_fmap. Qed.

Lemma same_name_log (w w' : world) p :
  (forall e, (p, e) ∈ w_names w' -> (p, e) ∈ w_names w \/ e = current (w_names w) p) -> current (w_names w') p = current (w_names w) p ->
  same_name w w' p.
Proof. intros Hl Hc. split; [done|]. simpl. rewrite Hc. intros e [->|[?| ->]%Hl]; auto. Qed.

Lemma same_name_cons (w w' : world) p q e : w_names w' = (p, e) :: w_names w -> q <> p -> same_name w w' q.
Proof.
  intros Hn Hq. apply same_name_log; rewrite Hn; [intros e' [[= -> ->]|?]%elem_of_cons; [done|by left]|].
  simpl. by rewrite decide_False.
Qed.

Lemma separate_ne a b : separate a b -> b <> a.
Proof. by intros [_ Hf] ->. Qed.

Lemma flush_data (w w' : world) i : w_data w' = w_data w -> (w_flushed w i = true -> w_flushed w' i = true) -> same_data w w' i.
Proof.
  intros Hd Hf. split; simpl; rewrite Hd; [done|]. intros t. destruct (w_flushed w i); [by rewrite Hf|done].
Qed.

Lemma memory_laws : file_laws (W := world).
Proof.
  assert (Hrefl : forall w : world, unchanged w w) by (intros w; repeat split; unfold later; auto; lia).
  split.
  - intros w p w' r. simpl. destruct (current (w_names w) p); intros [= <- <-]; [apply Hrefl|].
    exists (fresh_inode (w_names w)). simpl. rewrite !fn_lookup_insert, decide_True by done. split; [done|]. split; [done|]. split; [done|].
    split; [|split; [|unfold later; simpl; lia]].
    + intros q Hq%separate_ne. split; [|by eapply same_name_cons]. unfold refers. simpl.
      destruct (current_in (w_names w) q) as [->|Hin]; [|intros [Hc|[Hc|Hc]]; rewrite <-?Hc in *; by eapply fresh_spec].
      intros [?|[?|Hc]]; [done..|by eapply fresh_spec].
    + intros j Hj. split; simpl; rewrite !fn_lookup_insert_ne by done; auto.
  - intros w fd t w' r i. simpl. destruct (w_signals w) as [|s] eqn:Es.
    + intros Hc Hf. rewrite Hf in Hc. injection Hc as <- <-. simpl. rewrite fn_lookup_insert. split; [apply (Nat.le_min_r 4)|]. split; [done|]. split; [done|].
      split; [by intros q|]. split; [|unfold later; simpl; lia]. intros j Hj. split; simpl; rewrite !fn_lookup_insert_ne by done; auto.
    + intros [= <- <-] Hf. split; [|simpl; lia]. repeat split; auto. unfold later. simpl. lia.
  - intros w fd w' r i. simpl. intros [= <- <-] Hf. rewrite Hf. simpl. split; [done|]. split; [done|]. split; [|split].
    + intros q. apply same_name_log; simpl; destruct (w_directories w fd); auto using current_synced. intros e ->%synced_in. by right.
    + intros j Hj. apply flush_data; [done|]. simpl. by rewrite fn_lookup_insert_ne.
    + intros _ t. by rewrite fn_lookup_insert.
  - intros w fd w' r d. simpl. intros [= <- <-] Hf. rewrite Hf. simpl. split.
    + split; [|split; [|split; [done|split; [done|unfold later; simpl; lia]]]].
      * intros q. apply same_name_log; simpl; auto using current_synced. intros e ->%synced_in. by right.
      * intros i. apply flush_data; [done|]. simpl. destruct (w_files w fd) as [j|]; [|done].
        destruct (decide (j = i)) as [->|]; [by rewrite fn_lookup_insert|by rewrite fn_lookup_insert_ne].
    + intros _ q e _ [->| ->%synced_in]; [by rewrite current_synced|done].
  - intros w d w' r. simpl. intros [= <- <-]. simpl. rewrite fn_lookup_insert. repeat split; auto.
  - intros w fd w' r. simpl. intros [= <- <-]. split; apply Hrefl.
  - intros w a b w' r. simpl. intros [= <- <-] Hsep%separate_ne. split; [repeat split; auto|]. simpl. rewrite decide_True by done.
    split; [done|]. rewrite (decide_False (P := b = a)), decide_True by done. split; [done|].
    intros e [->|[[= ->]|[[= -> _]|?]%elem_of_cons]%elem_of_cons]; auto. done.
  - intros w p w' r. simpl. intros [= <- <-]. split; [|split; [repeat split; auto|unfold later; simpl; lia]].
    intros q Hq%separate_ne. by eapply same_name_cons.
  - intros w p w' r. simpl. intros [= <- <-]. apply Hrefl.
Qed.

Lemma memory_reads (w : world) p : reads_visible p w.
Proof.
  intros t. unfold visible. simpl. destruct (current (w_names w) p) as [i|]; [|done]. simpl. intros [= <-]. done.
Qed.

Definition demo_path : text := str "state/resume".
Definition demo_world : world :=
  MkWorld [(demo_path, Some 1%nat)] (<[1%nat := str "old"]> (fun _ => [])) (fun _ => true) (fun _ => None) (fun _ => None) 3 2.
Abbreviation demo_run := (write_file_atomically 20 demo_path (str "new state") (demo_world, [demo_world])).

(** The write takes two interruptions and three pieces; the reader's view changes once. *)
Example demo_write :
  match demo_run with
  | Some ((w, past), r) =>
    r = Ok tt /\ (fun v => visible v demo_path) <$> rev past = replicate 11 (Some (str "old")) ++ replicate 4 (Some (str "new state"))
  | None => False
  end.
Proof. vm_compute. split; reflexivity. Qed.
End Memory.

Lemma write_is_atomic_witness :
  (length (str "new state") + fv_pending Memory.demo_world < 20)%nat /\
  exists w past r, Memory.demo_run = Some ((w, past), r) /\ Forall (old_or_new Memory.demo_world Memory.demo_path (str "new state")) past.
Proof.
  assert (Hf : (length (str "new state") + fv_pending Memory.demo_world < 20)%nat) by (apply Nat.ltb_lt; vm_compute; reflexivity).
  split; [exact Hf|].
  destruct (write_is_atomic Memory.memory_laws Memory.demo_world Memory.demo_path (str "new state") 20 Hf) as [_ Hw].
  destruct Hw as (w & past & r & E & Hp & _); [vm_compute; congruence|]. exists w, past, r. split; [exact E|exact Hp].
Defined.
