(* ===== verification/PayloadReader.v ===== *)
(** Reading payload files: src/storage/payload_reader.cpp and .hpp (the POSIX branch), over
    the calls of [Posix].  [read_exact] is compared with the bytes of the file. *)
From stdpp Require Import prelude strings list.
From Stdlib Require Import ZArith Lia Ascii.
From S2P Require Import Prelude Text Posix.

(** ** The code *)

(** The reader holds a descriptor, [-1] when it is closed. *)
Record PayloadReader := MkReader { descriptor : Z }.
Definition closed_reader : PayloadReader := MkReader (-1).
Definition is_open (r : PayloadReader) : bool := 0 <=? descriptor r.

Section code.
Context {W : Type} `{Posix W}.

(** The constructor: opening is tried again while it is interrupted. *)
Fixpoint payload_reader (fuel : nat) (path : text) : io W PayloadReader :=
  match fuel with
  | O => diverge
  | S fuel =>
    opened ← call (fun w => px_open_read w path);
    match opened with
    | inr fd => mret (MkReader fd)
    | inl errno => if errno =? EINTR then payload_reader fuel path else mret closed_reader
    end
  end.

(** The loop of [read_exact], [done] bytes of [destination] filled. *)
Fixpoint read_loop (fuel : nat) (fd : Z) (offset : Z) (done : nat) (destination : text) : io W (bool * text) :=
  match fuel with
  | O => diverge
  | S fuel =>
    if (length destination <=? done)%nat then mret (true, destination)
    else
      let position := wrap64 (offset + Z.of_nat done) in
      let remaining := (length destination - done)%nat in
      if I64_MAX <? position then mret (false, destination)
      else
        r ← call (fun w => px_pread w fd remaining position);
        match r with
        | inl errno => if errno =? EINTR then read_loop fuel fd offset done destination else mret (false, destination)
        | inr [] => mret (false, destination)
        | inr bytes =>
          read_loop fuel fd offset (done + length bytes)
            (take done destination ++ bytes ++ drop (done + length bytes) destination)
        end
  end.

Definition read_exact (fuel : nat) (r : PayloadReader) (offset : Z) (destination : text) : io W (bool * text) :=
  if negb (is_open r) then mret (false, destination) else read_loop fuel (descriptor r) offset 0 destination.

(** [close]. *)
Definition close_reader (r : PayloadReader) : io W PayloadReader :=
  if is_open r then _ ← call (fun w => px_close w (descriptor r)); mret closed_reader else mret r.

(** Move assignment; [same] says that both are one object. *)
Definition move_assign (same : bool) (this other : PayloadReader) : io W (PayloadReader * PayloadReader) :=
  if same then mret (this, other)
  else this' ← close_reader this; mret (MkReader (descriptor other), closed_reader).

(** The move constructor assigns to a reader that is closed. *)
Definition move_construct (other : PayloadReader) : io W (PayloadReader * PayloadReader) :=
  move_assign false closed_reader other.
End code.

(** ** Reading a file *)
Section reading.
Context {W : Type} `{Posix W}.

(** The bytes of the file a descriptor reads, and how many more calls will be interrupted. *)
Context (bytes_of : W -> Z -> option text) (pending : W -> nat).

(** The documented behaviour of [pread]: it returns bytes of the file from the position on,
    none only at the end, and changes nothing. *)
Definition pread_law : Prop :=
  forall w fd n position w' r c, px_pread w fd n position = (w', r) -> bytes_of w fd = Some c ->
  bytes_of w' fd = Some c /\ (pending w' <= pending w)%nat /\
  match r with
  | inl errno => errno = EINTR -> (pending w' < pending w)%nat
  | inr bytes => (length bytes <= n)%nat /\ bytes `prefix_of` drop (Z.to_nat position) c /\
      (bytes = [] -> n = 0%nat \/ (length c <= Z.to_nat position)%nat)
  end.

(** No call fails but for interruptions. *)
Definition reliable : Prop := forall w fd n position w' errno, px_pread w fd n position = (w', inl errno) -> errno = EINTR.

Lemma prefix_take {A} (l k : list A) : l `prefix_of` k -> l = take (length l) k.
Proof. intros [k' ->]. by rewrite take_app_length. Qed.

(** The bytes after one more piece. *)
Lemma next_piece (c destination bytes : text) (offset done : nat) :
  (done < length destination)%nat -> (length bytes <= length destination - done)%nat ->
  bytes `prefix_of` drop (offset + done) c -> take done destination = take done (drop offset c) -> (offset + done <= length c)%nat ->
  let next := take done destination ++ bytes ++ drop (done + length bytes) destination in
  length next = length destination /\ take (done + length bytes) next = take (done + length bytes) (drop offset c) /\
  drop (done + length bytes) next = drop (done + length bytes) destination /\ (offset + (done + length bytes) <= length c)%nat.
Proof.
  intros Hd Hb Hp Ht Ho next. pose proof (prefix_length _ _ Hp) as Hl. rewrite length_drop in Hl.
  assert (Hlen : length (take done destination) = done) by (rewrite length_take; lia).
  unfold next. rewrite !length_app, Hlen, length_drop. split; [lia|].
  rewrite app_assoc. assert (Hl2 : length (take done destination ++ bytes) = (done + length bytes)%nat) by (rewrite length_app; lia).
  rewrite take_app_length', drop_app_length' by done. split; [|split; [done|lia]].
  rewrite <-take_take_drop, <-Ht, drop_drop. f_equal. by apply prefix_take.
Qed.

(** What the loop returns: the destination keeps its length and holds a part of the file;
    all of it when the result is true. *)
Record read_result (c : text) (fd offset : Z) (destination : text) (reliably : Prop) (w' : W) (ok : bool) (d : text) : Prop := {
  read_length : length d = length destination;
  read_bytes : bytes_of w' fd = Some c;
  read_part : exists k, (k <= length d)%nat /\ take k d = take k (drop (Z.to_nat offset) c) /\ drop k d = drop k destination /\
    (ok = true -> k = length d);
  read_true : ok = true -> destination <> [] -> offset + Z.of_nat (length d) <= Z.of_nat (length c);
  read_false : ok = false -> reliably ->
    Z.of_nat (length c) < offset + Z.of_nat (length d) \/ I64_MAX < offset + Z.of_nat (length d);
}.

Lemma read_loop_spec (Hlaw : pread_law) fuel fd offset c w done dest destination :
  bytes_of w fd = Some c -> is_u64 offset -> Z.of_nat (length destination) <= I64_MAX ->
  (length destination - done + pending w < fuel)%nat -> (done <= length destination)%nat ->
  length dest = length destination -> take done dest = take done (drop (Z.to_nat offset) c) -> drop done dest = drop done destination ->
  (done = 0%nat \/ (offset <= I64_MAX /\ (Z.to_nat offset + done <= length c)%nat)) ->
  exists w' ok d, read_loop fuel fd offset done dest w = Some (w', Ok (ok, d)) /\ read_result c fd offset destination reliable w' ok d.
Proof.
  revert w done dest. induction fuel as [|fuel IH]; intros w done dest Hc Ho Hn Hf Hd Hl Ht Hdr Hin; [lia|]. cbn [read_loop].
  assert (Hstop : forall w' ok, bytes_of w' fd = Some c -> (ok = true -> done = length dest) ->
     (ok = false -> reliable -> Z.of_nat (length c) < offset + Z.of_nat (length dest) \/ I64_MAX < offset + Z.of_nat (length dest)) ->
     read_result c fd offset destination reliable w' ok dest).
  { intros w' ok Hc' Hok Hno. split; [done|done| | |done].
    - exists done. split; [lia|]. split; [done|]. split; [done|exact Hok].
    - intros ->%Hok Hne. destruct destination; [done|]. simpl in *. unfold is_u64 in *. lia. }
  destruct (Nat.leb_spec (length dest) done) as [Hle|Hlt].
  { exists w, true, dest. split; [done|]. apply Hstop; [done|lia|done]. }
  rewrite (wrap64_id (offset + Z.of_nat done)) by ulia.
  destruct (Z.ltb_spec I64_MAX (offset + Z.of_nat done)) as [Hbig|Hsmall].
  { exists w, false, dest. split; [done|]. apply Hstop; [done|done|]. intros _ _. right. lia. }
  unfold call, mbind, io_bind. destruct (px_pread w fd _ _) as [w' r] eqn:E.
  destruct (Hlaw _ _ _ _ _ _ _ E Hc) as (Hc' & Hp & Hr). destruct r as [errno|bytes].
  - destruct (Z.eqb_spec errno EINTR) as [Hint|Hint].
    + specialize (Hr Hint). apply (IH w' done dest); (done || lia).
    + exists w', false, dest. split; [done|]. apply Hstop; [done|done|]. intros _ Hrel. by apply Hrel in E.
  - destruct Hr as (Hb & Hpre & Hempty). destruct bytes as [|b bytes].
    + exists w', false, dest. split; [done|]. apply Hstop; [done|done|]. intros _ _. left.
      destruct Hempty as [?|Hend]; [done|lia|ulia].
    + set (piece := b :: bytes) in *. rewrite Z2Nat.inj_add, Nat2Z.id in Hpre by ulia.
      assert (Hoff : (Z.to_nat offset + done <= length c)%nat).
      { pose proof (prefix_length _ _ Hpre) as Hpl. rewrite length_drop in Hpl. unfold piece in Hpl. simpl in Hpl. lia. }
      destruct (next_piece c dest piece (Z.to_nat offset) done Hlt Hb Hpre Ht Hoff) as (Hl' & Ht' & Hdr' & Hoff').
      assert (0 < length piece)%nat by (unfold piece; simpl; lia).
      apply (IH w' (done + length piece)%nat); try done; [lia|lia|congruence| |right; ulia].
      rewrite Hdr', <-!drop_drop. by rewrite Hdr.
Qed.

(** C34. [read_exact] always ends, never changes the file and fills no more than the
    destination.  When it returns true the destination is exactly the bytes of the file
    from the offset on; if no call fails but for interruptions, it returns true whenever
    the file has those bytes.  Else what was filled is still a part of the file, and a
    closed reader returns false at once. *)
Theorem read_exact_correct (Hlaw : pread_law) (w : W) (fd offset : Z) (destination c : text) (fuel : nat)
    (Hc : bytes_of w fd = Some c) (Ho : is_u64 offset) (Hn : Z.of_nat (length destination) <= I64_MAX)
    (Hf : (length destination + pending w < fuel)%nat) :
  (fd < 0 -> read_exact fuel (MkReader fd) offset destination w = Some (w, Ok (false, destination))) /\
  (0 <= fd -> exists w' ok d, read_exact fuel (MkReader fd) offset destination w = Some (w', Ok (ok, d)) /\
    length d = length destination /\ bytes_of w' fd = Some c /\
    (exists k, take k d = take k (drop (Z.to_nat offset) c) /\ drop k d = drop k destination) /\
    (ok = true -> d = take (length destination) (drop (Z.to_nat offset) c)) /\
    (ok = true -> destination <> [] -> offset + Z.of_nat (length destination) <= Z.of_nat (length c)) /\
    (reliable -> offset + Z.of_nat (length destination) <= Z.min (Z.of_nat (length c)) I64_MAX -> ok = true)).
Proof.
  unfold read_exact, is_open. cbn [descriptor]. split.
  - intros Hfd. rewrite (proj2 (Z.leb_gt _ _)) by done. done.
  - intros Hfd. rewrite (proj2 (Z.leb_le _ _)) by done. simpl negb. cbv iota.
    destruct (read_loop_spec Hlaw fuel fd offset c w 0 destination destination) as (w' & ok & d & E & Hr); try done; [lia|lia|by left|].
    destruct Hr as [Hl Hb (k & Hk & Ht & Hd & Hall) Htrue Hfalse]. exists w', ok, d. split; [done|]. split; [done|]. split; [done|].
    split; [by exists k|]. split; [|split].
    + intros Hok. specialize (Hall Hok). subst k. rewrite firstn_all in Ht. by rewrite <-Hl.
    + intros Hok Hne. rewrite <-Hl. by apply Htrue.
    + intros Hrel Hin. destruct ok; [done|]. destruct (Hfalse eq_refl Hrel); lia.
Qed.
End reading.

(** ** A concrete file and the witness *)
Module Memory.
(** One file, read at most three bytes at a time; the next [interrupted] reads are interrupted. *)
Record world := MkWorld { file : text; interrupted : nat }.

#[global] Instance memory : Posix world := {|
  px_open_read w p := (w, inr 3);
  px_open_directory w p := (w, inl ENOENT);
  px_create_exclusive w p := (w, inl ENOENT);
  px_read w fd n := (w, inl 9);
  px_pread w fd n position :=
    match interrupted w with
    | S k => (MkWorld (file w) k, inl EINTR)
    | O => (w, inr (take (Nat.min 3 n) (drop (Z.to_nat position) (file w))))
    end;
  px_write w fd t := (w, inl 9);
  px_fsync w fd := (w, None);
  px_close w fd := (w, None);
  px_rename w a b := (w, Some ENOENT);
  px_remove w p := (w, None);
  px_create_directories w p := (w, None);
  px_symlink_status w p := (None, ft_regular);
  px_file_size w p := (None, Z.of_nat (length (file w)));
  px_read_stream w p n := Some (take n (file w), (n <? length (file w))%nat);
|}.

Definition contents (w : world) (fd : Z) : option text := Some (file w).

Lemma memory_pread : pread_law contents interrupted.
Proof.
  intros w fd n position w' r c. cbn [px_pread memory]. assert (Hm : (Nat.min 3 n <= n)%nat /\ (Nat.min 3 n = 0%nat -> n = 0%nat)) by lia.
  revert Hm. generalize (Nat.min 3 n). intros m [Hm Hm0].
  destruct (interrupted w) as [|k] eqn:E; intros [= <- <-] [= <-].
  - split; [done|]. split; [lia|]. split; [rewrite length_take; lia|]. split; [eexists; symmetry; apply take_drop|].
    intros Hnil%(f_equal length). rewrite length_take, length_drop in Hnil. simpl in Hnil. lia.
  - simpl. split; [done|]. split; [lia|]. intros _. lia.
Qed.

Definition demo : world := MkWorld (str "0123456789") 2.
Example demo_read :
  read_exact 20 (MkReader 3) 2 (str "........") demo = Some (MkWorld (str "0123456789") 0, Ok (true, str "23456789")) /\
  (forall w, read_exact 20 (MkReader 3) 5 (str "........") demo = Some (w, Ok (true, str "........")) -> False).
Proof. split; [vm_compute; reflexivity|]. intros w. vm_compute. congruence. Qed.
End Memory.

Lemma read_exact_correct_witness :
  exists w' ok d, read_exact 20 (MkReader 3) 2 (str "........") Memory.demo = Some (w', Ok (ok, d)) /\ length d = 8%nat.
Proof.
  destruct (read_exact_correct Memory.contents Memory.interrupted Memory.memory_pread Memory.demo 3 2 (str "........") (str "0123456789") 20)
    as [_ Hr]; [reflexivity|split; apply Z.leb_le; reflexivity|apply Z.leb_le; vm_compute; reflexivity|apply Nat.ltb_lt; vm_compute; reflexivity|].
  destruct Hr as (w' & ok & d & E & Hl & _); [apply Z.leb_le; reflexivity|]. exists w', ok, d. split; [exact E|exact Hl].
Defined.
