(* ===== verification/RandomToken.v ===== *)
(** Random tokens: src/security/random_bytes.cpp and .hpp (the POSIX branch), over the calls
    of [Posix].  A token is the hexadecimal form of bytes of the random source. *)
From stdpp Require Import prelude strings list.
From Stdlib Require Import ZArith Lia Ascii.
From S2P Require Import Prelude Text Posix.

(** ** The code *)

Definition alphabet : text := str "0123456789abcdef".

(** The two characters of one byte. *)
Definition hex_digits (byte : ascii) : text :=
  [nth (Z.to_nat (Z.shiftr (code byte) 4)) alphabet (chr 0); nth (Z.to_nat (Z.land (code byte) 15)) alphabet (chr 0)].

Section code.
Context {W : Type} `{Posix W}.

(** The loop of [fill_random]: [count] bytes are still missing. *)
Fixpoint fill_loop (fuel : nat) (random_file : Z) (bytes : text) (count : nat) : io W text :=
  match fuel with
  | O => diverge
  | S fuel =>
    match count with
    | O => mret bytes
    | S _ =>
      r ← call (fun w => px_read w random_file count);
      match r with
      | inl errno =>
        if errno =? EINTR then fill_loop fuel random_file bytes count
        else _ ← call (fun w => px_close w random_file); raise system_error "read system random source"
      | inr [] => _ ← call (fun w => px_close w random_file); raise runtime_error "system random source ended unexpectedly"
      | inr more => fill_loop fuel random_file (bytes ++ more) (count - length more)
      end
    end
  end.

Definition fill_random (fuel : nat) (count : nat) : io W text :=
  random_file ← call (fun w => px_open_read w (str "/dev/urandom"));
  match random_file with
  | inl _ => raise system_error "open system random source"
  | inr random_file =>
    bytes ← fill_loop fuel random_file [] count;
    closed ← call (fun w => px_close w random_file);
    match closed with
    | Some _ => raise system_error "close system random source"
    | None => mret bytes
    end
  end.

Definition random_hex_token (fuel : nat) (byte_count : Z) : io W text :=
  if (byte_count =? 0) || (1024 <? byte_count) then raise invalid_argument "random token size is out of range"
  else bytes ← fill_random fuel (Z.to_nat byte_count); mret (concat (hex_digits <$> bytes)).
End code.

(** ** Reading a token back *)

Definition hex_value (c : ascii) : option Z :=
  if is_digit c then Some (code c - 48) else if (97 <=? code c) && (code c <=? 102) then Some (code c - 87) else None.

(** The bytes of a token, [None] if it is not lower-case hexadecimal. *)
Fixpoint parse_token (t : text) : option text :=
  match t with
  | [] => Some []
  | high :: low :: t' =>
    h ← hex_value high; l ← hex_value low; rest ← parse_token t'; Some (chr (16 * h + l) :: rest)
  | [_] => None
  end.

Lemma hex_digits_value byte : exists h l high low, hex_digits byte = [high; low] /\
  hex_value high = Some h /\ hex_value low = Some l /\ chr (16 * h + l) = byte.
Proof.
  destruct byte as [[] [] [] [] [] [] [] []]; do 4 eexists; repeat split; vm_compute; reflexivity.
Qed.

Lemma parse_token_concat bytes : parse_token (concat (hex_digits <$> bytes)) = Some bytes.
Proof.
  induction bytes as [|byte bytes IH]; [done|].
  change (concat (hex_digits <$> byte :: bytes)) with (hex_digits byte ++ concat (hex_digits <$> bytes)).
  destruct (hex_digits_value byte) as (h & l & high & low & -> & Hh & Hl & Hb). simpl.
  rewrite Hh, Hl. simpl. rewrite IH. simpl. by rewrite Hb.
Qed.

Lemma token_length bytes : length (concat (hex_digits <$> bytes)) = (2 * length bytes)%nat.
Proof. induction bytes as [|byte bytes IH]; [done|]. rewrite fmap_cons. simpl in *. lia. Qed.

(** ** Properties *)
Section properties.
Context {W : Type} `{Posix W}.

(** The bytes a random source has delivered so far, the descriptors that are open, and how
    many more calls will be interrupted. *)
Context (delivered : W -> text) (opened : W -> list Z) (pending : W -> nat).

(** The documented behaviour of the calls on the source. *)
Record source_laws : Prop := {
  law_open w p w' r : px_open_read w p = (w', r) ->
    delivered w' = delivered w /\ (pending w' <= pending w)%nat /\
    match r with inl _ => opened w' = opened w | inr fd => opened w' = fd :: opened w end;
  law_read w fd n w' r : px_read w fd n = (w', r) -> opened w' = opened w /\ (pending w' <= pending w)%nat /\
    match r with
    | inl errno => delivered w' = delivered w /\ (errno = EINTR -> (pending w' < pending w)%nat)
    | inr bytes => (length bytes <= n)%nat /\ delivered w' = delivered w ++ bytes
    end;
  law_close w fd w' r rest : px_close w fd = (w', r) -> opened w = fd :: rest -> opened w' = rest /\ delivered w' = delivered w;
}.

Definition filled (rest : list Z) (bytes : text) (count : nat) (fd : Z) (w w' : W) (r : result text) : Prop :=
  match r with
  | Ok all => exists more, all = bytes ++ more /\ length more = count /\ delivered w' = delivered w ++ more /\ opened w' = fd :: rest
  | Throw e => (exn_kind e = system_error \/ exn_kind e = runtime_error) /\ opened w' = rest
  end.

Lemma close_raise_spec (laws : source_laws) rest bytes count fd w w1 cls what : opened w1 = fd :: rest ->
  cls = system_error \/ cls = runtime_error ->
  exists w' r, (_ ← call (fun w => px_close w fd); raise (A := text) cls what) w1 = Some (w', r) /\ filled rest bytes count fd w w' r.
Proof.
  intros Ho Hcls. rewrite bind_call. destruct (px_close w1 fd) as [w2 c] eqn:Ec. exists w2, (throw cls what). split; [done|]. split; [done|].
  by apply (law_close laws _ _ _ _ _ Ec).
Qed.

Lemma fill_loop_spec (laws : source_laws) fuel fd bytes count rest w :
  (count + pending w < fuel)%nat -> opened w = fd :: rest ->
  exists w' r, fill_loop fuel fd bytes count w = Some (w', r) /\
    filled rest bytes count fd w w' r.
Proof.
  revert bytes count w. induction fuel as [|fuel IH]; intros bytes count w Hf Ho; [lia|]. cbn [fill_loop].
  destruct count as [|n]; [exists w, (Ok bytes); split; [done|]; exists []; by rewrite !app_nil_r|].
  set (count := S n) in *. rewrite bind_call. destruct (px_read w fd count) as [w1 r] eqn:E.
  destruct (law_read laws _ _ _ _ _ E) as (Ho1 & Hp & Hr). rewrite Ho in Ho1.
  destruct r as [errno|[|b more]].
  - destruct Hr as [Hd Hint]. destruct (Z.eqb_spec errno EINTR) as [He|He].
    + specialize (Hint He). destruct (IH bytes count w1) as (w' & r & Er & Hres); [lia|done|]. exists w', r. split; [done|]. unfold filled in *. by rewrite <-Hd.
    + apply close_raise_spec; auto.
  - apply close_raise_spec; auto.
  - destruct Hr as [Hl Hd]. destruct (IH (bytes ++ b :: more) (count - length (b :: more))%nat w1) as (w' & r & Er & Hres); [simpl in *; lia|done|].
    exists w', r. split; [done|]. unfold filled in *. destruct r as [all|e]; [|done]. destruct Hres as (more' & -> & Hl' & Hd' & Ho').
    exists ((b :: more) ++ more'). rewrite length_app, Hd', Hd, <-!app_assoc. split; [done|]. split; [lia|done].
Qed.

Lemma fill_random_spec (laws : source_laws) fuel count w : (count + pending w < fuel)%nat ->
  exists w' r, fill_random fuel count w = Some (w', r) /\ opened w' = opened w /\
    match r with
    | Ok bytes => length bytes = count /\ delivered w' = delivered w ++ bytes
    | Throw e => exn_kind e = system_error \/ exn_kind e = runtime_error
    end.
Proof.
  intros Hf. unfold fill_random. rewrite bind_call. destruct (px_open_read w _) as [w1 [e|fd]] eqn:E;
    destruct (law_open laws _ _ _ _ E) as (Hd & Hp & Ho).
  - exists w1, (throw system_error "open system random source"). split; [done|]. split; [done|]. by left.
  - destruct (fill_loop_spec laws fuel fd [] count (opened w) w1) as (w2 & r & Er & Hr); [lia|done|]. rewrite (bind_result _ _ _ _ _ Er).
    destruct r as [all|e]; [|destruct Hr as [Hk Ho2]; by exists w2, (Throw e)].
    destruct Hr as (more & -> & Hl & Hd2 & Ho2). rewrite bind_call. destruct (px_close w2 fd) as [w3 c] eqn:Ec.
    destruct (law_close laws _ _ _ _ _ Ec Ho2) as [Ho3 Hd3]. destruct c as [e|].
    + exists w3, (throw system_error "close system random source"). split; [done|]. split; [done|]. by left.
    + exists w3, (Ok more). split; [done|]. split; [done|]. split; [done|]. by rewrite Hd3, Hd2, Hd.
Qed.

(** A token of [n] bytes, 1 to 1024, is 2[n] lower-case hexadecimal digits that read back
    as exactly [n] bytes the random source delivered for it; other sizes are refused
    before any call.  The function always ends, however the source cuts or interrupts its
    reads, and closes the descriptor it opened, on its errors too. *)
Theorem random_hex_token_correct (laws : source_laws) (w : W) (byte_count : Z) (fuel : nat)
    (Hf : (Z.to_nat byte_count + pending w < fuel)%nat) (Hn : 0 <= byte_count) :
  (byte_count = 0 \/ 1024 < byte_count ->
     random_hex_token fuel byte_count w = Some (w, throw invalid_argument "random token size is out of range")) /\
  (1 <= byte_count <= 1024 -> exists w' r, random_hex_token fuel byte_count w = Some (w', r) /\ opened w' = opened w /\
     match r with
     | Ok token => exists bytes, parse_token token = Some bytes /\ Z.of_nat (length token) = 2 * byte_count /\
         Z.of_nat (length bytes) = byte_count /\ delivered w' = delivered w ++ bytes
     | Throw e => exn_kind e = system_error \/ exn_kind e = runtime_error
     end).
Proof.
  unfold random_hex_token. split; intros Hc.
  - destruct Hc as [->|Hc]; [done|]. rewrite (proj2 (Z.ltb_lt _ _) Hc), orb_true_r. done.
  - rewrite (proj2 (Z.eqb_neq _ _)), (proj2 (Z.ltb_ge _ _)) by lia. cbn [orb].
    destruct (fill_random_spec laws fuel (Z.to_nat byte_count) w Hf) as (w' & r & E & Ho & Hr). rewrite (bind_result _ _ _ _ _ E).
    destruct r as [bytes|e]; [|by exists w', (Throw e)]. destruct Hr as [Hl Hd]. exists w', (Ok (concat (hex_digits <$> bytes))).
    split; [done|]. split; [done|]. exists bytes. rewrite parse_token_concat, token_length. split; [done|]. split; [lia|]. split; [lia|done].
Qed.
End properties.

(** ** A concrete source and the witness *)
Module Memory.
(** The source delivers the bytes of a counter, five at a time, and interrupts first. *)
Record world := MkWorld { sent : text; open_files : list Z; interruptions : nat }.

Definition more (w : world) (n : nat) : text := (fun i => chr (Z.of_nat (length (sent w) + i) mod 256)) <$> seq 0 (Nat.min 5 n).

#[global] Instance memory : Posix world := {|
  px_open_read w p := (MkWorld (sent w) (3 :: open_files w) (interruptions w), inr 3);
  px_open_directory w p := (w, inl ENOENT);
  px_create_exclusive w p := (w, inl ENOENT);
  px_read w fd n :=
    match interruptions w with
    | S k => (MkWorld (sent w) (open_files w) k, inl EINTR)
    | O => (MkWorld (sent w ++ more w n) (open_files w) O, inr (more w n))
    end;
  px_pread w fd n position := (w, inl 9);
  px_write w fd t := (w, inl 9);
  px_fsync w fd := (w, None);
  px_close w fd := (MkWorld (sent w) (tail (open_files w)) (interruptions w), None);
  px_rename w a b := (w, Some ENOENT);
  px_remove w p := (w, None);
  px_create_directories w p := (w, None);
  px_symlink_status w p := (Some ENOENT, ft_not_found);
  px_file_size w p := (Some ENOENT, 0);
  px_read_stream w p n := None;
|}.

Lemma source_memory_laws : source_laws sent open_files interruptions.
Proof.
  split.
  - intros w p w' r. cbn. intros [= <- <-]. done.
  - intros w fd n w' r. cbn [px_read memory]. assert (Hl : (length (more w n) <= n)%nat) by (unfold more; rewrite length_fmap, length_seq; lia).
    revert Hl. generalize (more w n). intros m Hl. destruct (interruptions w) as [|k] eqn:E; intros [= <- <-]; cbn; repeat split; try done; lia.
  - intros w fd w' r rest. cbn. intros [= <- <-]. simpl. intros ->. done.
Qed.

Definition demo : world := MkWorld [] [] 3.
Example demo_token : match random_hex_token 40 12 demo with
  | Some (w, Ok t) => t = str "000102030405060708090a0b" /\ open_files w = []
  | _ => False end.
Proof. vm_compute. split; reflexivity. Qed.
End Memory.
