(* ===== verification/LoopbackSockets.v ===== *)
(** The sockets of the loopback server: src/http/loopback_server.cpp, the classes that own
    descriptors, [create_listener] and the thread that watches for a client that goes away
    (the POSIX branch), over interfaces of socket calls. *)
From stdpp Require Import prelude strings list gmap.
From Stdlib Require Import ZArith Lia Ascii.
From S2P Require Import Prelude Text Posix.

(** ** Network byte order on a little-endian target *)

Definition htons (v : Z) : Z := v mod 256 * 256 + v / 256.
Definition ntohs : Z -> Z := htons.
Definition htonl (v : Z) : Z := htons (v mod 65536) * 65536 + htons (v / 65536).
Definition INADDR_LOOPBACK : Z := 127 * 2 ^ 24 + 1.

(** The members of [sockaddr_in] that the code writes, in network byte order. *)
Record sockaddr_in := MkAddress { sin_port : Z; sin_addr : Z }.

#[global] Instance sockaddr_in_eq_dec : EqDecision sockaddr_in.
Proof. solve_decision. Defined.


Lemma htons_range v : 0 <= v < 65536 -> 0 <= htons v < 65536.
Proof. unfold htons. intros Hv. Z.to_euclidean_division_equations. lia. Qed.

Lemma ntohs_htons v : 0 <= v < 65536 -> ntohs (htons v) = v.
Proof. unfold ntohs, htons. intros Hv. Z.to_euclidean_division_equations. lia. Qed.

(** ** Descriptors and the classes that own them *)

Definition invalid_socket : Z := -1.

(** [setsockopt] of the two timeouts: the option, the seconds. *)
Inductive socket_timeout := SO_RCVTIMEO | SO_SNDTIMEO.

Class Descriptors (W : Type) := {
  sk_shutdown : W -> Z -> W;
  sk_close : W -> Z -> W;
  sk_set_timeout : W -> Z -> socket_timeout -> Z -> W * error_code;
}.

Section owners.
Context {W : Type} `{Descriptors W}.

Definition close_socket (w : W) (socket : Z) : W := if socket =? invalid_socket then w else sk_close w socket.
Definition shutdown_socket (w : W) (socket : Z) : W := if socket =? invalid_socket then w else sk_shutdown w socket.

(** [OwnedSocket]: its descriptor, which [release] and a move take out and the destructor
    closes; [move_owned] is the assignment between two objects. *)
Record OwnedSocket := MkOwned { owned_socket : Z }.

Definition release (s : OwnedSocket) : OwnedSocket * Z := (MkOwned invalid_socket, owned_socket s).
Definition destroy_owned (w : W) (s : OwnedSocket) : W := close_socket w (owned_socket s).
Definition move_owned (w : W) (this other : OwnedSocket) : W * (OwnedSocket * OwnedSocket) :=
  let '(other, socket) := release other in (close_socket w (owned_socket this), (MkOwned socket, other)).

(** [SharedSocket]: [close] takes the descriptor out, so only the first one reaches it; the
    destructor is [close]. *)
Record SharedSocket := MkShared { shared_socket : Z }.

Definition shutdown_shared (w : W) (s : SharedSocket) : W := shutdown_socket w (shared_socket s).
Definition close_shared (w : W) (s : SharedSocket) : W * SharedSocket :=
  (close_socket (shutdown_socket w (shared_socket s)) (shared_socket s), MkShared invalid_socket).

(** The results of the calls are not looked at; where SO_NOSIGPIPE is not defined the
    answer is always true. *)
Definition configure_client_socket (w : W) (socket : Z) : W * bool :=
  let w := (sk_set_timeout w socket SO_RCVTIMEO 5).1 in
  let w := (sk_set_timeout w socket SO_SNDTIMEO 5).1 in (w, true).

(** One turn of [accept_loop] after [accept]: the connection to queue.  [refused] is
    [stopping.load() || queue.size() >= capacity]. *)
Definition adopt_client (w : W) (client : Z) (refused : bool) : W * option SharedSocket :=
  if client =? invalid_socket then (w, None)
  else
    let accepted := MkOwned client in
    let '(w, configured) := configure_client_socket w client in
    if negb configured then (destroy_owned w accepted, None)
    else
      let connection := MkShared client in
      let '(accepted, _) := release accepted in
      let w := destroy_owned w accepted in
      if refused then ((close_shared w connection).1, None) else (w, Some connection).
End owners.

(** ** The listener *)

Class Listening (W : Type) := {
  listening_descriptors :: Descriptors W;
  sk_socket : W -> W * (Z + Z);                            (* AF_INET, SOCK_STREAM, IPPROTO_TCP *)
  sk_reuse_address : W -> Z -> W * error_code;             (* setsockopt, SO_REUSEADDR *)
  sk_bind : W -> Z -> sockaddr_in -> W * error_code;
  sk_listen : W -> Z -> Z -> W * error_code;
  sk_getsockname : W -> Z -> W * (Z + sockaddr_in);
}.

Section listener.
Context {W : Type} `{Listening W}.

(** The listener and its port; the destructor of [OwnedSocket guard] closes the listener on the way of an
    exception, and [guard.release()] keeps it open. *)
Definition create_listener (requested_port : Z) : io W (Z * Z) :=
  created ← call sk_socket;
  match created with
  | inl _ => raise system_error "create HTTP socket"
  | inr listener =>
    cleanup
      (_ ← call (fun w => sk_reuse_address w listener);
       let address := MkAddress (htons requested_port) (htonl INADDR_LOOPBACK) in
       bound ← call (fun w => sk_bind w listener address);
       match bound with
       | Some _ => raise system_error "bind HTTP loopback"
       | None =>
         listening ← call (fun w => sk_listen w listener 64);
         match listening with
         | Some _ => raise system_error "listen on HTTP loopback"
         | None =>
           name ← call (fun w => sk_getsockname w listener);
           match name with
           | inl _ => raise system_error "inspect HTTP loopback"
           | inr bound => mret (listener, ntohs (sin_port bound))
           end
         end
       end)
      (call (fun w => (destroy_owned w (MkOwned listener), tt)))
  end.
End listener.

(** What is seen of the sockets: the open descriptors, and the address and state of each. *)
Class SocketView (W : Type) := {
  sv_open : W -> gset Z;
  sv_bound : W -> Z -> option sockaddr_in;
  sv_listening : W -> Z -> bool;
}.

Section listener_laws.
Context {W : Type} `{Listening W, SocketView W}.

Definition same_sockets (w w' : W) : Prop :=
  sv_open w' = sv_open w /\ (forall fd, sv_bound w' fd = sv_bound w fd) /\ forall fd, sv_listening w' fd = sv_listening w fd.

(** The documented behaviour of the calls; a socket that is bound to port 0 gets a free one. *)
Record listener_laws : Prop := {
  law_socket w w' r : sk_socket w = (w', r) ->
    match r with inl _ => sv_open w' = sv_open w | inr fd => 0 <= fd /\ (fd ∉ sv_open w) /\ sv_open w' = {[fd]} ∪ sv_open w end;
  law_reuse w fd w' r : sk_reuse_address w fd = (w', r) -> same_sockets w w';
  law_bind w fd a w' r : sk_bind w fd a = (w', r) ->
    sv_open w' = sv_open w /\
    (r = None -> exists port, 0 <= port < 65536 /\ sv_bound w' fd = Some (MkAddress port (sin_addr a)) /\
      (sin_port a <> 0 -> port = sin_port a));
  law_listen w fd n w' r : sk_listen w fd n = (w', r) ->
    sv_open w' = sv_open w /\ sv_bound w' fd = sv_bound w fd /\ (r = None -> sv_listening w' fd = true);
  law_getsockname w fd w' r : sk_getsockname w fd = (w', r) ->
    same_sockets w w' /\ match r with inl _ => True | inr a => sv_bound w fd = Some a end;
  law_close_socket w fd : sv_open (sk_close w fd) = sv_open w ∖ {[fd]};
  law_shutdown w fd : sv_open (sk_shutdown w fd) = sv_open w;
  law_set_timeout w fd o n : sv_open (sk_set_timeout w fd o n).1 = sv_open w;
}.

Lemma close_socket_open (laws : listener_laws) w fd : 0 <= fd -> sv_open (close_socket w fd) = sv_open w ∖ {[fd]}.
Proof. intros Hf. unfold close_socket, invalid_socket. destruct (Z.eqb_spec fd (-1)); [lia|]. apply laws. Qed.

(** A connection is closed once, however often and by whomever it is closed. *)
Lemma close_shared_twice w s : close_shared (close_shared w s).1 (close_shared w s).2 = close_shared w s.
Proof. done. Qed.

(** A client that was accepted is either queued, open, or closed. *)
Lemma adopt_client_owns (laws : listener_laws) w client refused w' r : 0 <= client ->
  adopt_client w client refused = (w', r) ->
  match r with
  | Some s => shared_socket s = client /\ refused = false /\ sv_open w' = sv_open w
  | None => refused = true /\ sv_open w' = sv_open w ∖ {[client]}
  end.
Proof.
  intros Hc. unfold adopt_client, configure_client_socket. destruct (Z.eqb_spec client invalid_socket) as [->|Hn]; [done|].
  cbn [negb release owned_socket]. set (w1 := (sk_set_timeout (sk_set_timeout w client SO_RCVTIMEO 5).1 client SO_SNDTIMEO 5).1).
  assert (Ho : sv_open w1 = sv_open w) by (subst w1; by rewrite !(law_set_timeout laws)).
  change (destroy_owned w1 (MkOwned invalid_socket)) with w1. destruct refused; intros [= <- <-]; [|done]. split; [done|].
  cbn [close_shared fst shared_socket]. rewrite (close_socket_open laws) by done. unfold shutdown_socket.
  destruct (Z.eqb_spec client invalid_socket); [done|]. by rewrite (law_shutdown laws), Ho.
Qed.


(** [create_listener] always ends: it returns one new descriptor, the only one it leaves
    open, that listens on the loopback address, and the port it is bound to, which is the
    requested one unless that was 0; or it throws and leaves no descriptor open. *)
Theorem create_listener_owns (laws : listener_laws) (requested_port : Z) (w : W) (Hport : 0 <= requested_port < 65536) :
  exists w' r, create_listener requested_port w = Some (w', r) /\
    match r with
    | Ok (fd, actual_port) =>
        (fd ∉ sv_open w) /\ sv_open w' = {[fd]} ∪ sv_open w /\ sv_listening w' fd = true /\
        sv_bound w' fd = Some (MkAddress (htons actual_port) (htonl INADDR_LOOPBACK)) /\
        0 <= actual_port < 65536 /\ (requested_port <> 0 -> actual_port = requested_port)
    | Throw _ => sv_open w' = sv_open w
    end.
Proof.
  unfold create_listener. rewrite bind_call. destruct (sk_socket w) as [w1 [e|fd]] eqn:E1; apply (law_socket laws) in E1.
  { by eexists _, _. }
  destruct E1 as (Hfd & Hnew & Ho1). unfold cleanup. rewrite bind_call. destruct (sk_reuse_address w1 fd) as [w2 r2] eqn:E2.
  apply (law_reuse laws) in E2 as (Ho2 & _ & _). assert (Hend : forall w', sv_open w' = sv_open w1 -> sv_open (destroy_owned w' (MkOwned fd)) = sv_open w).
  { intros w' Ho. unfold destroy_owned. cbn [owned_socket]. rewrite (close_socket_open laws), Ho, Ho1 by done. set_solver. }
  rewrite bind_call. set (a := MkAddress _ _). destruct (sk_bind w2 fd a) as [w3 r3] eqn:E3.
  apply (law_bind laws) in E3 as [Ho3 Hb3]. destruct r3 as [e|].
  { eexists _, _. split; [reflexivity|]. apply Hend. congruence. }
  destruct (Hb3 eq_refl) as (port & Hp & Hb & Hsame). rewrite bind_call. destruct (sk_listen w3 fd 64) as [w4 r4] eqn:E4.
  apply (law_listen laws) in E4 as (Ho4 & Hb4 & Hl4). destruct r4 as [e|].
  { eexists _, _. split; [reflexivity|]. apply Hend. congruence. }
  rewrite bind_call. destruct (sk_getsockname w4 fd) as [w5 r5] eqn:E5.
  apply (law_getsockname laws) in E5 as [(Ho5 & Hb5 & Hl5) Hr5]. destruct r5 as [e|bound].
  { eexists _, _. split; [reflexivity|]. apply Hend. congruence. }
  assert (bound = MkAddress port (sin_addr a)) as -> by congruence. eexists _, _. split; [reflexivity|]. cbn [sin_port].
  split_and!; [done|congruence|rewrite Hl5; auto| |apply htons_range; done..| ].
  - rewrite Hb5, Hr5. f_equal. f_equal. symmetry. by apply ntohs_htons.
  - intros Hne. assert (port = htons requested_port) as ->; [|by apply ntohs_htons].
    apply Hsame. cbn [sin_port a]. unfold htons. intros Hz. Z.to_euclidean_division_equations. lia.
Qed.
End listener_laws.

(** ** A machine of sockets *)

Module SocketMemory.
(** The open descriptors, each with its address and whether it listens; 20000 is the port
    of a socket that asks for none. *)
Abbreviation world := (gmap Z (option sockaddr_in * bool)).

Definition EBADF : Z := 9.
Definition EADDRINUSE : Z := 98.

Definition mem_socket (w : world) : world * (Z + Z) :=
  let fd := Z.of_nat (fresh (set_map (C := gset Z) (D := gset nat) Z.to_nat (dom w))) in (<[fd := (None, false)]> w, inr fd).

Definition mem_bind (w : world) (fd : Z) (a : sockaddr_in) : world * error_code :=
  let a := MkAddress (if sin_port a =? 0 then htons 20000 else sin_port a) (sin_addr a) in
  if existsb (fun e => bool_decide (e.2.1 = Some a)) (map_to_list w) then (w, Some EADDRINUSE)
  else
    match w !! fd with
    | Some (_, listening) => if bool_decide (0 <= sin_port a < 65536) then (<[fd := (Some a, listening)]> w, None) else (w, Some EBADF)
    | None => (w, Some EBADF)
    end.

Definition mem_listen (w : world) (fd : Z) (backlog : Z) : world * error_code :=
  match w !! fd with
  | Some (a, _) => (<[fd := (a, true)]> w, None)
  | None => (w, Some EBADF)
  end.

Definition mem_getsockname (w : world) (fd : Z) : world * (Z + sockaddr_in) :=
  (w, match w !! fd with Some (Some a, _) => inr a | _ => inl EBADF end).

#[global] Instance memory_descriptors : Descriptors world := {|
  sk_shutdown w fd := w;
  sk_close w fd := delete fd w;
  sk_set_timeout w fd o n := (w, None);
|}.

#[global] Instance memory_listening : Listening world := {|
  sk_socket := mem_socket;
  sk_reuse_address w fd := (w, None);
  sk_bind := mem_bind;
  sk_listen := mem_listen;
  sk_getsockname := mem_getsockname;
|}.

#[global] Instance memory_view : SocketView world := {|
  sv_open := dom;
  sv_bound w fd := w !! fd ≫= fst;
  sv_listening w fd := match w !! fd with Some (_, listening) => listening | None => false end;
|}.

Lemma memory_listener_laws : listener_laws (W := world).
Proof.
  split.
  - intros w w' r. cbn [sk_socket memory_listening]. unfold mem_socket. set (s := set_map _ _).
    intros [= <- <-]. split_and!; [lia| |apply dom_insert_L]. intros Hin. apply (is_fresh s).
    apply elem_of_map. exists (Z.of_nat (fresh s)). split; [lia|done].
  - by intros w fd w' r [= <- <-].
  - intros w fd a w' r. cbn [sk_bind memory_listening]. unfold mem_bind. destruct (existsb _ _); [by intros [= <- <-]|].
    destruct (w !! fd) as [[b l]|] eqn:E; [|by intros [= <- <-]]. case_bool_decide as Hp; intros [= <- <-]; [|done]. cbn in *.
    split; [rewrite dom_insert_L; apply elem_of_dom_2 in E; set_solver|]. intros _. eexists. rewrite lookup_insert_eq.
    split; [exact Hp|]. split; [done|]. intros Hz. by rewrite (proj2 (Z.eqb_neq _ _) Hz).
  - intros w fd n w' r. cbn [sk_listen memory_listening]. unfold mem_listen.
    destruct (w !! fd) as [[b l]|] eqn:E; intros [= <- <-]; [|done]. cbn. rewrite lookup_insert_eq, E.
    split; [|done]. rewrite dom_insert_L. apply elem_of_dom_2 in E. set_solver.
  - intros w fd w' r [= <- <-]. split; [done|]. cbn. by destruct (w !! fd) as [[[a|] l]|].
  - intros w fd. apply dom_delete_L.
  - done.
  - done.
Qed.

Lemma listener_in_memory : exists w' r, create_listener 8080 (∅ : world) = Some (w', r) /\
  match r with
  | Ok (fd, actual_port) =>
      (fd ∉ sv_open (∅ : world)) /\ sv_open w' = {[fd]} ∪ sv_open (∅ : world) /\ sv_listening w' fd = true /\
      sv_bound w' fd = Some (MkAddress (htons actual_port) (htonl INADDR_LOOPBACK)) /\
      0 <= actual_port < 65536 /\ (8080 <> 0 -> actual_port = 8080)
  | Throw _ => sv_open w' = sv_open (∅ : world)
  end.
Proof. apply (create_listener_owns memory_listener_laws). lia. Defined.

Example listener_on_8080 :
  match create_listener 8080 (∅ : world) with Some (_, Ok (_, port)) => bool_decide (port = 8080) | _ => false end = true.
Proof. vm_compute. reflexivity. Qed.
End SocketMemory.

(** ** The thread that watches the client of a request *)

Definition POLLIN : Z := 1.
Definition POLLERR : Z := 8.
Definition POLLHUP : Z := 16.
Definition POLLNVAL : Z := 32.
Definition POLLRDHUP : Z := 8192.
Definition EAGAIN : Z := 11.

Definition terminal_events : Z := Z.lor (Z.lor POLLERR POLLHUP) POLLNVAL.

(** The calls of the thread: [dm_poll] waits without a bound, so it is [None] as long as
    nothing has happened on the socket, and leaves [revents]; [dm_peek] is a [recv] of one
    byte with MSG_PEEK and MSG_DONTWAIT. *)
Class Watching (W : Type) := {
  watching_descriptors :: Descriptors W;
  dm_poll : W -> Z -> Z -> option (W * (Z + Z));
  dm_peek : W -> Z -> W * (Z + nat);
}.

(** Where the thread is: before the condition of its loop, in [poll], or at its end. *)
Inductive monitor_point := watch_loop | watch_poll | watch_over.

#[global] Instance monitor_point_eq_dec : EqDecision monitor_point.
Proof. solve_decision. Defined.

(** What the thread shares with the request: [finishing_], whether the stop of the request
    was requested, by the thread or by [worker_stop], and where the thread is. *)
Record Monitor := MkMonitor { dm_finishing : bool; dm_requested : bool; dm_point : monitor_point }.

Definition monitor_at (p : monitor_point) (m : Monitor) : Monitor := MkMonitor (dm_finishing m) (dm_requested m) p.
Definition request_stop (m : Monitor) : Monitor := MkMonitor (dm_finishing m) true (dm_point m).
Definition finish (m : Monitor) : Monitor := MkMonitor true (dm_requested m) (dm_point m).

Section monitor.
Context {W : Type} `{Watching W}.

Definition watched_events : Z := Z.lor (Z.lor (Z.lor POLLIN POLLERR) POLLHUP) POLLRDHUP.

(** One turn of [monitor_client_disconnect]: its loop up to the call of [poll], or from the
    return of [poll] to the end of the body.  A turn of a thread that waits changes nothing. *)
Definition monitor_turn (socket : Z) (w : W) (m : Monitor) : W * Monitor :=
  match dm_point m with
  | watch_loop => (w, monitor_at (if dm_finishing m then watch_over else watch_poll) m)
  | watch_poll =>
    match dm_poll w socket watched_events with
    | None => (w, m)
    | Some (w, inl errno) =>
      if errno =? EINTR then (w, monitor_at watch_loop m)
      else (w, monitor_at watch_over (if dm_finishing m then m else request_stop m))
    | Some (w, inr revents) =>
      if dm_finishing m then (w, monitor_at watch_over m)
      else if negb (Z.land revents terminal_events =? 0) then (w, monitor_at watch_over (request_stop m))
      else if negb (Z.land revents POLLRDHUP =? 0) then (w, monitor_at watch_over (request_stop m))
      else if Z.land revents POLLIN =? 0 then (w, monitor_at watch_loop m)
      else
        let '(w, count) := dm_peek w socket in
        match count with
        | inl errno =>
          if (errno =? EINTR) || (errno =? EAGAIN) then (w, monitor_at watch_loop m)
          else (w, monitor_at watch_over (request_stop m))
        | inr _ => (w, monitor_at watch_over (request_stop m))
        end
    end
  | watch_over => (w, m)
  end.

Definition monitor_client_disconnect (turns : nat) (socket : Z) (w : W) (m : Monitor) : W * Monitor :=
  Nat.iter turns (fun x => monitor_turn socket x.1 x.2) (w, m).

(** The constructor of [DisconnectMonitor], and its destructor up to the join. *)
Definition start_monitor (m : Monitor) : Monitor := MkMonitor false (dm_requested m) watch_loop.
Definition destroy_monitor (socket : Z) (w : W) (m : Monitor) : W * Monitor := (shutdown_socket w socket, finish m).
End monitor.

(** The client of a request waits for its answer, has sent more than the request, has left
    or can no longer be watched. *)
Inductive client_state := client_waits | client_sent_more | client_left | client_lost.

(** What is seen of a watched connection: its client, whether its socket is shut down,
    whether the stop of the worker was requested, and how many more wake-ups of the watching
    thread will be for nothing. *)
Class WatchView (W : Type) := {
  wv_client : W -> client_state; wv_shut : W -> bool; wv_stopped : W -> bool; wv_spurious : W -> nat }.

Section monitor_laws.
Context {W : Type} `{Watching W, WatchView W}.

(** What may happen meanwhile: a client that no longer waits does not wait again, and only
    the server's [stop], which requests the stop of the worker first, shuts a socket. *)
Record later (w w' : W) : Prop := {
  later_client : wv_client w <> client_waits -> wv_client w' <> client_waits;
  later_shut : wv_shut w = true -> wv_shut w' = true;
  later_stop : wv_shut w' = true -> wv_shut w = true \/ wv_stopped w' = true;
  later_stopped : wv_stopped w = true -> wv_stopped w' = true;
  later_spurious : (wv_spurious w' <= wv_spurious w)%nat;
}.

(** The documented behaviour of the calls: [poll] returns when something has happened, with
    a reason unless it was interrupted or woken for nothing. *)
Record watch_laws : Prop := {
  law_watch_shutdown (w : W) fd :
    wv_shut (sk_shutdown w fd) = true /\ (wv_spurious (sk_shutdown w fd) <= wv_spurious w)%nat /\
    (wv_stopped w = true -> wv_stopped (sk_shutdown w fd) = true) /\
    (wv_client w <> client_waits -> wv_client (sk_shutdown w fd) <> client_waits);
  law_poll (w : W) fd w' r : dm_poll w fd watched_events = Some (w', r) -> later w w' /\
    match r with
    | inl errno => if errno =? EINTR then (wv_spurious w' < wv_spurious w)%nat else wv_client w' = client_lost
    | inr revents =>
        (Z.land revents terminal_events <> 0 -> wv_client w' = client_left \/ wv_client w' = client_lost \/ wv_shut w' = true) /\
        (Z.land revents POLLRDHUP <> 0 -> wv_client w' = client_left \/ wv_shut w' = true) /\
        (Z.land revents (Z.lor watched_events terminal_events) = 0 -> (wv_spurious w' < wv_spurious w)%nat)
    end;
  law_poll_wakes (w : W) fd : wv_client w <> client_waits \/ wv_shut w = true -> dm_poll w fd watched_events <> None;
  law_peek (w : W) fd w' r : dm_peek w fd = (w', r) -> later w w' /\
    match r with
    | inl errno => if (errno =? EINTR) || (errno =? EAGAIN) then (wv_spurious w' < wv_spurious w)%nat else wv_client w' = client_lost
    | inr O => wv_client w' = client_left \/ wv_shut w' = true
    | inr (S _) => wv_client w' = client_sent_more
    end;
}.

Lemma later_refl w : later w w.
Proof. by split; auto. Qed.

Lemma later_trans w1 w2 w3 : later w1 w2 -> later w2 w3 -> later w1 w3.
Proof. intros [A1 A2 A3 A4 A5] [B1 B2 B3 B4 B5]. split; [auto..| |auto|lia]. intros Hs. destruct (B3 Hs) as [Hs2|]; [|auto]. destruct (A3 Hs2); auto. Qed.

(** Why a request may be stopped: its client does not wait for the answer, or the worker
    that serves it was stopped. *)
Definition stop_reason (w : W) : Prop := wv_client w <> client_waits \/ wv_stopped w = true.

Lemma later_reason w w' : later w w' -> stop_reason w -> stop_reason w'.
Proof. intros L [Hc|Hs]; [left; by apply (later_client _ _ L)|right; by apply (later_stopped _ _ L)]. Qed.

(** While the request runs: its stop has a reason, and so has a socket that is shut. *)
Definition watched (w : W) (m : Monitor) : Prop :=
  (dm_requested m = true -> stop_reason w) /\ (dm_finishing m = false -> wv_shut w = true -> wv_stopped w = true).

Lemma later_watched w w' m : later w w' -> watched w m -> watched w' m.
Proof.
  intros L [Hr Hs]. split; [by intros ?%Hr%(later_reason _ _ L)|]. intros Hf Hsh.
  destruct (later_stop _ _ L Hsh) as [?|?]; [apply (later_stopped _ _ L)|]; auto.
Qed.

Lemma no_events revents : Z.land revents terminal_events = 0 -> Z.land revents POLLRDHUP = 0 -> Z.land revents POLLIN = 0 ->
  Z.land revents (Z.lor watched_events terminal_events) = 0.
Proof.
  intros Ht Hr Hi. assert (Z.land revents (Z.lor (Z.lor POLLIN POLLRDHUP) terminal_events) = 0) as <-; [|done].
  by rewrite !Z.land_lor_distr_r, Ht, Hr, Hi.
Qed.

(** What a turn does: it goes on, or it ends; [finishing_] is left alone and the stop is not
    taken back. *)
Definition turned (socket : Z) (w : W) (m : Monitor) (w' : W) (m' : Monitor) : Prop :=
  later w w' /\ watched w' m' /\ dm_finishing m' = dm_finishing m /\ (dm_requested m = true -> dm_requested m' = true) /\
  match dm_point m with
  | watch_loop => w' = w /\ dm_point m' = if dm_finishing m then watch_over else watch_poll
  | watch_poll =>
      (dm_poll w socket watched_events = None /\ m' = m) \/
      (dm_point m' = watch_over /\ (dm_finishing m = false -> dm_requested m' = true)) \/
      (dm_point m' = watch_loop /\ (wv_spurious w' < wv_spurious w)%nat)
  | watch_over => w' = w /\ m' = m
  end.

Lemma turned_tell socket w m w' : dm_point m = watch_poll -> later w w' -> watched w' m -> stop_reason w' ->
  turned socket w m w' (monitor_at watch_over (request_stop m)).
Proof. intros Ep L [_ Hs] Hr. unfold turned. rewrite Ep. split_and!; [done|by split|done..|]. right; left. by split. Qed.

Lemma turned_again socket w m w' : dm_point m = watch_poll -> later w w' -> watched w' m -> (wv_spurious w' < wv_spurious w)%nat ->
  turned socket w m w' (monitor_at watch_loop m).
Proof. intros Ep L Hw Hs. unfold turned. rewrite Ep. split_and!; try done. right; right. by split. Qed.

Lemma turned_finished socket w m w' : dm_point m = watch_poll -> dm_finishing m = true -> later w w' -> watched w' m ->
  turned socket w m w' (monitor_at watch_over m).
Proof. intros Ep Ef L Hw. unfold turned. rewrite Ep. split_and!; try done. right; left. split; [done|congruence]. Qed.

Lemma monitor_turn_spec (laws : watch_laws) socket w m : watched w m ->
  turned socket w m (monitor_turn socket w m).1 (monitor_turn socket w m).2.
Proof.
  intros Hw. unfold monitor_turn. destruct (dm_point m) eqn:Ep; [unfold turned; rewrite Ep; by split_and!; [apply later_refl|..]| |
    unfold turned; rewrite Ep; by split_and!; [apply later_refl|..]].
  destruct (dm_poll w socket watched_events) as [[w1 r]|] eqn:E; [|unfold turned; rewrite Ep; split_and!; [apply later_refl|done..|by left]].
  apply (law_poll laws) in E as [L Hr]. pose proof (later_watched _ _ _ L Hw) as Hw1. destruct r as [errno|revents].
  { destruct (errno =? EINTR); [by apply turned_again|]. destruct (dm_finishing m) eqn:Ef; [by apply turned_finished|].
    apply turned_tell; try done. left. cbn. congruence. }
  destruct Hr as (Ht & Hrd & Hnone). destruct (dm_finishing m) eqn:Ef; [by apply turned_finished|].
  assert (Hshut : wv_shut w1 = true -> stop_reason w1) by (intros Hs; right; by apply Hw1).
  destruct (Z.eqb_spec (Z.land revents terminal_events) 0) as [Et|Et]; cbn [negb].
  2: { apply turned_tell; try done. destruct (Ht Et) as [Hc|[Hc|?]]; [left; cbn; congruence..|auto]. }
  destruct (Z.eqb_spec (Z.land revents POLLRDHUP) 0) as [Er|Er]; cbn [negb].
  2: { apply turned_tell; try done. destruct (Hrd Er) as [Hc|?]; [left; cbn; congruence|auto]. }
  destruct (Z.eqb_spec (Z.land revents POLLIN) 0) as [Ei|Ei]; [by apply turned_again; [..|apply Hnone, no_events]|].
  destruct (dm_peek w1 socket) as [w2 c] eqn:E2. apply (law_peek laws) in E2 as [L2 H2].
  pose proof (later_trans _ _ _ L L2) as L02. pose proof (later_watched _ _ _ L2 Hw1) as Hw2. pose proof (later_spurious _ _ L) as Hsp.
  destruct c as [errno|[|n]]; [destruct (_ || _)|..].
  - apply turned_again; try done. cbn; lia.
  - apply turned_tell; try done. left. cbn. congruence.
  - apply turned_tell; try done. destruct H2 as [Hc|?]; [left; cbn; congruence|right; by apply Hw2].
  - apply turned_tell; try done. left. cbn. congruence.
Qed.

(** Any number of turns. *)
Lemma monitor_turns_spec (laws : watch_laws) turns socket w m : watched w m ->
  let '(w', m') := monitor_client_disconnect turns socket w m in
  later w w' /\ watched w' m' /\ dm_finishing m' = dm_finishing m /\ (dm_requested m = true -> dm_requested m' = true).
Proof.
  intros Hw. unfold monitor_client_disconnect. induction turns as [|turns IH]; [by split_and!; [apply later_refl|..]|].
  rewrite Nat.iter_succ. destruct (Nat.iter turns _ _) as [w1 m1]. destruct IH as (L1 & Hw1 & Hf1 & Hr1). cbn [fst snd].
  pose proof (monitor_turn_spec laws socket w1 m1 Hw1) as Ht. destruct (monitor_turn socket w1 m1) as [w2 m2]. cbn [fst snd] in Ht.
  destruct Ht as (L2 & Hw2 & Hf2 & Hr2 & _). split_and!; [by eapply later_trans|done|congruence|auto].
Qed.

(** The destructor of the monitor does not wait for ever: it shuts the socket, so [poll]
    returns, and the thread sees [finishing_]. *)
Lemma monitor_joins (laws : watch_laws) socket w m : watched w m -> dm_finishing m = true -> wv_shut w = true ->
  dm_point (monitor_client_disconnect 2 socket w m).2 = watch_over.
Proof.
  intros Hw Hf Hs. unfold monitor_client_disconnect. cbn [Nat.iter nat_rect fst snd].
  pose proof (monitor_turn_spec laws socket w m Hw) as Ht. destruct (monitor_turn socket w m) as [w1 m1].
  cbn [fst snd] in Ht. destruct Ht as (L1 & Hw1 & Hf1 & _ & Hp1). cbn [fst snd]. pose proof (monitor_turn_spec laws socket w1 m1 Hw1) as Ht2.
  destruct (monitor_turn socket w1 m1) as [w2 m2].
  cbn [fst snd] in Ht2. destruct Ht2 as (_ & _ & _ & _ & Hp2). cbn [snd].
  assert (Hover : dm_point m1 = watch_over -> dm_point m2 = watch_over) by (intros E; rewrite E in Hp2; by destruct Hp2 as [_ ->]).
  destruct (dm_point m) eqn:Ep.
  - rewrite Hf in Hp1. apply Hover, Hp1.
  - destruct Hp1 as [[E _]|[[E _]|[E _]]]; [exfalso; apply (law_poll_wakes laws) in E; auto|by apply Hover|].
    rewrite E, Hf1, Hf in Hp2. apply Hp2.
  - destruct Hp1 as [_ ->]. by apply Hover.
Qed.

Lemma monitor_turn_requested socket w m : dm_requested m = true -> dm_requested (monitor_turn socket w m).2 = true.
Proof.
  unfold monitor_turn. intros Hr. destruct (dm_point m); [done| |done]. destruct (dm_poll _ _ _) as [[w1 [e|v]]|]; [| |done].
  - destruct (_ =? _), (dm_finishing m); done.
  - destruct (dm_finishing m); [done|]. repeat (destruct (negb _); [done|]). destruct (_ =? _); [done|].
    destruct (dm_peek _ _) as [w2 [e|n]]; [|done]. by destruct (_ || _).
Qed.

(** A client that has sent more, has left or cannot be watched stops its request: after
    finitely many turns of the thread the stop is requested. *)
Lemma monitor_cancels (laws : watch_laws) turns socket w m : watched w m -> dm_finishing m = false ->
  wv_client w <> client_waits -> (dm_point m = watch_over -> dm_requested m = true) ->
  (2 * wv_spurious w + 2 <= turns)%nat -> dm_requested (monitor_client_disconnect turns socket w m).2 = true.
Proof.
  intros Hw Hf Hc Hover Hn.
  assert (Hgo : forall turns, dm_requested (monitor_client_disconnect turns socket w m).2 = true \/
    let '(w', m') := monitor_client_disconnect turns socket w m in
    later w w' /\ watched w' m' /\ dm_finishing m' = false /\ dm_point m' <> watch_over /\
    (turns + match dm_point m' with watch_loop => 2 | _ => 1 end + 2 * wv_spurious w' <= 2 * wv_spurious w + 2)%nat).
  { clear turns Hn. intros turns. unfold monitor_client_disconnect. induction turns as [|turns IH].
    - cbn. destruct (dm_point m) eqn:E; [right..|left; by apply Hover]; (split_and!; [apply later_refl|done..|lia]).
    - rewrite Nat.iter_succ. destruct (Nat.iter turns _ _) as [w1 m1]. cbn [fst snd] in *.
      destruct IH as [Hr|(L1 & Hw1 & Hf1 & Hp1 & Hb1)].
      + left. by apply monitor_turn_requested.
      + pose proof (monitor_turn_spec laws socket w1 m1 Hw1) as Ht. destruct (monitor_turn socket w1 m1) as [w2 m2].
        cbn [fst snd] in Ht. destruct Ht as (L2 & Hw2 & Hf2 & _ & Ht). pose proof (later_spurious _ _ L2). cbn [snd]. destruct (dm_point m1) eqn:E1; [|..|done].
        * right. destruct Ht as [-> E2]. rewrite Hf1 in E2. rewrite E2. split_and!; [done..|congruence|done|lia].
        * destruct Ht as [[En _]|[[_ Hr]|[E2 Hsp]]]; [|left; auto|].
          -- exfalso. apply (law_poll_wakes laws) in En; [done|]. left. by apply (later_client _ _ L1).
          -- right. rewrite E2. split_and!; [by eapply later_trans|done|congruence|done|lia]. }
  destruct (Hgo turns) as [?|Hgo']; [done|]. destruct (monitor_client_disconnect turns socket w m) as [w' m'].
  destruct Hgo' as (_ & _ & _ & _ & Hb). destruct (dm_point m'); lia.
Qed.
End monitor_laws.
