(* ===== verification/Loopback.v ===== *)
(** The loopback HTTP server: src/http/loopback_server.cpp and .hpp (the POSIX branch).
    First a connection: the loops that receive a request head and send an answer, over an
    interface of socket calls, and [handle_connection] with the thread that watches its
    client; then the threads of the server as a step relation on the queue, the workers, the
    accepter and the thread that stops it. *)
From stdpp Require Import prelude strings list.
From Stdlib Require Import ZArith Lia Ascii.
From S2P Require Import Prelude Text HttpProtocol Posix LoopbackSockets.

(** ** The socket calls *)

Class Channel (W : Type) := {
  sk_send : W -> Z -> text -> W * (Z + nat);
  sk_recv : W -> Z -> nat -> W * (Z + text);
}.

(** [sk_stop_requested] is [stop_token::stop_requested] of the worker's token: another thread
    may request the stop between two calls, so asking moves the world on.  [sk_start_thread]
    is the constructor of [std::thread], which may throw, and [sk_schedule] says how many
    turns the thread that watches the client gets before the next call. *)
Class Sockets (W : Type) := {
  sockets_channel :: Channel W;
  sockets_watching :: Watching W;
  sk_stop_requested : W -> W * bool;
  sk_start_thread : W -> W * bool;
  sk_schedule : W -> W * nat;
}.

(** ** The code of a connection *)

(** What a handler does with what it is given: it looks at the stop token of the request, it
    writes and looks at the answer, and returns or throws.  Everything else it does is its
    own. *)
Inductive handler_action :=
| Return (thrown : bool)
| Look (next : bool -> handler_action)
| Write (data : text) (next : bool -> handler_action).

Section code.
Context {W : Type} `{Channel W} (stop_token : W -> W * bool).

(** The loop of [send_all]; [contents] is what remains from [offset] on. *)
Fixpoint send_all (fuel : nat) (socket : Z) (contents : text) : io W bool :=
  match fuel with
  | O => diverge
  | S fuel =>
    match contents with
    | [] => mret true
    | _ :: _ =>
      stop ← call stop_token;
      if (stop : bool) then mret false
      else
        let chunk := take (Z.to_nat (Z.min (Z.of_nat (length contents)) I32_MAX)) contents in
        written ← call (fun w => sk_send w socket chunk);
        match written with
        | inl errno => if errno =? EINTR then send_all fuel socket contents else mret false
        | inr O => mret false
        | inr n => send_all fuel socket (drop n contents)
        end
    end
  end.

Definition CRLFCRLF : text := crlf ++ crlf.

(** The loop of [receive_request_head]: the head, and [exceeded_limit]. *)
Fixpoint receive_request_head (fuel : nat) (socket : Z) (received : text) : io W (option text * bool) :=
  match fuel with
  | O => diverge
  | S fuel =>
    stop ← call stop_token;
    if (stop : bool) then mret (None, false)
    else
      count ← call (fun w => sk_recv w socket 4096);
      match count with
      | inl errno => if errno =? EINTR then receive_request_head fuel socket received else mret (None, false)
      | inr [] => mret (None, false)
      | inr bytes =>
        let received := received ++ bytes in
        match find_text CRLFCRLF received with
        | Some end_ =>
          let head_size := (end_ + 4)%nat in
          if maximum_request_head_size <? Z.of_nat head_size then mret (None, true)
          else mret (Some (take head_size received), false)
        | None =>
          if maximum_request_head_size <=? Z.of_nat (length received) then mret (None, true)
          else receive_request_head fuel socket received
        end
      end
  end.
End code.

(** The variables of [handle_connection]: the flag [wrote_response] that the writer shares,
    the monitor with the stop of the request, and, for the theorems, the writes of the
    handler with their answers. *)
Record Connection (W : Type) := MkConnection {
  cn_world : W; cn_wrote : bool; cn_monitor : Monitor; cn_writes : list (text * bool) }.
Arguments MkConnection {W} _ _ _ _.
Arguments cn_world {W} _.
Arguments cn_wrote {W} _.
Arguments cn_monitor {W} _.
Arguments cn_writes {W} _.

Definition with_world {W} (w : W) (c : Connection W) : Connection W := MkConnection w (cn_wrote c) (cn_monitor c) (cn_writes c).
Definition with_monitor {W} (m : Monitor) (c : Connection W) : Connection W := MkConnection (cn_world c) (cn_wrote c) m (cn_writes c).
Definition on_world {W A} (f : W -> W * A) (c : Connection W) : Connection W * A :=
  let '(w, a) := f (cn_world c) in (with_world w c, a).

#[global] Instance connection_channel {W} `{Channel W} : Channel (Connection W) := {|
  sk_send c socket data := on_world (fun w => sk_send w socket data) c;
  sk_recv c socket n := on_world (fun w => sk_recv w socket n) c;
|}.

(** A connection before its request. *)
Definition new_connection {W} (w : W) : Connection W := MkConnection w false (MkMonitor false false watch_over) [].

Section connection.
Context {W : Type} `{Sockets W}.

(** The turns of the watching thread. *)
Definition watch (turns : nat) (client : Z) (c : Connection W) : Connection W :=
  let '(w, m) := monitor_client_disconnect turns client (cn_world c) (cn_monitor c) in with_world w (with_monitor m c).

Definition worker_token (c : Connection W) : Connection W * bool := on_world sk_stop_requested c.

(** The token of the request: the watching thread may have had turns, and the callback
    [worker_stop] passes the stop of the worker on. *)
Definition request_token (client : Z) (c : Connection W) : Connection W * bool :=
  let '(c, turns) := on_world sk_schedule c in
  let c := watch turns client c in
  let '(c, stopped) := worker_token c in
  let c := if stopped then with_monitor (request_stop (cn_monitor c)) c else c in
  (c, dm_requested (cn_monitor c)).

(** The writer of a request: it notes that something was written and sends it. *)
Definition writer (fuel : nat) (socket : Z) (data : text) : io (Connection W) bool :=
  _ ← call (fun c => (MkConnection (cn_world c) (if bool_decide (data = []) then cn_wrote c else true) (cn_monitor c) (cn_writes c), tt));
  if socket =? -1 then mret false else send_all (request_token socket) fuel socket data.

Definition note_write (data : text) (sent : bool) (c : Connection W) : Connection W :=
  MkConnection (cn_world c) (cn_wrote c) (cn_monitor c) (cn_writes c ++ [(data, sent)]).

Fixpoint run_handler (fuel : nat) (socket : Z) (a : handler_action) : io (Connection W) bool :=
  match a with
  | Return thrown => mret thrown
  | Look next => stop ← call (request_token socket); run_handler fuel socket (next stop)
  | Write data next =>
    sent ← writer fuel socket data;
    _ ← call (fun c => (note_write data sent c, tt));
    run_handler fuel socket (next sent)
  end.

(** The answer to a head that was not accepted. *)
Definition rejection_status (s : RequestParseStatus) : ResponseStatus :=
  match s with
  | method_not_allowed => status_method_not_allowed
  | header_too_large => status_request_header_fields_too_large
  | _ => status_bad_request
  end.

(** The [try] block: the same answer follows a handler that returns and one that throws, when
    nothing was written and the request was not stopped. *)
Definition call_handler (fuel : nat) (client : Z) (a : handler_action) : io (Connection W) unit :=
  thrown ← run_handler fuel client a;
  wrote ← ask cn_wrote;
  if (wrote : bool) then mret tt
  else
    stop ← call (request_token client);
    if (stop : bool) then mret tt
    else _ ← send_all (request_token client) fuel client (build_error_response status_internal_server_error 0); mret tt.

(** The join of the destructor of the monitor: until the watching thread has ended. *)
Fixpoint join_monitor (fuel : nat) (client : Z) : io (Connection W) unit :=
  match fuel with
  | O => diverge
  | S fuel =>
    point ← ask (fun c => dm_point (cn_monitor c));
    match point with
    | watch_over => mret tt
    | _ => _ ← call (fun c => (watch 1 client c, tt)); join_monitor fuel client
    end
  end.

(** The request: its stop, the callback on the stop of the worker and the monitor, whose
    destructor runs at the end. *)
Definition serve (fuel : nat) (client : Z) (a : handler_action) : io (Connection W) unit :=
  started ← call (on_world sk_start_thread);
  if negb started then raise system_error "start the disconnect monitor"
  else
    _ ← call (fun c => (MkConnection (cn_world c) false (start_monitor (MkMonitor false false watch_over)) (cn_writes c), tt));
    _ ← call_handler fuel client a;
    _ ← call (fun c => let '(w, m) := destroy_monitor client (cn_world c) (cn_monitor c) in (with_world w (with_monitor m c), tt));
    join_monitor fuel client.

Definition handle_connection (fuel : nat) (handler : HttpRequest -> handler_action) (client : Z) : io (Connection W) unit :=
  if client =? -1 then mret tt
  else
    received ← receive_request_head worker_token fuel client [];
    let '(head, exceeded_limit) := (received : option text * bool) in
    match head with
    | None =>
      if exceeded_limit then
        _ ← send_all worker_token fuel client (build_error_response status_request_header_fields_too_large 0); mret tt
      else mret tt
    | Some head =>
      let parsed := parse_http_request_head head in
      match pr_status parsed, pr_request parsed with
      | request_ok, Some request => serve fuel client (handler request)
      | status, _ => _ ← send_all worker_token fuel client (build_error_response (rejection_status status) 0); mret tt
      end
    end.
End connection.

(** ** Searching a text that grows *)

Lemma starts_with_spec n v : starts_with n v = true <-> n `prefix_of` v.
Proof. apply starts_with_app. Qed.

Lemma starts_with_app_long n v w : (length n <= length v)%nat -> starts_with n (v ++ w) = starts_with n v.
Proof.
  intros Hl. apply eq_bool_prop_intro. rewrite !Is_true_true, !starts_with_spec. split; [|by intros ?%(prefix_app_r _ _ w)].
  intros Hp. pose proof (prefix_length_eq n (take (length n) v)) as He. rewrite <-(take_drop (length n) v).
  apply prefix_app_r. destruct Hp as [k Hk]. apply (f_equal (take (length n))) in Hk.
  rewrite take_app_le, take_app_length in Hk by done. rewrite Hk. done.
Qed.

Lemma find_text_bound n v i : find_text n v = Some i -> (i + length n <= length v)%nat.
Proof.
  revert i. induction v as [|x v IH]; intros i; cbn [find_text]; destruct (starts_with n _) eqn:E.
  - intros [= <-]. apply starts_with_spec, prefix_length in E. lia.
  - done.
  - intros [= <-]. apply starts_with_spec, prefix_length in E. simpl in *. lia.
  - destruct (find_text n v) as [j|]; [|done]. intros [= <-]. specialize (IH j eq_refl). simpl. lia.
Qed.

(** What is found stays where it was found. *)
Lemma find_text_app n v w i : n <> [] -> find_text n v = Some i -> find_text n (v ++ w) = Some i.
Proof.
  intros Hn. revert i. induction v as [|x v IH]; intros i Hf.
  - apply find_text_bound in Hf. destruct n; [done|]. simpl in Hf. lia.
  - pose proof (find_text_bound _ _ _ Hf) as Hb. cbn [find_text app] in *. change (x :: v ++ w) with ((x :: v) ++ w).
    rewrite starts_with_app_long by lia. destruct (starts_with n (x :: v)); [done|]. destruct (find_text n v) as [j|]; [|done].
    by rewrite (IH j eq_refl).
Qed.

(** What was not there before ends in what was added. *)
Lemma find_text_new n v w i : find_text n v = None -> find_text n (v ++ w) = Some i -> (length v < i + length n)%nat.
Proof.
  revert i. induction v as [|x v IH]; intros i.
  - intros Hv Hf. destruct n as [|y n]; [done|]. simpl. lia.
  - intros Hv Hf. destruct (decide (length (x :: v) < i + length n)%nat) as [|Hge]; [done|]. exfalso. revert Hv Hf.
    cbn [find_text app]. change (x :: v ++ w) with ((x :: v) ++ w). destruct (starts_with n (x :: v)) eqn:E; [done|].
    destruct (starts_with n ((x :: v) ++ w)) eqn:E2.
    + intros _ [= <-]. rewrite starts_with_app_long in E2 by lia. congruence.
    + destruct (find_text n v) as [j|] eqn:Ej; [done|]. intros _. destruct (find_text n (v ++ w)) as [j|] eqn:Ef; [|done].
      intros [= <-]. specialize (IH j eq_refl eq_refl). simpl in Hge. lia.
Qed.

(** ** A connection and its network *)

(** What is seen of the network besides the watched client: the bytes the client will still
    send before it closes, the bytes sent to it, how many more calls will be interrupted, and
    whether a call has failed otherwise. *)
Class NetworkView (W : Type) := {
  network_watch :: WatchView W;
  incoming : W -> text; outgoing : W -> text; pending : W -> nat; broken : W -> bool }.

Section network.
Context {W : Type} `{Sockets W, NetworkView W}.

Definition quiet (w w' : W) : Prop :=
  incoming w' = incoming w /\ outgoing w' = outgoing w /\ (pending w' <= pending w)%nat /\ (broken w = true -> broken w' = true).

(** The documented behaviour of the calls on a connected socket. *)
Record socket_laws : Prop := {
  law_watch : watch_laws (W := W);
  law_poll_quiet (w : W) fd w' r : dm_poll w fd watched_events = Some (w', r) -> quiet w w';
  law_peek_quiet (w : W) fd w' r : dm_peek w fd = (w', r) -> quiet w w';
  law_shutdown_quiet (w : W) fd : quiet w (sk_shutdown w fd);
  law_schedule (w w' : W) n : sk_schedule w = (w', n) -> quiet w w' /\ later w w';
  law_start (w w' : W) b : sk_start_thread w = (w', b) -> quiet w w' /\ later w w';
  law_stop (w w' : W) b : sk_stop_requested w = (w', b) -> quiet w w' /\ later w w' /\ (b = true -> wv_stopped w' = true);
  law_recv (w : W) socket n w' r : sk_recv w socket n = (w', r) ->
    outgoing w' = outgoing w /\ (pending w' <= pending w)%nat /\ (broken w = true -> broken w' = true) /\
    (wv_stopped w = true -> wv_stopped w' = true) /\ (wv_shut w' = true -> wv_shut w = true \/ wv_stopped w' = true) /\
    match r with
    | inl errno => incoming w' = incoming w /\ if errno =? EINTR then (pending w' < pending w)%nat else broken w' = true
    | inr bytes => incoming w = bytes ++ incoming w' /\ (length bytes <= n)%nat /\ (bytes = [] -> n = 0%nat \/ incoming w = [])
    end;
  law_send (w : W) socket data w' r : sk_send w socket data = (w', r) ->
    incoming w' = incoming w /\ (pending w' <= pending w)%nat /\ (broken w = true -> broken w' = true) /\ later w w' /\
    match r with
    | inl errno => outgoing w' = outgoing w /\ if errno =? EINTR then (pending w' < pending w)%nat else broken w' = true
    | inr n => (n <= length data)%nat /\ outgoing w' = outgoing w ++ take n data /\ (n = 0%nat -> data <> [] -> broken w' = true)
    end;
}.

Lemma quiet_refl w : quiet w w.
Proof. by split_and!. Qed.

Lemma quiet_trans w1 w2 w3 : quiet w1 w2 -> quiet w2 w3 -> quiet w1 w3.
Proof. intros (A1 & A2 & A3 & A4) (B1 & B2 & B3 & B4). split_and!; [congruence|congruence|lia|auto]. Qed.

(** ** What happens to a connection *)

Definition sent_to (c : Connection W) : text := outgoing (cn_world c).

(** Something that may cut the answer: a call failed, the worker was stopped, or the request
    was. *)
Definition disturbed (c : Connection W) : bool :=
  broken (cn_world c) || wv_stopped (cn_world c) || dm_requested (cn_monitor c).

Definition watched_connection (c : Connection W) : Prop := watched (cn_world c) (cn_monitor c).

(** From one moment of a request to a later one, apart from what was sent. *)
Record evolves (c c' : Connection W) : Prop := {
  ev_incoming : incoming (cn_world c') = incoming (cn_world c);
  ev_pending : (pending (cn_world c') <= pending (cn_world c))%nat;
  ev_disturbed : disturbed c = true -> disturbed c' = true;
  ev_requested : dm_requested (cn_monitor c) = true -> dm_requested (cn_monitor c') = true;
  ev_shut : wv_shut (cn_world c) = true -> wv_shut (cn_world c') = true;
  ev_finishing : dm_finishing (cn_monitor c') = dm_finishing (cn_monitor c);
  ev_watched : watched_connection c';
}.

Definition same_request (c c' : Connection W) : Prop := cn_wrote c' = cn_wrote c /\ cn_writes c' = cn_writes c.

Lemma same_request_trans c1 c2 c3 : same_request c1 c2 -> same_request c2 c3 -> same_request c1 c3.
Proof. intros [A1 A2] [B1 B2]. split; congruence. Qed.

Lemma evolves_refl c : watched_connection c -> evolves c c.
Proof. by split. Qed.

Lemma evolves_trans c1 c2 c3 : evolves c1 c2 -> evolves c2 c3 -> evolves c1 c3.
Proof. intros [] []. split; try congruence; try done; auto; lia. Qed.

(** What a world does by itself, with the monitor as it is or with more turns. *)
Lemma evolves_world c w m : watched_connection c -> quiet (cn_world c) w -> later (cn_world c) w -> watched w m ->
  (dm_requested (cn_monitor c) = true -> dm_requested m = true) -> dm_finishing m = dm_finishing (cn_monitor c) ->
  evolves c (with_world w (with_monitor m c)).
Proof.
  intros Hw (Q1 & _ & Q3 & Q4) L Hm Hr Hf. split; try done; [|apply (later_shut _ _ L)]. unfold disturbed. cbn. rewrite !orb_true_iff.
  intros [[?|?%(later_stopped _ _ L)]|?]; auto.
Qed.

(** What a stop token does when it is asked. *)
Definition token_laws (token : Connection W -> Connection W * bool) : Prop := forall c c' b,
  token c = (c', b) -> watched_connection c ->
  evolves c c' /\ same_request c c' /\ sent_to c' = sent_to c /\ (b = true -> disturbed c' = true).

Lemma worker_token_stopped (laws : socket_laws) c c' b : worker_token c = (c', b) -> watched_connection c ->
  evolves c c' /\ same_request c c' /\ sent_to c' = sent_to c /\ (b = true -> wv_stopped (cn_world c') = true).
Proof.
  unfold worker_token, on_world. destruct (sk_stop_requested (cn_world c)) as [w b'] eqn:E.
  intros [= <- <-] Hw. apply (law_stop laws) in E as (Q & L & Hb). split_and!; [|done|apply Q|done].
  apply (evolves_world c w (cn_monitor c)); try done. by eapply later_watched.
Qed.

Lemma disturbed_stopped c : wv_stopped (cn_world c) = true -> disturbed c = true.
Proof. unfold disturbed. intros ->. by rewrite orb_true_r. Qed.

Lemma worker_token_laws (laws : socket_laws) : token_laws worker_token.
Proof. intros c c' b Ht Hw. apply (worker_token_stopped laws) in Ht as (? & ? & ? & ?); [|done]. split_and!; [done..|]. intros Hb. apply disturbed_stopped. auto. Qed.

Lemma monitor_turn_quiet (laws : socket_laws) socket (w : W) m : quiet w (monitor_turn socket w m).1.
Proof.
  unfold monitor_turn. destruct (dm_point m); [apply quiet_refl| |apply quiet_refl].
  destruct (dm_poll _ _ _) as [[w1 [e|v]]|] eqn:E; [apply (law_poll_quiet laws) in E..|apply quiet_refl]; [by repeat case_match|].
  destruct (dm_finishing m); [done|]. repeat (destruct (negb _); [done|]). destruct (_ =? _); [done|].
  destruct (dm_peek _ _) as [w2 c] eqn:E2. apply (law_peek_quiet laws) in E2. pose proof (quiet_trans _ _ _ E E2).
  destruct c; [by destruct (_ || _)|done].
Qed.

Lemma monitor_turns_quiet (laws : socket_laws) turns socket (w : W) m : quiet w (monitor_client_disconnect turns socket w m).1.
Proof.
  unfold monitor_client_disconnect. induction turns as [|turns IH]; [apply quiet_refl|]. rewrite Nat.iter_succ.
  eapply quiet_trans; [exact IH|apply (monitor_turn_quiet laws)].
Qed.

Lemma watch_evolves (laws : socket_laws) turns client c : watched_connection c ->
  evolves c (watch turns client c) /\ same_request c (watch turns client c) /\ sent_to (watch turns client c) = sent_to c.
Proof.
  intros Hw. unfold watch. pose proof (monitor_turns_spec (law_watch laws) turns client (cn_world c) (cn_monitor c) Hw) as Ht.
  pose proof (monitor_turns_quiet laws turns client (cn_world c) (cn_monitor c)) as Q.
  destruct (monitor_client_disconnect _ _ _ _) as [w m]. destruct Ht as (L & Hm & Hf & Hr).
  split_and!; [by apply evolves_world|done|apply Q].
Qed.

Lemma request_token_laws (laws : socket_laws) client : token_laws (request_token client).
Proof.
  intros c c' b Ht Hw. unfold request_token, on_world in Ht. destruct (sk_schedule (cn_world c)) as [w n] eqn:E.
  apply (law_schedule laws) in E as (Q & L). set (c1 := with_world w c) in *.
  assert (E1 : evolves c c1) by (apply (evolves_world c w (cn_monitor c)); try done; by eapply later_watched).
  destruct (watch_evolves laws n client c1 (ev_watched _ _ E1)) as (E2 & S2 & O2). set (c2 := watch n client c1) in *.
  destruct (worker_token c2) as [c3 stopped] eqn:E3.
  apply (worker_token_stopped laws) in E3 as (E3 & S3 & O3 & D3); [|by eapply ev_watched].
  pose proof (evolves_trans _ _ _ E1 (evolves_trans _ _ _ E2 E3)) as E13.
  pose proof (same_request_trans _ _ _ S2 S3) as HS. change (same_request c c3) in HS.
  assert (HO : sent_to c3 = sent_to c) by (rewrite O3, O2; apply Q).
  injection Ht as <- <-. destruct stopped; [|split_and!; [done..|]; intros Hr; unfold disturbed; by rewrite Hr, orb_true_r].
  specialize (D3 eq_refl). split_and!; [|done|done|intros _; by apply disturbed_stopped].
  eapply evolves_trans; [exact E13|]. split; try done.
  - intros _. by apply disturbed_stopped.
  - split; cbn; [by right|apply (ev_watched _ _ E13)].
Qed.

(** ** Sending and receiving *)

(** [send_all] ends, and sends a prefix: all of it when it returns true; when it returns
    false something has disturbed the connection. *)
Lemma send_all_spec (laws : socket_laws) token (Ht : token_laws token) fuel socket contents c :
  watched_connection c -> (length contents + pending (cn_world c) < fuel)%nat ->
  exists c' ok out, send_all token fuel socket contents c = Some (c', Ok ok) /\ evolves c c' /\ same_request c c' /\
    sent_to c' = sent_to c ++ out /\ out `prefix_of` contents /\ (ok = true -> out = contents) /\ (ok = false -> disturbed c' = true).
Proof.
  revert contents c. induction fuel as [|fuel IH]; intros contents c Hw Hf; [lia|]. cbn [send_all].
  destruct contents as [|x0 rest].
  { exists c, true, []. rewrite app_nil_r. split_and!; [done|by apply evolves_refl|done..]. }
  set (contents := x0 :: rest) in *. rewrite bind_call. destruct (token c) as [c1 b] eqn:Es. destruct (Ht _ _ _ Es Hw) as (E1 & S1 & O1 & D1).
  assert (Hfail : forall c2, evolves c c2 -> same_request c c2 -> sent_to c2 = sent_to c -> disturbed c2 = true ->
    exists c' ok out, Some (c2, Ok false) = Some (c', Ok ok) /\ evolves c c' /\ same_request c c' /\
    sent_to c' = sent_to c ++ out /\ out `prefix_of` contents /\ (ok = true -> out = contents) /\ (ok = false -> disturbed c' = true)).
  { intros c2 ????. exists c2, false, []. rewrite app_nil_r. split_and!; try done. apply prefix_nil. }
  destruct b; [by apply Hfail; auto|]. clear D1.
  set (chunk := take _ contents). rewrite bind_call. cbn [sk_send connection_channel]. unfold on_world.
  destruct (sk_send (cn_world c1) socket chunk) as [w2 r] eqn:Ew. apply (law_send laws) in Ew as (Hi2 & Hp2 & Hb2 & L2 & Hr).
  assert (E2 : evolves c1 (with_world w2 c1)).
  { split; try done; [|apply (later_shut _ _ L2)|eapply later_watched; [exact L2|apply (ev_watched _ _ E1)]].
    unfold disturbed. cbn. rewrite !orb_true_iff. intros [[?|?%(later_stopped _ _ L2)]|?]; auto. }
  pose proof (evolves_trans _ _ _ E1 E2) as E02. pose proof (ev_pending _ _ E1) as Hp1.
  assert (Hbr : broken w2 = true -> disturbed (with_world w2 c1) = true) by (unfold disturbed; cbn; by intros ->).
  destruct r as [errno|[|n]].
  - destruct Hr as [Ho2 Hint]. destruct (errno =? EINTR).
    + destruct (IH contents (with_world w2 c1)) as (c' & ok & out & E & E3 & S3 & O3 & Hrest); [apply E2|change (cn_world (with_world w2 c1)) with w2; lia|].
      exists c', ok, out. split; [done|]. split; [by eapply evolves_trans|]. split; [exact (same_request_trans _ _ _ S1 S3)|].
      split; [|done]. rewrite O3, <-O1. unfold sent_to. cbn. by rewrite Ho2.
    + apply Hfail; [done|done|rewrite <-O1; exact Ho2|by apply Hbr].
  - destruct Hr as (_ & Ho2 & Hz). simpl in Ho2. rewrite app_nil_r in Ho2. apply Hfail; [done|done|rewrite <-O1; exact Ho2|].
    apply Hbr, Hz; [done|]. unfold chunk. intros E%(f_equal length). rewrite length_take in E. simpl in E. lia.
  - destruct Hr as (Hn & Ho2 & _). assert (Htake : take (S n) chunk = take (S n) contents).
    { unfold chunk. rewrite take_take. f_equal. unfold chunk in Hn. rewrite length_take in Hn. lia. }
    destruct (IH (drop (S n) contents) (with_world w2 c1)) as (c' & ok & out & E & E3 & S3 & O3 & Hpre & Hok & Hno); [apply E2| |].
    { rewrite length_drop. unfold contents in *. simpl in *. lia. }
    exists c', ok, (take (S n) contents ++ out). split; [exact E|]. split; [by eapply evolves_trans|].
    split; [exact (same_request_trans _ _ _ S1 S3)|]. split; [rewrite O3; unfold sent_to in *; cbn; rewrite Ho2, Htake, O1, <-app_assoc; done|].
    split; [|split; [|done]].
    + rewrite <-(take_drop (S n) contents) at 2. by apply prefix_app.
    + intros ->%Hok. apply take_drop.
Qed.

Lemma request_token_stopped client c c' b : request_token client c = (c', b) -> dm_requested (cn_monitor c') = true -> b = true.
Proof. unfold request_token. destruct (on_world sk_schedule c). destruct (worker_token _). by intros [= <- <-]. Qed.

(** Once the request is stopped nothing more is sent. *)
Lemma send_all_cancelled (laws : socket_laws) client fuel socket contents c :
  watched_connection c -> dm_requested (cn_monitor c) = true -> (0 < fuel)%nat ->
  exists c', send_all (request_token client) fuel socket contents c = Some (c', Ok (bool_decide (contents = []))) /\
    evolves c c' /\ same_request c c' /\ sent_to c' = sent_to c.
Proof.
  intros Hw Hr Hf. destruct fuel as [|fuel]; [lia|]. destruct contents as [|x rest]; cbn [send_all].
  { exists c. split_and!; [done|by apply evolves_refl|done..]. }
  rewrite bind_call. destruct (request_token client c) as [c1 b] eqn:E.
  destruct (request_token_laws laws _ _ _ _ E Hw) as (E1 & S1 & O1 & _). exists c1. split; [|done].
  rewrite (request_token_stopped _ _ _ _ E (ev_requested _ _ E1 Hr)). by rewrite bool_decide_false.
Qed.

(** The head of a stream of bytes, or nothing, with whether it is too large. *)
Definition request_head_of (s : text) : option text * bool :=
  match find_text CRLFCRLF s with
  | Some i =>
    if maximum_request_head_size <? Z.of_nat (i + 4) then (None, true) else (Some (take (i + 4) s), false)
  | None => (None, maximum_request_head_size <=? Z.of_nat (length s))
  end.

(** What receiving leaves of a connection. *)
Definition received_from (c c' : Connection W) : Prop :=
  sent_to c' = sent_to c /\ (pending (cn_world c') <= pending (cn_world c))%nat /\ (disturbed c = true -> disturbed c' = true) /\
  same_request c c' /\ cn_monitor c' = cn_monitor c /\ watched_connection c'.

Lemma received_trans c1 c2 c3 : received_from c1 c2 -> received_from c2 c3 -> received_from c1 c3.
Proof.
  intros (A1 & A2 & A3 & [A4 A5] & A6 & A7) (B1 & B2 & B3 & [B4 B5] & B6 & B7). split_and!; try congruence; try done; [lia|auto|].
  split; congruence.
Qed.

(** [receive_request_head] finds the head of what the client sends, however it arrives, or
    nothing when something disturbs it. *)
Lemma receive_spec (laws : socket_laws) fuel socket received c :
  watched_connection c -> dm_requested (cn_monitor c) = false ->
  (length (incoming (cn_world c)) + pending (cn_world c) < fuel)%nat -> find_text CRLFCRLF received = None ->
  Z.of_nat (length received) < maximum_request_head_size ->
  exists c' r, receive_request_head worker_token fuel socket received c = Some (c', Ok r) /\ received_from c c' /\
    (r = request_head_of (received ++ incoming (cn_world c)) \/ (r = (None, false) /\ disturbed c' = true)).
Proof.
  revert received c. induction fuel as [|fuel IH]; intros received c Hw Hm Hf Hn Hl; [lia|]. cbn [receive_request_head].
  rewrite bind_call. assert (Hm1 : cn_monitor (worker_token c).1 = cn_monitor c) by (unfold worker_token, on_world; by destruct (sk_stop_requested _)).
  destruct (worker_token c) as [c1 b] eqn:Es. cbn [fst] in Hm1. destruct (worker_token_laws laws _ _ _ Es Hw) as (E1 & S1 & O1 & D1).
  assert (R1 : received_from c c1) by (split_and!; try done; apply E1).
  destruct b; [exists c1, (None, false); split; [reflexivity|]; auto|]. clear D1.
  rewrite bind_call. cbn [sk_recv connection_channel]. unfold on_world.
  destruct (sk_recv (cn_world c1) socket 4096) as [w2 r] eqn:Er. apply (law_recv laws) in Er as (Ho2 & Hp2 & Hb2 & Hs2 & Hsh2 & Hr).
  assert (R2 : received_from c1 (with_world w2 c1)).
  { split_and!; try done.
    - unfold disturbed. cbn. rewrite !orb_true_iff. intros [[?|?]|?]; auto.
    - destruct (ev_watched _ _ E1) as [_ Hws]. split; cbn; [by rewrite Hm1, Hm|]. intros Hfin Hsh.
      destruct (Hsh2 Hsh) as [?|?]; [|done]. apply Hs2. by apply Hws. }
  pose proof (received_trans _ _ _ R1 R2) as R02. assert (Hm2 : dm_requested (cn_monitor (with_world w2 c1)) = false) by (cbn; by rewrite Hm1).
  pose proof (ev_incoming _ _ E1) as Hi. pose proof (ev_pending _ _ E1) as Hp.
  assert (Hw2 : watched_connection (with_world w2 c1)) by apply R2. destruct r as [errno|bytes].
  - destruct Hr as [Hi2 Hint]. destruct (errno =? EINTR).
    + destruct (IH received (with_world w2 c1)) as (c' & r & E & R' & Hres); [done|done|cbn; rewrite Hi2, Hi; lia|done|done|].
      cbn [cn_world with_world] in Hres. rewrite Hi2, Hi in Hres. exists c', r. split; [done|]. split; [by eapply received_trans|done].
    + exists (with_world w2 c1), (None, false). split; [done|]. split; [done|]. right. split; [done|]. unfold disturbed. cbn. by rewrite Hint.
  - destruct Hr as (Hi2 & _ & Hend). rewrite Hi in Hi2, Hend. destruct bytes as [|b0 bs].
    + exists (with_world w2 c1), (None, false). split; [done|]. split; [done|]. left. destruct (Hend eq_refl) as [?| ->]; [done|]. rewrite app_nil_r.
      unfold request_head_of. rewrite Hn, (proj2 (Z.leb_gt _ _)) by done. done.
    + set (bytes := b0 :: bs) in *. rewrite Hi2, (app_assoc received). destruct (find_text CRLFCRLF (received ++ bytes)) as [i|] eqn:Hfind.
      * assert (Hof : request_head_of ((received ++ bytes) ++ incoming w2) =
          if maximum_request_head_size <? Z.of_nat (i + 4) then (None, true) else (Some (take (i + 4) (received ++ bytes)), false)).
        { unfold request_head_of. rewrite (find_text_app _ _ _ i) by done. apply find_text_bound in Hfind. simpl in Hfind.
          rewrite take_app_le by (rewrite length_app in *; lia). done. }
        rewrite Hof. destruct (_ <? _); eexists _, _; (split; [reflexivity|]); auto.
      * destruct (Z.leb_spec maximum_request_head_size (Z.of_nat (length (received ++ bytes)))) as [Hbig|Hsmall].
        -- assert (Hof : request_head_of ((received ++ bytes) ++ incoming w2) = (None, true)).
           { unfold request_head_of. destruct (find_text CRLFCRLF ((received ++ bytes) ++ incoming w2)) as [i|] eqn:Hf2.
             - apply find_text_new in Hf2; [|done]. change (length CRLFCRLF) with 4%nat in Hf2. rewrite (proj2 (Z.ltb_lt _ _)) by lia. done.
             - rewrite (proj2 (Z.leb_le _ _)); [done|]. rewrite !length_app in *. lia. }
           rewrite Hof. eexists _, _. split; [reflexivity|]. auto.
        -- destruct (IH (received ++ bytes) (with_world w2 c1)) as (c' & r & E & R' & Hres); [done|done| |done|done|].
           { cbn. rewrite Hi2, length_app in Hf. unfold bytes in Hf. simpl in Hf. lia. }
           exists c', r. split; [done|]. split; [by eapply received_trans|done].
Qed.
End network.

(** ** Answering a request *)

(** A handler that made these writes, got these answers and returned. *)
Inductive follows : handler_action -> list (text * bool) -> Prop :=
| follows_return thrown : follows (Return thrown) []
| follows_look stop next ws : follows (next stop) ws -> follows (Look next) ws
| follows_write data next written ws : follows (next written) ws -> follows (Write data next) ((data, written) :: ws).

(** What a client gets of writes: of each a beginning, all of it when the writer said so. *)
Inductive reaches : list (text * bool) -> text -> Prop :=
| reaches_none : reaches [] []
| reaches_write data written piece ws rest : piece `prefix_of` data -> (written = true -> piece = data) -> reaches ws rest ->
    reaches ((data, written) :: ws) (piece ++ rest).

(** What a handler writes when it is not stopped and every write succeeds, and its longest
    write. *)
Fixpoint handler_output (a : handler_action) : text :=
  match a with Return _ => [] | Look next => handler_output (next false) | Write data next => data ++ handler_output (next true) end.
Fixpoint longest_write (a : handler_action) : nat :=
  match a with
  | Return _ => 0%nat
  | Look next => Nat.max (longest_write (next true)) (longest_write (next false))
  | Write data next => Nat.max (length data) (Nat.max (longest_write (next true)) (longest_write (next false)))
  end.

Definition is_empty_write (w : text * bool) : bool := bool_decide (w.1 = []).

Definition handler_answer (a : handler_action) : text :=
  match handler_output a with [] => build_error_response status_internal_server_error 0 | output => output end.

(** The request in the bytes [s] of a client, or the error they get. *)
Inductive arrival := no_request | bad_request (error : text) | good_request (request : HttpRequest).

Definition arrival_of (s : text) : arrival :=
  match request_head_of s with
  | (None, false) => no_request
  | (None, true) => bad_request (build_error_response status_request_header_fields_too_large 0)
  | (Some head, _) =>
    match parse_http_request_head head with
    | MkParse request_ok (Some request) => good_request request
    | MkParse status _ => bad_request (build_error_response (rejection_status status) 0)
    end
  end.

(** The answer to the bytes [s] when nothing disturbs the connection. *)
Definition answer (handler : HttpRequest -> handler_action) (s : text) : text :=
  match arrival_of s with
  | no_request => []
  | bad_request error => error
  | good_request request => handler_answer (handler request)
  end.

(** The longest text the connection may send at once. *)
Definition longest_answer (handler : HttpRequest -> handler_action) (s : text) : nat :=
  match arrival_of s with good_request request => longest_write (handler request) | _ => 0%nat end.

Section answering.
Context {W : Type} `{Sockets W, NetworkView W}.

Lemma undisturbed (c c' : Connection W) : evolves c c' -> disturbed c' = false -> disturbed c = false.
Proof. intros Ev Hd. apply not_true_is_false. intros ?%(ev_disturbed _ _ Ev). congruence. Qed.

(** The writes of a handler: they are its own, the client gets beginnings of them, and all of
    them when nothing disturbs the connection. *)
Lemma run_handler_spec (laws : socket_laws (W := W)) fuel client a (c : Connection W) :
  client <> -1 -> watched_connection c -> (longest_write a + pending (cn_world c) < fuel)%nat ->
  exists c' thrown ws out, run_handler fuel client a c = Some (c', Ok thrown) /\ evolves c c' /\
    cn_writes c' = cn_writes c ++ ws /\ follows a ws /\ reaches ws out /\ sent_to c' = sent_to c ++ out /\
    cn_wrote c' = cn_wrote c || negb (forallb is_empty_write ws) /\
    (disturbed c' = false -> out = handler_output a /\ Forall (fun w => w.2 = true) ws).
Proof.
  intros Hcl. revert c. induction a as [thrown|next IH|data next IH]; intros c Hw Hf; cbn [run_handler longest_write handler_output] in *.
  - exists c, thrown, [], []. rewrite !app_nil_r, orb_false_r. split_and!; first [done|by apply evolves_refl|constructor].
  - rewrite bind_call. destruct (request_token client c) as [c1 b] eqn:E.
    destruct (request_token_laws laws _ _ _ _ E Hw) as (E1 & [S1 S1'] & O1 & D1). pose proof (ev_pending _ _ E1).
    destruct (IH b c1) as (c' & thrown & ws & out & -> & E2 & Hws & Hfo & Hd & Ho & Hwr & Hu); [by eapply ev_watched|destruct b; lia|].
    exists c', thrown, ws, out. rewrite Hws, S1', Ho, O1, Hwr, S1. split_and!; try done; [by eapply evolves_trans|by econstructor|].
    intros Hdis. pose proof (undisturbed _ _ E2 Hdis) as Hdis1. destruct b; [by rewrite D1 in Hdis1|]. auto.
  - unfold writer. rewrite (proj2 (Z.eqb_neq _ _) Hcl).
    set (c0 := MkConnection (cn_world c) (if bool_decide (data = []) then cn_wrote c else true) (cn_monitor c) (cn_writes c)).
    destruct (send_all_spec laws _ (request_token_laws laws client) fuel client data c0) as (c1 & ok & out & E & E1 & [S1 S1'] & O1 & Hpre & Hok & Hno);
      [done|cbn; lia|].
    assert (Ew : (_ ← call (fun c => (MkConnection (cn_world c) (if bool_decide (data = []) then cn_wrote c else true) (cn_monitor c) (cn_writes c), tt));
      send_all (request_token client) fuel client data) c = Some (c1, Ok ok)) by (rewrite bind_call; exact E).
    rewrite (bind_result _ _ _ _ _ Ew). rewrite bind_call. set (c2 := note_write data ok c1).
    assert (E2 : evolves c c2) by (destruct E1; by split). pose proof (ev_pending _ _ E2).
    destruct (IH ok c2) as (c' & thrown & ws & rest & -> & E3 & Hws & Hfo & Hd & Ho & Hwr & Hu); [by eapply ev_watched|destruct ok; lia|].
    exists c', thrown, ((data, ok) :: ws), (out ++ rest). rewrite Hws. split_and!; try done; [by eapply evolves_trans|..].
    + cbn. by rewrite S1', <-app_assoc.
    + by constructor.
    + by constructor.
    + rewrite Ho. change (sent_to c2) with (sent_to c1). by rewrite O1, <-app_assoc.
    + rewrite Hwr. cbn. rewrite S1. unfold c0. cbn. unfold is_empty_write. cbn. destruct (bool_decide (data = [])); [done|by rewrite orb_true_r].
    + intros Hdis. pose proof (undisturbed _ _ E3 Hdis) as Hdis2. destruct ok; [|by rewrite (Hno eq_refl : disturbed c2 = true) in Hdis2].
      destruct (Hu Hdis) as [-> Hall]. rewrite (Hok eq_refl). split; [done|]. by constructor.
Qed.

(** A handler of a request that is stopped sends nothing. *)
Lemma run_handler_cancelled (laws : socket_laws (W := W)) fuel client a (c : Connection W) :
  client <> -1 -> watched_connection c -> dm_requested (cn_monitor c) = true -> (0 < fuel)%nat ->
  exists c' thrown ws, run_handler fuel client a c = Some (c', Ok thrown) /\ evolves c c' /\
    cn_writes c' = cn_writes c ++ ws /\ sent_to c' = sent_to c /\ Forall (fun w => w.2 = is_empty_write w) ws.
Proof.
  intros Hcl. revert c. induction a as [thrown|next IH|data next IH]; intros c Hw Hr Hf; cbn [run_handler].
  - exists c, thrown, []. rewrite app_nil_r. by split_and!.
  - rewrite bind_call. destruct (request_token client c) as [c1 b] eqn:E.
    destruct (request_token_laws laws _ _ _ _ E Hw) as (E1 & [S1 S1'] & O1 & _).
    destruct (IH b c1) as (c' & thrown & ws & -> & E2 & Hws & Ho & Hall); [by eapply ev_watched|by apply (ev_requested _ _ E1)|done|].
    exists c', thrown, ws. rewrite Hws, S1', Ho. split_and!; try done. by eapply evolves_trans.
  - unfold writer. rewrite (proj2 (Z.eqb_neq _ _) Hcl).
    set (c0 := MkConnection (cn_world c) (if bool_decide (data = []) then cn_wrote c else true) (cn_monitor c) (cn_writes c)).
    destruct (send_all_cancelled laws client fuel client data c0) as (c1 & E & E1 & [S1 S1'] & O1); [done..|].
    set (ok := bool_decide (data = [])) in *.
    assert (Ew : (_ ← call (fun c => (MkConnection (cn_world c) (if ok then cn_wrote c else true) (cn_monitor c) (cn_writes c), tt));
      send_all (request_token client) fuel client data) c = Some (c1, Ok ok)) by (rewrite bind_call; exact E).
    rewrite (bind_result _ _ _ _ _ Ew). rewrite bind_call. set (c2 := note_write data ok c1).
    assert (E2 : evolves c c2) by (destruct E1; by split).
    destruct (IH ok c2) as (c' & thrown & ws & -> & E3 & Hws & Ho & Hall); [by eapply ev_watched|by apply (ev_requested _ _ E2)|done|].
    exists c', thrown, ((data, ok) :: ws). rewrite Hws, Ho. split_and!; try done; [by eapply evolves_trans|cbn; by rewrite S1', <-app_assoc|].
    by constructor.
Qed.

Lemma error_length s : (length (build_error_response s 0) <= 1000)%nat.
Proof. destruct s; apply Nat.leb_le; vm_compute; reflexivity. Qed.

(** The answer of a request: the writes of its handler, and the 500 after a handler that
    wrote nothing. *)
Lemma call_handler_spec (laws : socket_laws (W := W)) fuel client a (c : Connection W) :
  client <> -1 -> watched_connection c -> cn_wrote c = false ->
  (Nat.max (longest_write a) 1000 + pending (cn_world c) < fuel)%nat ->
  exists c' ws out extra, call_handler fuel client a c = Some (c', Ok tt) /\ evolves c c' /\
    cn_writes c' = cn_writes c ++ ws /\ follows a ws /\ reaches ws out /\ sent_to c' = sent_to c ++ out ++ extra /\
    (extra = [] \/ (Forall is_empty_write ws /\ extra `prefix_of` build_error_response status_internal_server_error 0)) /\
    (disturbed c' = false -> out ++ extra = handler_answer a /\ out = handler_output a /\ Forall (fun w => w.2 = true) ws).
Proof.
  intros Hcl Hw Hwrote Hf. unfold call_handler.
  destruct (run_handler_spec laws fuel client a c Hcl Hw) as (c1 & thrown & ws & out & E & E1 & Hws & Hfo & Hd & Ho & Hwr & Hu); [lia|].
  rewrite (bind_result _ _ _ _ _ E). rewrite Hwrote in Hwr. cbn [orb] in Hwr.
  rewrite (bind_result _ _ c1 c1 (Ok (cn_wrote c1))) by done.
  assert (Hempty : cn_wrote c1 = false -> Forall is_empty_write ws).
  { rewrite Hwr, negb_false_iff. by intros ?%Is_true_true%forallb_True. }
  assert (Hout : cn_wrote c1 = false -> out = []).
  { intros He%Hempty. clear -He Hd. induction Hd as [|data written piece ws rest Hp _ Hd IH]; [done|]. apply Forall_cons in He as [He Hes].
    apply bool_decide_unpack in He. simpl in He. subst data. apply prefix_nil_inv in Hp as ->. by apply IH. }
  destruct (cn_wrote c1) eqn:Ewr.
  - exists c1, ws, out, []. rewrite !app_nil_r. split_and!; try done; [by left|]. intros Hdis. destruct (Hu Hdis) as [-> Hall].
    split; [|by split]. unfold handler_answer. destruct (handler_output a) eqn:Eo; [|done]. exfalso.
    assert (Hne : forallb is_empty_write ws = false) by (by destruct (forallb is_empty_write ws)).
    assert (Hz : forall ws out, reaches ws out -> Forall (fun w => w.2 = true) ws -> out = [] -> forallb is_empty_write ws = true).
    { clear. induction 1 as [|data written piece ws rest Hp Hok Hd IH]; [done|]. intros [Hw Hall]%Forall_cons [Hn Hr]%app_eq_nil. simpl in Hw.
      rewrite (Hok Hw) in Hn. subst data. cbn. auto. }
    by rewrite (Hz _ _ Hd Hall eq_refl) in Hne.
  - specialize (Hout eq_refl). specialize (Hempty eq_refl). subst out. rewrite app_nil_r in Ho. rewrite bind_call.
    destruct (request_token client c1) as [c2 b] eqn:E2.
    destruct (request_token_laws laws _ _ _ _ E2 (ev_watched _ _ E1)) as (E2' & [S2 S2'] & O2 & D2).
    pose proof (evolves_trans _ _ _ E1 E2') as E02. pose proof (ev_pending _ _ E02). destruct b.
    { exists c2, ws, [], []. rewrite S2', O2, Ho, app_nil_r. split_and!; try done; [by left|]. intros Hdis. by rewrite D2 in Hdis. }
    set (error := build_error_response status_internal_server_error 0).
    destruct (send_all_spec laws _ (request_token_laws laws client) fuel client error c2) as (c3 & ok & extra & E3 & E3' & [S3 S3'] & O3 & Hpre & Hok & Hno);
      [apply E02|pose proof (error_length status_internal_server_error); unfold error; lia|].
    rewrite (bind_result _ _ _ _ _ E3). exists c3, ws, [], extra.
    rewrite S3', S2', O3, O2, Ho. split_and!; try done; [by eapply evolves_trans|by right|].
    intros Hdis. destruct ok; [|by rewrite Hno in Hdis]. rewrite (Hok eq_refl).
    destruct (Hu (undisturbed _ _ E2' (undisturbed _ _ E3' Hdis))) as [Hnil Hall]. unfold handler_answer. by rewrite <-Hnil.
Qed.
End answering.

Section connections.
Context {W : Type} `{Sockets W, NetworkView W}.

Lemma join_monitor_ends (laws : socket_laws (W := W)) fuel client (c : Connection W) : watched_connection c ->
  dm_finishing (cn_monitor c) = true -> wv_shut (cn_world c) = true -> (3 <= fuel)%nat ->
  exists c', join_monitor fuel client c = Some (c', Ok tt) /\ evolves c c' /\ same_request c c' /\ sent_to c' = sent_to c /\
    dm_point (cn_monitor c') = watch_over.
Proof.
  intros Hw Hf Hs Hn.
  assert (Hover : forall fuel c', (0 < fuel)%nat -> dm_point (cn_monitor c') = watch_over -> join_monitor fuel client c' = Some (c', Ok tt)).
  { intros n c' Hp E. destruct n as [|n]; [lia|]. cbn [join_monitor].
    rewrite (bind_result _ _ c' c' (Ok (dm_point (cn_monitor c')))) by done. by rewrite E. }
  assert (Hgo : forall fuel c', dm_point (cn_monitor c') <> watch_over -> join_monitor (S fuel) client c' = join_monitor fuel client (watch 1 client c')).
  { intros n c' E. cbn [join_monitor]. rewrite (bind_result _ _ c' c' (Ok (dm_point (cn_monitor c')))) by done.
    destruct (dm_point (cn_monitor c')); [by rewrite bind_call..|done]. }
  destruct fuel as [|[|[|fuel]]]; [lia..|]. set (c1 := watch 1 client c). set (c2 := watch 1 client c1).
  destruct (watch_evolves laws 1 client c Hw) as (E1 & S1 & O1). fold c1 in E1, S1, O1.
  destruct (watch_evolves laws 1 client c1 (ev_watched _ _ E1)) as (E2 & S2 & O2). fold c2 in E2, S2, O2.
  destruct (decide (dm_point (cn_monitor c) = watch_over)) as [E|Hne].
  { exists c. split_and!; [apply Hover; [lia|done]|by apply evolves_refl|done..]. }
  rewrite Hgo by done. fold c1. destruct (decide (dm_point (cn_monitor c1) = watch_over)) as [E|Hne1].
  { exists c1. split_and!; [apply Hover; [lia|done]|done..]. }
  rewrite Hgo by done. fold c2. exists c2. assert (E : dm_point (cn_monitor c2) = watch_over).
  { pose proof (monitor_joins (law_watch laws) client _ _ Hw Hf Hs) as Hj. revert Hj. subst c2 c1. unfold watch, monitor_client_disconnect.
    cbn [Nat.iter nat_rect fst snd]. destruct (monitor_turn client (cn_world c) (cn_monitor c)) as [w1 m1]. cbn [cn_world cn_monitor with_world with_monitor fst snd].
    by destruct (monitor_turn client w1 m1). }
  split_and!; [apply Hover; [lia|done]|by eapply evolves_trans|by eapply same_request_trans|by rewrite O2|done].
Qed.

(** What a connection that has ended leaves behind: the client got the beginning of an error,
    nothing, or a part of what the handler wrote for its request; the 500 only follows a
    handler that wrote nothing. *)
Inductive outcome (handler : HttpRequest -> handler_action) (s : text) (c : Connection W) : result unit -> text -> Prop :=
| outcome_refused error out : arrival_of s = bad_request error -> out `prefix_of` error -> cn_writes c = [] -> outcome handler s c (Ok tt) out
| outcome_silent : arrival_of s = no_request \/ disturbed c = true -> cn_writes c = [] -> outcome handler s c (Ok tt) []
| outcome_no_thread request what : arrival_of s = good_request request -> cn_writes c = [] -> outcome handler s c (throw system_error what) []
| outcome_served request out extra : arrival_of s = good_request request ->
    follows (handler request) (cn_writes c) -> reaches (cn_writes c) out ->
    extra = [] \/ (Forall is_empty_write (cn_writes c) /\ extra `prefix_of` build_error_response status_internal_server_error 0) ->
    (disturbed c = false -> out = handler_output (handler request) /\ Forall (fun w => w.2 = true) (cn_writes c)) ->
    dm_point (cn_monitor c) = watch_over -> wv_shut (cn_world c) = true -> outcome handler s c (Ok tt) (out ++ extra).

Lemma evolves_destroyed (laws : socket_laws (W := W)) client (c : Connection W) : client <> -1 -> watched_connection c ->
  let c' := let '(w, m) := destroy_monitor client (cn_world c) (cn_monitor c) in with_world w (with_monitor m c) in
  watched_connection c' /\ dm_finishing (cn_monitor c') = true /\ wv_shut (cn_world c') = true /\ same_request c c' /\ sent_to c' = sent_to c /\
  (disturbed c = true -> disturbed c' = true).
Proof.
  intros Hcl Hw. unfold destroy_monitor, shutdown_socket, invalid_socket. rewrite (proj2 (Z.eqb_neq _ _) Hcl). cbv zeta iota beta.
  destruct (law_watch_shutdown (law_watch laws) (cn_world c) client) as (Hs & _ & Hst & Hc).
  destruct (law_shutdown_quiet laws (cn_world c) client) as (_ & Ho & _ & Hb). split_and!; try done.
  - split; cbn; [|done]. intros [?|?]%(proj1 Hw); [left; auto|right; auto].
  - unfold disturbed. cbn. rewrite !orb_true_iff. intros [[?|?]|?]; auto.
Qed.

Lemma serve_spec (laws : socket_laws (W := W)) fuel client handler request s (c : Connection W) :
  client <> -1 -> watched_connection c -> arrival_of s = good_request request -> cn_writes c = [] -> dm_finishing (cn_monitor c) = false ->
  (Nat.max (longest_write (handler request)) 1000 + pending (cn_world c) < fuel)%nat ->
  exists c' r out, serve fuel client (handler request) c = Some (c', r) /\ watched_connection c' /\
    sent_to c' = sent_to c ++ out /\ outcome handler s c' r out /\ (disturbed c' = false -> r = Ok tt -> out = handler_answer (handler request)).
Proof.
  intros Hcl Hw Hs Hwr Hfin Hf. unfold serve. rewrite bind_call. unfold on_world.
  destruct (sk_start_thread (cn_world c)) as [w1 started] eqn:E. apply (law_start laws) in E as (Q & L). set (c1 := with_world w1 c).
  assert (Hw1 : watched_connection c1) by (by eapply later_watched). destruct Q as (Qi & Qo & Qp & Qb).
  destruct started; cbn [negb].
  2: { exists c1. eexists _, []. split; [reflexivity|]. rewrite app_nil_r. split_and!; [done|exact Qo|by eapply outcome_no_thread|done]. }
  rewrite bind_call. set (c2 := MkConnection (cn_world c1) false (start_monitor (MkMonitor false false watch_over)) (cn_writes c1)).
  assert (Hw2 : watched_connection c2).
  { split; [done|]. cbn. intros _ Hsh. destruct (later_stop _ _ L Hsh) as [Hsh0|?]; [|done]. apply (later_stopped _ _ L).
    by apply (proj2 Hw). }
  assert (Hp2 : (pending (cn_world c2) <= pending (cn_world c))%nat) by done.
  destruct (call_handler_spec laws fuel client (handler request) c2 Hcl Hw2 eq_refl) as
    (c3 & ws & out & extra & E3 & Ev & Hws & Hfo & Hd & Ho & Hx & Hu); [lia|].
  rewrite (bind_result _ _ _ _ _ E3). rewrite bind_call.
  destruct (evolves_destroyed laws client c3 Hcl (ev_watched _ _ Ev)) as (Hw4 & Hf4 & Hs4 & S4 & O4 & D4).
  set (c4 := let '(w, m) := destroy_monitor _ _ _ in _) in *.
  destruct (join_monitor_ends laws fuel client c4 Hw4 Hf4 Hs4) as (c5 & E5 & Ev5 & S5 & O5 & Hover); [lia|].
  assert (Hws5 : cn_writes c5 = ws).
  { destruct (same_request_trans _ _ _ S4 S5) as [_ ->]. rewrite Hws. cbn. by rewrite Hwr. }
  assert (Hdis : disturbed c5 = false -> disturbed c3 = false).
  { intros Hd5. pose proof (undisturbed _ _ Ev5 Hd5) as Hd4. apply not_true_is_false. intros ?%D4. congruence. }
  exists c5, (Ok tt), (out ++ extra). split_and!; [|apply Ev5| | |].
  - unfold destroy_monitor in c4. exact E5.
  - rewrite O5, O4, Ho. change (sent_to c2) with (outgoing w1). by rewrite Qo.
  - apply (outcome_served _ _ _ request); rewrite ?Hws5; try done; [intros Hd5; by apply Hu, Hdis|by apply (ev_shut _ _ Ev5)].
  - intros Hd5%Hdis _. by apply Hu.
Qed.

(** The answer of a request that is stopped. *)
Lemma cancelled_answer (laws : socket_laws (W := W)) fuel client a (c : Connection W) :
  client <> -1 -> watched_connection c -> dm_requested (cn_monitor c) = true -> (0 < fuel)%nat ->
  exists c' ws, call_handler fuel client a c = Some (c', Ok tt) /\ sent_to c' = sent_to c /\
    cn_writes c' = cn_writes c ++ ws /\ Forall (fun w => w.2 = is_empty_write w) ws.
Proof.
  intros Hcl Hw Hr Hf. unfold call_handler.
  destruct (run_handler_cancelled laws fuel client a c Hcl Hw Hr Hf) as (c1 & thrown & ws & E & E1 & Hws & Ho & Hall).
  rewrite (bind_result _ _ _ _ _ E). rewrite (bind_result _ _ c1 c1 (Ok (cn_wrote c1))) by done.
  destruct (cn_wrote c1); [by exists c1, ws|]. rewrite bind_call. destruct (request_token client c1) as [c2 b] eqn:E2.
  destruct (request_token_laws laws _ _ _ _ E2 (ev_watched _ _ E1)) as (Ev2 & [_ S2] & O2 & _).
  rewrite (request_token_stopped _ _ _ _ E2 (ev_requested _ _ Ev2 (ev_requested _ _ E1 Hr))).
  exists c2, ws. rewrite O2, S2. by split_and!.
Qed.

(** One connection: it ends, and what it leaves behind is an [outcome]. *)
Lemma connection_outcome (laws : socket_laws (W := W)) (handler : HttpRequest -> handler_action) (client : Z) (w : W) (fuel : nat) :
  client <> -1 -> (wv_shut w = true -> wv_stopped w = true) ->
  (Nat.max (length (incoming w)) (Nat.max (longest_answer handler (incoming w)) 1000) + pending w < fuel)%nat ->
  exists c' r out, handle_connection fuel handler client (new_connection w) = Some (c', r) /\ watched_connection c' /\
    outgoing (cn_world c') = outgoing w ++ out /\ outcome handler (incoming w) c' r out /\
    (disturbed c' = false -> r = Ok tt -> out = answer handler (incoming w)).
Proof.
  intros Hcl Hopen Hf. unfold handle_connection. rewrite (proj2 (Z.eqb_neq _ _) Hcl). set (c := new_connection w).
  assert (Hw : watched_connection c) by (by split).
  destruct (receive_spec laws fuel client [] c Hw) as (c1 & r & E & (R1 & R2 & R3 & [_ R4] & R5 & R6) & Hr); [done|cbn; lia|done|done|].
  rewrite (bind_result _ _ _ _ _ E). change (incoming (cn_world c)) with (incoming w) in Hr. cbn [app] in Hr.
  change (sent_to c) with (outgoing w) in R1. change (cn_writes c) with (@nil (text * bool)) in R4. change (pending (cn_world c)) with (pending w) in R2.
  assert (Hend : forall c', same_request c1 c' -> cn_writes c' = []) by (intros c' [_ ->]; done).
  assert (Hsend : forall s, arrival_of (incoming w) = bad_request (build_error_response s 0) ->
    exists c' r out, (_ ← send_all worker_token fuel client (build_error_response s 0); mret tt) c1 = Some (c', r) /\ watched_connection c' /\
      outgoing (cn_world c') = outgoing w ++ out /\ outcome handler (incoming w) c' r out /\
      (disturbed c' = false -> r = Ok tt -> out = build_error_response s 0)).
  { intros s Hs. pose proof (error_length s).
    destruct (send_all_spec laws _ (worker_token_laws laws) fuel client (build_error_response s 0) c1 R6) as (c2 & ok & out & E2 & Ev & S2 & O2 & Hp & Hok & Hno); [lia|].
    rewrite (bind_result _ _ _ _ _ E2). exists c2, (Ok tt), out. split_and!; [done|apply Ev|by rewrite <-R1|by eapply outcome_refused; eauto|].
    intros Hd _. apply Hok. destruct ok; [done|]. by rewrite Hno in Hd. }
  destruct Hr as [->|[-> Hd]].
  2: { exists c1, (Ok tt), []. rewrite app_nil_r. split_and!; [done..|apply outcome_silent; auto|]. intros Hd'. congruence. }
  destruct (request_head_of (incoming w)) as [[head|] exceeded] eqn:Eh; cbv iota beta.
  - destruct (parse_http_request_head head) as [status request] eqn:Ep; cbn [pr_status pr_request].
    assert (Ha : arrival_of (incoming w) =
      match status, request with
      | request_ok, Some request => good_request request
      | _, _ => bad_request (build_error_response (rejection_status status) 0)
      end) by (unfold arrival_of; by rewrite Eh, Ep).
    unfold answer, longest_answer in *. rewrite Ha in *. destruct status, request as [request|]; try (apply Hsend; reflexivity).
    destruct (serve_spec laws fuel client handler request (incoming w) c1 Hcl R6 Ha R4) as (c2 & r & out & E2 & Hw2 & Ho & Hout & Hu); [by rewrite R5|lia|].
    exists c2, r, out. rewrite <-R1. by split_and!.
  - assert (Ha : arrival_of (incoming w) = if exceeded then bad_request (build_error_response status_request_header_fields_too_large 0) else no_request)
      by (unfold arrival_of; rewrite Eh; by destruct exceeded).
    unfold answer. rewrite Ha in *. destruct exceeded; [by apply Hsend|]. exists c1, (Ok tt), []. rewrite app_nil_r.
    split_and!; [done..|apply outcome_silent; auto|done].
Qed.

(** C29. Every connection ends, on any network: whatever calls fail, are cut or interrupted,
    whenever the client leaves or sends more and whenever the server stops.  When nothing
    disturbs it, that is no call fails and neither the worker nor the request is stopped, the
    client gets exactly the [answer] to the bytes it sent, however they arrived: nothing
    before its head ends, 431 when the head is too large, the error of a malformed request,
    else what the handler wrote, or 500 when it wrote nothing, thrown or not.  When something
    does, it gets the beginning of that: of the error, or of each write of the handler, and
    never a 500 after a write.  The request is only stopped when its client does not wait for
    the answer or the worker was stopped, and at the end the watching thread has ended and the
    socket is shut. *)
Theorem handle_connection_answers (laws : socket_laws (W := W)) (handler : HttpRequest -> handler_action)
    (client : Z) (w : W) (fuel : nat) (Hcl : client <> -1) (Hopen : wv_shut w = true -> wv_stopped w = true)
    (Hf : (Nat.max (length (incoming w)) (Nat.max (longest_answer handler (incoming w)) 1000) + pending w < fuel)%nat) :
  exists c' r out, handle_connection fuel handler client (new_connection w) = Some (c', r) /\
    outgoing (cn_world c') = outgoing w ++ out /\ outcome handler (incoming w) c' r out /\
    (disturbed c' = false -> r = Ok tt -> out = answer handler (incoming w)) /\
    (dm_requested (cn_monitor c') = true -> stop_reason (cn_world c')).
Proof.
  destruct (connection_outcome laws handler client w fuel Hcl Hopen Hf) as (c' & r & out & E & Hw & Ho & Hout & Hu).
  exists c', r, out. split_and!; try done. apply Hw.
Qed.

(** C31. A client that leaves, sends more or is lost while its request is served cancels it:
    after finitely many turns of the watching thread the stop of the request is requested,
    and from then on nothing more is sent, whatever the handler goes on to write: every write
    of it fails unless it is empty, and no 500 follows. *)
Theorem disconnect_cancels (laws : socket_laws (W := W)) (client : Z) (c : Connection W) (turns fuel : nat) (a : handler_action)
    (Hcl : client <> -1) (Hw : watched_connection c) (Hrunning : dm_finishing (cn_monitor c) = false)
    (Hthread : dm_point (cn_monitor c) = watch_over -> dm_requested (cn_monitor c) = true)
    (Hgone : wv_client (cn_world c) <> client_waits) (Hturns : (2 * wv_spurious (cn_world c) + 2 <= turns)%nat) (Hf : (0 < fuel)%nat) :
  let c1 := watch turns client c in
  dm_requested (cn_monitor c1) = true /\
  exists c' ws, call_handler fuel client a c1 = Some (c', Ok tt) /\ outgoing (cn_world c') = outgoing (cn_world c) /\
    cn_writes c' = cn_writes c ++ ws /\ Forall (fun w => w.2 = is_empty_write w) ws.
Proof.
  intros c1. destruct (watch_evolves laws turns client c Hw) as (E1 & [S1 S1'] & O1). fold c1 in E1, S1, S1', O1.
  assert (Hr : dm_requested (cn_monitor c1) = true).
  { pose proof (monitor_cancels (law_watch laws) turns client _ _ Hw Hrunning Hgone Hthread Hturns) as Hc. subst c1. unfold watch.
    by destruct (monitor_client_disconnect _ _ _ _). }
  split; [done|]. change (outgoing (cn_world c)) with (sent_to c). rewrite <-O1, <-S1'.
  apply cancelled_answer; [done|done|by eapply ev_watched|done|done].
Qed.
End connections.

(** ** A concrete network *)
Module Network.
(** A client whose bytes arrive at most seven at a time, and who then leaves or waits; a send
    takes at most nine; every call is interrupted while [left] is positive.  The watching
    thread gets the turns of [schedule], and [stop] is the stop of the worker. *)
Record world := MkWorld {
  to_come : text; leaves : bool; sent : text; left : nat; schedule : list nat; stop : bool; shut : bool; failed : bool }.

Definition interrupt (w : world) : world := MkWorld (to_come w) (leaves w) (sent w) (pred (left w)) (schedule w) (stop w) (shut w) (failed w).
Definition fails (w : world) : world := MkWorld (to_come w) (leaves w) (sent w) (left w) (schedule w) (stop w) (shut w) true.
Definition arrives (n : nat) (w : world) : world :=
  MkWorld (drop n (to_come w)) (leaves w) (sent w) (left w) (schedule w) (stop w) (shut w) (failed w).
Definition takes (data : text) (w : world) : world :=
  MkWorld (to_come w) (leaves w) (sent w ++ data) (left w) (schedule w) (stop w) (shut w) (failed w).

Definition EPIPE : Z := 32.

(** A receive that waits for five seconds fails. *)
Definition net_recv (w : world) (socket : Z) (n : nat) : world * (Z + text) :=
  if (0 <? left w)%nat then (interrupt w, inl EINTR)
  else match to_come w with
    | [] => if leaves w then (w, inr []) else (fails w, inl EAGAIN)
    | _ => (arrives (Nat.min 7 n) w, inr (take (Nat.min 7 n) (to_come w)))
    end.
Definition net_send (w : world) (socket : Z) (data : text) : world * (Z + nat) :=
  if (0 <? left w)%nat then (interrupt w, inl EINTR)
  else if shut w then (fails w, inl EPIPE)
  else (takes (take 9 data) w, inr (length (take 9 data))).
Definition event_of (w : world) : option Z :=
  if shut w then Some POLLHUP else match to_come w with [] => if leaves w then Some POLLRDHUP else None | _ => Some POLLIN end.
Definition net_poll (w : world) (socket events : Z) : option (world * (Z + Z)) :=
  match event_of w with
  | None => None
  | Some revents => Some (if (0 <? left w)%nat then (interrupt w, inl EINTR) else (w, inr revents))
  end.
Definition net_peek (w : world) (socket : Z) : world * (Z + nat) :=
  match to_come w with
  | [] => (MkWorld [] true (sent w) (left w) (schedule w) (stop w) (shut w) (failed w), inr 0%nat)
  | _ => (w, inr 1%nat)
  end.
Definition net_schedule (w : world) : world * nat :=
  match schedule w with
  | [] => (w, 0%nat)
  | n :: rest => (MkWorld (to_come w) (leaves w) (sent w) (left w) rest (stop w) (shut w) (failed w), n)
  end.

#[global] Instance channel : Channel world := {| sk_send := net_send; sk_recv := net_recv |}.
#[global] Instance descriptors : Descriptors world := {|
  sk_shutdown w fd := MkWorld (to_come w) (leaves w) (sent w) (left w) (schedule w) (stop w) true (failed w);
  sk_close w fd := w;
  sk_set_timeout w fd o n := (w, None);
|}.
#[global] Instance watching : Watching world := {| dm_poll := net_poll; dm_peek := net_peek |}.
#[global] Instance network : Sockets world := {|
  sk_stop_requested w := (w, stop w);
  sk_start_thread w := (w, true);
  sk_schedule := net_schedule;
|}.

Definition client_of (w : world) : client_state :=
  match to_come w with [] => if leaves w then client_left else client_waits | _ => client_sent_more end.
#[global] Instance watch_view : WatchView world :=
  {| wv_client := client_of; wv_shut := shut; wv_stopped := stop; wv_spurious := left |}.
#[global] Instance network_view : NetworkView world := {| incoming := to_come; outgoing := sent; pending := left; broken := failed |}.

Lemma interrupt_less w : (0 <? left w)%nat = true -> (left (interrupt w) < left w)%nat.
Proof. intros H%Nat.ltb_lt. cbn. lia. Qed.

Lemma interrupt_later w : quiet w (interrupt w) /\ later w (interrupt w).
Proof. split; [split_and!; cbn; try done; lia|]. split; cbn; auto. lia. Qed.

Lemma network_watch_laws : watch_laws (W := world).
Proof.
  split.
  - done.
  - intros w fd w' r. cbn [dm_poll watching]. unfold net_poll.
    destruct (event_of w) as [v|] eqn:E; [|done].
    destruct (0 <? left w)%nat eqn:El; intros [= <- <-]; [split; [apply interrupt_later|exact (interrupt_less w El)]|].
    split; [apply later_refl|]. revert E. cbn [wv_client wv_shut watch_view]. unfold event_of, client_of.
    destruct (shut w); [intros [= <-]|destruct (to_come w); [destruct (leaves w); [intros [= <-]|done]|intros [= <-]]];
      split_and!; intros Hz; auto; by vm_compute in Hz.
  - intros w fd. cbn [dm_poll watching wv_client wv_shut watch_view]. unfold net_poll, event_of, client_of.
    destruct (shut w); [done|]. destruct (to_come w); [|done]. destruct (leaves w); [done|]. by intros [?|?].
  - intros w fd w' r. cbn [dm_peek watching]. unfold net_peek. cbn [wv_client wv_shut watch_view]. unfold client_of.
    destruct w as [[|x t] l s p sc st sh f]; intros [= <- <-]; cbn; [|by split; [apply later_refl|]].
    split; [|by left]. split; cbn; auto.
Qed.

Lemma network_laws : socket_laws (W := world).
Proof.
  split.
  - apply network_watch_laws.
  - intros w fd w' r. cbn [dm_poll watching sockets_watching network]. unfold net_poll. destruct (event_of w); [|intros [=]].
    destruct (0 <? left w)%nat; intros [= <- <-]; [apply interrupt_later|apply quiet_refl].
  - intros w fd w' r. cbn [dm_peek watching sockets_watching network]. unfold net_peek. destruct (to_come w) eqn:E; intros [= <- <-]; [|apply quiet_refl].
    by split_and!; cbn.
  - intros w fd. by split_and!; cbn.
  - intros w w' n. cbn [sk_schedule network]. unfold net_schedule. destruct (schedule w); intros [= <- <-]; (split; [by split_and!|by split; cbn; auto]).
  - intros w w' b [= <- <-]. split; [apply quiet_refl|apply later_refl].
  - intros w w' b [= <- <-]. split; [apply quiet_refl|]. by split; [apply later_refl|].
  - intros w socket n w' r. cbn [sk_recv channel sockets_channel network]. unfold net_recv. destruct (0 <? left w)%nat eqn:El.
    { intros [= <- <-]. pose proof (interrupt_less w El). cbn in *. split_and!; auto; lia. }
    destruct (to_come w) as [|x t] eqn:E; [destruct (leaves w); intros [= <- <-]; cbn; split_and!; auto; lia|]. rewrite <-E.
    assert (Hm : (Nat.min 7 n <= n)%nat /\ (Nat.min 7 n = 0%nat -> n = 0%nat)) by lia. revert Hm. generalize (Nat.min 7 n). intros m [Hm Hm0].
    intros [= <- <-]. cbn. split_and!; auto; [by rewrite take_drop|rewrite length_take; lia|].
    intros Hnil%(f_equal length). rewrite length_take, E in Hnil. simpl in Hnil. left. lia.
  - intros w socket data w' r. cbn [sk_send channel sockets_channel network]. unfold net_send. destruct (0 <? left w)%nat eqn:El.
    { intros [= <- <-]. pose proof (interrupt_less w El). split_and!; try apply interrupt_later; auto. }
    destruct (shut w); intros [= <- <-].
    { by split_and!; cbn; auto; split; cbn; auto. }
    split_and!; cbn [incoming pending broken outgoing network_view takes to_come left failed sent]; auto; [by split; cbn; auto|rewrite length_take; lia| |].
    + f_equal. rewrite length_take. destruct (Nat.min_spec 9 (length data)) as [[? ->]|[? ->]]; [done|]. by rewrite firstn_all, take_ge.
    + intros Hz Hd. rewrite length_take in Hz. destruct data; [done|]. simpl in Hz. lia.
Qed.

Definition echo (r : HttpRequest) : handler_action :=
  if bool_decide (rq_target r = str "/none") then Return true
  else Write (str "HTTP/1.1 200 OK") (fun ok => if ok then Write (rq_target r) (fun _ => Return false) else Return true).

(** A client of one request; [more] is what it sends after it. *)
Definition client (s more : string) (turns : list nat) : world := MkWorld (str s ++ crlf ++ crlf ++ str more) false [] 3 turns false false false.

Definition reply (w : world) : option text :=
  match handle_connection 2000 echo 5 (new_connection w) with Some (c, Ok _) => Some (sent (cn_world c)) | _ => None end.

Example demo_answers :
  reply (client "GET /abc HTTP/1.1" "" []) = Some (str "HTTP/1.1 200 OK/abc") /\
  reply (client "GET /none HTTP/1.1" "" []) = Some (build_error_response status_internal_server_error 0) /\
  reply (client "PUT /abc HTTP/1.1" "" []) = Some (build_error_response status_method_not_allowed 0) /\
  reply (MkWorld (str "GET /abc HTTP/1.1") true [] 0 [] false false false) = Some [].
Proof. vm_compute. repeat split. Qed.

(** Bytes after the request cancel its answer once the watching thread sees them, here after
    the first nine bytes; a worker that is stopped does not answer. *)
Example demo_cancelled :
  reply (client "GET /abc HTTP/1.1" "and seven more" [0; 9]%nat) = Some (str "HTTP/1.1 ") /\
  reply (client "GET /abc HTTP/1.1" "and seven more" []) = Some (str "HTTP/1.1 200 OK/abc") /\
  reply (client "GET /none HTTP/1.1" "and seven more" [9]%nat) = Some [] /\
  reply (MkWorld (str "GET /abc HTTP/1.1" ++ crlf ++ crlf) false [] 3 [] true false false) = Some [].
Proof. vm_compute. repeat split. Qed.

(** A connection whose request runs and whose client has sent more. *)
Definition interrupted : Connection world :=
  MkConnection (client "more" "" []) true (start_monitor (MkMonitor false false watch_over)) [(str "HTTP/1.1 ", true)].
End Network.

Lemma handle_connection_answers_witness :
  exists c' r out, handle_connection 2000 Network.echo 5 (new_connection (Network.client "GET /abc HTTP/1.1" "" [])) = Some (c', r) /\
    outgoing (cn_world c') = [] ++ out /\ outcome Network.echo (incoming (Network.client "GET /abc HTTP/1.1" "" [])) c' r out /\
    (disturbed c' = false -> r = Ok tt -> out = answer Network.echo (incoming (Network.client "GET /abc HTTP/1.1" "" []))) /\
    (dm_requested (cn_monitor c') = true -> stop_reason (cn_world c')).
Proof.
  apply (handle_connection_answers Network.network_laws Network.echo 5 (Network.client "GET /abc HTTP/1.1" "" []) 2000);
    [discriminate|discriminate|apply Nat.ltb_lt; vm_compute; reflexivity].
Defined.

Lemma disconnect_cancels_witness :
  dm_requested (cn_monitor (watch 8 5 Network.interrupted)) = true /\
  exists c' ws, call_handler 1 5 (Network.echo (MkHttpRequest method_get [] None)) (watch 8 5 Network.interrupted) = Some (c', Ok tt) /\
    outgoing (cn_world c') = [] /\ cn_writes c' = [(str "HTTP/1.1 ", true)] ++ ws /\ Forall (fun w => w.2 = is_empty_write w) ws.
Proof.
  apply (disconnect_cancels Network.network_laws 5 Network.interrupted 8 1); [discriminate|by split|reflexivity|discriminate|discriminate|cbn; lia|lia].
Defined.

(** ** The threads of the server *)

(** Connections are numbered in the order in which they are accepted. *)
Inductive accepter_state :=
| AtTop                  (* before the condition of [accept_loop] *)
| AtLoad                 (* before [listener.load()] *)
| InAccept               (* in [accept] *)
| Holding (c : nat)      (* a client that is not queued yet *)
| AccepterDone.

Inductive worker_state :=
| Idle                   (* before the condition of [worker_loop], or woken up in its wait *)
| Parking                (* in the wait, with [queue_mutex]: the predicate was false *)
| Parked                 (* in the wait, asleep without the mutex *)
| Handling (c : nat)     (* in [handle_connection], before the handler is called *)
| Serving (c : nat)      (* in the handler: [active_requests] counts it *)
| Returned (c : nat)     (* after the handler, before the destructor of the monitor *)
| Joining (c : nat)      (* in that destructor, waiting for the watching thread *)
| Handled (c : nat)      (* after [handle_connection] *)
| Closing (c : nat)      (* after [connection->close()] *)
| WorkerDone.

#[global] Instance worker_state_eq_dec : EqDecision worker_state.
Proof. solve_decision. Defined.

(** How far [stop] has come. *)
Inductive stop_state :=
| NotStopping | StopRequested | TokensStopped | ListenerClosed | QueueCleared | Notified | AccepterJoined | Stopped.

#[global] Instance stop_state_eq_dec : EqDecision stop_state.
Proof. solve_decision. Defined.

Record server := MkServer {
  capacity : nat;
  stopping : bool;
  tokens : bool;                (* whether the stop of the threads was requested *)
  listening : bool;
  queue : list nat;
  active_connections : list nat;
  shut_down : list nat;         (* the connections whose socket is shut down *)
  closed : list nat;            (* the connections whose socket is closed *)
  accepted : nat;               (* how many clients were accepted *)
  active_requests : Z;
  accepter : accepter_state;
  workers : list worker_state;
  stopper : stop_state }.

(** The server after its constructor; the constructor refuses other sizes. *)
Definition valid_sizes (worker_count connection_capacity : nat) : bool :=
  negb ((worker_count =? 0)%nat || (32 <? worker_count)%nat || (connection_capacity =? 0)%nat || (1024 <? connection_capacity)%nat).
Definition new_server (worker_count connection_capacity : nat) : server :=
  MkServer connection_capacity false false true [] [] [] [] 0 0 AtTop (replicate worker_count Idle) NotStopping.

Definition with_accepter (s : server) (a : accepter_state) : server :=
  MkServer (capacity s) (stopping s) (tokens s) (listening s) (queue s) (active_connections s) (shut_down s) (closed s) (accepted s) (active_requests s) a (workers s) (stopper s).
Definition with_workers (s : server) (ws : list worker_state) : server :=
  MkServer (capacity s) (stopping s) (tokens s) (listening s) (queue s) (active_connections s) (shut_down s) (closed s) (accepted s) (active_requests s) (accepter s) ws (stopper s).
Definition with_queue (s : server) (q active : list nat) : server :=
  MkServer (capacity s) (stopping s) (tokens s) (listening s) q active (shut_down s) (closed s) (accepted s) (active_requests s) (accepter s) (workers s) (stopper s).
Definition with_requests (s : server) (n : Z) : server :=
  MkServer (capacity s) (stopping s) (tokens s) (listening s) (queue s) (active_connections s) (shut_down s) (closed s) (accepted s) n (accepter s) (workers s) (stopper s).
Definition with_stop (s : server) (stop token listen : bool) (st : stop_state) : server :=
  MkServer (capacity s) stop token listen (queue s) (active_connections s) (shut_down s) (closed s) (accepted s) (active_requests s) (accepter s) (workers s) st.
Definition accept_client (s : server) : server :=
  MkServer (capacity s) (stopping s) (tokens s) (listening s) (queue s) (active_connections s) (shut_down s) (closed s) (S (accepted s)) (active_requests s)
    (Holding (accepted s)) (workers s) (stopper s).

(** [SharedSocket::shutdown] and [SharedSocket::close]. *)
Definition shutdown_connection (s : server) (c : nat) : server :=
  MkServer (capacity s) (stopping s) (tokens s) (listening s) (queue s) (active_connections s) (c :: shut_down s) (closed s) (accepted s) (active_requests s) (accepter s) (workers s) (stopper s).
Definition close_connection (s : server) (c : nat) : server :=
  MkServer (capacity s) (stopping s) (tokens s) (listening s) (queue s) (active_connections s) (c :: shut_down s) (c :: closed s) (accepted s) (active_requests s) (accepter s) (workers s) (stopper s).

(** [queue_mutex] is held across steps only by a worker that is about to sleep. *)
Definition mutex_free (s : server) : Prop := Parking ∉ workers s.

(** [notify_one] wakes one of the workers that sleep, if there is one; [notify_all] all. *)
Inductive wake_one : list worker_state -> list worker_state -> Prop :=
| wake_none ws : Parked ∉ ws -> wake_one ws ws
| wake_some ws1 ws2 : wake_one (ws1 ++ Parked :: ws2) (ws1 ++ Idle :: ws2).
Definition wake (w : worker_state) : worker_state := match w with Parked => Idle | _ => w end.
Definition wake_all (ws : list worker_state) : list worker_state := wake <$> ws.

(** The section of [accept_loop] under [queue_mutex]; a connection that is not queued is
    closed when its last owner goes. *)
Definition refuses (s : server) : bool := stopping s || (capacity s <=? length (queue s))%nat.
Definition queue_connection (s : server) (c : nat) : server :=
  if refuses s then close_connection s c
  else with_queue s (queue s ++ [c]) (active_connections s).

(** The steps of a thread are of two kinds.  A [sure] step happens when the thread runs.  The
    others also need something from outside: a client that connects or sends, a timeout or
    another failure of a call, a handler that returns on its own, a wake-up for nothing. *)
Abbreviation sure := true (only parsing).
Abbreviation maybe := false (only parsing).

(** A step of [accept_loop].  [accept] surely returns once its socket is shut and closed.
    Where queueing throws, the thread ends. *)
Inductive accepter_step (s : server) : bool -> server -> Prop :=
| accept_wait : accepter s = AtTop -> tokens s = false -> stopping s = false -> accepter_step s sure (with_accepter s AtLoad)
| accept_exit : accepter s = AtTop -> tokens s || stopping s = true -> accepter_step s sure (with_accepter s AccepterDone)
| accept_enter : accepter s = AtLoad -> listening s = true -> accepter_step s sure (with_accepter s InAccept)
| accept_no_listener : accepter s = AtLoad -> listening s = false -> accepter_step s sure (with_accepter s AccepterDone)
| accept_client_step : accepter s = InAccept -> listening s = true -> accepter_step s maybe (accept_client s)
| accept_failed : accepter s = InAccept -> accepter_step s maybe (with_accepter s (if stopping s then AccepterDone else AtTop))
| accept_closed : accepter s = InAccept -> listening s = false ->
    accepter_step s sure (with_accepter s (if stopping s then AccepterDone else AtTop))
| accept_queue c ws : accepter s = Holding c -> mutex_free s -> (if refuses s then ws = workers s else wake_one (workers s) ws) ->
    accepter_step s sure (with_accepter (with_workers (queue_connection s c) ws) AtTop)
| accept_unconfigured c : accepter s = Holding c -> accepter_step s maybe (with_accepter (close_connection s c) AtTop)
| accept_throws c : accepter s = Holding c -> accepter_step s maybe (with_accepter (close_connection s c) AccepterDone).

(** A step of one worker: its state becomes another, and the rest of the server with it.
    Receiving surely ends once the socket is shut down, and so does the handler when moreover
    the stop of the worker, which its request passes on, was requested; the thread that
    watches the client surely ends once [finishing_] is set and the socket shut down.  Where
    the insertion into [active_connections] throws, the connection is closed and the thread
    ends. *)
Inductive worker_step (s : server) : worker_state -> bool -> server -> worker_state -> Prop :=
| worker_stopped : tokens s = true -> worker_step s Idle sure s WorkerDone
| worker_exit : mutex_free s -> tokens s || stopping s = true -> worker_step s Idle sure s WorkerDone
| worker_wait : mutex_free s -> tokens s = false -> stopping s = false -> queue s = [] -> worker_step s Idle sure s Parking
| worker_sleep : worker_step s Parking sure s Parked
| worker_woken : worker_step s Parked maybe s Idle
| worker_take c q : mutex_free s -> tokens s = false -> stopping s = false -> queue s = c :: q ->
    worker_step s Idle sure (with_queue s q (c :: active_connections s)) (Handling c)
| worker_throws c q : mutex_free s -> tokens s = false -> stopping s = false -> queue s = c :: q ->
    worker_step s Idle maybe (close_connection (with_queue s q (active_connections s)) c) WorkerDone
| worker_serve c : worker_step s (Handling c) maybe (with_requests s (wrap32 (active_requests s + 1))) (Serving c)
| worker_refuse c : worker_step s (Handling c) maybe s (Handled c)
| worker_cut_off c : c ∈ shut_down s -> worker_step s (Handling c) sure s (Handled c)
| worker_served c : worker_step s (Serving c) maybe (with_requests s (wrap32 (active_requests s - 1))) (Returned c)
| worker_cancelled c : tokens s = true -> c ∈ shut_down s ->
    worker_step s (Serving c) sure (with_requests s (wrap32 (active_requests s - 1))) (Returned c)
| worker_finish c : worker_step s (Returned c) sure (shutdown_connection s c) (Joining c)
| worker_told c : worker_step s (Joining c) maybe s (Handled c)
| worker_join c : c ∈ shut_down s -> worker_step s (Joining c) sure s (Handled c)
| worker_close c : worker_step s (Handled c) sure (close_connection s c) (Closing c)
| worker_forget c : mutex_free s -> worker_step s (Closing c) sure (with_queue s (queue s) (filter (fun d => d <> c) (active_connections s))) Idle.

(** A step of [stop]; a second call returns at once. *)
Inductive stop_step (s : server) : bool -> server -> Prop :=
| stop_request : stopping s = false -> stop_step s maybe (with_stop s true (tokens s) (listening s) StopRequested)
| stop_tokens : stopper s = StopRequested -> stop_step s sure (with_stop s (stopping s) true (listening s) TokensStopped)
| stop_listener : stopper s = TokensStopped -> stop_step s sure (with_stop s (stopping s) (tokens s) false ListenerClosed)
| stop_queue : stopper s = ListenerClosed -> mutex_free s ->
    stop_step s sure
      (with_stop (with_queue (foldl shutdown_connection (foldl close_connection s (queue s)) (active_connections s)) [] (active_connections s))
        (stopping s) (tokens s) (listening s) QueueCleared)
| stop_notify : stopper s = QueueCleared -> stop_step s sure (with_stop (with_workers s (wake_all (workers s))) (stopping s) (tokens s) (listening s) Notified)
| stop_join_accepter : stopper s = Notified -> accepter s = AccepterDone -> stop_step s sure (with_stop s (stopping s) (tokens s) (listening s) AccepterJoined)
| stop_join : stopper s = AccepterJoined -> Forall (fun w => w = WorkerDone) (workers s) ->
    stop_step s sure (with_stop (with_workers s []) (stopping s) (tokens s) (listening s) Stopped).

Inductive thread_step (s : server) (certain : bool) : server -> Prop :=
| step_accepter s' : accepter_step s certain s' -> thread_step s certain s'
| step_worker ws1 w ws2 s' w' : workers s = ws1 ++ w :: ws2 -> worker_step s w certain s' w' -> thread_step s certain (with_workers s' (ws1 ++ w' :: ws2))
| step_stop s' : stop_step s certain s' -> thread_step s certain s'.

Definition server_step (s s' : server) : Prop := exists certain, thread_step s certain s'.

Definition reachable_server (s0 : server) : server -> Prop := rtc server_step s0.

(** ** Where the connections are *)

Definition held_by (a : accepter_state) : list nat := match a with Holding c => [c] | _ => [] end.
Definition owned_by (w : worker_state) : list nat :=
  match w with Handling c | Serving c | Returned c | Joining c | Handled c => [c] | _ => [] end.
Definition active_of (w : worker_state) : list nat :=
  match w with Handling c | Serving c | Returned c | Joining c | Handled c | Closing c => [c] | _ => [] end.
Definition is_serving (w : worker_state) : Z := match w with Serving _ => 1 | _ => 0 end.

(** Every accepted client, once: held by the accepter, queued, with a worker, or closed. *)
Definition places (s : server) : list nat :=
  held_by (accepter s) ++ queue s ++ (workers s ≫= owned_by) ++ closed s.

Definition stopped_far (s : server) : Prop := match stopper s with QueueCleared | Notified | AccepterJoined | Stopped => True | _ => False end.

Record server_inv (s : server) : Prop := {
  inv_places : places s ≡ₚ seq 0 (accepted s);
  inv_queue : (length (queue s) <= capacity s)%nat;
  inv_active : active_connections s ≡ₚ workers s ≫= active_of;
  inv_distinct : NoDup (workers s ≫= active_of);
  inv_closing : forall c, Closing c ∈ workers s -> c ∈ closed s;
  inv_requests : active_requests s = zsum (is_serving <$> workers s);
  inv_workers : (length (workers s) <= 32)%nat;
  inv_stopping : stopping s = true <-> stopper s <> NotStopping;
  inv_cleared : stopped_far s -> queue s = [];
  inv_joined : stopper s = AccepterJoined \/ stopper s = Stopped -> accepter s = AccepterDone;
  inv_stopped : stopper s = Stopped -> workers s = [];
}.

(** ** The invariant *)

Lemma bind_middle {A} (f : worker_state -> list A) ws1 w ws2 : (ws1 ++ w :: ws2) ≫= f = (ws1 ≫= f) ++ f w ++ (ws2 ≫= f).
Proof. by rewrite bind_app, bind_cons. Qed.

Lemma places_NoDup s : server_inv s -> NoDup (places s).
Proof. intros Hi. rewrite (inv_places _ Hi). apply NoDup_seq. Qed.

Lemma requests_bound ws : 0 <= zsum (is_serving <$> ws) <= Z.of_nat (length ws).
Proof. induction ws as [|w ws IH]; [done|]. rewrite fmap_cons, zsum_cons. cbn [length]. destruct w; simpl is_serving; lia. Qed.

Lemma serving_idle n : zsum (is_serving <$> replicate n Idle) = 0.
Proof.
  induction n as [|n IH]; [done|]. change (zsum (is_serving <$> replicate (S n) Idle)) with (0 + zsum (is_serving <$> replicate n Idle)).
  by rewrite IH.
Qed.

Lemma new_server_inv n cap : valid_sizes n cap = true -> server_inv (new_server n cap).
Proof.
  unfold valid_sizes. rewrite negb_true_iff, !orb_false_iff, !Nat.eqb_neq, !Nat.ltb_ge. intros (((Hn & Hn32) & _) & _).
  assert (Hb : forall {A} (f : worker_state -> list A), f Idle = [] -> replicate n Idle ≫= f = []).
  { intros A f Hf. clear Hn Hn32. induction n as [|k IH]; [done|]. simpl replicate. by rewrite bind_cons, Hf, IH. }
  split; unfold places, new_server; cbn -[replicate]; rewrite ?Hb by done; try done.
  - lia.
  - apply NoDup_nil_2.
  - intros c. rewrite elem_of_replicate. by intros [? _].
  - symmetry. apply serving_idle.
  - by rewrite length_replicate.
  - by intros [?|?].
Qed.

(** Workers that are woken up have the same connections as before. *)
Definition awake (ws ws' : list worker_state) : Prop := Forall2 (fun w w' => w' = w \/ (w = Parked /\ w' = Idle)) ws ws'.

Lemma awake_refl ws : awake ws ws.
Proof. apply Forall_Forall2_diag, Forall_true. auto. Qed.

Lemma awake_one ws ws' : wake_one ws ws' -> awake ws ws'.
Proof. intros [|]; [apply awake_refl|]. apply Forall2_app; [apply awake_refl|]. constructor; [auto|apply awake_refl]. Qed.

Lemma awake_all ws : awake ws (wake_all ws).
Proof. unfold wake_all. apply Forall2_fmap_r, Forall_Forall2_diag, Forall_true. intros []; simpl; auto. Qed.

Lemma awake_bind {A} (f : worker_state -> list A) ws ws' : f Parked = [] -> f Idle = [] -> awake ws ws' -> ws' ≫= f = ws ≫= f.
Proof.
  intros Hp Hi. induction 1 as [|w w' ws ws' Hw _ IH]; [done|]. rewrite !bind_cons, IH. f_equal.
  destruct Hw as [->|[-> ->]]; congruence.
Qed.

Lemma awake_serving ws ws' : awake ws ws' -> zsum (is_serving <$> ws') = zsum (is_serving <$> ws).
Proof. induction 1 as [|w w' ws ws' Hw _ IH]; [done|]. rewrite !fmap_cons, !zsum_cons, IH. by destruct Hw as [->|[-> ->]]. Qed.

Lemma awake_in ws ws' w : awake ws ws' -> w ∈ ws' -> w ∈ ws \/ w = Idle.
Proof.
  intros Ha. induction Ha as [|v v' ws ws' Hv _ IH]; [auto|]. intros [->|Hin]%elem_of_cons.
  - destruct Hv as [->|[_ ->]]; [left; by left|auto].
  - destruct (IH Hin); [left; by right|auto].
Qed.

(** Steps that leave the workers alone, or wake some up. *)
Lemma inv_frame s s' :
  server_inv s -> places s' ≡ₚ seq 0 (accepted s') -> (length (queue s') <= capacity s')%nat ->
  active_connections s' = active_connections s -> awake (workers s) (workers s') -> active_requests s' = active_requests s ->
  closed s ⊆ closed s' -> (stopping s' = true <-> stopper s' <> NotStopping) -> (stopped_far s' -> queue s' = []) ->
  (stopper s' = AccepterJoined \/ stopper s' = Stopped -> accepter s' = AccepterDone) ->
  (stopper s' = Stopped -> workers s' = []) -> server_inv s'.
Proof.
  intros Hi Hp Hq Ha Hw Hr Hc Hst Hcl Hj Hsd. split; try done; rewrite ?Ha, ?(awake_bind _ _ _ eq_refl eq_refl Hw), ?Hr; try apply Hi.
  - intros c Hin. destruct (awake_in _ _ _ Hw Hin) as [Hin'|[=]]. by apply Hc, (inv_closing _ Hi).
  - rewrite (awake_serving _ _ Hw). apply Hi.
  - rewrite <-(Forall2_length _ _ _ Hw). apply Hi.
Qed.

Lemma accepter_inv s certain s' : server_inv s -> accepter_step s certain s' -> server_inv s'.
Proof.
  intros Hi Hs. pose proof (inv_places _ Hi) as Hp. pose proof (inv_queue _ Hi) as Hq. unfold places in Hp.
  assert (Hlive : accepter s <> AccepterDone -> ~ (stopper s = AccepterJoined \/ stopper s = Stopped)).
  { intros Hne Hst. by apply Hne, (inv_joined _ Hi). }
  assert (Hmove : forall a, accepter s <> AccepterDone -> held_by (accepter s) = [] -> held_by a = [] -> server_inv (with_accepter s a)).
  { intros a Hne He Ha. apply (inv_frame s); try done; try apply Hi; [|apply awake_refl|by intros ?%Hlive].
    unfold places. cbn. rewrite Ha. by rewrite He in Hp. }
  assert (Hclose : forall c a, accepter s = Holding c -> held_by a = [] -> server_inv (with_accepter (close_connection s c) a)).
  { intros c a E Ha. rewrite E in Hp. apply (inv_frame s); try done; try apply Hi; [|apply awake_refl|simpl; set_solver|].
    - unfold places. cbn. rewrite Ha, <-Hp. simpl. solve_Permutation.
    - cbn. intros []%Hlive. congruence. }
  destruct Hs as [E|E|E|E|E Hl|E|E|c ws E Hm Hws|c E|c E]; try (apply Hmove; rewrite ?E; done || by destruct (stopping s)).
  - rewrite E in Hp. apply (inv_frame s); try done; try apply Hi; [|apply awake_refl|cbn; intros []%Hlive; congruence].
    unfold places. cbn [accept_client accepter queue workers closed accepted held_by]. rewrite seq_S. simpl in Hp. rewrite <-Hp. simpl. solve_Permutation.
  - unfold queue_connection, refuses in *. rewrite E in Hp. destruct (stopping s) eqn:Est; [|destruct (Nat.leb_spec (capacity s) (length (queue s)))]; cbn [orb] in *.
    1, 2: subst ws; by apply Hclose.
    pose proof (awake_one _ _ Hws) as Ha. apply (inv_frame s); try done; try apply Hi.
    + unfold places. cbn. rewrite (awake_bind _ _ _ eq_refl eq_refl Ha), <-Hp. simpl. solve_Permutation.
    + cbn. rewrite length_app. simpl. lia.
    + unfold stopped_far. cbn. intros Hfar. assert (Hns : stopper s <> NotStopping) by (by destruct (stopper s)).
      apply (inv_stopping _ Hi) in Hns. congruence.
    + cbn. intros []%Hlive. congruence.
    + cbn. intros Hsd. exfalso. assert (Hns : stopper s <> NotStopping) by (by rewrite Hsd). apply (inv_stopping _ Hi) in Hns. congruence.
  - by apply Hclose.
  - by apply Hclose.
Qed.

(** What closing and shutting connections changes. *)
Definition same_threads (s s' : server) : Prop :=
  accepted s' = accepted s /\ workers s' = workers s /\ accepter s' = accepter s /\ active_connections s' = active_connections s /\
  active_requests s' = active_requests s /\ capacity s' = capacity s.

Lemma close_all l s : closed (foldl close_connection s l) ≡ₚ l ++ closed s /\ same_threads s (foldl close_connection s l) /\
  shut_down s ⊆ shut_down (foldl close_connection s l).
Proof.
  revert s. induction l as [|c l IH]; intros s; [done|]. simpl. destruct (IH (close_connection s c)) as (H1 & H2 & H3).
  rewrite H1. split_and!; [cbn; solve_Permutation|exact H2|]. cbn in H3. set_solver.
Qed.

Lemma shutdown_all l s : closed (foldl shutdown_connection s l) = closed s /\ same_threads s (foldl shutdown_connection s l) /\
  forall c, c ∈ shut_down (foldl shutdown_connection s l) <-> c ∈ l \/ c ∈ shut_down s.
Proof.
  revert s. induction l as [|c l IH]; intros s; [split_and!; [done..|set_solver]|]. simpl. destruct (IH (shutdown_connection s c)) as (H1 & H2 & H3).
  rewrite H1. split_and!; [done|exact H2|]. intros d. rewrite H3. cbn. set_solver.
Qed.

Lemma workers_done {A} (f : worker_state -> list A) ws : f WorkerDone = [] -> Forall (fun w => w = WorkerDone) ws -> ws ≫= f = [].
Proof. intros Hf. induction 1 as [|w ws -> Hw IH]; [done|]. rewrite bind_cons, Hf. exact IH. Qed.

Lemma stop_inv s certain s' : server_inv s -> stop_step s certain s' -> server_inv s'.
Proof.
  intros Hi Hs. pose proof (inv_places _ Hi) as Hp. pose proof (inv_queue _ Hi) as Hq. unfold places in Hp.
  assert (Hgo : forall t, stopper s <> NotStopping -> t <> NotStopping -> stopping s = true <-> t <> NotStopping) by
    (intros t Hne Ht; by split; intros _; [|apply (inv_stopping _ Hi)]).
  destruct Hs as [E|E|E|E Hm|E|E Ha|E Hw].
  1: apply (inv_frame s); try done; try apply Hi; try apply awake_refl; cbn; by intros [?|?].
  1, 2: apply (inv_frame s); try done; try apply Hi; try apply awake_refl; cbn; try (by intros [?|?]); apply Hgo; congruence.
  - destruct (close_all (queue s) s) as (H1 & (H2 & H3 & H4 & H5 & H6 & H7) & _). set (s1 := foldl close_connection _ _) in *.
    destruct (shutdown_all (active_connections s) s1) as (K1 & (K2 & K3 & K4 & K5 & K6 & K7) & _). set (s2 := foldl shutdown_connection _ _) in *.
    apply (inv_frame s); cbn; try done; try lia; try (apply Hgo; congruence).
    + unfold places. cbn. rewrite K1, H1, K2, H2, K3, H3, K4, H4, <-Hp. simpl. solve_Permutation.
    + rewrite K3, H3. apply awake_refl.
    + intros c Hc. rewrite K1, H1. set_solver.
    + by intros [?|?].
  - pose proof (awake_all (workers s)) as Hw. apply (inv_frame s); cbn; try done; try (apply Hgo; congruence); try apply Hi.
    + unfold places. cbn. by rewrite (awake_bind _ _ _ eq_refl eq_refl Hw).
    + intros _. apply (inv_cleared _ Hi). unfold stopped_far. by rewrite E.
    + by intros [?|?].
  - apply (inv_frame s); try done; try (apply Hgo; simpl; congruence); try apply Hi; try apply awake_refl.
    cbn. intros _. apply (inv_cleared _ Hi). unfold stopped_far. by rewrite E.
  - assert (Ha : accepter s = AccepterDone) by (apply (inv_joined _ Hi); auto).
    split; cbn; try done.
    + unfold places. cbn. rewrite (workers_done _ _ eq_refl Hw) in Hp. by rewrite Ha in *.
    + by rewrite (inv_active _ Hi), (workers_done _ _ eq_refl Hw).
    + apply NoDup_nil_2.
    + intros c Hc. by apply elem_of_nil in Hc.
    + rewrite (inv_requests _ Hi). clear -Hw. induction Hw as [|w ws -> Hw IH]; [done|]. rewrite fmap_cons, zsum_cons, IH. done.
    + lia.
    + apply Hgo; congruence.
    + intros _. by apply (inv_cleared _ Hi); unfold stopped_far; rewrite E.
Qed.

(** A connection a worker still has in its hands is its own or closed already. *)
Lemma active_owned s c : server_inv s -> c ∈ workers s ≫= active_of -> c ∈ workers s ≫= owned_by \/ c ∈ closed s.
Proof.
  intros Hi (w & Hc & Hw)%list_elem_of_bind. destruct w as [| | |c'|c'|c'|c'|c'|c'|]; simpl in Hc; apply list_elem_of_singleton in Hc || by apply elem_of_nil in Hc.
  all: subst c'; try (left; apply list_elem_of_bind; eexists; split; [|exact Hw]; by left).
  right. by apply (inv_closing _ Hi).
Qed.

(** Steps of a worker that keep the queue's bound and the stop. *)
Lemma inv_worker s s' ws1 w w' ws2 :
  server_inv s -> workers s = ws1 ++ w :: ws2 -> accepter s' = accepter s -> accepted s' = accepted s -> capacity s' = capacity s ->
  stopping s' = stopping s -> stopper s' = stopper s -> (length (queue s') <= length (queue s))%nat -> closed s ⊆ closed s' ->
  queue s' ++ owned_by w' ++ closed s' ≡ₚ queue s ++ owned_by w ++ closed s ->
  active_connections s' ≡ₚ (ws1 ≫= active_of) ++ active_of w' ++ (ws2 ≫= active_of) ->
  NoDup ((ws1 ≫= active_of) ++ active_of w' ++ (ws2 ≫= active_of)) ->
  (forall c, w' = Closing c -> c ∈ closed s') ->
  active_requests s' = active_requests s - is_serving w + is_serving w' ->
  server_inv (with_workers s' (ws1 ++ w' :: ws2)).
Proof.
  intros Hi Ew Hacc Hn Hcap Hst Hsp Hq Hcl Hp Ha Hd Hcc Hr. pose proof (inv_queue _ Hi). pose proof (inv_workers _ Hi) as Hlen.
  rewrite Ew, length_app in Hlen. simpl in Hlen. split; cbn [with_workers queue capacity active_connections workers active_requests stopping stopper accepter closed accepted].
  - rewrite Hn, <-(inv_places _ Hi). unfold places. cbn. rewrite Hacc, Ew, !bind_middle. apply Permutation_app_head.
    transitivity ((queue s' ++ owned_by w' ++ closed s') ++ (ws1 ≫= owned_by) ++ (ws2 ≫= owned_by)); [solve_Permutation|]. rewrite Hp. solve_Permutation.
  - lia.
  - by rewrite bind_middle.
  - by rewrite bind_middle.
  - intros c [Hin|[<-|Hin]%elem_of_cons]%elem_of_app; [|by apply Hcc|]; apply Hcl, (inv_closing _ Hi); rewrite Ew; set_solver.
  - rewrite Hr, (inv_requests _ Hi), Ew, !fmap_app, !fmap_cons, !zsum_app, !zsum_cons. lia.
  - rewrite length_app. simpl. lia.
  - rewrite Hst, Hsp. apply (inv_stopping _ Hi).
  - unfold stopped_far. cbn. rewrite Hsp. intros Hfar. apply (inv_cleared _ Hi) in Hfar. rewrite Hfar in Hq. simpl in Hq. destruct (queue s'); [done|simpl in Hq; lia].
  - rewrite Hsp, Hacc. apply (inv_joined _ Hi).
  - rewrite Hsp. intros Hw%(inv_stopped _ Hi). rewrite Ew in Hw. by destruct ws1.
Qed.

(** A step that leaves the connections of the worker and of the server as they are. *)
Lemma inv_worker_same s s' ws1 w w' ws2 :
  server_inv s -> workers s = ws1 ++ w :: ws2 -> accepter s' = accepter s -> accepted s' = accepted s -> capacity s' = capacity s ->
  stopping s' = stopping s -> stopper s' = stopper s -> queue s' = queue s -> closed s' = closed s ->
  active_connections s' = active_connections s -> owned_by w' = owned_by w -> active_of w' = active_of w ->
  (forall c, w' = Closing c -> w = w') -> active_requests s' = active_requests s - is_serving w + is_serving w' ->
  server_inv (with_workers s' (ws1 ++ w' :: ws2)).
Proof.
  intros Hi Ew Hacc Hn Hcap Hst Hsp Hq Hcl Hac Ho Ha Hcc Hr. apply (inv_worker s s' ws1 w w' ws2); try done.
  - by rewrite Hq.
  - by rewrite Hcl.
  - by rewrite Hq, Hcl, Ho.
  - rewrite Hac, Ha, (inv_active _ Hi), Ew. by rewrite bind_middle.
  - rewrite Ha. pose proof (inv_distinct _ Hi) as Hd. rewrite Ew in Hd. by rewrite bind_middle in Hd.
  - intros c ->. rewrite Hcl. apply (inv_closing _ Hi). rewrite Ew, (Hcc c eq_refl). set_solver.
Qed.

Lemma worker_inv s certain s' ws1 w w' ws2 : server_inv s -> workers s = ws1 ++ w :: ws2 -> worker_step s w certain s' w' ->
  server_inv (with_workers s' (ws1 ++ w' :: ws2)).
Proof.
  intros Hi Ew Hs. pose proof (inv_active _ Hi) as Ha. pose proof (inv_distinct _ Hi) as Hd. rewrite Ew, bind_middle in Ha, Hd.
  pose proof (requests_bound (workers s)) as Hb. pose proof (inv_workers _ Hi) as Hlen. rewrite <-(inv_requests _ Hi) in Hb.
  assert (Hserved : forall c, w = Serving c -> server_inv (with_workers (with_requests s (wrap32 (active_requests s - 1))) (ws1 ++ Returned c :: ws2))).
  { intros c ->. apply (inv_worker_same s _ ws1 (Serving c)); try done. cbn.
    assert (1 <= active_requests s); [|rewrite wrap32_id; unfold is_u32; lia].
    rewrite (inv_requests _ Hi), Ew, fmap_app, fmap_cons, zsum_app, zsum_cons. pose proof (requests_bound ws1). pose proof (requests_bound ws2).
    simpl is_serving. lia. }
  destruct Hs as [Ht|Hm Ht|Hm Ht Hst Hq| | |c q Hm Ht Hst Hq|c q Hm Ht Hst Hq|c|c|c Hc|c|c Ht Hc|c|c|c Hc|c|c Hm];
    try (by apply Hserved); try (eapply (inv_worker_same s); [exact Hi|exact Ew|try done; cbn; lia..]).
  - apply (inv_worker s _ ws1 Idle); try done; cbn.
    + rewrite Hq. simpl. lia.
    + rewrite Hq. simpl. solve_Permutation.
    + rewrite Ha. simpl. solve_Permutation.
    + assert (Hnew : c ∉ workers s ≫= active_of).
      { intros Hin%(active_owned _ _ Hi). pose proof (places_NoDup _ Hi) as Hnd. unfold places in Hnd. rewrite Hq in Hnd.
        apply NoDup_app in Hnd as (_ & _ & [Hc _]%NoDup_cons). apply Hc. set_solver. }
      rewrite Ew, bind_middle in Hnew. simpl. rewrite <-Permutation_middle. by apply NoDup_cons.
    + lia.
  - apply (inv_worker s _ ws1 Idle); try done; cbn.
    + rewrite Hq. simpl. lia.
    + set_solver.
    + rewrite Hq. simpl. solve_Permutation.
    + lia.
  - apply (inv_worker_same s _ ws1 (Handling c)); try done. cbn. rewrite wrap32_id; unfold is_u32; lia.
  - apply (inv_worker s _ ws1 (Handled c)); try done; cbn.
    + set_solver.
    + intros c' [= <-]. by left.
    + lia.
  - apply (inv_worker s _ ws1 (Closing c)); try done; cbn.
    + rewrite Ha. change (active_of (Closing c)) with [c]. rewrite !filter_app, filter_cons_False, filter_nil by tauto. simpl in Hd.
      rewrite <-Permutation_middle in Hd. apply NoDup_cons in Hd as [Hnot _].
      rewrite !filter_all; [done|intros x Hx ->; apply Hnot, elem_of_app; auto..].
    + simpl in Hd. rewrite <-Permutation_middle in Hd. by apply NoDup_cons in Hd as [_ Hd].
    + lia.
Qed.

Lemma step_inv s s' : server_inv s -> server_step s s' -> server_inv s'.
Proof.
  intros Hi [certain [s1 Hs|ws1 w ws2 s1 w' Ew Hs|s1 Hs]]; [by eapply accepter_inv|by eapply worker_inv|by eapply stop_inv].
Qed.

Lemma reachable_server_inv n cap s : valid_sizes n cap = true -> reachable_server (new_server n cap) s -> server_inv s.
Proof.
  intros Hv. assert (H0 := new_server_inv n cap Hv). revert H0. generalize (new_server n cap). intros s0 H0 Hr.
  induction Hr as [|s1 s2 s3 Hs Hr IH]; [done|]. apply IH. by eapply step_inv.
Qed.

(** ** Properties *)

(** C13. Whatever the order of the threads' steps, and wherever an allocation fails, every
    accepted client is in exactly one place: with the accepter, in the queue, with one
    worker, or closed.  The queue stays within its capacity, [active_requests] counts the
    workers in a handler, and once [stop] has returned every client is closed. *)
Theorem connections_accounted (worker_count connection_capacity : nat) (s : server)
    (Hv : valid_sizes worker_count connection_capacity = true)
    (Hr : reachable_server (new_server worker_count connection_capacity) s) :
  NoDup (places s) /\ (forall c, c ∈ places s <-> (c < accepted s)%nat) /\ (length (queue s) <= capacity s)%nat /\
  active_requests s = zsum (is_serving <$> workers s) /\
  (stopper s = Stopped -> closed s ≡ₚ seq 0 (accepted s) /\ queue s = [] /\ active_connections s = [] /\ active_requests s = 0).
Proof.
  pose proof (reachable_server_inv _ _ _ Hv Hr) as Hi. split; [by apply places_NoDup|]. split.
  { intros c. rewrite (inv_places _ Hi), elem_of_seq. lia. }
  split; [apply Hi|]. split; [apply Hi|]. intros Hst. pose proof (inv_stopped _ Hi Hst) as Hw.
  assert (Ha : accepter s = AccepterDone) by (apply (inv_joined _ Hi); auto).
  assert (Hq : queue s = []) by (apply (inv_cleared _ Hi); unfold stopped_far; by rewrite Hst).
  pose proof (inv_places _ Hi) as Hp. unfold places in Hp. rewrite Ha, Hq, Hw in Hp. split; [exact Hp|]. split; [done|].
  pose proof (inv_active _ Hi) as Hac. pose proof (inv_requests _ Hi) as Hreq. rewrite Hw in Hac, Hreq. split; [by apply Permutation_nil_r|done].
Qed.

(** ** What the threads wait for while the server stops *)

Definition stop_rank (t : stop_state) : nat :=
  match t with
  | NotStopping => 0 | StopRequested => 1 | TokensStopped => 2 | ListenerClosed => 3 | QueueCleared => 4 | Notified => 5
  | AccepterJoined => 6 | Stopped => 7
  end.

(** What [stop] has done so far has happened to every thread that may wait: once it has been
    through [queue_mutex] no worker is about to sleep and every connection in the hands of a
    worker is shut down, and once it has notified none sleeps. *)
Record stop_seen (s : server) : Prop := {
  seen_tokens : (2 <= stop_rank (stopper s))%nat -> tokens s = true;
  seen_listener : (3 <= stop_rank (stopper s))%nat -> listening s = false;
  seen_parking : (4 <= stop_rank (stopper s))%nat -> Parking ∉ workers s;
  seen_shut : (4 <= stop_rank (stopper s))%nat -> active_connections s ⊆ shut_down s;
  seen_parked : (5 <= stop_rank (stopper s))%nat -> Parked ∉ workers s;
  seen_joining : forall c, Joining c ∈ workers s -> c ∈ shut_down s;
}.

Lemma rank_stopping s n : server_inv s -> (S n <= stop_rank (stopper s))%nat -> stopping s = true.
Proof. intros Hi Hr. apply (inv_stopping _ Hi). intros E. rewrite E in Hr. simpl in Hr. lia. Qed.

Lemma new_server_seen n cap : stop_seen (new_server n cap).
Proof. split; cbn -[replicate]; try lia. intros c. rewrite elem_of_replicate. by intros [? _]. Qed.

Lemma seen_frame s s' : stop_seen s -> tokens s' = tokens s -> listening s' = listening s -> stopper s' = stopper s ->
  active_connections s' = active_connections s -> shut_down s ⊆ shut_down s' ->
  ((1 <= stop_rank (stopper s))%nat -> workers s' = workers s) -> (forall c, Joining c ∈ workers s' -> Joining c ∈ workers s) -> stop_seen s'.
Proof.
  intros Hs Ht Hl Hst Ha Hsh Hw Hj. split; rewrite ?Ht, ?Hl, ?Hst, ?Ha.
  - apply Hs.
  - apply Hs.
  - intros Hr. rewrite Hw by lia. by apply Hs.
  - intros Hr. etrans; [by apply Hs|done].
  - intros Hr. rewrite Hw by lia. by apply Hs.
  - intros c ?%Hj. by apply Hsh, (seen_joining _ Hs).
Qed.

Lemma accepter_seen s certain s' : server_inv s -> stop_seen s -> accepter_step s certain s' -> stop_seen s'.
Proof.
  intros Hi Hw Hs. destruct Hs as [E|E|E|E|E Hl|E|E|c ws E Hm Hws|c E|c E]; try (by apply (seen_frame s); try done; cbn; set_solver).
  unfold queue_connection. destruct (refuses s) eqn:Er; [subst ws; by apply (seen_frame s); try done; cbn; set_solver|].
  apply (seen_frame s); try done.
  - intros Hr%(rank_stopping _ _ Hi). unfold refuses in Er. by rewrite Hr in Er.
  - intros c' Hc. destruct (awake_in _ _ _ (awake_one _ _ Hws) Hc) as [?|[=]]. done.
Qed.

Lemma seen_worker s s' ws1 w w' ws2 : stop_seen s -> workers s = ws1 ++ w :: ws2 ->
  tokens s' = tokens s -> listening s' = listening s -> stopper s' = stopper s -> shut_down s ⊆ shut_down s' ->
  ((1 <= stop_rank (stopper s))%nat -> active_connections s' ⊆ active_connections s /\ w' <> Parking /\ (w' = Parked -> w = Parking)) ->
  (forall c, w' = Joining c -> c ∈ shut_down s') -> stop_seen (with_workers s' (ws1 ++ w' :: ws2)).
Proof.
  intros Hs Ew Ht Hl Hst Hsh Hw Hj.
  assert (Hin : forall v, v ∈ ws1 ++ w' :: ws2 -> v = w' \/ v ∈ workers s).
  { intros v. rewrite Ew. set_solver. }
  split; cbn; rewrite ?Ht, ?Hl, ?Hst.
  - apply Hs.
  - apply Hs.
  - intros Hr [E|Hp]%Hin; [by destruct (Hw ltac:(lia)) as (_ & [] & _)|by apply (seen_parking _ Hs)].
  - intros Hr. etrans; [apply Hw; lia|]. etrans; [by apply Hs|done].
  - intros Hr [E|Hp]%Hin; [|by apply (seen_parked _ Hs)]. destruct (Hw ltac:(lia)) as (_ & _ & Hpp).
    apply (seen_parking _ Hs); [lia|]. rewrite Ew, (Hpp (eq_sym E)). set_solver.
  - intros c [E|Hc]%Hin; [by apply Hj|]. by apply Hsh, (seen_joining _ Hs).
Qed.

Lemma worker_seen s certain s' ws1 w w' ws2 : server_inv s -> stop_seen s -> workers s = ws1 ++ w :: ws2 -> worker_step s w certain s' w' ->
  stop_seen (with_workers s' (ws1 ++ w' :: ws2)).
Proof.
  intros Hi Hs Ew Hst. pose proof (rank_stopping s 0 Hi) as Hr.
  destruct Hst as [Ht|Hm Ht|Hm Ht Hst Hq| | |c q Hm Ht Hst Hq|c q Hm Ht Hst Hq|c|c|c Hc|c|c Ht Hc|c|c|c Hc|c|c Hm];
    (eapply (seen_worker s); [exact Hs|exact Ew|done..|cbn; set_solver| |cbn; set_solver]);
    try (intros Hrk; specialize (Hr Hrk); congruence); try done; cbn.
  intros _. split_and!; [|done..]. intros d [_ Hd]%list_elem_of_filter. done.
Qed.

Lemma stop_seen_step s certain s' : server_inv s -> stop_seen s -> stop_step s certain s' -> stop_seen s'.
Proof.
  intros Hi Hs Hst. destruct Hst as [E|E|E|E Hm|E|E Ha|E Hw].
  - split; cbn; try lia. apply (seen_joining _ Hs).
  - split; cbn; try done; try lia. apply (seen_joining _ Hs).
  - split; cbn; try done; try lia; [|apply (seen_joining _ Hs)]. intros _. apply Hs. rewrite E. simpl. lia.
  - destruct (close_all (queue s) s) as (_ & (_ & H3 & _ & H5 & _) & Hsh). set (s1 := foldl close_connection _ _) in *.
    destruct (shutdown_all (active_connections s) s1) as (_ & (_ & K3 & _ & K5 & _) & Hin). set (s2 := foldl shutdown_connection _ _) in *.
    split; cbn; try lia; try (intros _; apply Hs; rewrite E; simpl; lia).
    + intros _. by rewrite K3, H3.
    + intros _ c Hc. apply Hin. by left.
    + intros c. rewrite K3, H3. intros Hc%(seen_joining _ Hs). apply Hin. right. by apply Hsh.
  - assert (Hnot : forall w, w ∈ wake_all (workers s) -> w <> Parked /\ (w = Idle \/ w ∈ workers s)).
    { intros w (v & -> & Hv)%list_elem_of_fmap. destruct v; simpl; auto. }
    split; cbn; try (intros _; apply Hs; rewrite E; simpl; lia).
    + intros _ [_ [?|Hp]]%Hnot; [done|]. apply (seen_parking _ Hs); [rewrite E; simpl; lia|done].
    + intros _ [? _]%Hnot. done.
    + intros c [_ [?|Hc]]%Hnot; [done|]. by apply (seen_joining _ Hs).
  - split; cbn; try (intros _; apply Hs; rewrite E; simpl; lia). apply (seen_joining _ Hs).
  - split; cbn; try set_solver; intros _; apply Hs; rewrite E; simpl; lia.
Qed.

Lemma reachable_seen n cap s : valid_sizes n cap = true -> reachable_server (new_server n cap) s -> server_inv s /\ stop_seen s.
Proof.
  intros Hv. assert (H0 := conj (new_server_inv n cap Hv) (new_server_seen n cap)). revert H0. generalize (new_server n cap).
  intros s0 H0 Hr. induction Hr as [|s1 s2 s3 Hs Hr IH]; [done|]. apply IH. destruct H0 as [Hi Hw]. split; [by eapply step_inv|].
  destruct Hs as [certain [s' Hs|ws1 w ws2 s' w' Ew Hs|s' Hs]]; [by eapply accepter_seen|by eapply worker_seen|by eapply stop_seen_step].
Qed.

(** How many steps a thread can still take once the server stops. *)
Definition accepter_left (a : accepter_state) : nat :=
  match a with AtLoad => 4 | InAccept => 3 | Holding _ => 2 | AtTop => 1 | AccepterDone => 0 end.
Definition worker_left (w : worker_state) : nat :=
  match w with
  | Handling _ => 8 | Serving _ => 7 | Returned _ => 6 | Joining _ => 5 | Handled _ => 4 | Closing _ => 3 | Parking => 3 | Parked => 2
  | Idle => 1 | WorkerDone => 0
  end.
Definition steps_left (s : server) : nat :=
  accepter_left (accepter s) + sum_list_with worker_left (workers s) + (7 - stop_rank (stopper s)).

Lemma woken_left ws : (sum_list_with worker_left (wake_all ws) <= sum_list_with worker_left ws)%nat.
Proof. induction ws as [|w ws IH]; [done|]. simpl. destruct w; simpl; lia. Qed.

(** While the server stops every step brings the end nearer. *)
Lemma stop_progress s s' : server_inv s -> stopping s = true -> server_step s s' -> stopping s' = true /\ (steps_left s' < steps_left s)%nat.
Proof.
  intros Hi Hst [certain Hs]. unfold steps_left. destruct Hs as [s' Hs|ws1 w ws2 s' w' Ew Hs|s' Hs].
  - destruct Hs as [E|E|E|E|E Hl|E|E|c ws E Hm Hws|c E|c E]; rewrite E; try congruence; unfold queue_connection, refuses in *; rewrite ?Hst in *;
      cbn [orb] in *; subst; cbn; rewrite ?Hst; cbn; split; try done; lia.
  - rewrite Ew, sum_list_with_app. cbn [with_workers workers stopping accepter stopper]. rewrite sum_list_with_app.
    destruct Hs; try congruence; cbn; split; try done; lia.
  - destruct Hs as [E|E|E|E Hm|E|E Ha|E Hw]; [congruence|..]; rewrite E; cbn; (split; [done|]); try lia.
    + destruct (close_all (queue s) s) as (_ & (_ & H3 & H4 & _) & _). set (s1 := foldl close_connection _ _) in *.
      destruct (shutdown_all (active_connections s) s1) as (_ & (_ & K3 & K4 & _) & _). rewrite K3, H3, K4, H4. lia.
    + pose proof (woken_left (workers s)). lia.
Qed.

(** Until [stop] has returned there is a step that surely happens. *)
Lemma stop_moves s : server_inv s -> stop_seen s -> stopping s = true -> stopper s <> Stopped -> exists s', thread_step s true s'.
Proof.
  intros Hi Hs Hst Hne.
  assert (Hworker : forall w s' w', w ∈ workers s -> worker_step s w true s' w' -> exists s', thread_step s true s').
  { intros w s' w' (ws1 & ws2 & Ew)%list_elem_of_split Hw. eexists. by eapply step_worker. }
  assert (Hstop : forall s', stop_step s true s' -> exists s', thread_step s true s') by (intros s' ?; exists s'; by apply step_stop).
  assert (Hacc : forall s', accepter_step s true s' -> exists s', thread_step s true s') by (intros s' ?; exists s'; by apply step_accepter).
  destruct (stopper s) eqn:E; try done.
  - apply (inv_stopping _ Hi) in Hst. congruence.
  - by eapply Hstop, stop_tokens.
  - by eapply Hstop, stop_listener.
  - destruct (decide (Parking ∈ workers s)) as [Hp|Hp]; [eapply Hworker; [exact Hp|apply worker_sleep]|]. by eapply Hstop, stop_queue.
  - by eapply Hstop, stop_notify.
  - destruct (accepter s) as [| | |c|] eqn:Ea.
    + eapply Hacc, accept_exit; [done|]. by rewrite Hst, orb_true_r.
    + eapply Hacc, accept_no_listener; [done|]. apply (seen_listener _ Hs). rewrite E. simpl. lia.
    + eapply Hacc, accept_closed; [done|]. apply (seen_listener _ Hs). rewrite E. simpl. lia.
    + eapply Hacc, accept_queue; [exact Ea|apply (seen_parking _ Hs); rewrite E; simpl; lia|]. unfold refuses. by rewrite Hst.
    + by eapply Hstop, stop_join_accepter.
  - destruct (decide (Forall (fun w => w = WorkerDone) (workers s))) as [Hw|Hw]; [by eapply Hstop, stop_join|].
    apply not_Forall_Exists in Hw; [|apply _]. apply Exists_exists in Hw as (w & Hin & Hw).
    assert (Htok : tokens s = true) by (apply (seen_tokens _ Hs); rewrite E; simpl; lia).
    assert (Hfree : mutex_free s) by (apply (seen_parking _ Hs); rewrite E; simpl; lia).
    assert (Hshut : forall c, active_of w = [c] -> c ∈ shut_down s).
    { intros c Hc. apply (seen_shut _ Hs); [rewrite E; simpl; lia|]. rewrite (inv_active _ Hi). apply list_elem_of_bind. exists w. rewrite Hc.
      split; [by left|done]. }
    assert (Hawake : Parked ∉ workers s) by (apply (seen_parked _ Hs); rewrite E; simpl; lia).
    destruct w as [| | |c|c|c|c|c|c|]; try done; try (by destruct Hw); (eapply Hworker; [exact Hin|]).
    + by apply worker_stopped.
    + by apply worker_cut_off, Hshut.
    + apply worker_cancelled; [done|]. by apply Hshut.
    + apply worker_finish.
    + by apply worker_join, Hshut.
    + apply worker_close.
    + by apply worker_forget.
Qed.

(** Every run from a state reaches [P], as long as the steps that surely happen do happen. *)
Inductive inevitable (P : server -> Prop) (s : server) : Prop :=
| inevitable_now : P s -> inevitable P s
| inevitable_later : (exists s', thread_step s true s') -> (forall s', server_step s s' -> inevitable P s') -> inevitable P s.

Lemma stop_inevitable s : server_inv s -> stop_seen s -> stopping s = true -> inevitable (fun s' => stopper s' = Stopped) s.
Proof.
  remember (steps_left s) as n eqn:En. revert s En. induction n as [n IH] using lt_wf_ind. intros s -> Hi Hs Hst.
  destruct (decide (stopper s = Stopped)) as [Hd|Hd]; [by apply inevitable_now|]. apply inevitable_later; [by apply stop_moves|].
  intros s' Hstep. destruct (stop_progress _ _ Hi Hst Hstep) as [Hst' Hlt]. apply (IH _ Hlt); [done|by eapply step_inv| |done].
  destruct Hstep as [certain [s1 Hx|ws1 w ws2 s1 w' Ew Hx|s1 Hx]]; [by eapply accepter_seen|by eapply worker_seen|by eapply stop_seen_step].
Qed.

Lemma stop_bounded n s s' : server_inv s -> stopping s = true -> nsteps server_step n s s' -> (n <= steps_left s)%nat.
Proof.
  intros Hi Hst Hn. induction Hn as [|n s s1 s2 Hstep _ IH]; [lia|]. destruct (stop_progress _ _ Hi Hst Hstep) as [Hst' Hlt].
  specialize (IH (step_inv _ _ Hi Hstep) Hst'). lia.
Qed.

(** C35. [stop] completes.  Once it is called, every run of the threads reaches the end of
    [stop] after at most [steps_left] steps, if only the steps happen that surely do: an
    [accept] that waits returns because the listener is shut and closed, a worker that sleeps
    because it is notified, and not before, one that receives because its connection is shut
    down, one in the handler because moreover the stop of its request was requested, and the
    watching thread because its socket is shut down at the end of the request.  The handlers
    are taken to return when their stop is requested and their writes fail. *)
Theorem stop_completes (worker_count connection_capacity : nat) (s : server)
    (Hv : valid_sizes worker_count connection_capacity = true)
    (Hr : reachable_server (new_server worker_count connection_capacity) s) (Hst : stopping s = true) :
  inevitable (fun s' => stopper s' = Stopped) s /\ forall n s', nsteps server_step n s s' -> (n <= steps_left s)%nat.
Proof.
  destruct (reachable_seen _ _ _ Hv Hr) as [Hi Hs]. split; [by apply stop_inevitable|]. intros n s' Hn. by eapply stop_bounded.
Qed.

(** Two clients, two workers, a queue of one: the second client is dropped, the first is
    served while the other worker sleeps, and the server stops. *)
Definition busy_server : server :=
  MkServer 1 false false true [] [0%nat] [1%nat] [1%nat] 2 1 AtTop [Serving 0; Parked] NotStopping.

Lemma step_accepter_to certain s s' : accepter_step s certain s' -> server_step s s'.
Proof. intros Hs. exists certain. by apply step_accepter. Qed.

Lemma step_worker_to certain s ws1 w ws2 s' w' : workers s = ws1 ++ w :: ws2 -> worker_step s w certain s' w' ->
  server_step s (with_workers s' (ws1 ++ w' :: ws2)).
Proof. intros Ew Hs. exists certain. by eapply step_worker. Qed.

Lemma busy_reachable : reachable_server (new_server 2 1) busy_server.
Proof.
  assert (Hfree : forall s, bool_decide (Parking ∉ workers s) = true -> mutex_free s) by (intros s; apply bool_decide_eq_true_1).
  eapply rtc_l; [eapply (step_worker_to _ _ [Idle] Idle []); [reflexivity|apply worker_wait; [by apply Hfree|reflexivity..]]|].
  eapply rtc_l; [eapply (step_worker_to _ _ [Idle] Parking []); [reflexivity|apply worker_sleep]|].
  eapply rtc_l; [eapply step_accepter_to, accept_wait; reflexivity|].
  eapply rtc_l; [eapply step_accepter_to, accept_enter; reflexivity|].
  eapply rtc_l; [eapply step_accepter_to, accept_client_step; reflexivity|].
  eapply rtc_l; [eapply step_accepter_to, (accept_queue _ 0 [Idle; Idle]); [reflexivity|by apply Hfree|apply (wake_some [Idle] [])]|].
  eapply rtc_l; [eapply (step_worker_to _ _ [] Idle [Idle]); [reflexivity|apply (worker_take _ 0%nat []); [by apply Hfree|reflexivity..]]|].
  eapply rtc_l; [eapply (step_worker_to _ _ [] (Handling 0) [Idle]); [reflexivity|apply worker_serve]|].
  eapply rtc_l; [eapply (step_worker_to _ _ [Serving 0] Idle []); [reflexivity|apply worker_wait; [by apply Hfree|reflexivity..]]|].
  eapply rtc_l; [eapply (step_worker_to _ _ [Serving 0] Parking []); [reflexivity|apply worker_sleep]|].
  eapply rtc_l; [eapply step_accepter_to, accept_wait; reflexivity|].
  eapply rtc_l; [eapply step_accepter_to, accept_enter; reflexivity|].
  eapply rtc_l; [eapply step_accepter_to, accept_client_step; reflexivity|].
  eapply rtc_l; [eapply step_accepter_to, (accept_unconfigured _ 1); reflexivity|]. apply rtc_refl.
Qed.

Lemma connections_accounted_witness : NoDup (places busy_server) /\ active_requests busy_server = zsum (is_serving <$> workers busy_server).
Proof.
  destruct (connections_accounted 2 1 busy_server) as (H1 & _ & _ & H2 & _); [reflexivity|exact busy_reachable|].
  split; [exact H1|exact H2].
Defined.

Definition stopping_server : server := with_stop busy_server true false true StopRequested.

Lemma stopping_reachable : reachable_server (new_server 2 1) stopping_server.
Proof. eapply rtc_r; [exact busy_reachable|]. exists false. apply step_stop. by apply stop_request. Qed.

Lemma stop_completes_witness :
  inevitable (fun s' => stopper s' = Stopped) stopping_server /\ forall n s', nsteps server_step n stopping_server s' -> (n <= 16)%nat.
Proof.
  apply (stop_completes 2 1 stopping_server); [reflexivity|exact stopping_reachable|reflexivity].
Defined.
