(* ===== verification/TrustStores.v ===== *)
(** What the trust stores of Apple and Windows have in common: src/security/apple_trust.cpp
    and windows_trust.cpp, the callbacks that OpenSSL calls to verify the certificates of a
    TLS server, take the name and the certificates of the server from OpenSSL and make
    objects of the system, which they own.  OpenSSL is a class of calls; the rules at the
    end say what is owned along the way. *)
From stdpp Require Import prelude strings list gmap.
From Stdlib Require Import ZArith Lia Ascii.
From S2P Require Import Prelude State Objects Text.

(** ** The context of OpenSSL *)

Definition maximum_chain_certificates : Z := 64.
Definition maximum_certificate_bytes : Z := 1024 * 1024.
Definition maximum_hostname_bytes : Z := 253.
Definition X509_V_OK : Z := 0.
Definition X509_V_ERR_CERT_REJECTED : Z := 28.

(** Certificates are pointers.  [i2d_X509] answers the length, or not a positive number
    when it fails, with the bytes it writes through its second argument, if there is one. *)
Class OpenSsl (W : Type) := {
  SSL_of_context : W -> option Z;                          (* X509_STORE_CTX_get_ex_data *)
  SSL_get_servername : W -> Z -> option text;
  X509_STORE_CTX_get0_cert : W -> option Z;
  X509_STORE_CTX_get0_untrusted : W -> option (list Z);
  X509_STORE_CTX_set_error : W -> Z -> W;
  i2d_X509 : W -> Z -> W * (Z * text);
}.

Section openssl.
Context {W : Type} `{OpenSsl W}.

Definition reject : state W Z :=
  _ ← effect (fun w => X509_STORE_CTX_set_error w X509_V_ERR_CERT_REJECTED); mret 0.

(** The name of the server, when its length is in bounds. *)
Definition server_hostname (w : W) : option text :=
  match SSL_of_context w with
  | None => None
  | Some ssl =>
    match SSL_get_servername w ssl with
    | None => None
    | Some hostname =>
      let hostname_length := Z.of_nat (length hostname) in
      if (hostname_length =? 0) || (maximum_hostname_bytes <? hostname_length) then None else Some hostname
    end
  end.

(** The certificate of the server and the others it sent, when they are not too many. *)
Definition server_chain (w : W) : option (Z * list Z) :=
  let untrusted := default [] (X509_STORE_CTX_get0_untrusted w) in
  let untrusted_count := Z.of_nat (length untrusted) in
  match X509_STORE_CTX_get0_cert w with
  | None => None
  | Some leaf => if maximum_chain_certificates <=? untrusted_count then None else Some (leaf, untrusted)
  end.

(** The encoding of a certificate, as both files take it. *)
Definition encode_certificate (certificate : Z) : state W (option text) :=
  length_ ← invoke (fun w => i2d_X509 w certificate);
  if (length_.1 <=? 0) || (maximum_certificate_bytes <? length_.1) then mret None
  else
    written ← invoke (fun w => i2d_X509 w certificate);
    if negb (written.1 =? length_.1) then mret None else mret (Some written.2).

(** What is taken from the context, as the specification says it. *)
Lemma server_hostname_spec w name : server_hostname w = Some name <->
  exists ssl, SSL_of_context w = Some ssl /\ SSL_get_servername w ssl = Some name /\ (0 < length name <= 253)%nat.
Proof.
  unfold server_hostname, maximum_hostname_bytes. destruct (SSL_of_context w) as [ssl|]; [|naive_solver].
  destruct (SSL_get_servername w ssl) as [host|] eqn:E; [|naive_solver].
  destruct (Z.eqb_spec (Z.of_nat (length host)) 0); [|destruct (Z.ltb_spec 253 (Z.of_nat (length host)))]; cbn [orb].
  - split; [done|]. intros (? & ? & ? & ?). simplify_eq. lia.
  - split; [done|]. intros (? & ? & ? & ?). simplify_eq. lia.
  - split; [intros [= <-]; exists ssl; split_and!; [done..|lia|lia]|]. intros (? & ? & ? & ?). by simplify_eq.
Qed.

Lemma server_chain_spec w leaf untrusted : server_chain w = Some (leaf, untrusted) <->
  X509_STORE_CTX_get0_cert w = Some leaf /\ untrusted = default [] (X509_STORE_CTX_get0_untrusted w) /\ (length untrusted < 64)%nat.
Proof.
  unfold server_chain, maximum_chain_certificates. destruct (X509_STORE_CTX_get0_cert w) as [c|]; [|naive_solver].
  destruct (Z.leb_spec 64 (Z.of_nat (length (default [] (X509_STORE_CTX_get0_untrusted w))))).
  - split; [done|]. intros (? & -> & ?). lia.
  - split; [intros [= <- <-]; split_and!; [done..|lia]|]. by intros ([= <-] & -> & ?).
Qed.
End openssl.

(** ** Objects of a system *)

(** What is seen of a world, besides its objects: the error of the context and the encodings
    of the certificates. *)
Class TrustView (W O : Type) := {
  trust_objects :: ObjectView W O;
  context_error : W -> Z;
  der : W -> Z -> option text;
}.

Section objects.
Context {W O : Type} `{OpenSsl W, TrustView W O}.
Implicit Types w : W.

(** The context of OpenSSL is the same, but for its error. *)
Definition same_context w w' : Prop :=
  SSL_of_context w' = SSL_of_context w /\ (forall ssl, SSL_get_servername w' ssl = SSL_get_servername w ssl) /\
  X509_STORE_CTX_get0_cert w' = X509_STORE_CTX_get0_cert w /\
  X509_STORE_CTX_get0_untrusted w' = X509_STORE_CTX_get0_untrusted w /\ (forall c, der w' c = der w c).

(** The documented behaviour of OpenSSL. *)
Record openssl_laws : Prop := {
  law_stays w w' : stays w w' -> same_context w w';
  law_set_error w e : unchanged w (X509_STORE_CTX_set_error w e) /\ context_error (X509_STORE_CTX_set_error w e) = e;
  law_i2d w c w' r : i2d_X509 w c = (w', r) -> unchanged w w' /\
    match der w c with Some t => r = (Z.of_nat (length t), t) | None => r.1 <= 0 end;
}.

(** A certificate can be encoded within the bound. *)
Definition encodable w (c : Z) (t : text) : Prop := der w c = Some t /\ 0 < Z.of_nat (length t) <= maximum_certificate_bytes.

(** A certificate is encoded in the same way all along. *)
Lemma encodable_stays (laws : openssl_laws) w w' c t : stays w w' -> encodable w' c t <-> encodable w c t.
Proof. intros (_&_&_&_&Hd)%(law_stays laws). unfold encodable. by rewrite Hd. Qed.

Lemma encode_spec (laws : openssl_laws) c w :
  ends (encode_certificate c) w (fun r w' => unchanged w w' /\ match r with Some t => encodable w c t | None => forall t, ~ encodable w c t end).
Proof.
  unfold encode_certificate. apply ends_bind, ends_invoke. intros w1 [n t] E1. apply (law_i2d laws) in E1 as [Hu1 Hr1]. cbn [fst snd].
  destruct (Z.leb_spec n 0); cbn [orb].
  { apply ends_ret. split; [done|]. intros t' [Hd Hl]. rewrite Hd in Hr1. simplify_eq. lia. }
  destruct (der w c) as [t'|] eqn:Ed; [|simpl in Hr1; lia]. injection Hr1 as -> ->.
  destruct (Z.ltb_spec maximum_certificate_bytes (Z.of_nat (length t'))).
  { apply ends_ret. split; [done|]. intros t2 [Hd Hl]. rewrite Ed in Hd. simplify_eq. lia. }
  apply ends_bind, ends_invoke. intros w2 [n2 t2] E2. apply (law_i2d laws) in E2 as [Hu2 Hr2].
  assert (der w1 c = Some t') as Hd1 by (destruct Hu1 as [[(_&_&_&_&->)%(law_stays laws) _] _]; done). rewrite Hd1 in Hr2. injection Hr2 as -> ->.
  cbn [fst snd]. rewrite Z.eqb_refl. apply ends_ret. split; [by eapply unchanged_trans|]. split; [done|lia].
Qed.

(** The loop over the other certificates of a server, of which copies of the first are left
    out: [K ts] holds when [ts] are in, [E] when one did not go in. *)
Lemma others_spec (R : Z -> text -> Prop) (K : list text -> W -> Prop) (E : W -> Prop) (body : Z -> state W bool) leaf untrusted w :
  (forall c ts w, (length ts < length untrusted)%nat -> K ts w -> ends (body c) w (fun go w' =>
     if go then exists t, R c t /\ K (ts ++ [t]) w' else E w' /\ ((exists t, R c t) -> failed w' = true))) ->
  K [] w ->
  ends (all_in (fun certificate => if certificate =? leaf then mret true else body certificate) untrusted) w (fun go w' =>
    if go then exists ts, Forall2 R (filter (.≠ leaf) untrusted) ts /\ K ts w'
    else E w' /\ ((exists ts, Forall2 R (filter (.≠ leaf) untrusted) ts) -> failed w' = true)).
Proof.
  intros Hbody HK. set (I := fun before w' => exists ts, Forall2 R (filter (.≠ leaf) before) ts /\ K ts w').
  set (F := fun (before : list Z) x w' => E w' /\ x <> leaf /\ ((exists t, R x t) -> failed w' = true)).
  eapply ends_conseq; [apply (ends_all_in _ I F)|].
  - intros x before after w1 Hb (ts & Hts & Hk). destruct (Z.eqb_spec x leaf) as [->|Hne].
    + apply ends_ret. exists ts. by rewrite filter_app, filter_cons_False, app_nil_r by tauto.
    + eapply ends_conseq; [apply Hbody with (2 := Hk)|].
      * apply Forall2_length in Hts. pose proof (length_filter (.≠ leaf) before). rewrite Hb, length_app. simpl. lia.
      * intros [|] w2 Hr; [|by destruct Hr]. destruct Hr as (t & Ht & Hk2). exists (ts ++ [t]).
        rewrite filter_app, filter_cons_True, filter_nil by done. split; [|done]. apply Forall2_app; [done|].
        constructor; [exact Ht|constructor].
  - exists []. split; [constructor|done].
  - intros [|] w1; [done|]. intros (before & x & after & -> & He & Hne & Hx). split; [done|]. intros (ts & Hts).
    rewrite filter_app, filter_cons_True in Hts by done. apply Forall2_app_inv_l in Hts as (ts1 & ts2 & _ & Hts & _).
    apply Hx. inversion Hts. eauto.
Qed.

(** Certificates that are read are read in one way. *)
Lemma encodable_unique w (P : text -> Prop) l ts ts' : Forall2 (fun c t => encodable w c t /\ P t) l ts ->
  Forall2 (fun c t => encodable w c t /\ P t) l ts' -> ts = ts'.
Proof.
  intros H1. revert ts'. induction H1 as [|c t l ts [[Hc _] _] _ IH]; intros ts'; inversion 1 as [|? t' ? ts2 [[Hc' _] _]]; subst; [done|].
  f_equal; [congruence|auto].
Qed.

(** What a verification leaves, when [acceptable] says what is to be accepted: nothing of
    its own, the answer in the error of the context too, and a refusal of what is to be
    accepted only after a failure of the system. *)
Definition verified (acceptable : W -> Prop) w0 (answer : Z) w : Prop :=
  owned w = owned w0 /\ (forall r, r ∈ owned w0 -> content w r = content w0 r) /\
  ((answer = 1 /\ context_error w = X509_V_OK /\ acceptable w0) \/
   (answer = 0 /\ context_error w = X509_V_ERR_CERT_REJECTED /\ (acceptable w0 -> failed w = true))).

(** The same where the objects [S] are still to be released: the destructors of the
    variables of a function run after its answer is made. *)
Definition answered (acceptable : W -> Prop) w0 (S : gset Z) (answer : Z) w : Prop :=
  holding w0 S w /\
  ((answer = 1 /\ context_error w = X509_V_OK /\ acceptable w0) \/
   (answer = 0 /\ context_error w = X509_V_ERR_CERT_REJECTED /\ (acceptable w0 -> failed w = true))).

Lemma answered_verified acceptable w0 answer w : answered acceptable w0 ∅ answer w -> verified acceptable w0 answer w.
Proof. intros [(_ & Ho & _ & Hk) Ha]. split_and!; [set_solver|done|done]. Qed.

Lemma reject_answers (laws : openssl_laws) (acceptable : W -> Prop) w0 S w : holding w0 S w -> (acceptable w0 -> failed w = true) ->
  ends reject w (answered acceptable w0 S).
Proof.
  intros Hh Hf. unfold reject. apply ends_bind, ends_effect, ends_ret.
  destruct (law_set_error laws w X509_V_ERR_CERT_REJECTED) as [Hu He].
  destruct (holding_unchanged _ _ _ _ Hh Hu) as (Hh' & _ & Hf'). split; [done|]. right. auto.
Qed.

Lemma accept_answers (laws : openssl_laws) (acceptable : W -> Prop) w0 S w : holding w0 S w -> acceptable w0 ->
  ends (_ ← effect (fun w => X509_STORE_CTX_set_error w X509_V_OK); mret 1) w (answered acceptable w0 S).
Proof.
  intros Hh Ha. apply ends_bind, ends_effect, ends_ret. destruct (law_set_error laws w X509_V_OK) as [Hu He].
  destruct (holding_unchanged _ _ _ _ Hh Hu) as (Hh' & _ & _). split; [done|]. by left.
Qed.

Lemma destroy_spec acceptable w0 S r answer w (f : W -> W) : answered acceptable w0 S answer w -> r ∈ S ->
  (r ∈ owned w -> releases r w (f w) /\ context_error (f w) = context_error w) -> answered acceptable w0 (S ∖ {[r]}) answer (f w).
Proof.
  intros [Hh Ha] Hr Hf. assert (r ∈ owned w) as Ho by (destruct Hh as (_ & -> & _); set_solver). destruct (Hf Ho) as [Hrel He].
  destruct (holding_releases _ _ _ _ _ Hh Hr Hrel) as (Hh' & _ & Hm). split; [done|].
  rewrite He. naive_solver.
Qed.

Lemma reject_spec (laws : openssl_laws) (acceptable : W -> Prop) w0 w : holding w0 ∅ w -> (acceptable w0 -> failed w = true) ->
  ends reject w (verified acceptable w0).
Proof. intros Hh Hf. eapply ends_conseq; [by apply reject_answers|]. apply answered_verified. Qed.

Lemma accept_spec (laws : openssl_laws) (acceptable : W -> Prop) w0 w : holding w0 ∅ w -> acceptable w0 ->
  ends (_ ← effect (fun w => X509_STORE_CTX_set_error w X509_V_OK); mret 1) w (verified acceptable w0).
Proof. intros Hh Ha. eapply ends_conseq; [by apply accept_answers|]. apply answered_verified. Qed.
End objects.

(** ** A machine *)

Module Machine.
Section machine.
Context {O : Type} (nothing : O).

(** The name and the certificates of a server, the encodings of certificates, and the
    objects that were made and not given back. *)
Record machine := MkMachine {
  m_name : option text; m_leaf : option Z; m_untrusted : list Z; m_der : gmap Z text;
  m_error : Z; m_objects : gmap Z O; m_failed : bool }.

Definition with_error (e : Z) (w : machine) : machine :=
  MkMachine (m_name w) (m_leaf w) (m_untrusted w) (m_der w) e (m_objects w) (m_failed w).
Definition with_objects (objects : gmap Z O) (w : machine) : machine :=
  MkMachine (m_name w) (m_leaf w) (m_untrusted w) (m_der w) (m_error w) objects (m_failed w).
Definition fail (w : machine) : machine :=
  MkMachine (m_name w) (m_leaf w) (m_untrusted w) (m_der w) (m_error w) (m_objects w) true.

Definition make (c : O) (w : machine) : machine * option Z :=
  let r := fresh (dom (m_objects w)) in (with_objects (<[r := c]> (m_objects w)) w, Some r).
Definition rewrite_object (r : Z) (c : O) (w : machine) : machine := with_objects (<[r := c]> (m_objects w)) w.
Definition give_back (r : Z) (w : machine) : machine := with_objects (delete r (m_objects w)) w.
Definition look_up (w : machine) (r : Z) : O := default nothing (m_objects w !! r).

Definition machine_openssl : OpenSsl machine := {|
  SSL_of_context w := Some 1;
  SSL_get_servername w ssl := m_name w;
  X509_STORE_CTX_get0_cert := m_leaf;
  X509_STORE_CTX_get0_untrusted w := Some (m_untrusted w);
  X509_STORE_CTX_set_error w e := with_error e w;
  i2d_X509 w c := (w, match m_der w !! c with Some t => (Z.of_nat (length t), t) | None => (-1, []) end);
|}.

Definition same_server (w w' : machine) : Prop :=
  m_name w' = m_name w /\ m_leaf w' = m_leaf w /\ m_untrusted w' = m_untrusted w /\ m_der w' = m_der w.

Lemma same_server_trans w1 w2 w3 : same_server w1 w2 -> same_server w2 w3 -> same_server w1 w3.
Proof. unfold same_server. intuition congruence. Qed.

Definition machine_objects : ObjectView machine O :=
  {| owned w := dom (m_objects w); content := look_up; failed := m_failed; stays := same_server;
     stays_refl w := conj eq_refl (conj eq_refl (conj eq_refl eq_refl)); stays_trans := same_server_trans |}.

Definition machine_view : TrustView machine O := {| trust_objects := machine_objects; context_error := m_error; der w c := m_der w !! c |}.

#[local] Existing Instances machine_openssl machine_view.

Lemma same_unchanged w w' : same_server w w' -> m_failed w' = m_failed w -> m_objects w' = m_objects w -> unchanged w w'.
Proof.
  intros Hs Hf Ho. split_and!; [split_and!; [done|by unfold continues; cbn; rewrite Hf|]|cbn; by rewrite Ho].
  intros r _. cbn. unfold look_up. by rewrite Ho.
Qed.

Lemma machine_openssl_laws : openssl_laws (W := machine) (O := O).
Proof.
  split; [|intros w e; split; [by apply same_unchanged|done]|].
  - intros w w' (Hn & Hl & Hu & Hd). split_and!; cbn; [done|by rewrite Hn|done|by rewrite Hu|by rewrite Hd].
  - intros w c w' r [= <- <-]. split; [by apply same_unchanged|]. cbn. by destruct (m_der w !! c).
Qed.

Lemma make_creates c w w' r : make c w = (w', r) -> creates c w w' r.
Proof.
  intros [= <- <-]. set (r := fresh _). assert (Hr : r ∉ dom (m_objects w)) by apply is_fresh. split; [split; [done|split; [by intros ?|]]|].
  - intros r' Hr'. cbn. unfold look_up. cbn. rewrite lookup_insert_ne; [done|]. intros <-. done.
  - split_and!; [done|cbn; by rewrite dom_insert_L|]. cbn. unfold look_up. cbn. by rewrite lookup_insert_eq.
Qed.

Lemma rewrite_keeps r c w : r ∈ owned w -> let w' := rewrite_object r c w in
  keeps_objects (owned w ∖ {[r]}) w w' /\ owned w' = owned w /\ content w' r = c.
Proof.
  intros Hr. cbn in *. split_and!; [split; [done|split; [by intros ?|]]| |].
  - intros r' Hr'. cbn. unfold look_up. cbn. rewrite lookup_insert_ne; [done|]. intros ->. set_solver.
  - rewrite dom_insert_L. set_solver.
  - unfold look_up. cbn. by rewrite lookup_insert_eq.
Qed.

Lemma give_back_releases r w : releases r w (give_back r w).
Proof.
  split; [split; [done|split; [by intros ?|]]|cbn; by rewrite dom_delete_L].
  intros r' Hr'. cbn in *. unfold look_up. cbn. rewrite lookup_delete_ne; [done|]. intros ->. set_solver.
Qed.
End machine.
Arguments machine : clear implicits.
End Machine.
