(* ===== verification/AppleTrust.v ===== *)
(** The trust store of Apple: src/security/apple_trust.cpp, over the calls of Core
    Foundation and Security as a class. *)
From stdpp Require Import prelude strings list gmap.
From Stdlib Require Import ZArith Lia Ascii.
From S2P Require Import Prelude State Objects Text TrustStores.

Module Apple.
(** The objects of Core Foundation and Security: a mutable array with its capacity and the
    encodings of its certificates; a trust with its chain, its policy and whether it may
    fetch from the network. *)
Inductive cf_object :=
| cf_data (contents : text)
| cf_certificate (encoded : text)
| cf_array (capacity : nat) (certificates : list text)
| cf_string (contents : text)
| cf_policy (server : bool) (hostname : text)
| cf_trust (certificates : list text) (server : bool) (hostname : text) (network : bool)
| cf_error.

Definition errSecSuccess : Z := 0.

Class AppleSystem (W : Type) := {
  apple_openssl :: OpenSsl W;
  CFDataCreate : W -> text -> W * option Z;
  SecCertificateCreateWithData : W -> Z -> W * option Z;
  CFArrayCreateMutable : W -> nat -> W * option Z;
  CFArrayAppendValue : W -> Z -> Z -> W;
  CFStringCreateWithBytes : W -> text -> W * option Z;
  SecPolicyCreateSSL : W -> bool -> Z -> W * option Z;
  SecTrustCreateWithCertificates : W -> Z -> Z -> W * (Z * option Z);
  SecTrustSetNetworkFetchAllowed : W -> Z -> bool -> W * Z;
  SecTrustEvaluateWithError : W -> Z -> W * (bool * option Z);
  CFRelease : W -> Z -> W;
}.

Section code.
Context {W : Type} `{AppleSystem W}.

Definition release (r : Z) : state W unit := effect (fun w => CFRelease w r).

Definition append_certificate (certificates certificate : Z) : state W bool :=
  encoded ← encode_certificate certificate;
  match encoded with
  | None => mret false
  | Some encoded =>
    data ← invoke (fun w => CFDataCreate w encoded);
    match data with
    | None => mret false
    | Some data =>
      apple_certificate ← invoke (fun w => SecCertificateCreateWithData w data);
      _ ← release data;
      match apple_certificate with
      | None => mret false
      | Some apple_certificate =>
        _ ← effect (fun w => CFArrayAppendValue w certificates apple_certificate);
        _ ← release apple_certificate;
        mret true
      end
    end
  end.

(** The evaluation of a trust and its answer. *)
Definition trust_answer (trust : Z) : state W Z :=
  evaluated ← invoke (fun w => SecTrustEvaluateWithError w trust);
  let '(trusted, error) := (evaluated : bool * option Z) in
  _ ← match error with Some error => release error | None => mret tt end;
  _ ← release trust;
  if negb trusted then reject
  else _ ← effect (fun w => X509_STORE_CTX_set_error w X509_V_OK); mret 1.

(** From the policy on: the trust of the certificates, which it releases, is evaluated. *)
Definition evaluate_trust (certificates policy : Z) : state W Z :=
  created ← invoke (fun w => SecTrustCreateWithCertificates w certificates policy);
  _ ← release policy;
  _ ← release certificates;
  match created with
  | (_, None) => reject
  | (create_status, Some trust) =>
    if negb (create_status =? errSecSuccess) then _ ← release trust; reject
    else
      allowed ← invoke (fun w => SecTrustSetNetworkFetchAllowed w trust false);
      if negb (allowed =? errSecSuccess) then _ ← release trust; reject
      else
        trust_answer trust
  end.

(** From the name of the server on. *)
Definition evaluate_chain (certificates : Z) (hostname : text) : state W Z :=
  apple_hostname ← invoke (fun w => CFStringCreateWithBytes w hostname);
  match apple_hostname with
  | None => _ ← release certificates; reject
  | Some apple_hostname =>
    policy ← invoke (fun w => SecPolicyCreateSSL w true apple_hostname);
    _ ← release apple_hostname;
    match policy with
    | None => _ ← release certificates; reject
    | Some policy => evaluate_trust certificates policy
    end
  end.

(** [context_is_null] is the test of the first line. *)
Definition verify_with_apple_trust (context_is_null : bool) : state W Z :=
  if context_is_null then mret 0
  else
    name ← reading server_hostname;
    chain ← reading server_chain;
    match name, chain with
    | Some hostname, Some (leaf, untrusted) =>
      certificates ← invoke (fun w => CFArrayCreateMutable w (length untrusted + 1));
      match certificates with
      | None => reject
      | Some certificates =>
        first ← append_certificate certificates leaf;
        if negb first then _ ← release certificates; reject
        else
          others ← all_in (fun certificate => if certificate =? leaf then mret true else append_certificate certificates certificate) untrusted;
          if negb others then _ ← release certificates; reject
          else
            evaluate_chain certificates hostname
      end
    | _, _ => reject
    end.
End code.

Section laws.
Context {W : Type} `{AppleSystem W, TrustView W cf_object}.
Implicit Types w : W.

(** Which encodings are certificates, and which chains the system trusts for a TLS server
    of a name without fetching anything from the network. *)
Context (apple_parses : text -> Prop) (apple_trusts : list text -> text -> bool).

(** The documented behaviour of the calls; one that creates may fail. *)
Record apple_laws : Prop := {
  law_openssl : openssl_laws (W := W) (O := cf_object);
  law_CFDataCreate w t w' r : CFDataCreate w t = (w', r) -> creates (cf_data t) w w' r;
  law_SecCertificate w d t w' r : SecCertificateCreateWithData w d = (w', r) -> content w d = cf_data t ->
    match r with
    | None => unchanged w w' /\ (apple_parses t -> failed w' = true)
    | Some _ => creates (cf_certificate t) w w' r /\ apple_parses t
    end;
  law_CFArrayCreateMutable w n w' r : CFArrayCreateMutable w n = (w', r) -> creates (cf_array n []) w w' r;
  law_CFArrayAppendValue w a c n l t :
    a ∈ owned w -> content w a = cf_array n l -> (length l < n)%nat -> content w c = cf_certificate t ->
    let w' := CFArrayAppendValue w a c in
    keeps_objects (owned w ∖ {[a]}) w w' /\ owned w' = owned w /\ content w' a = cf_array n (l ++ [t]);
  law_CFStringCreate w t w' r : CFStringCreateWithBytes w t = (w', r) -> creates (cf_string t) w w' r;
  law_SecPolicyCreateSSL w b s t w' r : SecPolicyCreateSSL w b s = (w', r) -> content w s = cf_string t ->
    creates (cf_policy b t) w w' r;
  law_SecTrustCreate w a p n l b t w' s r : SecTrustCreateWithCertificates w a p = (w', (s, r)) ->
    content w a = cf_array n l -> content w p = cf_policy b t ->
    creates (cf_trust l b t true) w w' r /\ (s <> errSecSuccess -> failed w' = true);
  law_SecTrustSetNetwork w r l b t n n' w' s : SecTrustSetNetworkFetchAllowed w r n' = (w', s) ->
    r ∈ owned w -> content w r = cf_trust l b t n ->
    keeps_objects (owned w ∖ {[r]}) w w' /\ owned w' = owned w /\
    if s =? errSecSuccess then content w' r = cf_trust l b t n' else failed w' = true;
  law_SecTrustEvaluate w r l t w' b e : SecTrustEvaluateWithError w r = (w', (b, e)) -> content w r = cf_trust l true t false ->
    b = apple_trusts l t /\ match e with None => unchanged w w' | Some _ => creates cf_error w w' e end;
  law_CFRelease w r : r ∈ owned w -> releases r w (CFRelease w r);
}.

(** Certificate [c] is encoded as [t], which the system can read. *)
Definition readable w (c : Z) (t : text) : Prop := encodable w c t /\ apple_parses t.

(** What the callback is to accept: a server with a name of at most 253 bytes whose
    certificate and at most 63 others can be read, in a chain that the system trusts. *)
Definition acceptable w : Prop :=
  exists ssl hostname leaf chain,
    SSL_of_context w = Some ssl /\ SSL_get_servername w ssl = Some hostname /\ (0 < length hostname <= 253)%nat /\
    X509_STORE_CTX_get0_cert w = Some leaf /\
    let untrusted := default [] (X509_STORE_CTX_get0_untrusted w) in
    (length untrusted < 64)%nat /\ Forall2 (readable w) (leaf :: filter (.≠ leaf) untrusted) chain /\
    apple_trusts chain hostname = true.

(** The array takes the certificate, or it cannot be read or the system failed. *)
Lemma append_spec (laws : apple_laws) w0 S w a n l c : holding w0 S w -> a ∈ S -> content w a = cf_array n l -> (length l < n)%nat ->
  ends (append_certificate a c) w (fun go w' =>
    holding w0 S w' /\ (failed w = true -> failed w' = true) /\
    if go then exists t, readable w0 c t /\ content w' a = cf_array n (l ++ [t])
    else (exists t, readable w0 c t) -> failed w' = true).
Proof.
  intros Hh Ha Hl Hn. unfold append_certificate. apply ends_bind. eapply ends_conseq; [apply (encode_spec (law_openssl laws))|].
  intros r w1 [Hu Hr]. assert (Hder : forall t, encodable w c t <-> encodable w0 c t).
  { intros t. apply (encodable_stays (law_openssl laws)), Hh. }
  destruct (holding_unchanged _ _ _ _ Hh Hu) as (Hh1 & Hk1 & Hf1). destruct r as [t|].
  2: { apply ends_ret. split_and!; [done|done|]. intros (t & Ht%Hder & _). by destruct (Hr t). }
  apply ends_bind, (object_made_spec _ _ Hh1 (law_CFDataCreate laws w1 t)); [intros w2 Hh2 Hf2 _; apply ends_ret; split_and!; auto|].
  intros w2 d Hh2 Hd Hnew Hk2 Hf2. cbn beta iota. apply ends_bind, ends_invoke. intros w3 r3 E3.
  pose proof (law_SecCertificate laws _ _ _ _ _ E3 Hd) as H3. assert (Hds : d ∈ {[d]} ∪ S) by set_solver.
  assert (Hback : ({[d]} ∪ S) ∖ {[d]} = S) by set_solver. unfold continues in *. apply ends_bind. destruct r3 as [c'|].
  2: { destruct H3 as [Hu3 Hp3]. destruct (holding_unchanged _ _ _ _ Hh2 Hu3) as (Hh3 & _ & Hf3).
    apply (object_released_spec _ _ Hh3 Hds (law_CFRelease laws w3 d)). rewrite Hback. intros w4 Hh4 _ Hf4. apply ends_ret.
    split_and!; [done|unfold continues in *; tauto|]. intros (t' & [[Ht' _]%Hder Hp]). destruct Hr. simplify_eq. unfold continues in *. auto. }
  destruct H3 as [H3 Hp]. destruct (holding_creates _ _ _ _ _ _ Hh2 H3) as (Hf3 & Hk3 & Hh3 & Hc3 & Hn3).
  apply (object_released_spec _ _ Hh3 (r := d) ltac:(set_solver) (law_CFRelease laws w3 d)). intros w4 Hh4 Hk4 Hf4.
  assert (({[c']} ∪ ({[d]} ∪ S)) ∖ {[d]} = {[c']} ∪ S) as Hset by set_solver. rewrite Hset in Hh4.
  apply ends_bind, ends_effect. assert (a <> d /\ a <> c' /\ d <> c') as (Had & Hac & Hdc) by set_solver.
  assert (Hl4 : content w4 a = cf_array n l) by (rewrite Hk4, Hk3, Hk2, Hk1; [done|set_solver..]).
  assert (Ha4 : a ∈ owned w4) by (destruct Hh4 as (_ & -> & _); set_solver).
  destruct (law_CFArrayAppendValue laws w4 a c' n l t Ha4 Hl4 Hn) as (Hm5 & Ho5 & Hl5); [rewrite Hk4; [done|set_solver..]|].
  destruct (holding_modified _ _ _ _ a Hh4 ltac:(set_solver) Hm5 Ho5) as (Hh5 & _ & Hf5).
  apply ends_bind, (object_released_spec _ _ Hh5 (r := c') ltac:(set_solver) (law_CFRelease laws _ c')). intros w6 Hh6 Hk6 Hf6.
  assert (({[c']} ∪ S) ∖ {[c']} = S) as Hback2 by set_solver. rewrite Hback2 in Hh6. apply ends_ret.
  unfold continues in *. split_and!; [done|tauto|]. exists t. split; [split; [by apply Hder|done]|]. by rewrite Hk6 by (try done; set_solver).
Qed.

Lemma trust_answer_spec (laws : apple_laws) w0 w r l t : holding w0 {[r]} w -> content w r = cf_trust l true t false ->
  (acceptable w0 <-> apple_trusts l t = true) -> ends (trust_answer r) w (verified acceptable w0).
Proof.
  intros Hh Ht Hacc. unfold trust_answer. apply ends_bind, ends_invoke. intros w1 [b e] E1.
  apply (law_SecTrustEvaluate laws) with (2 := Ht) in E1 as [-> He]. cbn beta iota.
  assert (Hend : ({[r]} : gset Z) ∖ {[r]} = ∅) by set_solver.
  assert (Hrest : forall w', holding w0 {[r]} w' ->
    ends (_ ← release r; if negb (apple_trusts l t) then reject else _ ← effect (fun w => X509_STORE_CTX_set_error w X509_V_OK); mret 1)
      w' (verified acceptable w0)).
  { intros w' Hh'. apply ends_bind, (object_released_spec _ _ Hh' (r := r) ltac:(set_solver) (law_CFRelease laws w' r)).
    rewrite Hend. intros w2 Hh2 _ _. destruct (apple_trusts l t); cbn [negb].
    - apply (accept_spec (law_openssl laws)); [done|]. by apply Hacc.
    - apply (reject_spec (law_openssl laws)); [done|]. by intros ?%Hacc. }
  apply ends_bind. destruct e as [e|].
  - destruct (holding_creates _ _ _ _ _ _ Hh He) as (_ & _ & Hh1 & _ & Hn).
    apply (object_released_spec _ _ Hh1 (r := e) ltac:(set_solver) (law_CFRelease laws w1 e)). intros w2 Hh2 _ _. apply Hrest.
    assert (({[e]} ∪ {[r]}) ∖ {[e]} = ({[r]} : gset Z)) as Hset by set_solver. by rewrite Hset in Hh2.
  - apply ends_ret, Hrest. by destruct (holding_unchanged _ _ _ _ Hh He).
Qed.

Lemma evaluate_spec (laws : apple_laws) w0 w a p n l t : holding w0 {[p; a]} w -> a <> p ->
  content w a = cf_array n l -> content w p = cf_policy true t ->
  (acceptable w0 <-> apple_trusts l t = true) -> ends (evaluate_trust a p) w (verified acceptable w0).
Proof.
  intros Hh Hne Hl Hp Hacc. unfold evaluate_trust. apply ends_bind, ends_invoke. intros w1 [s r] E1.
  apply (law_SecTrustCreate laws _ _ _ _ _ _ _ _ _ _) with (2 := Hl) (3 := Hp) in E1 as [Hcr Hs].
  destruct (holding_creates _ _ _ _ _ _ Hh Hcr) as (Hf1 & Hk1 & Hr1).
  assert (exists S, holding w0 S w1 /\ p ∈ S /\ a ∈ S /\ S ∖ {[p]} ∖ {[a]} = match r with Some r => {[r]} | None => ∅ end) as (S & Hh1 & Hps & Has & Hset).
  { destruct r as [r|]; [exists ({[r]} ∪ {[p; a]})|exists {[p; a]}]; destruct Hr1 as [? Hr1]; (split_and!; [done|set_solver|set_solver|]); [|set_solver].
    destruct Hr1. set_solver. }
  apply ends_bind, (object_released_spec _ _ Hh1 Hps (law_CFRelease laws w1 p)). intros w2 Hh2 Hk2 Hf2.
  apply ends_bind, (object_released_spec _ _ Hh2 (r := a) ltac:(set_solver) (law_CFRelease laws w2 a)). rewrite Hset. intros w3 Hh3 Hk3 Hf3.
  unfold continues in *. destruct r as [r|]; [|destruct Hr1; apply (reject_spec (law_openssl laws)); [done|tauto]].
  assert (Hend : ({[r]} : gset Z) ∖ {[r]} = ∅) by set_solver.
  destruct Hr1 as (_ & Hct & Hnew). assert (Ht3 : content w3 r = cf_trust l true t true) by (rewrite Hk3, Hk2; [done|set_solver..]).
  assert (Hrelease : forall w', holding w0 {[r]} w' -> (acceptable w0 -> failed w' = true) ->
    ends (_ ← release r; reject) w' (verified acceptable w0)).
  { intros w' Hh' Hf'. apply ends_bind, (object_released_spec _ _ Hh' (r := r) ltac:(set_solver) (law_CFRelease laws w' r)).
    rewrite Hend. intros w'' Hh'' _ Hc. apply (reject_spec (law_openssl laws)); [done|unfold continues in *; tauto]. }
  destruct (Z.eqb_spec s errSecSuccess) as [->|Hns]; cbn [negb]; [|apply Hrelease; tauto].
  apply ends_bind, ends_invoke. intros w4 s4 E4.
  assert (Hr3 : r ∈ owned w3) by (destruct Hh3 as (_ & -> & _); set_solver).
  apply (law_SecTrustSetNetwork laws) with (2 := Hr3) (3 := Ht3) in E4 as (Hm4 & Ho4 & Hs4).
  destruct (holding_modified _ _ _ _ r Hh3 ltac:(set_solver) Hm4 Ho4) as (Hh4 & _ & Hf4).
  destruct (s4 =? errSecSuccess) eqn:E; cbn [negb]; [|by apply Hrelease].
  by apply (trust_answer_spec laws _ _ _ _ _ Hh4 Hs4).
Qed.

Lemma give_up_spec (laws : apple_laws) w0 w a : holding w0 {[a]} w -> (acceptable w0 -> failed w = true) ->
  ends (_ ← release a; reject) w (verified acceptable w0).
Proof.
  intros Hh Hf. assert (Ha : a ∈ ({[a]} : gset Z)) by set_solver. assert (Hend : ({[a]} : gset Z) ∖ {[a]} = ∅) by set_solver.
  apply ends_bind, (object_released_spec _ _ Hh Ha (law_CFRelease laws w a)). rewrite Hend. intros w1 Hh1 _ Hf1.
  apply (reject_spec (law_openssl laws)); [done|unfold continues in *; tauto].
Qed.

Lemma evaluate_chain_spec (laws : apple_laws) w0 w a n l t : holding w0 {[a]} w -> content w a = cf_array n l ->
  (acceptable w0 <-> apple_trusts l t = true) -> ends (evaluate_chain a t) w (verified acceptable w0).
Proof.
  intros Hh Hl Hacc. unfold evaluate_chain.
  apply ends_bind, (object_made_spec _ _ Hh (law_CFStringCreate laws w t)); [intros; by apply (give_up_spec laws)|].
  intros w1 s Hh1 Hs Hns Hk1 _. cbn beta iota. unfold continues in *. assert (Hsa : s ∈ ({[s]} ∪ {[a]} : gset Z)) by set_solver.
  apply ends_bind, (object_made_spec _ _ Hh1 (c := cf_policy true t)).
  { intros w2 r E. by apply (law_SecPolicyCreateSSL laws _ _ _ _ _ _ E). }
  - intros w2 Hh2 Hf2 _. apply ends_bind, (object_released_spec _ _ Hh2 Hsa (law_CFRelease laws w2 s)). intros w3 Hh3 _ Hf3.
    assert (({[s]} ∪ {[a]} : gset Z) ∖ {[s]} = {[a]}) as Hset by set_solver. rewrite Hset in Hh3.
    unfold continues in *. apply (give_up_spec laws); [done|tauto].
  - intros w2 p Hh2 Hp Hnp Hk2 _. apply ends_bind, (object_released_spec _ _ Hh2 (r := s) ltac:(set_solver) (law_CFRelease laws w2 s)).
    intros w3 Hh3 Hk3 _. assert (({[p]} ∪ ({[s]} ∪ {[a]}) : gset Z) ∖ {[s]} = {[p; a]}) as Hset by set_solver. rewrite Hset in Hh3.
    assert (a <> s /\ a <> p /\ p <> s) as (Has & Hap & Hps) by set_solver.
    apply (evaluate_spec laws _ _ _ _ n l t Hh3 Hap); [|rewrite Hk3; [done|set_solver|done]|done].
    rewrite Hk3, Hk2, Hk1; [done|set_solver..|done].
Qed.

Lemma acceptable_iff w name leaf untrusted : server_hostname w = Some name -> server_chain w = Some (leaf, untrusted) ->
  acceptable w <-> exists chain, Forall2 (readable w) (leaf :: filter (.≠ leaf) untrusted) chain /\ apple_trusts chain name = true.
Proof.
  intros (ssl & Hs & Hn & Hl)%server_hostname_spec (Hc & -> & Hu)%server_chain_spec. unfold acceptable. split.
  - intros (ssl' & name' & leaf' & chain & ?). naive_solver.
  - intros (chain & ? & ?). by exists ssl, name, leaf, chain.
Qed.

Lemma acceptable_presented w : acceptable w -> is_Some (server_hostname w) /\ is_Some (server_chain w).
Proof.
  intros (ssl & name & leaf & chain & Hs & Hn & Hl & Hc & Hu & _).
  split; [exists name; apply server_hostname_spec; by exists ssl|]. eexists (leaf, _). by apply server_chain_spec.
Qed.

(** The others are appended after the first, in their order and without copies of it. *)
Lemma chain_spec (laws : apple_laws) w0 w a leaf t0 untrusted : holding w0 {[a]} w ->
  content w a = cf_array (length untrusted + 1) [t0] ->
  ends (all_in (fun certificate => if certificate =? leaf then mret true else append_certificate a certificate) untrusted) w (fun go w' =>
    if go then exists ts, Forall2 (readable w0) (filter (.≠ leaf) untrusted) ts /\
                 holding w0 {[a]} w' /\ content w' a = cf_array (length untrusted + 1) (t0 :: ts)
    else holding w0 {[a]} w' /\ ((exists ts, Forall2 (readable w0) (filter (.≠ leaf) untrusted) ts) -> failed w' = true)).
Proof.
  intros Hh Hl. assert (Ha : a ∈ ({[a]} : gset Z)) by set_solver.
  refine (others_spec _ (fun ts w' => holding w0 {[a]} w' /\ content w' a = cf_array (length untrusted + 1) (t0 :: ts)) _ _ _ _ _ _ (conj Hh Hl)).
  intros c ts w1 Hlen [Hh1 Hl1]. eapply ends_conseq; [apply (append_spec laws _ _ _ _ _ _ c Hh1 Ha Hl1); simpl; lia|].
  intros [|] w2 (Hh2 & _ & Hr); [|done]. destruct Hr as (t & Ht & Hl2). by exists t.
Qed.

(** C23. The callback for Apple's trust store accepts a server exactly when it has a name of at
    most 253 bytes, its certificate and at most 63 others can be encoded and read, and the
    system trusts that chain for the name; it refuses such a server only when the system
    failed to make an object.  It tells the answer to OpenSSL, gives back every object it
    made and releases nothing else. *)
Theorem verify_with_apple_trust_correct (laws : apple_laws) w w' (answer : Z) :
  verify_with_apple_trust false w = (w', answer) ->
  owned w' = owned w /\ (forall r, r ∈ owned w -> content w' r = content w r) /\
  ((answer = 1 /\ context_error w' = X509_V_OK /\ acceptable w) \/
   (answer = 0 /\ context_error w' = X509_V_ERR_CERT_REJECTED /\ (acceptable w -> failed w' = true))).
Proof.
  apply (ends_result _ _ (verified acceptable w)). unfold verify_with_apple_trust. cbn beta iota.
  pose proof (holding_start w) as Hh. do 2 apply ends_bind, ends_reading.
  destruct (server_hostname w) as [name|] eqn:En; [destruct (server_chain w) as [[leaf untrusted]|] eqn:Ec|].
  2,3: apply (reject_spec (law_openssl laws)); [done|]; intros [[? ?] [? ?]]%acceptable_presented; congruence.
  pose proof (acceptable_iff _ _ _ _ En Ec) as Hacc.
  assert (Hreject : forall w', holding w ∅ w' -> (acceptable w -> failed w' = true) -> ends reject w' (verified acceptable w)).
  { intros w1. apply (reject_spec (law_openssl laws)). }
  apply ends_bind, (object_made_spec _ _ Hh (law_CFArrayCreateMutable laws w _)); [intros; by apply Hreject|].
  intros w1 a Hh1 Hl1 _ _ _. rewrite (right_id_L ∅ (∪)) in Hh1. cbn beta iota. assert (Ha : a ∈ ({[a]} : gset Z)) by set_solver.
  apply ends_bind. eapply ends_conseq; [apply (append_spec laws _ _ _ _ _ _ leaf Hh1 Ha Hl1); simpl; lia|].
  intros [|] w2 (Hh2 & _ & Hr2); cbn [negb].
  2: { apply (give_up_spec laws); [done|]. intros (chain & Hc & _)%Hacc. apply Hr2. inversion Hc. eauto. }
  destruct Hr2 as (t0 & Ht0 & Hl2). apply ends_bind.
  eapply ends_conseq; [apply (chain_spec laws _ _ _ leaf t0 untrusted Hh2 Hl2)|]. intros [|] w3 Hr3; cbn [negb].
  2: { destruct Hr3 as [Hh3 Hr3]. apply (give_up_spec laws); [done|]. intros (chain & Hc & _)%Hacc. apply Hr3. inversion Hc. eauto. }
  destruct Hr3 as (ts & Hts & Hh3 & Hl3). apply (evaluate_chain_spec laws _ _ _ _ _ _ Hh3 Hl3). rewrite Hacc.
  assert (Hchain : Forall2 (readable w) (leaf :: filter (.≠ leaf) untrusted) (t0 :: ts)) by by constructor.
  split; [|by exists (t0 :: ts)]. intros (chain & Hc & Htrust). by rewrite (encodable_unique _ _ _ _ _ Hchain Hc).
Qed.
End laws.
End Apple.

Module AppleMachine.
Import Machine Apple.

(** Every encoding is a certificate; chains of two are trusted for example.org. *)
Definition trusts (chain : list text) (hostname : text) : bool :=
  (length chain =? 2)%nat && text_eqb hostname (str "example.org").

Abbreviation world := (machine cf_object).

Definition append_value (w : world) (a c : Z) : world :=
  match look_up cf_error w a, look_up cf_error w c with
  | cf_array n l, cf_certificate t => rewrite_object a (cf_array n (l ++ [t])) w
  | _, _ => w
  end.

(** Making an object from the contents of another, when they are right. *)
Definition make_from (f : cf_object -> option cf_object) (w : world) (r : Z) : world * option Z :=
  match f (look_up cf_error w r) with Some c => make c w | None => (fail w, None) end.

Definition create_trust (w : world) (a p : Z) : world * (Z * option Z) :=
  match look_up cf_error w a, look_up cf_error w p with
  | cf_array n l, cf_policy b t => let '(w', r) := make (cf_trust l b t true) w in (w', (errSecSuccess, r))
  | _, _ => (fail w, (-1, None))
  end.

Definition set_network (w : world) (r : Z) (n : bool) : world * Z :=
  match look_up cf_error w r with
  | cf_trust l b t _ => (rewrite_object r (cf_trust l b t n) w, errSecSuccess)
  | _ => (fail w, -1)
  end.

(** The evaluation of a chain that is not trusted leaves an error object. *)
Definition evaluate (w : world) (r : Z) : world * (bool * option Z) :=
  match look_up cf_error w r with
  | cf_trust l _ t _ => if trusts l t then (w, (true, None)) else let '(w', e) := make cf_error w in (w', (false, e))
  | _ => (w, (false, None))
  end.

#[global] Instance apple_machine : AppleSystem world := {|
  apple_openssl := machine_openssl;
  CFDataCreate w t := make (cf_data t) w;
  SecCertificateCreateWithData := make_from (fun c => match c with cf_data t => Some (cf_certificate t) | _ => None end);
  CFArrayCreateMutable w n := make (cf_array n []) w;
  CFArrayAppendValue := append_value;
  CFStringCreateWithBytes w t := make (cf_string t) w;
  SecPolicyCreateSSL w b := make_from (fun c => match c with cf_string t => Some (cf_policy b t) | _ => None end) w;
  SecTrustCreateWithCertificates := create_trust;
  SecTrustSetNetworkFetchAllowed := set_network;
  SecTrustEvaluateWithError := evaluate;
  CFRelease w r := give_back r w;
|}.

#[global] Instance apple_view : TrustView world cf_object := machine_view cf_error.

Lemma apple_machine_laws : apple_laws (W := world) (fun _ => True) trusts.
Proof.
  split; cbn [apple_machine apple_openssl CFDataCreate SecCertificateCreateWithData CFArrayCreateMutable CFArrayAppendValue CFStringCreateWithBytes
    SecPolicyCreateSSL SecTrustCreateWithCertificates SecTrustSetNetworkFetchAllowed SecTrustEvaluateWithError CFRelease].
  - apply machine_openssl_laws.
  - intros w t w' r E. by apply (make_creates cf_error).
  - intros w d t w' r. unfold make_from. intros E Hd. rewrite (Hd : look_up cf_error w d = _) in E.
    destruct r as [r|]; [split; [|done]; by apply (make_creates cf_error)|done].
  - intros w n w' r E. by apply (make_creates cf_error).
  - intros w a c n l t Ha Hl _ Hc. unfold append_value. rewrite (Hl : look_up cf_error w a = _), (Hc : look_up cf_error w c = _).
    by apply rewrite_keeps.
  - intros w t w' r E. by apply (make_creates cf_error).
  - intros w b s t w' r. unfold make_from. intros E Hs. rewrite (Hs : look_up cf_error w s = _) in E.
    by apply (make_creates cf_error).
  - intros w a p n l b t w' s r E Ha Hp. revert E. unfold create_trust. rewrite (Ha : look_up cf_error w a = _), (Hp : look_up cf_error w p = _).
    destruct (make _ w) as [w1 r1] eqn:E1. intros [= <- <- <-]. split; [by apply (make_creates cf_error)|done].
  - intros w r l b t n n' w' s E Hr Ht. revert E. unfold set_network. rewrite (Ht : look_up cf_error w r = _).
    intros [= <- <-]. by apply rewrite_keeps.
  - intros w r l t w' b e E Ht. revert E. unfold evaluate. rewrite (Ht : look_up cf_error w r = _).
    destruct (trusts l t) eqn:Et; [by intros [= <- <- <-]; split; [|apply unchanged_refl]|]. destruct (make cf_error w) as [w1 r1] eqn:E1. intros [= <- <- <-].
    split; [done|]. destruct r1; [by apply (make_creates cf_error)|]. by unfold make in E1.
  - intros w r _. apply give_back_releases.
Qed.

(** A server that sends its certificate twice and one more. *)
Definition server : world := MkMachine (Some (str "example.org")) (Some 7) [7; 8] (list_to_map [(7, str "leaf"); (8, str "root")]) 0 ∅ false.
Definition stranger : world := MkMachine (Some (str "example.com")) (Some 7) [7; 8] (list_to_map [(7, str "leaf"); (8, str "root")]) 0 ∅ false.

Example apple_accepts :
  let '(w, answer) := verify_with_apple_trust false server in
  bool_decide (answer = 1 /\ m_error w = X509_V_OK /\ base.size (m_objects w) = 0%nat) = true.
Proof. vm_compute. reflexivity. Qed.

Example apple_rejects :
  let '(w, answer) := verify_with_apple_trust false stranger in
  bool_decide (answer = 0 /\ m_error w = X509_V_ERR_CERT_REJECTED /\ base.size (m_objects w) = 0%nat) = true.
Proof. vm_compute. reflexivity. Qed.

Lemma verify_with_apple_trust_correct_witness :
  let '(w', answer) := verify_with_apple_trust false server in
  owned w' = owned server /\ (forall r, r ∈ owned server -> content w' r = content server r) /\
  ((answer = 1 /\ context_error w' = X509_V_OK /\ acceptable (fun _ => True) trusts server) \/
   (answer = 0 /\ context_error w' = X509_V_ERR_CERT_REJECTED /\ (acceptable (fun _ => True) trusts server -> failed w' = true))).
Proof.
  destruct (verify_with_apple_trust false server) as [w' answer] eqn:E.
  exact (verify_with_apple_trust_correct _ _ apple_machine_laws server w' answer E).
Defined.
End AppleMachine.
