(* ===== verification/WindowsTrust.v ===== *)
(** The trust store of Windows: src/security/windows_trust.cpp, over the calls of the
    certificate store of Windows as a class. *)
From stdpp Require Import prelude strings list gmap.
From Stdlib Require Import ZArith Lia Ascii.
From S2P Require Import Prelude State Objects Text TrustStores.

Module Windows.
(** Contexts of certificates, stores, and the chains that are built from both. *)
Inductive win_object :=
| win_certificate (encoded : text)
| win_store (certificates : list text)
| win_chain (leaf : text) (certificates : list text) (flags : Z)
| win_nothing.

Definition CERT_CHAIN_CACHE_END_CERT : Z := 1.
Definition CERT_CHAIN_CACHE_ONLY_URL_RETRIEVAL : Z := 4.

(** [MultiByteToWideChar] with the code page UTF-8 and MB_ERR_INVALID_CHARS: it answers how
    many characters the text has when there is room for none, and how many it writes. *)
Class WindowsSystem (W : Type) := {
  windows_openssl :: OpenSsl W;
  MultiByteToWideChar : W -> text -> Z -> Z * list Z;
  CertCreateCertificateContext : W -> text -> W * option Z;
  CertOpenStore : W -> W * option Z;                             (* CERT_STORE_PROV_MEMORY *)
  CertAddCertificateContextToStore : W -> Z -> Z -> W * bool;    (* CERT_STORE_ADD_ALWAYS *)
  CertGetCertificateChain : W -> Z -> Z -> Z -> W * option Z;          (* [None]: FALSE *)
  CertVerifyCertificateChainPolicy : W -> Z -> list Z -> W * (bool * Z);   (* CERT_CHAIN_POLICY_SSL *)
  CertFreeCertificateContext : W -> Z -> W;
  CertFreeCertificateChain : W -> Z -> W;
  CertCloseStore : W -> Z -> W;
}.

Section code.
Context {W : Type} `{WindowsSystem W}.

(** The destructor of a [unique_ptr]. *)
Definition destroy (deleter : W -> Z -> W) (p : option Z) : state W unit :=
  match p with Some p => effect (fun w => deleter w p) | None => mret tt end.

Definition convert_certificate (certificate : Z) : state W (option Z) :=
  encoded ← encode_certificate certificate;
  match encoded with
  | None => mret None
  | Some encoded => invoke (fun w => CertCreateCertificateContext w encoded)
  end.

Definition add_certificate (store certificate : Z) : state W bool :=
  converted ← convert_certificate certificate;
  match converted with
  | None => mret false
  | Some converted =>
    added ← invoke (fun w => CertAddCertificateContextToStore w store converted);
    _ ← destroy CertFreeCertificateContext (Some converted);
    mret added
  end.

(** The name of the server in wide characters, with a terminator. *)
Definition wide_hostname (w : W) (hostname : text) : option (list Z) :=
  let wide_length := (MultiByteToWideChar w hostname 0).1 in
  if wide_length <=? 0 then None
  else
    let '(written, characters) := MultiByteToWideChar w hostname wide_length in
    if negb (written =? wide_length) then None else Some (characters ++ [0]).

(** From the chain on. *)
Definition build_chain (leaf store : Z) (wide : list Z) : state W Z :=
  let chain_flags := Z.lor CERT_CHAIN_CACHE_END_CERT CERT_CHAIN_CACHE_ONLY_URL_RETRIEVAL in
  built ← invoke (fun w => CertGetCertificateChain w leaf store chain_flags);
  match built with
  | None => reject
  | Some chain =>
    policy ← invoke (fun w => CertVerifyCertificateChainPolicy w chain wide);
    answer ← (if negb (policy : bool * Z).1 || negb (policy.2 =? 0) then reject
              else _ ← effect (fun w => X509_STORE_CTX_set_error w X509_V_OK); mret 1);
    _ ← destroy CertFreeCertificateChain (Some chain);
    mret answer
  end.

(** The intermediates that are not the certificate of the server, then the chain. *)
Definition evaluate_certificates (leaf : Z) (untrusted : list Z) (windows_leaf store : Z) (wide : list Z) : state W Z :=
  added ← all_in (fun certificate => if certificate =? leaf then mret true else add_certificate store certificate) untrusted;
  if negb added then reject else build_chain windows_leaf store wide.

Definition verify_with_windows_trust (context_is_null : bool) : state W Z :=
  if context_is_null then mret 0
  else
    name ← reading (fun w => hostname ← server_hostname w; wide_hostname w hostname);
    chain ← reading server_chain;
    match name, chain with
    | Some wide, Some (leaf, untrusted) =>
      windows_leaf ← convert_certificate leaf;
      intermediates ← invoke CertOpenStore;
      answer ← match windows_leaf, intermediates with
               | Some windows_leaf, Some store => evaluate_certificates leaf untrusted windows_leaf store wide
               | _, _ => reject
               end;
      _ ← destroy CertCloseStore intermediates;
      _ ← destroy CertFreeCertificateContext windows_leaf;
      mret answer
    | _, _ => reject
    end.
End code.

Section laws.
Context {W : Type} `{WindowsSystem W, TrustView W win_object}.
Implicit Types w : W.

(** Which texts are UTF-8, with their wide characters; which encodings are certificates; and
    which certificates the system trusts for a TLS server of a name, with the help of
    others, without fetching anything. *)
Context (wide : text -> option (list Z)) (windows_parses : text -> Prop) (windows_trusts : text -> list text -> list Z -> bool).

(** A call that gives an object back leaves the error of the context. *)
Definition destroys r w w' : Prop := releases r w w' /\ context_error w' = context_error w.

(** The documented behaviour of the calls; one that creates may fail. *)
Record windows_laws : Prop := {
  law_openssl : openssl_laws (W := W) (O := win_object);
  law_MultiByteToWideChar w t : t <> [] ->
    match wide t with
    | Some l => l <> [] /\ (MultiByteToWideChar w t 0).1 = Z.of_nat (length l) /\
                MultiByteToWideChar w t (Z.of_nat (length l)) = (Z.of_nat (length l), l)
    | None => (MultiByteToWideChar w t 0).1 = 0
    end;
  law_CertCreate w t w' r : CertCreateCertificateContext w t = (w', r) ->
    match r with
    | None => unchanged w w' /\ (windows_parses t -> failed w' = true)
    | Some _ => creates (win_certificate t) w w' r /\ windows_parses t
    end;
  law_CertOpenStore w w' r : CertOpenStore w = (w', r) -> creates (win_store []) w w' r;
  law_CertAdd w s c l t w' b : CertAddCertificateContextToStore w s c = (w', b) ->
    s ∈ owned w -> content w s = win_store l -> content w c = win_certificate t ->
    keeps_objects (owned w ∖ {[s]}) w w' /\ owned w' = owned w /\
    if b then content w' s = win_store (l ++ [t]) else failed w' = true;
  law_CertGetChain w c s t l flags w' r : CertGetCertificateChain w c s flags = (w', r) ->
    content w c = win_certificate t -> content w s = win_store l -> creates (win_chain t l flags) w w' r;
  law_CertVerify w r t l name w' ok e : CertVerifyCertificateChainPolicy w r name = (w', (ok, e)) ->
    content w r = win_chain t l 5 -> unchanged w w' /\
    if ok then e = 0 <-> windows_trusts t l name = true else failed w' = true;
  law_CertFreeContext w r : r ∈ owned w -> destroys r w (CertFreeCertificateContext w r);
  law_CertFreeChain w r : r ∈ owned w -> destroys r w (CertFreeCertificateChain w r);
  law_CertCloseStore w r : r ∈ owned w -> destroys r w (CertCloseStore w r);
}.

Definition readable w (c : Z) (t : text) : Prop := encodable w c t /\ windows_parses t.

(** What the callback is to accept: a server with a name of at most 253 bytes of UTF-8 whose
    certificate and at most 63 others can be read, which the system trusts for the name
    with the help of the others. *)
Definition acceptable w : Prop :=
  exists ssl hostname name leaf encoded others,
    SSL_of_context w = Some ssl /\ SSL_get_servername w ssl = Some hostname /\ (0 < length hostname <= 253)%nat /\
    wide hostname = Some name /\ X509_STORE_CTX_get0_cert w = Some leaf /\
    let untrusted := default [] (X509_STORE_CTX_get0_untrusted w) in
    (length untrusted < 64)%nat /\ readable w leaf encoded /\ Forall2 (readable w) (filter (.≠ leaf) untrusted) others /\
    windows_trusts encoded others (name ++ [0]) = true.

(** A certificate becomes an object, or it cannot be read or the system failed. *)
Lemma convert_spec (laws : windows_laws) w0 S w c : holding w0 S w ->
  ends (convert_certificate c) w (fun r w' =>
    (failed w = true -> failed w' = true) /\ (forall r', r' ∈ S -> content w' r' = content w r') /\
    match r with
    | Some r => holding w0 ({[r]} ∪ S) w' /\ (r ∉ S) /\ exists t, readable w0 c t /\ content w' r = win_certificate t
    | None => holding w0 S w' /\ ((exists t, readable w0 c t) -> failed w' = true)
    end).
Proof.
  intros Hh. unfold convert_certificate. apply ends_bind. eapply ends_conseq; [apply (encode_spec (law_openssl laws))|].
  intros r w1 [Hu Hr]. assert (Hder : forall t, encodable w c t <-> encodable w0 c t).
  { intros t. apply (encodable_stays (law_openssl laws)), Hh. }
  destruct (holding_unchanged _ _ _ _ Hh Hu) as (Hh1 & Hk1 & Hf1). destruct r as [t|].
  2: { apply ends_ret. split_and!; [done..|]. intros (t & Ht%Hder & _). by destruct (Hr t). }
  apply ends_invoke. intros w2 r E2. apply (law_CertCreate laws) in E2. destruct r as [r|]; destruct E2 as [E2 Hp].
  - destruct (holding_creates _ _ _ _ _ _ Hh1 E2) as (Hf2 & Hk2 & Hh2 & Hc2 & Hn2). split_and!; [tauto| |done..|].
    + intros r' Hr'. by rewrite Hk2, Hk1.
    + exists t. split; [split; [by apply Hder|done]|done].
  - destruct (holding_unchanged _ _ _ _ Hh1 E2) as (Hh2 & Hk2 & Hf2). split_and!; [tauto| |done|].
    + intros r' Hr'. by rewrite Hk2, Hk1.
    + intros (t' & [[Ht' _]%Hder Hp']). destruct Hr. simplify_eq. auto.
Qed.

Lemma add_spec (laws : windows_laws) w0 S w s l c : holding w0 S w -> s ∈ S -> content w s = win_store l ->
  ends (add_certificate s c) w (fun go w' =>
    holding w0 S w' /\ (failed w = true -> failed w' = true) /\ (forall r', r' ∈ S -> r' <> s -> content w' r' = content w r') /\
    if go then exists t, readable w0 c t /\ content w' s = win_store (l ++ [t])
    else (exists t, readable w0 c t) -> failed w' = true).
Proof.
  intros Hh Hs Hl. unfold add_certificate. apply ends_bind. eapply ends_conseq; [by apply (convert_spec laws)|].
  intros [r|] w1 (Hf1 & Hk1 & Hr1); [|destruct Hr1; apply ends_ret; split_and!; auto].
  destruct Hr1 as (Hh1 & Hn1 & t & Ht & Hc1). assert (Hrs : r <> s) by set_solver.
  assert (Hl1 : content w1 s = win_store l) by (by rewrite Hk1). assert (Hs1 : s ∈ owned w1) by (destruct Hh1 as (_ & -> & _); set_solver).
  apply ends_bind, ends_invoke. intros w2 b E2. apply (law_CertAdd laws) with (2 := Hs1) (3 := Hl1) (4 := Hc1) in E2 as (Hm2 & Ho2 & Hb2).
  destruct (holding_modified _ _ _ _ s Hh1 ltac:(set_solver) Hm2 Ho2) as (Hh2 & Hk2 & Hf2).
  apply ends_bind, (object_released_spec _ _ Hh2 (r := r) ltac:(set_solver) (fun Hr => proj1 (law_CertFreeContext laws w2 r Hr))). intros w3 Hh3 Hk3 Hf3.
  assert (({[r]} ∪ S) ∖ {[r]} = S) as Hset by set_solver. rewrite Hset in Hh3. unfold continues in *.
  apply ends_ret. split_and!; [done|tauto| |].
  - intros r' Hr' Hne. rewrite Hk3, Hk2, Hk1; [done|set_solver..].
  - destruct b; [exists t; split; [done|]; rewrite Hk3; [done|set_solver|done]|tauto].
Qed.

Lemma collect_spec (laws : windows_laws) w0 S w s leaf untrusted : holding w0 S w -> s ∈ S -> content w s = win_store [] ->
  ends (all_in (fun certificate => if certificate =? leaf then mret true else add_certificate s certificate) untrusted) w (fun go w' =>
    if go then exists ts, Forall2 (readable w0) (filter (.≠ leaf) untrusted) ts /\
                 holding w0 S w' /\ (forall r, r ∈ S -> r <> s -> content w' r = content w r) /\ content w' s = win_store ts
    else holding w0 S w' /\ ((exists ts, Forall2 (readable w0) (filter (.≠ leaf) untrusted) ts) -> failed w' = true)).
Proof.
  intros Hh Hs Hl.
  refine (others_spec _ (fun ts w' => holding w0 S w' /\ (forall r, r ∈ S -> r <> s -> content w' r = content w r) /\
    content w' s = win_store ts) _ _ _ _ _ _ _); [|done].
  intros c ts w1 _ (Hh1 & Hk1 & Hl1). eapply ends_conseq; [apply (add_spec laws _ _ _ _ _ c Hh1 Hs Hl1)|].
  intros [|] w2 (Hh2 & _ & Hk2 & Hr); [|done]. destruct Hr as (t & Ht & Hl2). exists t. split_and!; [done..| |done].
  intros r Hr Hne. by rewrite Hk2, Hk1.
Qed.

Lemma build_chain_spec (laws : windows_laws) w0 S w c s t l name : holding w0 S w -> c ∈ S -> s ∈ S ->
  content w c = win_certificate t -> content w s = win_store l ->
  (acceptable w0 <-> windows_trusts t l name = true) -> ends (build_chain c s name) w (answered acceptable w0 S).
Proof.
  intros Hh Hc Hs Hct Hl Hacc. unfold build_chain. set (flags := Z.lor _ _).
  apply ends_bind, (object_made_spec _ _ Hh (c := win_chain t l flags)).
  { intros w1 r E1. by apply (law_CertGetChain laws _ _ _ _ _ _ _ _ E1). }
  { intros w1 Hh1 Hf1 _. by apply (reject_answers (law_openssl laws)). }
  intros w1 r Hh1 Hr1 Hn _ _. cbn beta iota. apply ends_bind, ends_invoke. intros w2 [ok e] E2.
  apply (law_CertVerify laws) with (2 := Hr1) in E2 as [Hu2 Hv2]. destruct (holding_unchanged _ _ _ _ Hh1 Hu2) as (Hh2 & _ & _).
  cbn [fst snd]. apply ends_bind. eapply (ends_conseq _ _ (answered acceptable w0 ({[r]} ∪ S))).
  { destruct ok; cbn [negb orb]; [|by apply (reject_answers (law_openssl laws))].
    destruct (Z.eqb_spec e 0); cbn [negb]; [apply (accept_answers (law_openssl laws)); [done|]; tauto|].
    apply (reject_answers (law_openssl laws)); [done|]. tauto. }
  intros answer w3 H3. apply ends_bind, ends_effect, ends_ret. assert (({[r]} ∪ S) ∖ {[r]} = S) as Hset by set_solver.
  rewrite <-Hset.
  apply (destroy_spec _ _ _ r _ _ (fun w => CertFreeCertificateChain w r) H3); [set_solver|apply (law_CertFreeChain laws)].
Qed.

Lemma evaluate_certificates_spec (laws : windows_laws) w0 S w leaf untrusted c s t name : holding w0 S w -> c ∈ S -> s ∈ S -> c <> s ->
  content w c = win_certificate t -> content w s = win_store [] ->
  (acceptable w0 <-> exists l, Forall2 (readable w0) (filter (.≠ leaf) untrusted) l /\ windows_trusts t l name = true) ->
  ends (evaluate_certificates leaf untrusted c s name) w (answered acceptable w0 S).
Proof.
  intros Hh Hc Hs Hne Hct Hl Hacc. unfold evaluate_certificates. apply ends_bind.
  eapply ends_conseq; [by apply (collect_spec laws)|]. intros [|] w1 H1; cbn [negb].
  - destruct H1 as (l & Hall & Hh1 & Hk1 & Hl1). apply (build_chain_spec laws _ _ _ _ _ t l); [done..|by rewrite Hk1|done|].
    rewrite Hacc. split; [|by exists l]. intros (l' & Hall' & Ht). by rewrite (encodable_unique _ _ _ _ _ Hall Hall').
  - destruct H1 as [Hh1 Hf1]. apply (reject_answers (law_openssl laws)); [done|]. intros (l & Hall & _)%Hacc. eauto.
Qed.

(** The name of the server is the one that is presented, in wide characters. *)
Lemma wide_hostname_spec (laws : windows_laws) w hostname name : hostname <> [] ->
  wide_hostname w hostname = Some name <-> exists l, wide hostname = Some l /\ name = l ++ [0].
Proof.
  intros Hne. unfold wide_hostname. pose proof (law_MultiByteToWideChar laws w hostname Hne) as Hw. destruct (wide hostname) as [l|].
  - destruct Hw as (Hl & -> & Hm). destruct (Z.leb_spec (Z.of_nat (length l)) 0) as [Hz|_]; [destruct l; simpl in Hz; [done|lia]|].
    rewrite Hm, Z.eqb_refl. cbn [negb]. naive_solver.
  - rewrite Hw. cbn. naive_solver.
Qed.

Lemma presented_spec (laws : windows_laws) w name :
  (hostname ← server_hostname w; wide_hostname w hostname) = Some name <->
  exists ssl hostname l, SSL_of_context w = Some ssl /\ SSL_get_servername w ssl = Some hostname /\ (0 < length hostname <= 253)%nat /\
    wide hostname = Some l /\ name = l ++ [0].
Proof.
  rewrite bind_Some. split.
  - intros (hostname & (ssl & Hs & Hn & Hl)%server_hostname_spec & Hw). apply (wide_hostname_spec laws) in Hw as (l & Hw & ->).
    + by exists ssl, hostname, l.
    + intros ->. simpl in Hl. lia.
  - intros (ssl & hostname & l & Hs & Hn & Hl & Hw & ->). exists hostname. rewrite server_hostname_spec.
    split; [by exists ssl|]. apply (wide_hostname_spec laws); [|by exists l]. intros ->. simpl in Hl. lia.
Qed.

Lemma win_acceptable_iff (laws : windows_laws) w name leaf untrusted :
  (hostname ← server_hostname w; wide_hostname w hostname) = Some name -> server_chain w = Some (leaf, untrusted) ->
  acceptable w <-> exists t l, readable w leaf t /\ Forall2 (readable w) (filter (.≠ leaf) untrusted) l /\ windows_trusts t l name = true.
Proof.
  intros (ssl & hostname & l & Hs & Hn & Hl & Hw & ->)%(presented_spec laws) (Hc & -> & Hu)%server_chain_spec. unfold acceptable. split.
  - intros (ssl' & hostname' & l' & leaf' & t & others & ?). naive_solver.
  - intros (t & others & ? & ? & ?). by exists ssl, hostname, l, leaf, t, others.
Qed.

Lemma win_acceptable_presented (laws : windows_laws) w : acceptable w ->
  is_Some (hostname ← server_hostname w; wide_hostname w hostname) /\ is_Some (server_chain w).
Proof.
  intros (ssl & hostname & l & leaf & t & others & Hs & Hn & Hl & Hw & Hc & Hu & _). split.
  - exists (l ++ [0]). apply (presented_spec laws). by exists ssl, hostname, l.
  - eexists (leaf, _). by apply server_chain_spec.
Qed.

(** The object of a [unique_ptr]. *)
Definition held (p : option Z) : gset Z := match p with Some p => {[p]} | None => ∅ end.

Lemma destroy_held w0 S p answer w deleter : (forall w r, r ∈ owned w -> destroys r w (deleter w r)) ->
  answered acceptable w0 S answer w -> held p ⊆ S ->
  ends (destroy deleter p) w (fun _ => answered acceptable w0 (S ∖ held p) answer).
Proof.
  intros Hlaw Ha Hp. destruct p as [p|]; cbn [destroy held].
  - apply ends_effect. apply (destroy_spec _ _ _ p _ _ (fun w => deleter w p) Ha); [set_solver|apply Hlaw].
  - apply ends_ret. assert (S ∖ ∅ = S) as Hset by set_solver. by rewrite Hset.
Qed.

(** The end of the function: the destructors of the store and of the certificate. *)
Lemma finish_spec (laws : windows_laws) w0 c s answer w : held s ## held c ->
  answered acceptable w0 (held s ∪ held c) answer w ->
  ends (_ ← destroy CertCloseStore s; _ ← destroy CertFreeCertificateContext c; mret answer) w (verified acceptable w0).
Proof.
  intros Hd Ha. apply ends_bind. eapply ends_conseq; [apply (destroy_held _ _ s _ _ _ (law_CertCloseStore laws) Ha); set_solver|].
  intros [] w1 H1. apply ends_bind. eapply ends_conseq; [apply (destroy_held _ _ c _ _ _ (law_CertFreeContext laws) H1); set_solver|].
  intros [] w2 H2. apply ends_ret, answered_verified.
  assert ((held s ∪ held c) ∖ held s ∖ held c = ∅) as Hset by set_solver. by rewrite Hset in H2.
Qed.

(** C24. The callback for the trust store of Windows accepts a server exactly when it has a name
    of at most 253 bytes of UTF-8, its certificate and at most 63 others can be encoded and
    read, and the system trusts the certificate for the name with the help of the others;
    it refuses such a server only when the system failed.  It tells the answer to OpenSSL,
    gives back every object it made and releases nothing else. *)
Theorem verify_with_windows_trust_correct (laws : windows_laws) w w' (answer : Z) :
  verify_with_windows_trust false w = (w', answer) ->
  owned w' = owned w /\ (forall r, r ∈ owned w -> content w' r = content w r) /\
  ((answer = 1 /\ context_error w' = X509_V_OK /\ acceptable w) \/
   (answer = 0 /\ context_error w' = X509_V_ERR_CERT_REJECTED /\ (acceptable w -> failed w' = true))).
Proof.
  apply (ends_result _ _ (verified acceptable w)). unfold verify_with_windows_trust. cbn beta iota.
  pose proof (holding_start w) as Hh. do 2 apply ends_bind, ends_reading. set (presented := (_ : option (list Z))).
  destruct presented as [name|] eqn:En; [destruct (server_chain w) as [[leaf untrusted]|] eqn:Ec|].
  2,3: apply (reject_spec (law_openssl laws)); [done|]; intros [[? ?] [? ?]]%(win_acceptable_presented laws); unfold presented in *; congruence.
  pose proof (win_acceptable_iff laws _ _ _ _ En Ec) as Hacc.
  apply ends_bind. eapply ends_conseq; [by apply (convert_spec laws)|]. intros c w1 (_ & _ & Hr1).
  assert (Hh1 : holding w (held c) w1).
  { destruct c as [c|]; destruct Hr1 as [Hr1 _]; [|done]. by rewrite (right_id_L ∅ (∪)) in Hr1. }
  assert (Hrefuse : forall s w2, holding w (held s ∪ held c) w2 -> held s ## held c -> (acceptable w -> failed w2 = true) ->
    ends (answer ← reject; _ ← destroy CertCloseStore s; _ ← destroy CertFreeCertificateContext c; mret answer) w2 (verified acceptable w)).
  { intros s w2 Hh2 Hd Hf. apply ends_bind. eapply ends_conseq; [by apply (reject_answers (law_openssl laws))|].
    intros r w3. by apply (finish_spec laws). }
  apply ends_bind, (object_made_spec _ _ Hh1 (law_CertOpenStore laws w1)).
  - intros w2 Hh2 Hf2 _. destruct c; apply (Hrefuse None); cbn [held]; rewrite ?(left_id_L ∅ (∪)); try done; clear; set_solver.
  - intros w2 s Hh2 Hl2 Hn2 Hk2 Hf2. unfold continues in *. destruct c as [c|].
    2: { apply (Hrefuse (Some s)); [done|clear; set_solver|]. intros (t & l & Ht & _)%Hacc. apply Hf2, Hr1. eauto. }
    destruct Hr1 as (_ & _ & t & Ht & Hc1). apply ends_bind. cbn [held] in *.
    assert (Hc2 : content w2 c = win_certificate t) by (rewrite Hk2; [done|clear; set_solver]).
    assert (c ∈ ({[s]} ∪ {[c]} : gset Z) /\ s ∈ ({[s]} ∪ {[c]} : gset Z) /\ c <> s) as (Hcin & Hsin & Hcs) by (clear -Hn2; set_solver).
    eapply ends_conseq; [apply (evaluate_certificates_spec laws w _ w2 leaf untrusted c s t name Hh2 Hcin Hsin Hcs Hc2 Hl2)|].
    + rewrite Hacc. split; [intros (t' & l & [[Ht' _] _] & Hl & Htr)|by intros (l & ? & ?); exists t, l].
      destruct Ht as [[Ht _] _]. simplify_eq. by exists l.
    + intros r w3. apply (finish_spec laws w (Some c) (Some s)). clear -Hn2. set_solver.
Qed.
End laws.
End Windows.

Module WindowsMachine.
Import Machine Windows.

(** The wide characters of ASCII; the certificate "leaf" is trusted for example.org with the
    help of one other. *)
Definition ascii_code (c : ascii) : Z := Z.of_N (N_of_ascii c).
Definition widen (t : text) : option (list Z) :=
  if forallb (fun c => ascii_code c <? 128) t then Some (ascii_code <$> t) else None.
Definition trusts (leaf : text) (others : list text) (name : list Z) : bool :=
  text_eqb leaf (str "leaf") && (length others =? 1)%nat && bool_decide (Some name = (fun l => l ++ [0]) <$> widen (str "example.org")).

Abbreviation world := (machine win_object).

Definition to_wide (t : text) (room : Z) : Z * list Z :=
  match widen t with
  | Some l => (Z.of_nat (length l), if room =? 0 then [] else take (Z.to_nat room) l)
  | None => (0, [])
  end.

Definition add_to_store (w : world) (s c : Z) : world * bool :=
  match look_up win_nothing w s, look_up win_nothing w c with
  | win_store l, win_certificate t => (rewrite_object s (win_store (l ++ [t])) w, true)
  | _, _ => (fail w, false)
  end.

Definition get_chain (w : world) (c s flags : Z) : world * option Z :=
  match look_up win_nothing w c, look_up win_nothing w s with
  | win_certificate t, win_store l => make (win_chain t l flags) w
  | _, _ => (fail w, None)
  end.

(** The status of a chain that is not trusted is CERT_E_UNTRUSTEDROOT. *)
Definition verify_policy (w : world) (r : Z) (name : list Z) : world * (bool * Z) :=
  match look_up win_nothing w r with
  | win_chain t l _ => (w, (true, if trusts t l name then 0 else 2148204809))
  | _ => (fail w, (false, 0))
  end.

#[global] Instance windows_machine : WindowsSystem world := {|
  windows_openssl := machine_openssl;
  MultiByteToWideChar w := to_wide;
  CertCreateCertificateContext w t := make (win_certificate t) w;
  CertOpenStore := make (win_store []);
  CertAddCertificateContextToStore := add_to_store;
  CertGetCertificateChain := get_chain;
  CertVerifyCertificateChainPolicy := verify_policy;
  CertFreeCertificateContext w r := give_back r w;
  CertFreeCertificateChain w r := give_back r w;
  CertCloseStore w r := give_back r w;
|}.

#[global] Instance windows_view : TrustView world win_object := machine_view win_nothing.

Lemma windows_machine_laws : windows_laws (W := world) widen (fun _ => True) trusts.
Proof.
  split; cbn [windows_machine windows_openssl MultiByteToWideChar CertCreateCertificateContext CertOpenStore CertAddCertificateContextToStore
    CertGetCertificateChain CertVerifyCertificateChainPolicy CertFreeCertificateContext CertFreeCertificateChain CertCloseStore].
  - apply machine_openssl_laws.
  - intros _ t Hne. unfold to_wide. destruct (widen t) as [l|] eqn:E; [|done].
    assert (l <> []) as Hl by (unfold widen in E; destruct (forallb _ _); [|done]; destruct t; by simplify_eq).
    split_and!; [done..|]. destruct (Z.eqb_spec (Z.of_nat (length l)) 0); [destruct l; simpl in *; [done|lia]|].
    by rewrite Nat2Z.id, firstn_all.
  - intros w t w' [r|] E; [|by unfold make in E]. split; [|done]. by apply (make_creates win_nothing).
  - intros w w' r E. by apply (make_creates win_nothing).
  - intros w s c l t w' b E Hs Hl Hc. revert E. unfold add_to_store. rewrite (Hl : look_up win_nothing w s = _), (Hc : look_up win_nothing w c = _).
    intros [= <- <-]. by apply rewrite_keeps.
  - intros w c s t l flags w' r E Hc Hl. revert E. unfold get_chain. rewrite (Hl : look_up win_nothing w s = _), (Hc : look_up win_nothing w c = _).
    apply (make_creates win_nothing).
  - intros w r t l name w' ok e E Hr. revert E. unfold verify_policy. rewrite (Hr : look_up win_nothing w r = _).
    intros [= <- <- <-]. split; [apply unchanged_refl|]. by destruct (trusts t l name).
  - intros w r _. split; [apply give_back_releases|done].
  - intros w r _. split; [apply give_back_releases|done].
  - intros w r _. split; [apply give_back_releases|done].
Qed.

(** A server that sends its certificate twice and one more. *)
Definition server : world := MkMachine (Some (str "example.org")) (Some 7) [7; 8] (list_to_map [(7, str "leaf"); (8, str "root")]) 0 ∅ false.
Definition stranger : world := MkMachine (Some (str "example.com")) (Some 7) [7; 8] (list_to_map [(7, str "leaf"); (8, str "root")]) 0 ∅ false.

Example windows_accepts :
  let '(w, answer) := verify_with_windows_trust false server in
  bool_decide (answer = 1 /\ m_error w = X509_V_OK /\ base.size (m_objects w) = 0%nat) = true.
Proof. vm_compute. reflexivity. Qed.

Example windows_rejects :
  let '(w, answer) := verify_with_windows_trust false stranger in
  bool_decide (answer = 0 /\ m_error w = X509_V_ERR_CERT_REJECTED /\ base.size (m_objects w) = 0%nat) = true.
Proof. vm_compute. reflexivity. Qed.

Lemma verify_with_windows_trust_correct_witness :
  let '(w', answer) := verify_with_windows_trust false server in
  owned w' = owned server /\ (forall r, r ∈ owned server -> content w' r = content server r) /\
  ((answer = 1 /\ context_error w' = X509_V_OK /\ acceptable widen (fun _ => True) trusts server) \/
   (answer = 0 /\ context_error w' = X509_V_ERR_CERT_REJECTED /\ (acceptable widen (fun _ => True) trusts server -> failed w' = true))).
Proof.
  destruct (verify_with_windows_trust false server) as [w' answer] eqn:E.
  exact (verify_with_windows_trust_correct _ _ _ windows_machine_laws server w' answer E).
Defined.
End WindowsMachine.
