(* ===== verification/BridgeState.v ===== *)
(** The data of the stream bridge: src/torrent/libtorrent_stream_bridge.cpp, the types
    nested in [LibtorrentStreamBridge::Impl] with its members, the helper functions at the
    top of the file, and libtorrent as the class of calls [Torrents].  Objects behind a
    [shared_ptr] live in stores of the state, a pointer is an index. *)
From stdpp Require Import prelude strings list gmap.
From Stdlib Require Import ZArith Lia Ascii.
From S2P Require Import Prelude Text OrderedMap ByteRange PieceScheduler DemandPlan PieceCache EngineTypes.

(** ** Constants and helpers *)

Definition maximum_http_commands : Z := 4096.
Definition stream_worker_count : Z := 8.
(** Times and durations are in nanoseconds. *)
Definition milliseconds (n : Z) : Z := n * 1000000.
Definition seconds (n : Z) : Z := milliseconds (n * 1000).
Definition piece_wait_timeout : Z := seconds 60.
Definition critical_window_bytes : Z := 8 * 1024 * 1024.
Definition critical_piece_limit : Z := 16.
Definition playback_window_bytes : Z := 32 * 1024 * 1024.
Definition minimum_readahead_bytes : Z := 64 * 1024 * 1024.
Definition maximum_readahead_bytes : Z := 256 * 1024 * 1024.
Definition metadata_tail_window_bytes : Z := 2 * 1024 * 1024.
Definition block_bytes : Z := 16 * 1024.

(** [std::clamp]. *)
Definition clamp (v lo hi : Z) : Z := if v <? lo then lo else if hi <? v then hi else v.

Definition readahead_for_disk_budget (disk_capacity_bytes : Z) : Z :=
  clamp (disk_capacity_bytes / 4) minimum_readahead_bytes maximum_readahead_bytes.

Definition content_type_for_path (path : text) : text :=
  let normalized := tolower <$> path in
  let ends s := ends_with (str s) normalized in
  if ends ".mp4"%string || ends ".m4v"%string then str "video/mp4"
  else if ends ".mkv"%string then str "video/x-matroska"
  else if ends ".webm"%string then str "video/webm"
  else if ends ".avi"%string then str "video/x-msvideo"
  else if ends ".ts"%string || ends ".mpeg"%string || ends ".mpg"%string then str "video/mp2t"
  else if ends ".mov"%string then str "video/quicktime"
  else if ends ".mp3"%string then str "audio/mpeg"
  else if ends ".flac"%string then str "audio/flac"
  else str "application/octet-stream".

(** [lt::download_priority_t]: the named constants and [download_priority_t{6}]. *)
Inductive download_priority_t := dont_download | low_priority | default_priority | priority_6 | top_priority.

#[global] Instance download_priority_eq_dec : EqDecision download_priority_t.
Proof. solve_decision. Defined.

Definition download_priority_for (priority : PriorityClass) (cold : bool) : download_priority_t :=
  match priority with
  | blocking => top_priority
  | critical => top_priority
  | playback => default_priority
  | metadata_tail => if cold then priority_6 else top_priority
  | readahead => low_priority
  end.

(** [ordinal * 100] in a [size_t]. *)
Definition deadline_for (ordinal : nat) : Z := Z.min (wrap64 (Z.of_nat ordinal * 100)) 2000.

(** ** libtorrent *)

(** What the code reads of [lt::torrent_info]. *)
Record torrent_info := MkInfo {
  info_piece_length : Z;
  info_num_pieces : Z;
  info_piece_size : Z -> Z;
  info_file_path : Z -> text -> text;   (* files().file_path(index, save_path) *)
  info_files : list TorrentFileInfo;    (* files(): path, offset and size by index *)
}.

(** [lt::block_info::state] and [lt::partial_piece_info]. *)
Inductive block_state := block_none | block_requested | block_writing | block_finished.
#[global] Instance block_state_eq_dec : EqDecision block_state.
Proof. solve_decision. Defined.
Record partial_piece_info := MkPartial { pp_piece_index : Z; pp_blocks_in_piece : Z; pp_blocks : list block_state }.

(** [status(query_pieces)]: [is_seeding] and the bit field. *)
Record piece_status := MkStatus { is_seeding : bool; status_pieces : list bool }.

(** The calls on a handle [H] in a world [W]; a call may throw. *)
Class Torrents (H W : Type) := {
  lt_v1_hex : H -> option text;          (* to_hex(info_hashes().v1) when has_v1() *)
  lt_v2_hex : H -> option text;
  lt_is_valid : W -> H -> bool;
  lt_in_session : W -> H -> bool;
  lt_torrent_file : W -> H -> outcome (option torrent_info);
  lt_save_path : W -> H -> outcome text;
  lt_query_pieces : W -> H -> outcome piece_status;
  lt_have_piece : W -> H -> Z -> outcome bool;
  lt_get_download_queue : W -> H -> outcome (list partial_piece_info);
  lt_read_piece : W -> H -> Z -> W * outcome unit;
  lt_prioritize_pieces : W -> H -> list download_priority_t -> W * outcome unit;
  lt_prioritize_updates : W -> H -> list (Z * download_priority_t) -> W * outcome unit;
  lt_set_piece_deadline : W -> H -> Z -> Z -> bool -> W * outcome unit;
  lt_reset_piece_deadline : W -> H -> Z -> W * outcome unit;
  lt_set_piece_first_block : W -> H -> Z -> Z -> W * outcome unit;
  lt_clear_piece_deadlines : W -> H -> W * outcome unit;
  lt_now : W -> W * Z;                   (* std::chrono::steady_clock::now() *)
}.

Definition torrent_id {H W} `{Torrents H W} (handle : H) : text :=
  match lt_v1_hex handle with
  | Some v1 => v1
  | None => match lt_v2_hex handle with Some v2 => v2 | None => [] end
  end.

(** The alerts the bridge handles.  [alert.error], when set, has a message; [alert.buffer] has
    [alert.size] bytes. *)
Record read_piece_alert (H : Type) := MkReadAlert { rp_handle : H; rp_piece : Z; rp_error : option text; rp_buffer : option text }.
Record block_finished_alert (H : Type) := MkBlockAlert { bf_handle : H; bf_piece_index : Z; bf_block_index : Z }.
Record hash_failed_alert (H : Type) := MkHashAlert { hf_handle : H; hf_piece_index : Z }.
Arguments MkReadAlert {H}. Arguments rp_handle {H}. Arguments rp_piece {H}. Arguments rp_error {H}. Arguments rp_buffer {H}.
Arguments MkBlockAlert {H}. Arguments bf_handle {H}. Arguments bf_piece_index {H}. Arguments bf_block_index {H}.
Arguments MkHashAlert {H}. Arguments hf_handle {H}. Arguments hf_piece_index {H}.

(** ** The nested types *)

Record StreamActivity := MkActivity { active_http_requests : Z; last_activity : Z }.

Definition acquire_http_request (a : StreamActivity) : StreamActivity :=
  MkActivity (wrap32 (active_http_requests a + 1)) (last_activity a).

(** [now] is read when the last request is released. *)
Definition release_http_request (a : StreamActivity) (now : Z) : StreamActivity :=
  if active_http_requests a =? 0 then a
  else
    let n := active_http_requests a - 1 in
    MkActivity n (if n =? 0 then now else last_activity a).

Definition is_inactive (a : StreamActivity) (now timeout : Z) : bool :=
  (active_http_requests a =? 0) && (timeout <=? now - last_activity a).

(** The loop of compare-and-exchange that adds to [delivered_bytes]. *)
Definition add_delivered_bytes (counters : list Z) (p : nat) (bytes : Z) : list Z :=
  alter (fun current => saturating_add current bytes) p counters.

Record StreamRoute (H : Type) := MkRoute {
  route_handle : H;
  route_torrent_id : text;
  route_stream_id : text;
  route_target : text;
  route_content_type : text;
  route_file_index : Z;
  route_piece_size : Z;
  route_file_offset : Z;
  route_file_size : Z;
  route_payload_path : text;
  route_activity : nat;   (* a StreamActivity *)
  route_counters : nat;   (* the StreamCounters *)
}.
Arguments MkRoute {H}.
Arguments route_handle {H}. Arguments route_torrent_id {H}. Arguments route_stream_id {H}.
Arguments route_target {H}. Arguments route_content_type {H}. Arguments route_file_index {H}.
Arguments route_piece_size {H}. Arguments route_file_offset {H}. Arguments route_file_size {H}.
Arguments route_payload_path {H}. Arguments route_activity {H}. Arguments route_counters {H}.

Record PieceWaiter := MkWaiter {
  waiter_data : option piece_data;
  waiter_error : text;
  waiter_done : bool;
  waiter_cancelled : bool;
  waiter_demand_id : Z;
  waiter_finished_blocks : list bool;
}.

(** A waiter as [serve_piece] makes it. *)
Definition new_waiter (demand_id : Z) : PieceWaiter := MkWaiter None [] false false demand_id [].

(** The commands of the HTTP threads, each with the members that its construction sets.
    [state] points to a [DemandState], which is its flag [cancelled]. *)
Inductive HttpCommand (H : Type) :=
| begin_demand (demand_id : Z) (route : StreamRoute H) (range : ByteRange) (state : nat)
| end_demand (demand_id : Z)
| read_piece (demand_id : Z) (route : StreamRoute H) (range : ByteRange) (piece : Z) (waiter state : nat).
Arguments begin_demand {H}. Arguments end_demand {H}. Arguments read_piece {H}.

Record ActiveDemand (H : Type) := MkActive {
  ad_id : Z; ad_route : StreamRoute H; ad_range : ByteRange; ad_state : nat; ad_needs_data : bool;
}.
Arguments MkActive {H}. Arguments ad_id {H}. Arguments ad_route {H}. Arguments ad_range {H}.
Arguments ad_state {H}. Arguments ad_needs_data {H}.

Record StreamAnchor (H : Type) := MkAnchor { an_route : StreamRoute H; an_range : ByteRange; an_prefetch : bool }.
Arguments MkAnchor {H}. Arguments an_route {H}. Arguments an_range {H}. Arguments an_prefetch {H}.

Record CurrentSchedule (H : Type) := MkSchedule {
  cs_handle : H;
  cs_priorities : list (Z * PriorityClass);
  cs_deadline_order : list Z;
  cs_focused_demand_id : Z;
  cs_revision : Z;
  cs_cold : bool;
  cs_first_blocks : gmap Z Z;
}.
Arguments MkSchedule {H}. Arguments cs_handle {H}. Arguments cs_priorities {H}. Arguments cs_deadline_order {H}.
Arguments cs_focused_demand_id {H}. Arguments cs_revision {H}. Arguments cs_cold {H}. Arguments cs_first_blocks {H}.

Record StoppedStream := MkStopped { st_torrent_id : text; st_stream_id : text }.

(** ** The members *)

(** The readers that wait for pieces: the waiters with the three tables on pieces. *)
Record Reads := MkReads {
  waiters : list PieceWaiter;
  piece_waiters : gmap PieceCacheKey (list nat);
  requested_reads : gmap PieceCacheKey Z;
  partial_blocks : gmap PieceCacheKey (list bool);
}.

Record Impl (H : Type) := MkImpl {
  window : StreamWindow;
  inactivity_timeout : Z;
  routes : gmap text (StreamRoute H);
  stream_progress_cache : list BackendStream;
  next_progress_sample : Z;
  commands : list (HttpCommand H);
  next_demand_id : Z;
  active_demands : gmap Z (ActiveDemand H);
  anchors : gmap text (StreamAnchor H);
  current_schedules : gmap text (CurrentSchedule H);
  last_ready_pieces : gmap text Z;
  reads : Reads;
  next_read_watchdog : Z;
  revoked_torrents : gset text;
  expired_streams : list StoppedStream;
  next_inactivity_check : Z;
  piece_cache : PieceCache;
  shutting_down : bool;
  demand_states : list bool;            (* DemandState objects: cancelled *)
  activities : list StreamActivity;
  delivered : list Z;                   (* StreamCounters objects *)
}.
Arguments MkImpl {H}. Arguments window {H}. Arguments inactivity_timeout {H}. Arguments routes {H}.
Arguments stream_progress_cache {H}. Arguments next_progress_sample {H}. Arguments commands {H}.
Arguments next_demand_id {H}. Arguments active_demands {H}. Arguments anchors {H}.
Arguments current_schedules {H}. Arguments last_ready_pieces {H}. Arguments reads {H}.
Arguments next_read_watchdog {H}. Arguments revoked_torrents {H}. Arguments expired_streams {H}.
Arguments next_inactivity_check {H}. Arguments piece_cache {H}. Arguments shutting_down {H}.
Arguments demand_states {H}. Arguments activities {H}. Arguments delivered {H}.

(** [object.member = value]: the constructor applied to the members, with one replaced. *)
Ltac assign eta member value :=
  match eval pattern member in eta with ?g _ => let r := eval cbv beta in (g (fun _ => value)) in exact r end.

Definition with_waiters (v : list PieceWaiter) (r : Reads) : Reads :=
  MkReads v (piece_waiters r) (requested_reads r) (partial_blocks r).
Definition with_piece_waiters (v : gmap PieceCacheKey (list nat)) (r : Reads) : Reads :=
  MkReads (waiters r) v (requested_reads r) (partial_blocks r).
Definition with_requested_reads (v : gmap PieceCacheKey Z) (r : Reads) : Reads :=
  MkReads (waiters r) (piece_waiters r) v (partial_blocks r).
Definition with_partial_blocks (v : gmap PieceCacheKey (list bool)) (r : Reads) : Reads :=
  MkReads (waiters r) (piece_waiters r) (requested_reads r) v.

Section members.
Context {H : Type}.
Implicit Types s : Impl H.

Abbreviation members s :=
  (MkImpl (window s) (inactivity_timeout s) (routes s) (stream_progress_cache s) (next_progress_sample s)
     (commands s) (next_demand_id s) (active_demands s) (anchors s) (current_schedules s)
     (last_ready_pieces s) (reads s) (next_read_watchdog s) (revoked_torrents s) (expired_streams s)
     (next_inactivity_check s) (piece_cache s) (shutting_down s) (demand_states s) (activities s) (delivered s)).

Definition with_routes (v : gmap text (StreamRoute H)) s : Impl H := ltac:(assign (members s) (@routes H) v).
Definition with_stream_progress_cache (v : list BackendStream) s : Impl H := ltac:(assign (members s) (@stream_progress_cache H) v).
Definition with_next_progress_sample (v : Z) s : Impl H := ltac:(assign (members s) (@next_progress_sample H) v).
Definition with_commands (v : list (HttpCommand H)) s : Impl H := ltac:(assign (members s) (@commands H) v).
Definition with_next_demand_id (v : Z) s : Impl H := ltac:(assign (members s) (@next_demand_id H) v).
Definition with_active_demands (v : gmap Z (ActiveDemand H)) s : Impl H := ltac:(assign (members s) (@active_demands H) v).
Definition with_anchors (v : gmap text (StreamAnchor H)) s : Impl H := ltac:(assign (members s) (@anchors H) v).
Definition with_current_schedules (v : gmap text (CurrentSchedule H)) s : Impl H := ltac:(assign (members s) (@current_schedules H) v).
Definition with_last_ready_pieces (v : gmap text Z) s : Impl H := ltac:(assign (members s) (@last_ready_pieces H) v).
Definition with_reads (v : Reads) s : Impl H := ltac:(assign (members s) (@reads H) v).
Definition with_next_read_watchdog (v : Z) s : Impl H := ltac:(assign (members s) (@next_read_watchdog H) v).
Definition with_revoked_torrents (v : gset text) s : Impl H := ltac:(assign (members s) (@revoked_torrents H) v).
Definition with_expired_streams (v : list StoppedStream) s : Impl H := ltac:(assign (members s) (@expired_streams H) v).
Definition with_next_inactivity_check (v : Z) s : Impl H := ltac:(assign (members s) (@next_inactivity_check H) v).
Definition with_piece_cache (v : PieceCache) s : Impl H := ltac:(assign (members s) (@piece_cache H) v).
Definition with_shutting_down (v : bool) s : Impl H := ltac:(assign (members s) (@shutting_down H) v).
Definition with_demand_states (v : list bool) s : Impl H := ltac:(assign (members s) (@demand_states H) v).
Definition with_activities (v : list StreamActivity) s : Impl H := ltac:(assign (members s) (@activities H) v).
Definition with_delivered (v : list Z) s : Impl H := ltac:(assign (members s) (@delivered H) v).

(** [LibtorrentStreamBridge::Impl(...)]. *)
Definition new_impl (memory_capacity_bytes disk_capacity_bytes inactivity : Z) : Impl H :=
  MkImpl
    (MkWindow critical_window_bytes critical_piece_limit playback_window_bytes
       (wrap64 (readahead_for_disk_budget disk_capacity_bytes - playback_window_bytes)) metadata_tail_window_bytes)
    (milliseconds inactivity) ∅ [] 0 [] 1 ∅ ∅ ∅ ∅ (MkReads [] ∅ ∅ ∅) 0 ∅ [] 0 (new_cache memory_capacity_bytes) false [] [] [].
End members.

(** ** The readers that wait *)

Section reads.
Implicit Types r : Reads.

(** [complete_waiter]: a waiter that is done or cancelled stays as it is. *)
Definition settle_waiter (data : option piece_data) (error : text) (w : PieceWaiter) : PieceWaiter :=
  if waiter_cancelled w || waiter_done w then w
  else MkWaiter data error true false (waiter_demand_id w) (waiter_finished_blocks w).

Definition complete_waiter (p : nat) (data : option piece_data) (error : text) r : Reads :=
  with_waiters (alter (settle_waiter data error) p (waiters r)) r.

Definition complete_waiters (l : list nat) (data : option piece_data) (error : text) r : Reads :=
  fold_left (fun r p => complete_waiter p data error r) l r.

Definition demand_of r (p : nat) : option Z := waiter_demand_id <$> waiters r !! p.
Definition is_cancelled r (p : nat) : bool := default false (waiter_cancelled <$> waiters r !! p).

(** [publish_blocks]. *)
Definition publish_blocks (p : nat) (blocks : list bool) r : Reads :=
  with_waiters
    (alter (fun w => if waiter_done w || waiter_cancelled w then w
                     else MkWaiter (waiter_data w) (waiter_error w) false false (waiter_demand_id w) blocks) p (waiters r)) r.

Definition publish_partial (key : PieceCacheKey) r : Reads :=
  match partial_blocks r !! key, piece_waiters r !! key with
  | Some blocks, Some l => fold_left (fun r p => publish_blocks p blocks r) l r
  | _, _ => r
  end.

Definition fail_piece (key : PieceCacheKey) (error : text) r : Reads :=
  let r := with_partial_blocks (delete key (partial_blocks r)) r in
  match piece_waiters r !! key with
  | None => r
  | Some l =>
    let r := complete_waiters l None error r in
    with_piece_waiters (delete key (piece_waiters r)) r
  end.

(** The end of a turn of the loops that erase waiters: the entry keeps the rest, or goes. *)
Definition keep_waiters (key : PieceCacheKey) (rest : list nat) r : Reads :=
  match rest with
  | [] => with_piece_waiters (delete key (piece_waiters r)) (with_partial_blocks (delete key (partial_blocks r)) r)
  | _ => with_piece_waiters (<[key := rest]> (piece_waiters r)) r
  end.

Definition cancel_demand_waiters (demand_id : Z) (error : text) r : Reads :=
  fold_left
    (fun r (entry : PieceCacheKey * list nat) =>
       let mine := filter (fun p => demand_of r p = Some demand_id) entry.2 in
       keep_waiters entry.1 (filter (fun p => demand_of r p <> Some demand_id) entry.2) (complete_waiters mine None error r))
    (map_to_list (piece_waiters r)) r.

Definition prune_cancelled_waiters r : Reads :=
  fold_left
    (fun r (entry : PieceCacheKey * list nat) => keep_waiters entry.1 (filter (fun p => is_cancelled r p = false) entry.2) r)
    (map_to_list (piece_waiters r)) r.

(** The last loop of [remove_torrent] and the first of [shutdown]. *)
Definition drop_entry (error : text) r (entry : PieceCacheKey * list nat) : Reads :=
  let r := complete_waiters entry.2 None error r in
  with_piece_waiters (delete entry.1 (piece_waiters r)) r.

Definition remove_waiters (id : text) r : Reads :=
  fold_left (fun r entry => if decide (key_torrent_id entry.1 = id) then drop_entry (str "torrent was removed") r entry else r)
    (map_to_list (piece_waiters r)) r.

Definition end_waiters (error : text) r : Reads :=
  with_piece_waiters ∅
    (fold_left (fun r (entry : PieceCacheKey * list nat) => complete_waiters entry.2 None error r) (map_to_list (piece_waiters r)) r).
End reads.
