(* ===== verification/BridgeReads.v ===== *)
(** The readers of the stream bridge that wait for pieces: what the operations on [Reads]
    do, and the invariant that no reader is lost and every answer is right. *)
From stdpp Require Import prelude strings list gmap.
From Stdlib Require Import ZArith Lia Ascii.
From S2P Require Import Prelude Text PieceCache BridgeState.

(** ** What the operations do *)

Section operations.
Implicit Types r : Reads.

Lemma settle_idemp d e v : settle_waiter d e (settle_waiter d e v) = settle_waiter d e v.
Proof. unfold settle_waiter. destruct v as [? ? [] []]; done. Qed.

Lemma settle_demand d e v : waiter_demand_id (settle_waiter d e v) = waiter_demand_id v.
Proof. unfold settle_waiter. by destruct (_ || _). Qed.

Lemma settle_cancelled d e v : waiter_cancelled (settle_waiter d e v) = waiter_cancelled v.
Proof. unfold settle_waiter. destruct v as [? ? [] []]; done. Qed.

(** [complete_waiters] settles the waiters of the list and changes nothing else. *)
Lemma complete_waiters_eq l d e r :
  complete_waiters l d e r = with_waiters (waiters (complete_waiters l d e r)) r.
Proof.
  unfold complete_waiters. revert r. induction l as [|p l IH]; intros r; simpl; [by destruct r|].
  rewrite IH. by destruct r.
Qed.

Lemma complete_waiters_lookup l d e r p :
  waiters (complete_waiters l d e r) !! p =
    if decide (p ∈ l) then settle_waiter d e <$> waiters r !! p else waiters r !! p.
Proof.
  unfold complete_waiters. revert r. induction l as [|q l IH]; intros r; cbn [fold_left].
  { by rewrite decide_False by (by intros ?%elem_of_nil). }
  rewrite IH. unfold complete_waiter. simpl. destruct (decide (p = q)) as [->|Hne].
  - rewrite list_lookup_alter_eq, (decide_True (P := q ∈ q :: l)) by (by left).
    destruct (waiters r !! q) as [v|]; simpl; case_decide; rewrite ?settle_idemp; done.
  - rewrite list_lookup_alter_ne by done. destruct (decide (p ∈ l)).
    + rewrite decide_True by (by right). done.
    + rewrite decide_False by (intros [?|?]%elem_of_cons; done). done.
Qed.

Lemma demand_of_complete l d e r p : demand_of (complete_waiters l d e r) p = demand_of r p.
Proof.
  unfold demand_of. rewrite complete_waiters_lookup. case_decide; [|done].
  destruct (waiters r !! p); simpl; [|done]. by rewrite settle_demand.
Qed.

Lemma keep_waiters_tables key rest r :
  waiters (keep_waiters key rest r) = waiters r /\
  requested_reads (keep_waiters key rest r) = requested_reads r /\
  (forall k, piece_waiters (keep_waiters key rest r) !! k =
     if decide (k = key) then (match rest with [] => None | _ => Some rest end) else piece_waiters r !! k) /\
  (forall k, partial_blocks (keep_waiters key rest r) !! k =
     if decide (k = key /\ rest = []) then None else partial_blocks r !! k).
Proof.
  unfold keep_waiters. destruct rest as [|p rest]; simpl; (split; [done|]; split; [done|]); split; intros k.
  - destruct (decide (k = key)) as [->|Hk]; [by rewrite lookup_delete_eq|by rewrite lookup_delete_ne].
  - destruct (decide (k = key /\ [] = [])) as [[-> _]|Hk]; [by rewrite lookup_delete_eq|].
    rewrite lookup_delete_ne by (intros ->; by apply Hk). done.
  - destruct (decide (k = key)) as [->|Hk]; [by rewrite lookup_insert_eq|by rewrite lookup_insert_ne].
  - rewrite decide_False by (by intros [_ ?]). done.
Qed.

(** A loop over the entries of [piece_waiters]: a turn settles some waiters of its entry and
    keeps some of them, by tests that no turn changes. *)
Section sweep.
Context (f : Reads -> PieceCacheKey * list nat -> Reads) (same : Reads -> Reads -> Prop).
Context (settles keeps : PieceCacheKey -> nat -> bool) (d : option piece_data) (e : text).

Definition kept (k : PieceCacheKey) (l : list nat) : option (list nat) :=
  match filter (fun p => keeps k p = true) l with [] => None | l' => Some l' end.

(** What one turn does. *)
Record turn r (k : PieceCacheKey) (l : list nat) (r' : Reads) : Prop := {
  turn_same : same r r';
  turn_waiters : forall p, waiters r' !! p =
    if decide (p ∈ l /\ settles k p = true) then settle_waiter d e <$> waiters r !! p else waiters r !! p;
  turn_lists : forall k', piece_waiters r' !! k' = if decide (k' = k) then kept k l else piece_waiters r !! k';
  turn_requested : requested_reads r' = requested_reads r;
  turn_partial : forall k', partial_blocks r' !! k' =
    if decide (k' = k /\ kept k l = None) then None else partial_blocks r !! k';
}.

(** The waiter is settled in one of the turns. *)
Definition touched (entries : list (PieceCacheKey * list nat)) (p : nat) : Prop :=
  Exists (fun e => p ∈ e.2 /\ settles e.1 p = true) entries.

#[global] Instance touched_dec entries p : Decision (touched entries p).
Proof. unfold touched. apply _. Defined.

(** What the loop does. *)
Record swept (entries : list (PieceCacheKey * list nat)) r r' : Prop := {
  swept_same : same r r';
  swept_waiters : forall p, waiters r' !! p =
    if decide (touched entries p) then settle_waiter d e <$> waiters r !! p else waiters r !! p;
  swept_lists : forall k l, (k, l) ∈ entries -> piece_waiters r' !! k = kept k l;
  swept_others : forall k, k ∉ entries.*1 -> piece_waiters r' !! k = piece_waiters r !! k;
  swept_requested : requested_reads r' = requested_reads r;
  swept_partial : forall k b, partial_blocks r' !! k = Some b ->
    partial_blocks r !! k = Some b /\ forall l, (k, l) ∈ entries -> kept k l <> None;
  swept_blocks : forall k, (forall l, (k, l) ∈ entries -> kept k l <> None) -> partial_blocks r' !! k = partial_blocks r !! k;
}.

Context (r0 : Reads) (Hrefl : forall a, same a a) (Htrans : forall a b c, same a b -> same b c -> same a c).
Context (Hturn : forall r k l,
  same r0 r -> piece_waiters r0 !! k = Some l -> piece_waiters r !! k = Some l -> turn r k l (f r (k, l))).

Lemma sweep_entries entries r : same r0 r -> NoDup entries.*1 ->
  (forall k l, (k, l) ∈ entries -> piece_waiters r0 !! k = Some l /\ piece_waiters r !! k = Some l) ->
  swept entries r (fold_left f entries r).
Proof.
  revert r. induction entries as [|[k l] entries IH]; intros r Hs Hnd He; cbn [fold_left].
  { split; try done; [set_solver|]. intros k b Hb. split; [done|set_solver]. }
  rewrite fmap_cons in Hnd. apply NoDup_cons in Hnd as [Hk Hnd]. simpl in Hk.
  destruct (He k l) as [H0 H1]; [by left|]. destruct (Hturn r k l Hs H0 H1) as [Ts Tw Tl Tr Tp].
  destruct (IH (f r (k, l)) (Htrans _ _ _ Hs Ts) Hnd) as [IHs IHw IHl IHo IHr IHp IHb].
  { intros k1 l1 Hin. destruct (He k1 l1) as [? ?]; [by right|]. split; [done|]. rewrite Tl, decide_False; [done|].
    intros ->. apply Hk. apply list_elem_of_fmap. by exists (k, l1). }
  split.
  - eauto.
  - intros p. rewrite IHw, Tw. unfold touched. destruct (decide (p ∈ l /\ settles k p = true)) as [Hx|Hx].
    + rewrite (decide_True (P := Exists _ ((k, l) :: entries))) by (by left). case_decide; [|done].
      destruct (waiters r !! p); simpl; by rewrite ?settle_idemp.
    + destruct (decide (Exists _ entries)) as [Hy|Hy].
      * by rewrite decide_True by (by right).
      * rewrite decide_False by (intros [?|?]%Exists_cons; done). done.
  - intros k1 l1 [[= -> ->]|Hin]%elem_of_cons; [|by apply IHl]. rewrite IHo, Tl by done. by rewrite decide_True.
  - intros k1. rewrite fmap_cons. intros [Hne Hn]%not_elem_of_cons. rewrite IHo, Tl by done. by rewrite decide_False.
  - by rewrite IHr.
  - intros k1 b Hb. destruct (IHp k1 b Hb) as [Hb1 Hk1]. rewrite Tp in Hb1. case_decide as Hd; [done|]. split; [done|].
    intros l1 [[= -> ->]|Hin]%elem_of_cons; [|by apply Hk1]. intros Hn. by apply Hd.
  - intros k1 Hk1. rewrite IHb by (intros l1 Hin; apply Hk1; by right). rewrite Tp, decide_False; [done|]. intros [-> Hn]. apply (Hk1 l); [by left|done].
Qed.

Lemma sweep_spec : swept (map_to_list (piece_waiters r0)) r0 (fold_left f (map_to_list (piece_waiters r0)) r0).
Proof.
  apply sweep_entries; [done|apply NoDup_fst_map_to_list|]. intros k l Hin%elem_of_map_to_list. done.
Qed.
End sweep.
End operations.

(** ** The loops *)

Section loops.
Implicit Types r : Reads.

Lemma complete_waiters_tables l d e r :
  piece_waiters (complete_waiters l d e r) = piece_waiters r /\ requested_reads (complete_waiters l d e r) = requested_reads r /\
  partial_blocks (complete_waiters l d e r) = partial_blocks r.
Proof. by rewrite complete_waiters_eq. Qed.

Lemma cancel_demand_waiters_spec id e r :
  let mine := fun (_ : PieceCacheKey) p => bool_decide (demand_of r p = Some id) in
  swept (fun a b => forall p, demand_of b p = demand_of a p) mine (fun k p => negb (mine k p)) None e
    (map_to_list (piece_waiters r)) r (cancel_demand_waiters id e r).
Proof.
  intros mine. unfold cancel_demand_waiters. apply sweep_spec; [done|congruence|].
  intros r1 k l Hs _ _. cbn [fst snd].
  set (done_ := filter (fun p => demand_of r1 p = Some id) l).
  assert (Hrest : filter (fun p => demand_of r1 p <> Some id) l = filter (fun p => negb (mine k p) = true) l).
  { apply filter_ext_in. intros p _. unfold mine. rewrite Hs, negb_true_iff, bool_decide_eq_false. done. }
  rewrite Hrest. destruct (keep_waiters_tables k (filter (fun p => negb (mine k p) = true) l) (complete_waiters done_ None e r1))
    as (Kw & Kr & Kl & Kp).
  destruct (complete_waiters_tables done_ None e r1) as (Cl & Cr & Cp). split.
  - intros p. unfold demand_of. rewrite Kw. fold (demand_of (complete_waiters done_ None e r1) p). apply demand_of_complete.
  - intros p. rewrite Kw, complete_waiters_lookup. unfold done_, mine.
    assert (Hiff : p ∈ filter (fun p => demand_of r1 p = Some id) l <-> p ∈ l /\ bool_decide (demand_of r p = Some id) = true).
    { rewrite list_elem_of_filter, Hs, bool_decide_eq_true. tauto. }
    destruct (decide (p ∈ filter _ l)) as [Hd|Hd]; [rewrite decide_True by tauto|rewrite decide_False by tauto]; done.
  - intros k'. rewrite Kl, Cl. unfold kept. by destruct (decide (k' = k)), (filter (fun p => negb (mine k p) = true) l).
  - by rewrite Kr, Cr.
  - intros k'. rewrite Kp, Cp. unfold kept. destruct (filter (fun p => negb (mine k p) = true) l); repeat case_decide; naive_solver.
Qed.

Lemma prune_cancelled_waiters_spec r :
  swept (fun a b => waiters b = waiters a) (fun _ _ => false) (fun _ p => negb (is_cancelled r p)) None []
    (map_to_list (piece_waiters r)) r (prune_cancelled_waiters r).
Proof.
  unfold prune_cancelled_waiters. apply sweep_spec; [done|congruence|].
  intros r1 k l Hs _ _. cbn [fst snd].
  assert (Hrest : filter (fun p => is_cancelled r1 p = false) l = filter (fun p => negb (is_cancelled r p) = true) l).
  { apply filter_ext_in. intros p _. unfold is_cancelled. by rewrite Hs, negb_true_iff. }
  rewrite Hrest. destruct (keep_waiters_tables k (filter (fun p => negb (is_cancelled r p) = true) l) r1) as (Kw & Kr & Kl & Kp). split.
  - done.
  - intros p. rewrite Kw, decide_False by (by intros [_ ?]). done.
  - intros k'. rewrite Kl. unfold kept. by destruct (decide (k' = k)), (filter (fun p => negb (is_cancelled r p) = true) l).
  - done.
  - intros k'. rewrite Kp. unfold kept. destruct (filter (fun p => negb (is_cancelled r p) = true) l); repeat case_decide; naive_solver.
Qed.

Lemma remove_waiters_spec id r :
  (forall k, key_torrent_id k = id -> partial_blocks r !! k = None) -> (forall k l, piece_waiters r !! k = Some l -> l <> []) ->
  let gone := fun k (_ : nat) => bool_decide (key_torrent_id k = id) in
  swept (fun a b => partial_blocks b = partial_blocks a) gone (fun k p => negb (gone k p)) None (str "torrent was removed")
    (map_to_list (piece_waiters r)) r (remove_waiters id r).
Proof.
  intros Hp Hne gone. unfold remove_waiters. apply sweep_spec; [done|congruence|].
  intros r1 k l Hs H0 H1. unfold gone. cbn [fst]. destruct (decide (key_torrent_id k = id)) as [Hid|Hid].
  - assert (Hkept : kept (fun k p => negb (bool_decide (key_torrent_id k = id))) k l = None).
    { unfold kept. rewrite bool_decide_eq_true_2 by done. by rewrite filter_none. }
    unfold drop_entry. rewrite complete_waiters_eq. split; cbn -[complete_waiters].
    + done.
    + intros p. rewrite complete_waiters_lookup, bool_decide_eq_true_2 by done.
      destruct (decide (p ∈ l)); [rewrite decide_True by tauto|rewrite decide_False by tauto]; done.
    + intros k'. rewrite Hkept. destruct (decide (k' = k)) as [->|Hn]; [by rewrite lookup_delete_eq|by rewrite lookup_delete_ne].
    + done.
    + intros k'. case_decide as Hc; [|done]. destruct Hc as [-> _]. rewrite Hs. by apply Hp.
  - assert (Hkept : kept (fun k p => negb (bool_decide (key_torrent_id k = id))) k l = Some l).
    { unfold kept. rewrite bool_decide_eq_false_2 by done. rewrite filter_all by done. apply Hne in H0. by destruct l. }
    split; [done| | |done|].
    + intros p. rewrite bool_decide_eq_false_2 by done. by rewrite decide_False by (by intros [_ ?]).
    + intros k'. rewrite Hkept. by destruct (decide (k' = k)) as [->|].
    + intros k'. rewrite Hkept. by rewrite decide_False by (by intros [_ ?]).
Qed.
End loops.

(** ** No reader is lost *)

Section invariant.
(** The piece each waiter was made for, and the bytes of the pieces. *)
Context (key_of : nat -> PieceCacheKey) (content : PieceCacheKey -> piece_data).
Implicit Types r : Reads.

(** An answer is the bytes of the piece or an error. *)
Definition answer_ok (k : PieceCacheKey) (d : option piece_data) (e : text) : Prop :=
  match d with Some bytes => bytes = content k /\ e = [] | None => e <> [] end.

Definition waits r (p : nat) : Prop := exists v, waiters r !! p = Some v /\ waiter_done v = false.

(** [queue] are the waiters of the commands that were not taken yet. *)
Record reads_ok (queue : list nat) r : Prop := {
  ro_lists : forall k l, piece_waiters r !! k = Some l -> l <> [] /\ NoDup l /\ forall p, p ∈ l -> key_of p = k /\ waits r p;
  ro_queue : NoDup queue /\ forall p, p ∈ queue -> waits r p /\ forall k l, piece_waiters r !! k = Some l -> p ∉ l;
  ro_partial : forall k b, partial_blocks r !! k = Some b -> is_Some (piece_waiters r !! k);
  ro_answers : forall p v, waiters r !! p = Some v -> waiter_done v = true -> answer_ok (key_of p) (waiter_data v) (waiter_error v);
  ro_accounted : forall p v, waiters r !! p = Some v ->
    waiter_done v = true \/ waiter_cancelled v = true \/ p ∈ queue \/ exists l, piece_waiters r !! key_of p = Some l /\ p ∈ l;
}.

Lemma reads_ok_empty : reads_ok [] (MkReads [] ∅ ∅ ∅).
Proof. split; [done|split; [by constructor|by intros ? ?%elem_of_nil]|done..]. Qed.

(** The one way an operation answers: some waiters are settled, and leave the queue and the
    lists; besides them only cancelled ones do. *)
Lemma reads_ok_settle queue queue' r r' d e (gone : nat -> Prop) :
  reads_ok queue r ->
  (forall p, (gone p -> waiters r' !! p = settle_waiter d e <$> waiters r !! p) /\ (~ gone p -> waiters r' !! p = waiters r !! p)) ->
  (forall p, Decision (gone p)) ->
  (forall p, gone p -> answer_ok (key_of p) d e) ->
  NoDup queue' /\ (forall p, p ∈ queue' -> p ∈ queue /\ ~ gone p) /\ (forall p, p ∈ queue -> gone p \/ p ∈ queue') ->
  (forall k l', piece_waiters r' !! k = Some l' ->
     l' <> [] /\ NoDup l' /\ exists l, piece_waiters r !! k = Some l /\ forall p, p ∈ l' -> p ∈ l /\ ~ gone p) ->
  (forall k l p, piece_waiters r !! k = Some l -> p ∈ l ->
     gone p \/ is_cancelled r p = true \/ exists l', piece_waiters r' !! k = Some l' /\ p ∈ l') ->
  (forall k b, partial_blocks r' !! k = Some b -> is_Some (piece_waiters r' !! k)) ->
  reads_ok queue' r'.
Proof.
  intros [Hl [Hqnd Hq] Hp Ha Hacc] Hw Hdec Hans (Hnd' & Hq' & Hqq) Hl' Hll Hp'.
  assert (Hwaits : forall p, waits r p -> ~ gone p -> waits r' p).
  { intros p (v & Hv & Hd) Hg. exists v. by rewrite (proj2 (Hw p) Hg). }
  split.
  - intros k l' Hk. destruct (Hl' k l' Hk) as (Hne & Hnd & l & Hkl & Hsub). split; [done|]. split; [done|].
    intros p Hin. destruct (Hsub p Hin) as [Hin' Hg]. destruct (Hl k l Hkl) as (_ & _ & Hall). destruct (Hall p Hin'). auto.
  - split; [done|]. intros p Hin. destruct (Hq' p Hin) as [Hin' Hg]. destruct (Hq p Hin') as [Hwp Hout]. split; [auto|].
    intros k l' Hk Hpl. destruct (Hl' k l' Hk) as (_ & _ & l & Hkl & Hsub). apply (Hout k l Hkl). by apply Hsub.
  - done.
  - intros p v Hv Hd. destruct (decide (gone p)) as [Hg|Hg].
    + rewrite (proj1 (Hw p) Hg) in Hv. destruct (waiters r !! p) as [v0|] eqn:Ev; [|done]. simpl in Hv. simplify_eq.
      unfold settle_waiter in *. destruct (waiter_cancelled v0 || waiter_done v0) eqn:Ec; [by eapply Ha|]. by apply Hans.
    + rewrite (proj2 (Hw p) Hg) in Hv. by eapply Ha.
  - intros p v Hv. destruct (decide (gone p)) as [Hg|Hg].
    + rewrite (proj1 (Hw p) Hg) in Hv. destruct (waiters r !! p) as [v0|] eqn:Ev; [|done]. simpl in Hv. simplify_eq.
      unfold settle_waiter. destruct v0 as [? ? [] []]; simpl; auto.
    + rewrite (proj2 (Hw p) Hg) in Hv. destruct (Hacc p v Hv) as [?|[?|[Hin|(l & Hkl & Hin)]]]; [auto|auto| |].
      * destruct (Hqq p Hin); [done|auto].
      * destruct (Hll _ l p Hkl Hin) as [?|[Hc|(l' & ? & ?)]]; [done| |by eauto 6].
        unfold is_cancelled in Hc. rewrite Hv in Hc. auto.
Qed.

(** A waiter is in one list only, and not in the queue. *)
Lemma reads_ok_key queue r k l p : reads_ok queue r -> piece_waiters r !! k = Some l -> p ∈ l -> key_of p = k.
Proof. intros Hok Hk Hp. by apply (ro_lists _ _ Hok k l Hk). Qed.

Lemma reads_ok_not_queued queue r k l p : reads_ok queue r -> piece_waiters r !! k = Some l -> p ∈ l -> p ∉ queue.
Proof. intros Hok Hk Hp Hq. destruct (proj2 (ro_queue _ _ Hok) p Hq) as [_ Hn]. by apply (Hn k l Hk). Qed.

Lemma filter_nonempty (keeps : nat -> bool) (l l' : list nat) :
  match filter (fun p => keeps p = true) l with [] => None | x => Some x end = Some l' -> l' = filter (fun p => keeps p = true) l /\ l' <> [].
Proof. destruct (filter _ l) eqn:E; [done|]. intros [= <-]. done. Qed.

(** The loops keep the invariant. *)
Lemma reads_ok_swept same settles keeps d e queue r r' :
  reads_ok queue r -> swept same settles keeps d e (map_to_list (piece_waiters r)) r r' ->
  (forall k p, settles k p = true -> answer_ok k d e) ->
  (forall k l p, piece_waiters r !! k = Some l -> p ∈ l -> 
     keeps k p = negb (settles k p) \/ (keeps k p = false /\ settles k p = false /\ is_cancelled r p = true)) ->
  reads_ok queue r'.
Proof.
  intros Hok [_ Sw Sl So _ Sp] Hans Hk. pose proof Hok as [Hl _ Hp _ _].
  assert (Htouch : forall p, touched settles (map_to_list (piece_waiters r)) p <->
    exists k l, piece_waiters r !! k = Some l /\ p ∈ l /\ settles k p = true).
  { intros p. unfold touched. rewrite Exists_exists. split.
    - intros ([k l] & Hin%elem_of_map_to_list & ? & ?). eauto.
    - intros (k & l & Hin & ? & ?). exists (k, l). by rewrite elem_of_map_to_list. }
  assert (Hlist : forall k l', piece_waiters r' !! k = Some l' -> exists l, piece_waiters r !! k = Some l /\
    l' = filter (fun p => keeps k p = true) l /\ l' <> []).
  { intros k l' Hk'. destruct (piece_waiters r !! k) as [l|] eqn:El.
    - exists l. split; [done|]. rewrite (Sl k l) in Hk' by (by apply elem_of_map_to_list). by apply filter_nonempty.
    - rewrite So in Hk'; [congruence|]. intros ([? l] & -> & Hin%elem_of_map_to_list)%list_elem_of_fmap. simpl in El. congruence. }
  apply (reads_ok_settle queue queue r r' d e (touched settles (map_to_list (piece_waiters r)))); [done| | | | | | |].
  - intros p. rewrite Sw. split; intros Hg; [by rewrite decide_True|by rewrite decide_False].
  - apply _.
  - intros p (k & l & Hkl & Hin & Hs)%Htouch. rewrite (reads_ok_key _ _ _ _ _ Hok Hkl Hin). by eapply Hans.
  - split; [apply Hok|]. split; [|auto]. intros p Hin. split; [done|]. intros (k & l & Hkl & Hin' & _)%Htouch.
    by apply (reads_ok_not_queued _ _ _ _ _ Hok Hkl Hin').
  - intros k l' Hk'. destruct (Hlist k l' Hk') as (l & Hkl & -> & Hne). split; [done|].
    split; [apply NoDup_filter; by apply (Hl k l)|]. exists l. split; [done|]. intros p [Hkeep Hin]%list_elem_of_filter. split; [done|].
    intros (k2 & l2 & Hkl2 & Hin2 & Hs2)%Htouch.
    assert (k2 = k) as -> by (rewrite <-(reads_ok_key _ _ _ _ _ Hok Hkl Hin); symmetry; by eapply reads_ok_key).
    destruct (Hk k l p Hkl Hin) as [Hx|(_ & Hx & _)]; rewrite ?Hs2 in Hx; simpl in Hx; congruence.
  - intros k l p Hkl Hin. destruct (keeps k p) eqn:Ek.
    + right. right. exists (filter (fun p => keeps k p = true) l).
      assert (Hin' : p ∈ filter (fun p => keeps k p = true) l) by (by apply list_elem_of_filter).
      split; [|done]. rewrite (Sl k l) by (by apply elem_of_map_to_list). unfold kept.
      destruct (filter _ l); [by apply elem_of_nil in Hin'|done].
    + destruct (Hk k l p Hkl Hin) as [Hx|(_ & _ & Hx)]; [|auto]. left. apply Htouch. exists k, l.
      split; [done|]. split; [done|]. rewrite Ek in Hx. by destruct (settles k p).
  - intros k b Hb. destruct (Sp k b Hb) as [Hb' Hn]. destruct (Hp k b Hb') as [l Hkl].
    assert (Hin : (k, l) ∈ map_to_list (piece_waiters r)) by (by apply elem_of_map_to_list).
    rewrite (Sl k l Hin). specialize (Hn l Hin). by destruct (kept keeps k l).
Qed.

Lemma reads_ok_cancel queue r id e : reads_ok queue r -> e <> [] -> reads_ok queue (cancel_demand_waiters id e r).
Proof.
  intros Hok He. eapply reads_ok_swept; [done|apply cancel_demand_waiters_spec|done|]. auto.
Qed.

Lemma reads_ok_prune queue r : reads_ok queue r -> reads_ok queue (prune_cancelled_waiters r).
Proof.
  intros Hok. eapply reads_ok_swept; [done|apply prune_cancelled_waiters_spec|done|]. intros k l p _ _. simpl.
  destruct (is_cancelled r p); auto.
Qed.

Lemma reads_ok_remove queue r id : reads_ok queue r -> (forall k, key_torrent_id k = id -> partial_blocks r !! k = None) ->
  reads_ok queue (remove_waiters id r).
Proof.
  intros Hok Hp. eapply reads_ok_swept; [done|apply remove_waiters_spec; [done|]|done|auto].
  intros k l Hk. by apply (ro_lists _ _ Hok k l).
Qed.

(** A waiter leaves the queue with an answer. *)
Lemma reads_ok_complete queue r p d e : reads_ok (p :: queue) r -> answer_ok (key_of p) d e -> reads_ok queue (complete_waiter p d e r).
Proof.
  intros Hok Ha. pose proof Hok as [Hl [Hnd Hq] Hp _ _]. apply NoDup_cons in Hnd as [Hpq Hnd].
  apply (reads_ok_settle (p :: queue) queue r _ d e (fun q => q = p)); [done| |apply _|by intros ? ->| | | |done].
  - intros q. unfold complete_waiter. simpl. split; [intros ->; by rewrite list_lookup_alter_eq|]. intros Hne.
    by rewrite list_lookup_alter_ne.
  - split; [done|]. split; [|intros q [->|?]%elem_of_cons; auto]. intros q Hin. split; [by right|]. by intros ->.
  - intros k l Hk. destruct (Hl k l Hk) as (? & ? & _). split; [done|]. split; [done|]. exists l. split; [done|].
    intros q Hin. split; [done|]. intros ->. destruct (Hq p) as [_ Hn]; [by left|]. by apply (Hn k l Hk).
  - intros k l q Hk Hin. right. right. by exists l.
Qed.

(** All waiters of a piece get an answer. *)
Lemma reads_ok_answer queue r k l d e : reads_ok queue r -> piece_waiters r !! k = Some l -> answer_ok k d e ->
  reads_ok queue (with_piece_waiters (delete k (piece_waiters r))
    (with_partial_blocks (delete k (partial_blocks r)) (complete_waiters l d e r))).
Proof.
  intros Hok Hk Ha. pose proof Hok as [Hl [Hnd Hq] Hp _ _].
  apply (reads_ok_settle queue queue r _ d e (fun q => q ∈ l)); [done| |apply _| | | | |].
  - intros q. simpl. rewrite complete_waiters_lookup. split; intros Hin; [by rewrite decide_True|by rewrite decide_False].
  - intros q Hin. by rewrite (reads_ok_key _ _ _ _ _ Hok Hk Hin).
  - split; [done|]. split; [|auto]. intros q Hin. split; [done|]. intros Hin'.
    by apply (reads_ok_not_queued _ _ _ _ _ Hok Hk Hin').
  - cbn [with_piece_waiters piece_waiters]. intros k' l' [Hne Hk']%lookup_delete_Some. destruct (Hl k' l' Hk') as (? & ? & _). split; [done|]. split; [done|].
    exists l'. split; [done|]. intros q Hin. split; [done|]. intros Hin2. apply Hne.
    rewrite <-(reads_ok_key _ _ _ _ _ Hok Hk Hin2). by eapply reads_ok_key.
  - intros k' l' q Hk' Hin. destruct (decide (k' = k)) as [->|Hne]; [left; congruence|]. right. right. exists l'.
    simpl. by rewrite lookup_delete_ne.
  - cbn [with_piece_waiters with_partial_blocks partial_blocks]. intros k' b [Hne Hb]%lookup_delete_Some. simpl. rewrite lookup_delete_ne by done. by eapply Hp.
Qed.

(** The invariant is about the lists, the blocks and the answers. *)
Lemma reads_ok_view queue r r' : reads_ok queue r -> piece_waiters r' = piece_waiters r ->
  (forall k b, partial_blocks r' !! k = Some b -> is_Some (piece_waiters r !! k)) ->
  (forall p, (fun v => (waiter_data v, waiter_error v, waiter_done v, waiter_cancelled v)) <$> waiters r' !! p =
             (fun v => (waiter_data v, waiter_error v, waiter_done v, waiter_cancelled v)) <$> waiters r !! p) ->
  reads_ok queue r'.
Proof.
  intros [Hl [Hnd Hq] Hp Ha Hacc] El Ep Ew.
  assert (Hw : forall p v', waiters r' !! p = Some v' -> exists v, waiters r !! p = Some v /\ waiter_data v = waiter_data v' /\
    waiter_error v = waiter_error v' /\ waiter_done v = waiter_done v' /\ waiter_cancelled v = waiter_cancelled v').
  { intros p v' Hv. specialize (Ew p). rewrite Hv in Ew. destruct (waiters r !! p) as [v|]; [|done]. simpl in Ew. injection Ew as ????. eauto 10. }
  assert (Hwaits : forall p, waits r p -> waits r' p).
  { intros p (v & Hv & Hd). specialize (Ew p). rewrite Hv in Ew. destruct (waiters r' !! p) as [v'|] eqn:E; [|done].
    simpl in Ew. injection Ew as ????. exists v'. split; [done|congruence]. }
  split; rewrite ?El.
  - intros k l Hk. destruct (Hl k l Hk) as (? & ? & Hall). split; [done|]. split; [done|]. intros p Hin. destruct (Hall p Hin). auto.
  - split; [done|]. intros p Hin. destruct (Hq p Hin). auto.
  - done.
  - intros p v' Hv Hd. destruct (Hw p v' Hv) as (v & Hv' & <- & <- & Hd' & _). apply Ha; congruence.
  - intros p v' Hv. destruct (Hw p v' Hv) as (v & Hv' & _ & _ & <- & <-). by apply Hacc.
Qed.
(** What a waiter shows to its reader, the published blocks apart. *)
Definition shown (v : PieceWaiter) := (waiter_data v, waiter_error v, waiter_done v, waiter_cancelled v).

Lemma shown_publish b (ws : list PieceWaiter) q p :
  shown <$> alter (fun w => if waiter_done w || waiter_cancelled w then w
                 else MkWaiter (waiter_data w) (waiter_error w) false false (waiter_demand_id w) b) q ws !! p = shown <$> ws !! p.
Proof.
  destruct (decide (p = q)) as [->|Hne]; [rewrite list_lookup_alter_eq|by rewrite list_lookup_alter_ne].
  destruct (ws !! q) as [[? ? [] []]|]; done.
Qed.

Lemma reads_ok_publish queue r p b : reads_ok queue r -> reads_ok queue (publish_blocks p b r).
Proof.
  intros Hok. eapply reads_ok_view; [done|done|apply Hok|]. intros q. apply shown_publish.
Qed.

Lemma reads_ok_publish_partial queue r k : reads_ok queue r -> reads_ok queue (publish_partial k r).
Proof.
  intros Hok. unfold publish_partial. destruct (partial_blocks r !! k) as [b|]; [|done]. destruct (piece_waiters r !! k) as [l|]; [|done].
  revert r Hok. induction l as [|p l IH]; intros r Hok; simpl; [done|]. by apply IH, reads_ok_publish.
Qed.

Lemma reads_ok_requested queue r m : reads_ok queue r -> reads_ok queue (with_requested_reads m r).
Proof. intros [? ? ? ? ?]. by split. Qed.

(** The blocks of a piece are kept while readers wait for it. *)
Lemma reads_ok_blocks queue r m : reads_ok queue r -> (forall k b, m !! k = Some b -> is_Some (piece_waiters r !! k)) ->
  reads_ok queue (with_partial_blocks m r).
Proof. intros Hok Hm. by apply (reads_ok_view queue r). Qed.

Lemma reads_ok_fewer_blocks queue r m : reads_ok queue r -> m ⊆ partial_blocks r -> reads_ok queue (with_partial_blocks m r).
Proof. intros Hok Hm. apply reads_ok_blocks; [done|]. intros k b Hb. eapply (ro_partial _ _ Hok), lookup_weaken; done. Qed.

Lemma reads_ok_fail queue r k e : reads_ok queue r -> e <> [] -> reads_ok queue (fail_piece k e r).
Proof.
  intros Hok He. unfold fail_piece. simpl. destruct (piece_waiters r !! k) as [l|] eqn:Ek.
  - rewrite complete_waiters_eq. pose proof (reads_ok_answer _ _ _ _ None e Hok Ek He) as Ha.
    eapply reads_ok_view; [exact Ha|done|by apply Ha|]. intros p. simpl. f_equal. by rewrite !complete_waiters_lookup.
  - apply reads_ok_fewer_blocks; [done|]. apply delete_subseteq.
Qed.

(** [handle_read_piece]: the blocks go, the waiters get the bytes. *)
Lemma reads_ok_data queue r k d : reads_ok queue r -> d = content k ->
  reads_ok queue
    (let r := with_partial_blocks (delete k (partial_blocks r)) (with_requested_reads (delete k (requested_reads r)) r) in
     match piece_waiters r !! k with
     | None => r
     | Some l => let r := complete_waiters l (Some d) [] r in with_piece_waiters (delete k (piece_waiters r)) r
     end).
Proof.
  intros Hok Hd. simpl. destruct (piece_waiters r !! k) as [l|] eqn:Ek.
  - pose proof (reads_ok_answer _ _ _ _ (Some d) [] Hok Ek (conj Hd eq_refl)) as Ha.
    rewrite complete_waiters_eq. eapply reads_ok_view; [exact Ha|done|by apply Ha|]. intros p. simpl. f_equal.
    by rewrite !complete_waiters_lookup.
  - apply reads_ok_fewer_blocks; [by apply reads_ok_requested|]. apply delete_subseteq.
Qed.

(** A command is taken and its waiter waits for its piece. *)
Lemma reads_ok_wait queue r p : reads_ok (p :: queue) r ->
  reads_ok queue (with_piece_waiters (<[key_of p := default [] (piece_waiters r !! key_of p) ++ [p]]> (piece_waiters r)) r).
Proof.
  intros [Hl [Hnd Hq] Hp Ha Hacc]. apply NoDup_cons in Hnd as [Hpq Hnd].
  destruct (Hq p) as [Hwp Hpl]; [by left|].
  assert (Hold : forall l, piece_waiters r !! key_of p = Some l -> l <> [] /\ NoDup l /\ forall q, q ∈ l -> key_of q = key_of p /\ waits r q)
    by (intros l; apply Hl).
  split; cbn [with_piece_waiters piece_waiters waiters partial_blocks].
  - intros k l. rewrite lookup_insert. case_decide as Hk; [|by apply Hl]. subst k. intros [= <-].
    split; [by destruct (default _ _)|]. destruct (piece_waiters r !! key_of p) as [l0|] eqn:E0; simpl.
    + destruct (Hold l0 eq_refl) as (_ & Hnd0 & Hall). split.
      * apply NoDup_app. split; [done|]. split; [|apply NoDup_singleton]. intros q Hq1 ->%list_elem_of_singleton.
        by apply (Hpl _ _ E0).
      * intros q [Hq1| ->%list_elem_of_singleton]%elem_of_app; [by apply Hall|done].
    + split; [apply NoDup_singleton|]. intros q ->%list_elem_of_singleton. done.
  - split; [done|]. intros q Hin. destruct (Hq q) as [Hwq Hn]; [by right|]. split; [done|]. intros k l.
    rewrite lookup_insert. case_decide as Hk; [|by apply Hn]. subst k. intros [= <-].
    rewrite elem_of_app, list_elem_of_singleton. intros [Hin2| ->]; [|done].
    destruct (piece_waiters r !! key_of p) as [l0|] eqn:E0; simpl in Hin2; [by apply (Hn _ _ E0)|by apply elem_of_nil in Hin2].
  - intros k b Hb. rewrite lookup_insert. case_decide; [done|by eapply Hp].
  - done.
  - intros q v Hv. destruct (Hacc q v Hv) as [?|[?|[[->|Hin]%elem_of_cons|(l & Hk & Hin)]]]; [auto..| |].
    + right. right. right. exists (default [] (piece_waiters r !! key_of p) ++ [p]). rewrite lookup_insert_eq. split; [done|].
      rewrite elem_of_app, list_elem_of_singleton. auto.
    + auto.
    + right. right. right. rewrite lookup_insert. case_decide as Hk'; [|eauto]. rewrite Hk', Hk. simpl. eexists. split; [done|].
      rewrite elem_of_app. auto.
Qed.

(** A reader makes a waiter and a command for it. *)
Lemma reads_ok_new queue r id : reads_ok queue r ->
  reads_ok (queue ++ [length (waiters r)]) (with_waiters (waiters r ++ [new_waiter id]) r).
Proof.
  intros [Hl [Hnd Hq] Hp Ha Hacc]. set (n := length (waiters r)).
  assert (Hold : forall p, waits r p -> waits (with_waiters (waiters r ++ [new_waiter id]) r) p).
  { intros p (v & Hv & Hd). exists v. split; [|done]. simpl. by apply lookup_app_l_Some. }
  assert (Hlt : forall p, waits r p -> p <> n) by (intros p (v & Hv%lookup_lt_Some & _) ->; unfold n in *; lia).
  assert (Hnew : forall p v, (waiters r ++ [new_waiter id]) !! p = Some v -> waiters r !! p = Some v \/ p = n /\ v = new_waiter id).
  { intros p v [?|[Hp' Hv]]%lookup_app_Some; [auto|]. right. apply list_lookup_singleton_Some in Hv as [? <-]. split; [unfold n; lia|done]. }
  split; cbn [with_waiters piece_waiters waiters partial_blocks].
  - intros k l Hk. destruct (Hl k l Hk) as (? & ? & Hall). split; [done|]. split; [done|]. intros p Hin. destruct (Hall p Hin). auto.
  - split.
    + apply NoDup_app. split; [done|]. split; [|apply NoDup_singleton]. intros p Hin ->%list_elem_of_singleton.
      destruct (Hq n Hin) as [Hwn _]. by apply (Hlt n).
    + intros p [Hin| ->%list_elem_of_singleton]%elem_of_app; [destruct (Hq p Hin); auto|]. split.
      * exists (new_waiter id). split; [|done]. simpl. by rewrite lookup_app_r, Nat.sub_diag by done.
      * intros k l Hk Hin. destruct (Hl k l Hk) as (_ & _ & Hall). destruct (Hall n Hin) as [_ Hwn]. by apply (Hlt n).
  - done.
  - intros p v Hv Hd. destruct (Hnew p v Hv) as [?|[-> ->]]; [by eapply Ha|done].
  - intros p v Hv. destruct (Hnew p v Hv) as [Hv'|[-> ->]].
    + destruct (Hacc p v Hv') as [?|[?|[?|?]]]; [auto..| |]; rewrite ?elem_of_app; auto.
    + rewrite elem_of_app, list_elem_of_singleton. auto.
Qed.

(** A reader gives up. *)
Lemma reads_ok_abandon queue r p : reads_ok queue r ->
  reads_ok queue (with_waiters
    (alter (fun v => MkWaiter (waiter_data v) (waiter_error v) (waiter_done v) true (waiter_demand_id v) (waiter_finished_blocks v)) p (waiters r)) r).
Proof.
  intros [Hl [Hnd Hq] Hp Ha Hacc]. set (f := fun v => MkWaiter _ _ _ true _ _). set (r' := with_waiters _ r).
  assert (Hw : forall q v, waiters r' !! q = Some v -> exists v0, waiters r !! q = Some v0 /\ waiter_done v0 = waiter_done v /\
    waiter_data v0 = waiter_data v /\ waiter_error v0 = waiter_error v /\ (waiter_cancelled v0 = true -> waiter_cancelled v = true)).
  { intros q v. unfold r'. simpl. destruct (decide (q = p)) as [->|Hne]; [rewrite list_lookup_alter_eq|rewrite list_lookup_alter_ne by done; eauto 6].
    destruct (waiters r !! p) as [v0|]; [|done]. intros [= <-]. exists v0. done. }
  assert (Hold : forall q, waits r q -> waits r' q).
  { intros q (v & Hv & Hd). unfold waits, r'. simpl. destruct (decide (q = p)) as [->|Hne];
      [rewrite list_lookup_alter_eq, Hv|rewrite list_lookup_alter_ne by done]; simpl; eauto. }
  split.
  - intros k l Hk. destruct (Hl k l Hk) as (? & ? & Hall). split; [done|]. split; [done|]. intros q Hin. destruct (Hall q Hin). auto.
  - split; [done|]. intros q Hin. destruct (Hq q Hin). auto.
  - done.
  - intros q v Hv Hd. destruct (Hw q v Hv) as (v0 & Hv0 & Hd0 & <- & <- & _). apply Ha; congruence.
  - intros q v Hv. destruct (Hw q v Hv) as (v0 & Hv0 & <- & _ & _ & Hc). destruct (Hacc q v0 Hv0) as [?|[?|?]]; auto.
Qed.

(** The end: all waiters of all lists get an error. *)
Lemma fold_complete (entries : list (PieceCacheKey * list nat)) d e r :
  fold_left (fun r (entry : PieceCacheKey * list nat) => complete_waiters entry.2 d e r) entries r = complete_waiters (concat entries.*2) d e r.
Proof.
  revert r. induction entries as [|en entries IH]; intros r; [done|]. cbn [fold_left]. rewrite IH. simpl.
  unfold complete_waiters. by rewrite fold_left_app.
Qed.

Lemma reads_ok_end queue r e : reads_ok queue r -> e <> [] -> reads_ok queue (with_partial_blocks ∅ (end_waiters e r)).
Proof.
  intros Hok He. unfold end_waiters. rewrite fold_complete. set (l := concat _).
  assert (Hl : forall p, p ∈ l <-> exists k l', piece_waiters r !! k = Some l' /\ p ∈ l').
  { intros p. unfold l. rewrite list_elem_of_In, in_concat. split.
    - intros (l' & Hin & Hp). apply list_elem_of_In, list_elem_of_fmap in Hin as ([k l2] & -> & Hk%elem_of_map_to_list).
      exists k, l2. by rewrite <-list_elem_of_In in Hp.
    - intros (k & l' & Hk & Hp). exists l'. rewrite <-!list_elem_of_In. split; [|done]. apply list_elem_of_fmap. exists (k, l').
      by rewrite elem_of_map_to_list. }
  apply (reads_ok_settle queue queue r _ None e (fun p => p ∈ l)); [done| |apply _|done| | | |done].
  - intros p. simpl. rewrite complete_waiters_lookup. split; intros Hin; [by rewrite decide_True|by rewrite decide_False].
  - split; [apply Hok|]. split; [|auto]. intros p Hin. split; [done|]. intros (k & l' & Hk & Hp)%Hl. by eapply reads_ok_not_queued.
  - done.
  - intros k l' p Hk Hp. left. apply Hl. eauto.
Qed.

(** When no reader is left, nothing is lost with the queue. *)
Lemma reads_ok_drop_queue queue r : reads_ok queue r ->
  (forall p v, waiters r !! p = Some v -> waiter_done v = true \/ waiter_cancelled v = true) -> reads_ok [] r.
Proof.
  intros [Hl _ Hp Ha _] Hg. split; [done| |done|done|].
  - split; [by constructor|]. by intros p ?%elem_of_nil.
  - intros p v Hv. destruct (Hg p v Hv); auto.
Qed.
End invariant.
