(* ===== verification/MemoryTorrent.v ===== *)
(** A libtorrent with one torrent, kept in memory: the concrete instance of [Torrents] on
    which the theorems about the stream bridge are tried.  Every call succeeds. *)
From stdpp Require Import prelude strings list gmap.
From Stdlib Require Import ZArith Lia Ascii.
From S2P Require Import Prelude Text PieceCache EngineTypes BridgeState.

(** Its metadata: four pieces of 32 kibibytes, the last one short. *)
Definition demo_info : torrent_info :=
  MkInfo 32768 4 (fun p => Z.min 32768 (130000 - p * 32768)) (fun i path => path ++ str "/film.mkv")
    [MkFileInfo (str "film.nfo") 0 1000; MkFileInfo (str "film.mkv") 1000 120000; MkFileInfo (str "film.srt") 121000 9000].

Record memory := MkMemory {
  mem_clock : Z;
  mem_pieces : list bool;                       (* the pieces that are finished *)
  mem_priorities : gmap Z download_priority_t;
  mem_deadlines : gmap Z Z;
  mem_first_blocks : gmap Z Z;
  mem_reads : list Z;                           (* the pieces that were asked for *)
}.

Definition set_priority (m : gmap Z download_priority_t) (u : Z * download_priority_t) : gmap Z download_priority_t :=
  <[u.1 := u.2]> m.

#[global] Instance memory_torrents : Torrents unit memory := {|
  lt_v1_hex _ := Some (str "0123456789abcdef0123456789abcdef01234567");
  lt_v2_hex _ := None;
  lt_is_valid _ _ := true;
  lt_in_session _ _ := true;
  lt_torrent_file _ _ := Returned (Some demo_info);
  lt_save_path _ _ := Returned (str "/downloads");
  lt_query_pieces m _ := Returned (MkStatus false (mem_pieces m));
  lt_have_piece m _ p := Returned (bool_decide (mem_pieces m !! Z.to_nat p = Some true));
  lt_get_download_queue _ _ := Returned [];
  lt_read_piece m _ p :=
    (MkMemory (mem_clock m) (mem_pieces m) (mem_priorities m) (mem_deadlines m) (mem_first_blocks m) (p :: mem_reads m), Returned tt);
  lt_prioritize_pieces m _ l :=
    (MkMemory (mem_clock m) (mem_pieces m) (map_seqZ 0 l) (mem_deadlines m) (mem_first_blocks m) (mem_reads m), Returned tt);
  lt_prioritize_updates m _ l :=
    (MkMemory (mem_clock m) (mem_pieces m) (fold_left set_priority l (mem_priorities m)) (mem_deadlines m) (mem_first_blocks m)
       (mem_reads m), Returned tt);
  lt_set_piece_deadline m _ p t _ :=
    (MkMemory (mem_clock m) (mem_pieces m) (mem_priorities m) (<[p := t]> (mem_deadlines m)) (mem_first_blocks m) (mem_reads m),
     Returned tt);
  lt_reset_piece_deadline m _ p :=
    (MkMemory (mem_clock m) (mem_pieces m) (mem_priorities m) (delete p (mem_deadlines m)) (mem_first_blocks m) (mem_reads m),
     Returned tt);
  lt_set_piece_first_block m _ p b :=
    (MkMemory (mem_clock m) (mem_pieces m) (mem_priorities m) (mem_deadlines m) (<[p := b]> (mem_first_blocks m)) (mem_reads m),
     Returned tt);
  lt_clear_piece_deadlines m _ :=
    (MkMemory (mem_clock m) (mem_pieces m) (mem_priorities m) ∅ (mem_first_blocks m) (mem_reads m), Returned tt);
  lt_now m :=
    (MkMemory (mem_clock m + 1) (mem_pieces m) (mem_priorities m) (mem_deadlines m) (mem_first_blocks m) (mem_reads m), mem_clock m);
|}.

(** The first and the third piece are finished. *)
Definition demo_memory : memory := MkMemory 5 [true; false; true; false] ∅ ∅ ∅ [].
Definition demo_id : text := str "0123456789abcdef0123456789abcdef01234567".
Definition demo_route : StreamRoute unit :=
  MkRoute tt demo_id (str "token") (str "/stream/token") (str "video/x-matroska") 0 32768 1000 120000 (str "/downloads/film.mkv") 0 0.
