(* ===== verification/StreamSchedule.v ===== *)
(** What the stream bridge asks of libtorrent: [recompute_schedule] of
    src/torrent/libtorrent_stream_bridge.cpp, which turns the demands of a torrent into a
    plan, sends the difference to the previous plan as priorities, deadlines and first
    blocks, and remembers it; the theorems show that the differences add up to the plan. *)
From stdpp Require Import prelude strings list gmap.
From Stdlib Require Import ZArith Lia Ascii.
From S2P Require Import Prelude Text OrderedMap ByteRange PieceScheduler DemandPlan PieceCache EngineTypes BridgeState.

(** ** The code *)

(** [static_cast<int>(piece)] of a [std::uint32_t]. *)
Definition as_int (piece : Z) : Z := if I32_MAX <? piece then piece - 4294967296 else piece.

(** [std::unordered_map::contains]. *)
Definition map_contains {V} (key : PieceCacheKey) (m : gmap PieceCacheKey V) : bool := bool_decide (is_Some (m !! key)).

Section code.
Context {H W : Type} `{Torrents H W}.
Implicit Types (s : Impl H) (w : W) (r : Reads).

(** The piece in which a demand waits: [(file_offset + range.start) / piece_size]. *)
Definition demand_piece (route : StreamRoute H) (range : ByteRange) : Z :=
  wrap32 (wrap64 (route_file_offset route + range_start range) / route_piece_size route).

(** [std::ranges::none_of(blocks, finished)]. *)
Definition none_finished (blocks : list bool) : bool := forallb negb blocks.

(** The demand of a reader. *)
Definition reader_demand s (id : text) (demand_id : Z) (demand : ActiveDemand H) : StreamDemand :=
  let route := ad_route demand in
  let blocking_piece := demand_piece route (ad_range demand) in
  MkDemand demand_id (route_file_offset route) (route_file_size route) (route_piece_size route) (ad_range demand) reader
    (match partial_blocks (reads s) !! MkKey id blocking_piece with None => true | Some blocks => none_finished blocks end).

(** The readers of the torrent that need data. *)
Definition waiting_readers s (id : text) : list (Z * ActiveDemand H) :=
  filter (fun e => route_torrent_id (ad_route e.2) = id /\ ad_needs_data e.2 = true) (map_to_list (active_demands s)).

Definition anchor_demand (a : StreamAnchor H) : StreamDemand :=
  MkDemand 0 (route_file_offset (an_route a)) (route_file_size (an_route a)) (route_piece_size (an_route a)) (an_range a)
    (if an_prefetch a then prefetch else anchor) false.

(** The demands and the handle: the readers' or, when there are none, the anchor's. *)
Definition schedule_demands s (id : text) : list StreamDemand * option H :=
  match waiting_readers s id with
  | [] =>
    match anchors s !! id with
    | Some a => ([anchor_demand a], Some (route_handle (an_route a)))
    | None => ([], None)
    end
  | l => ((fun e => reader_demand s id e.1 e.2) <$> l, (fun e => route_handle (ad_route e.2)) <$> last l)
  end.

(** The first block wanted in the piece where each demand starts. *)
Definition schedule_first_blocks (demands : list StreamDemand) : gmap Z Z :=
  fold_left
    (fun m d =>
       let absolute := wrap64 (sd_file_offset d + range_start (sd_range d)) in
       <[wrap32 (absolute / sd_piece_size d) := absolute mod sd_piece_size d / block_bytes]> m)
    demands ∅.

Definition plan_priorities (plan : StreamDemandPlan) : list (Z * PriorityClass) :=
  fold_left (fun m p => omap_insert (pp_piece p) (pp_priority p) m) (plan_pieces plan) [].

Definition has_stream_for_torrent s (id : text) : bool :=
  existsb (fun e => text_eqb (route_torrent_id e.2) id) (map_to_list (routes s)).

(** A schedule that is kept while nothing is demanded: urgent pieces become playback. *)
Definition relax (c : PriorityClass) : PriorityClass := match c with blocking | critical => playback | c => c end.

Definition kept_priorities s (id : text) (previous : option (CurrentSchedule H)) (combined : list (Z * PriorityClass))
  : list (Z * PriorityClass) :=
  match combined, previous with
  | [], Some p => if has_stream_for_torrent s id then prod_map (fun piece => piece) relax <$> cs_priorities p else []
  | _, _ => combined
  end.

(** All priorities, for a torrent that had no schedule. *)
Definition initial_priorities (num_pieces : Z) (combined : list (Z * PriorityClass)) (cold : bool) : list download_priority_t :=
  fold_left
    (fun l (e : Z * PriorityClass) =>
       if e.1 <? Z.of_nat (length l) then <[Z.to_nat e.1 := download_priority_for e.2 cold]> l else l)
    combined (replicate (Z.to_nat num_pieces) dont_download).

(** Whether a piece is new or its priority changed. *)
Definition priority_changed (previous : CurrentSchedule H) (cold : bool) (e : Z * PriorityClass) : bool :=
  match omap_find e.1 (cs_priorities previous) with
  | None => true
  | Some old => negb (bool_decide (download_priority_for old (cs_cold previous) = download_priority_for e.2 cold))
  end.

(** The pieces that are no longer wanted, then those whose priority changed. *)
Definition priority_updates (previous : CurrentSchedule H) (combined : list (Z * PriorityClass)) (cold : bool)
  : list (Z * download_priority_t) :=
  ((fun e => (as_int e.1, dont_download)) <$>
     filter (fun e : Z * PriorityClass => omap_find e.1 combined = None) (cs_priorities previous)) ++
  ((fun e => (as_int e.1, download_priority_for e.2 cold)) <$>
     filter (fun e : Z * PriorityClass => priority_changed previous cold e = true) combined).

Definition send_priorities w (handle : H) (previous : option (CurrentSchedule H)) (combined : list (Z * PriorityClass))
    (cold : bool) : W :=
  match previous with
  | None =>
    match lt_torrent_file w handle with
    | Returned (Some metadata) => (lt_prioritize_pieces w handle (initial_priorities (info_num_pieces metadata) combined cold)).1
    | _ => w
    end
  | Some p =>
    match priority_updates p combined cold with
    | [] => w
    | updates => (lt_prioritize_updates w handle updates).1
    end
  end.

(** ** Deadlines *)

Definition reset_deadline (id : text) (handle : H) (st : Reads * W) (piece : Z) : Reads * W :=
  (with_requested_reads (delete (MkKey id piece) (requested_reads st.1)) st.1,
   (lt_reset_piece_deadline st.2 handle (as_int piece)).1).

(** [requested_reads.try_emplace(key, steady_clock::now())]. *)
Definition note_read (key : PieceCacheKey) (st : Reads * W) : Reads * W :=
  let '(w, now) := lt_now st.2 in
  (match requested_reads st.1 !! key with
   | Some _ => st.1
   | None => with_requested_reads (<[key := now]> (requested_reads st.1)) st.1
   end, w).

(** One turn of the loop over the new deadlines.  A piece that readers wait for is asked
    for with an alert. *)
Definition set_deadline (id : text) (handle : H) (jumped : bool) (previous_deadlines : list Z) (ordinal : nat)
    (piece : Z) (st : Reads * W) : Reads * W :=
  let key := MkKey id piece in
  let read_requested := map_contains key (requested_reads st.1) in
  let wants_read := map_contains key (piece_waiters st.1) && negb read_requested in
  let unchanged := negb jumped && bool_decide (previous_deadlines !! ordinal = Some piece) in
  if unchanged && negb wants_read then st
  else
    match lt_set_piece_deadline st.2 handle (as_int piece) (deadline_for ordinal) (wants_read || read_requested) with
    | (w, Returned _) => if wants_read then note_read key (st.1, w) else (st.1, w)
    | (w, Raised (Some what)) => (fail_piece key what st.1, w)
    | (w, Raised None) => (fail_piece key (str "failed to request blocking piece") st.1, w)
    end.

Fixpoint set_deadlines (id : text) (handle : H) (jumped : bool) (previous_deadlines : list Z) (ordinal : nat)
    (next_deadlines : list Z) (st : Reads * W) : Reads * W :=
  match next_deadlines with
  | [] => st
  | piece :: rest =>
    set_deadlines id handle jumped previous_deadlines (S ordinal) rest
      (set_deadline id handle jumped previous_deadlines ordinal piece st)
  end.

(** All deadlines changed, as after a seek. *)
Definition jumped_away (previous_deadlines next_deadlines : list Z) : bool :=
  negb (bool_decide (previous_deadlines = [])) && negb (bool_decide (next_deadlines = [])) &&
  forallb (fun p => negb (bool_decide (p ∈ next_deadlines))) previous_deadlines.

Definition send_deadlines (id : text) (handle : H) (previous_deadlines next_deadlines : list Z) (st : Reads * W) : Reads * W :=
  let jumped := jumped_away previous_deadlines next_deadlines in
  let st := if jumped then fold_left (reset_deadline id handle) previous_deadlines st else st in
  let st := set_deadlines id handle jumped previous_deadlines 0 next_deadlines st in
  if jumped then st
  else fold_left (reset_deadline id handle) (filter (fun p => p ∉ next_deadlines) previous_deadlines) st.

(** ** First blocks *)

(** The block a piece starts with; zero when nothing was set. *)
Definition block_of (blocks : gmap Z Z) (piece : Z) : Z := default 0 (blocks !! piece).

Definition send_first_block (handle : H) (previous_deadlines : list Z) (previous_blocks first_blocks : gmap Z Z)
    (w : W) (piece : Z) : W :=
  let block := block_of first_blocks piece in
  if negb (block =? block_of previous_blocks piece) || ((0 <? block) && negb (bool_decide (piece ∈ previous_deadlines)))
  then (lt_set_piece_first_block w handle (as_int piece) block).1
  else w.

Definition applied_first_blocks (first_blocks : gmap Z Z) (next_deadlines : list Z) : gmap Z Z :=
  fold_left
    (fun m piece =>
       let block := block_of first_blocks piece in
       if (0 <? block) && negb (bool_decide (is_Some (m !! piece))) then <[piece := block]> m else m)
    next_deadlines ∅.

(** ** The schedule that is remembered *)

Definition next_revision (previous : option (CurrentSchedule H)) (combined : list (Z * PriorityClass)) (plan : StreamDemandPlan) : Z :=
  match previous with
  | None => 1
  | Some p =>
    wrap64 (cs_revision p +
      (if bool_decide (cs_priorities p <> combined \/ cs_deadline_order p <> plan_deadline_order plan \/
                       cs_focused_demand_id p <> focused_demand_id plan) then 1 else 0))
  end.

(** The focused demand is the anchor of its torrent from now on. *)
Definition move_anchor s (id : text) (plan : StreamDemandPlan) : Impl H :=
  match active_demands s !! focused_demand_id plan with
  | Some d => with_anchors (<[id := MkAnchor (ad_route d) (ad_range d) false]> (anchors s)) s
  | None => s
  end.

(** The calls for a handle and the new schedule. *)
Definition apply_schedule (id : text) (handle : H) (previous : option (CurrentSchedule H)) (combined : list (Z * PriorityClass))
    (plan : StreamDemandPlan) (first_blocks : gmap Z Z) s w : Impl H * W :=
  let w := send_priorities w handle previous combined (plan_cold plan) in
  let previous_deadlines := match previous with Some p => cs_deadline_order p | None => [] end in
  let next_deadlines := plan_deadline_order plan in
  let jumped := jumped_away previous_deadlines next_deadlines in
  let '(r, w) := send_deadlines id handle previous_deadlines next_deadlines (reads s, w) in
  let previous_blocks := match previous with Some p => if jumped then ∅ else cs_first_blocks p | None => ∅ end in
  let w := fold_left (send_first_block handle previous_deadlines previous_blocks first_blocks) next_deadlines w in
  let s := with_reads r s in
  (match combined with
   | [] => with_current_schedules (delete id (current_schedules s)) s
   | _ =>
     with_current_schedules
       (<[id := MkSchedule handle combined next_deadlines (focused_demand_id plan)
                  (next_revision previous combined plan) (plan_cold plan) (applied_first_blocks first_blocks next_deadlines)]>
          (current_schedules s)) s
   end, w).

Definition recompute_schedule (id : text) s w : Impl H * W :=
  let '(demands, handle) := schedule_demands s id in
  match build_stream_demand_plan demands (window s) with
  | Throw _ => (s, w)
  | Ok plan =>
    let s := move_anchor s id plan in
    let previous := current_schedules s !! id in
    let handle := match handle with Some h => Some h | None => cs_handle <$> previous end in
    match handle with
    | None => (with_current_schedules (delete id (current_schedules s)) s, w)
    | Some h =>
      if negb (lt_is_valid w h) then (with_current_schedules (delete id (current_schedules s)) s, w)
      else
        apply_schedule id h previous (kept_priorities s id previous (plan_priorities plan)) plan
          (schedule_first_blocks demands) s w
    end
  end.
End code.

(** ** What a recomputation changes *)

Lemma plan_focus demands w plan : build_stream_demand_plan demands w = Ok plan ->
  (demands = [] /\ plan = MkPlan 0 [] [] false) \/ exists d, d ∈ demands /\ focused_demand_id plan = sd_id d.
Proof.
  unfold build_stream_demand_plan, sort_demands.
  destruct (reverse (stable_sort sd_id demands)) as [|focused others] eqn:E.
  - intros [= <-]. left. split; [|done]. apply (f_equal length) in E. rewrite length_reverse, (stable_sort_perm sd_id demands) in E.
    by destruct demands.
  - intros Hb. right. exists focused. split.
    + assert (Hin : focused ∈ reverse (stable_sort sd_id demands)) by (rewrite E; by left).
      by rewrite elem_of_reverse, (stable_sort_perm sd_id demands) in Hin.
    + repeat (apply bind_Ok in Hb as (? & _ & Hb)). by injection Hb as <-.
Qed.

Section frame.
Context {H W : Type} `{Torrents H W}.
Implicit Types (s : Impl H) (w : W) (r : Reads).

(** An exception of libtorrent has a message. *)
Definition messages : Prop :=
  forall w h p n f w' what, lt_set_piece_deadline w h p n f = (w', Raised (Some what)) -> what <> [].

Section reads.
(** What [fail_piece] and the table of requests keep, the deadlines keep. *)
Context (P : Reads -> Prop) (Hrequest : forall r m, P r -> P (with_requested_reads m r)).
Context (Hfail : forall r k e, P r -> e <> [] -> P (fail_piece k e r)) (Hmsg : messages).

Lemma reset_deadline_keeps id h l st : P st.1 -> P (fold_left (reset_deadline id h) l st).1.
Proof. revert st. induction l as [|p l IH]; intros st Hp; simpl; [done|]. apply IH. by apply Hrequest. Qed.

Lemma set_deadline_keeps id h j prev n p st : P st.1 -> P (set_deadline id h j prev n p st).1.
Proof.
  intros Hp. unfold set_deadline. destruct (_ && _); [done|].
  destruct (lt_set_piece_deadline _ _ _ _ _) as [w' [u|[what|]]] eqn:E; [|apply Hfail; [done|by eapply Hmsg]|by apply Hfail].
  destruct (_ && _); [|done]. unfold note_read. destruct (lt_now _) as [w2 now]. simpl.
  destruct (requested_reads _ !! _); [done|]. by apply Hrequest.
Qed.

Lemma set_deadlines_keeps id h j prev n l st : P st.1 -> P (set_deadlines id h j prev n l st).1.
Proof. revert n st. induction l as [|p l IH]; intros n st Hp; simpl; [done|]. by apply IH, set_deadline_keeps. Qed.

Lemma send_deadlines_keeps id h prev next st : P st.1 -> P (send_deadlines id h prev next st).1.
Proof.
  intros Hp. unfold send_deadlines. destruct (jumped_away prev next).
  - by apply set_deadlines_keeps, reset_deadline_keeps.
  - by apply reset_deadline_keeps, set_deadlines_keeps.
Qed.
End reads.

(** A recomputation changes the anchor and the schedule of its torrent and the readers; the
    anchor moves to a demand, of the torrent when demand zero does not exist, and a schedule
    is made or kept only for a demand, an anchor or a stream. *)
Record recomputed (id : text) s s' : Prop := {
  rc_state : s' = with_reads (reads s') (with_current_schedules (current_schedules s') (with_anchors (anchors s') s));
  rc_anchors : anchors s' = anchors s \/
    exists d a, active_demands s !! d = Some a /\ (active_demands s !! 0 = None -> route_torrent_id (ad_route a) = id) /\
      anchors s' = <[id := MkAnchor (ad_route a) (ad_range a) false]> (anchors s);
  rc_others : forall id', id' <> id -> current_schedules s' !! id' = current_schedules s !! id';
  rc_schedule : is_Some (current_schedules s' !! id) ->
    (exists d a, active_demands s !! d = Some a /\ route_torrent_id (ad_route a) = id) \/ is_Some (anchors s !! id) \/
    has_stream_for_torrent s id = true;
}.

Lemma waiting_readers_elem s id d a : (d, a) ∈ waiting_readers s id ->
  active_demands s !! d = Some a /\ route_torrent_id (ad_route a) = id /\ ad_needs_data a = true.
Proof. unfold waiting_readers. rewrite list_elem_of_filter, elem_of_map_to_list. simpl. tauto. Qed.

(** The demands of a torrent without readers and anchor are none. *)
Lemma schedule_demands_cases s id demands h : schedule_demands s id = (demands, h) ->
  (demands = [] /\ h = None /\ waiting_readers s id = [] /\ anchors s !! id = None) \/
  (exists a, demands = [anchor_demand a] /\ h = Some (route_handle (an_route a)) /\ waiting_readers s id = [] /\ anchors s !! id = Some a) \/
  (waiting_readers s id <> [] /\ demands = (fun e => reader_demand s id e.1 e.2) <$> waiting_readers s id /\
   exists d a, (d, a) ∈ waiting_readers s id /\ h = Some (route_handle (ad_route a))).
Proof.
  unfold schedule_demands. destruct (waiting_readers s id) as [|e l] eqn:E.
  - destruct (anchors s !! id) as [a|] eqn:Ea; intros [= <- <-]; [right; left; eauto|left; done].
  - intros Heq. right. right. split; [done|]. injection Heq as <- <-. split; [done|].
    destruct (last (e :: l)) as [[d a]|] eqn:El; [|by apply last_None in El]. exists d, a. split; [|done].
    apply last_Some in El as [l' ->]. apply elem_of_app. right. by left.
Qed.

Lemma move_anchor_state s id plan : move_anchor s id plan = with_anchors (anchors (move_anchor s id plan)) s.
Proof. unfold move_anchor. destruct (active_demands s !! _); by destruct s. Qed.

Lemma plan_priorities_ne plan : plan_pieces plan = [] -> plan_priorities plan = [].
Proof. unfold plan_priorities. by intros ->. Qed.

Lemma apply_schedule_state id h prev combined plan fb s w :
  let s' := (apply_schedule id h prev combined plan fb s w).1 in
  s' = with_reads (reads s') (with_current_schedules (current_schedules s') s) /\
  (forall id', id' <> id -> current_schedules s' !! id' = current_schedules s !! id') /\
  (is_Some (current_schedules s' !! id) -> combined <> []).
Proof.
  unfold apply_schedule. destruct (send_deadlines _ _ _ _ _) as [r w'] eqn:E. destruct combined as [|c combined].
  - simpl. split; [by destruct s|]. split; [intros id' Hne; by rewrite lookup_delete_ne|]. rewrite lookup_delete_eq. by intros [].
  - simpl. split; [by destruct s|]. split; [intros id' Hne; by rewrite lookup_insert_ne|done].
Qed.

Lemma recompute_changes id s w : recomputed id s (recompute_schedule id s w).1 \/
  (recompute_schedule id s w = (s, w) /\ schedule_demands s id <> ([], None)).
Proof.
  unfold recompute_schedule. destruct (schedule_demands s id) as [demands h] eqn:Ed.
  destruct (build_stream_demand_plan demands (window s)) as [plan|ex] eqn:Eb.
  2:{ right. split; [done|]. intros [= -> ->]. done. }
  left. pose proof (move_anchor_state s id plan) as Hm. set (s1 := move_anchor s id plan) in *.
  assert (Hanchor : anchors s1 = anchors s \/ exists d a, active_demands s !! d = Some a /\
     (active_demands s !! 0 = None -> route_torrent_id (ad_route a) = id) /\
     anchors s1 = <[id := MkAnchor (ad_route a) (ad_range a) false]> (anchors s)).
  { unfold s1, move_anchor. destruct (active_demands s !! focused_demand_id plan) as [a|] eqn:Ea; [|by left].
    right. exists (focused_demand_id plan), a. split; [done|]. split; [|done]. intros Hzero.
    apply plan_focus in Eb as [[-> ->]|(d & Hd & Hf)]; [simpl in Ea; congruence|].
    apply schedule_demands_cases in Ed as [(-> & _)|[(b & -> & _)|(_ & -> & _)]].
    - by apply elem_of_nil in Hd.
    - apply list_elem_of_singleton in Hd as ->. simpl in Hf. congruence.
    - apply list_elem_of_fmap in Hd as ([d' a'] & -> & Hin). simpl in Hf. apply waiting_readers_elem in Hin as (Hin & ? & _). congruence. }
  assert (Herase : recomputed id s (with_current_schedules (delete id (current_schedules s1)) s1)).
  { split; simpl; [rewrite Hm; by destruct s|done| |].
    - intros id' Hne. rewrite lookup_delete_ne by done. by rewrite Hm.
    - rewrite lookup_delete_eq. by intros []. }
  destruct (match h with Some h0 => Some h0 | None => _ end) as [h1|]; [|done].
  destruct (negb (lt_is_valid w h1)); [done|].
  set (combined := kept_priorities s1 id (current_schedules s1 !! id) (plan_priorities plan)).
  destruct (apply_schedule_state id h1 (current_schedules s1 !! id) combined plan (schedule_first_blocks demands) s1 w) as (Hs & Ho & Hne).
  set (s2 := (apply_schedule _ _ _ _ _ _ _ _).1) in *. split.
  - rewrite Hs, Hm. by destruct s.
  - rewrite Hs. simpl. done.
  - intros id' Hne'. rewrite Ho by done. by rewrite Hm.
  - intros Hsome. specialize (Hne Hsome).
    apply schedule_demands_cases in Ed as [(-> & _ & _ & _)|[(b & _ & _ & _ & Hb)|(_ & _ & d & a & Hin & _)]].
    + right. right. injection Eb as <-. unfold combined, kept_priorities in Hne. simpl in Hne.
      destruct (current_schedules s1 !! id); [|done]. destruct (has_stream_for_torrent s1 id) eqn:Es; [|done].
      rewrite Hm in Es. exact Es.
    + right. left. by rewrite Hb.
    + left. apply waiting_readers_elem in Hin as (? & ? & _). eauto.
Qed.

(** Whatever [fail_piece] and requests keep, a recomputation keeps. *)
Lemma recompute_reads (P : Reads -> Prop) id s w : messages ->
  (forall r m, P r -> P (with_requested_reads m r)) -> (forall r k e, P r -> e <> [] -> P (fail_piece k e r)) ->
  P (reads s) -> P (reads (recompute_schedule id s w).1).
Proof.
  intros Hmsg Hr Hf Hp. unfold recompute_schedule. destruct (schedule_demands s id) as [demands h].
  destruct (build_stream_demand_plan demands (window s)) as [plan|ex]; [|done].
  assert (Hm : reads (move_anchor s id plan) = reads s) by (by rewrite move_anchor_state).
  destruct (match h with Some h0 => Some h0 | None => _ end) as [h1|]; [|simpl; by rewrite Hm].
  destruct (negb _); [simpl; by rewrite Hm|]. unfold apply_schedule.
  match goal with |- context [send_deadlines ?i ?h ?p ?n ?st] => pose proof (send_deadlines_keeps P Hr Hf Hmsg i h p n st) as Hk end.
  destruct (send_deadlines _ _ _ _ _) as [r w']. simpl in *. destruct (kept_priorities _ _ _ _); simpl; apply Hk; by rewrite Hm.
Qed.
End frame.
