(* ===== verification/ScheduleView.v ===== *)
(** The differences that [recompute_schedule] sends add up to the schedule it remembers: the
    priorities and deadlines that libtorrent was last asked for are those of the schedule, for
    every sequence of recomputations.  What libtorrent was asked for is a view of its state with
    the laws of the calls. *)
From stdpp Require Import prelude strings list gmap.
From Stdlib Require Import ZArith Lia Ascii.
From S2P Require Import Prelude Text OrderedMap ByteRange PieceScheduler DemandPlan PieceCache EngineTypes BridgeState MemoryTorrent StreamSchedule.

(** ** The shape of a plan *)

(** A map from 32-bit piece indices. *)
Definition keys_ok (m : list (Z * PriorityClass)) : Prop := omap_ok m /\ Forall (fun e => is_u32 e.1) m.
Definition pieces_ok (l : list PiecePriority) : Prop := Forall (fun p => is_u32 (pp_piece p)) l.

Lemma keys_ok_insert m k c : keys_ok m -> is_u32 k -> keys_ok (omap_insert k c m).
Proof.
  intros [Hm Hk] Hu. split; [by apply omap_insert_ok|]. apply Forall_forall. intros [k' c'] Hin. apply elem_of_omap_insert in Hin as [[= -> ->]|Hin]; [done|].
  rewrite Forall_forall in Hk. by apply (Hk (k', c')).
Qed.

Lemma keys_ok_improve m k c : keys_ok m -> is_u32 k -> keys_ok (improve m k c).
Proof. intros Hm Hk. unfold improve. destruct (omap_find k m) as [old|]; [destruct (_ <? _); [|done]|]; by apply keys_ok_insert. Qed.

(** Entries stay, and what is improved has one. *)
Lemma improve_find m k c k' : keys_ok m -> is_Some (omap_find k' m) \/ k' = k -> is_Some (omap_find k' (improve m k c)).
Proof.
  intros [Hm _] Hk. unfold improve. destruct (omap_find k m) as [old|] eqn:E; [destruct (_ <? _)|]; rewrite ?omap_find_insert by done.
  - destruct (Z.eqb_spec k' k); [by eexists|]. by destruct Hk.
  - destruct Hk as [?| ->]; [done|]. by rewrite E.
  - destruct (Z.eqb_spec k' k); [by eexists|]. by destruct Hk.
Qed.

Lemma keys_ok_merge s m : keys_ok m -> pieces_ok s -> keys_ok (merge_schedule m s).
Proof.
  unfold merge_schedule. revert m. induction s as [|p s IH]; intros m Hm Hs; simpl; [done|]. apply Forall_cons in Hs as [? ?].
  apply IH; [|done]. by apply keys_ok_improve.
Qed.

Lemma merge_find s m k : keys_ok m -> pieces_ok s -> is_Some (omap_find k m) \/ (exists c, MkPriority k c ∈ s) -> is_Some (omap_find k (merge_schedule m s)).
Proof.
  unfold merge_schedule. revert m. induction s as [|[p c] s IH]; intros m Hm Hs; simpl.
  - by intros [?|[c Hc%elem_of_nil]].
  - apply Forall_cons in Hs as [Hp Hs]. intros Hk. apply IH; [by apply keys_ok_improve|done|].
    destruct Hk as [?|[d [[= -> ->]|?]%elem_of_cons]]; [left; apply improve_find; auto|left; apply improve_find; auto|right; eauto].
Qed.

Lemma keys_ok_range m req r c m' : keys_ok m -> add_range m req r c = Ok m' -> keys_ok m'.
Proof.
  intros Hm. unfold add_range. destruct (_ || _); [by intros [= <-]|]. destruct (U32_MAX <? _); [done|]. intros [= <-].
  generalize (zseq (saturating_add (file_offset req) (range_start r) / piece_size req)
    (Z.to_nat (saturating_add (file_offset req) (Z.min (range_end r) (file_size req - 1)) / piece_size req -
       saturating_add (file_offset req) (range_start r) / piece_size req + 1))) as l.
  intros l. revert m Hm. induction l as [|x l IH]; intros m Hm; simpl; [done|]. apply IH, keys_ok_improve; [done|]. apply wrap32_u32.
Qed.

Lemma keys_ok_window req n c st st' : keys_ok st.1 -> add_window req n c st = Ok st' -> keys_ok st'.1.
Proof.
  destruct st as [m next]. unfold add_window. intros Hm. destruct (_ && _); [|by intros [= <-]].
  intros (m' & Hr & [= <-])%bind_Ok. by eapply keys_ok_range.
Qed.

Lemma sorted_pieces m : keys_ok m -> pieces_ok (stable_sort priority_rank (to_schedule m)).
Proof.
  intros [_ Hk]. unfold pieces_ok. rewrite (stable_sort_perm priority_rank (to_schedule m)). apply Forall_fmap. eapply Forall_impl; [exact Hk|]. done.
Qed.

Lemma schedule_pieces_ok req l : build_piece_schedule req = Ok l -> pieces_ok l.
Proof.
  unfold build_piece_schedule. destruct (_ =? 0); [done|]. destruct (_ =? 0); [intros [= <-]; apply Forall_nil_2|]. destruct (_ || _); [done|].
  intros (m & H1 & (s2 & H2 & (s3 & H3 & (s4 & H4 & (m5 & H5 & [= <-])%bind_Ok)%bind_Ok)%bind_Ok)%bind_Ok)%bind_Ok.
  apply sorted_pieces. assert (keys_ok m) as Hm by (eapply keys_ok_range; [|exact H1]; split; [apply omap_ok_nil|by constructor]).
  eapply keys_ok_window in H2; [|done]. eapply keys_ok_window in H3; [|done]. eapply keys_ok_window in H4; [|done].
  unfold add_tail in H5. destruct (_ <? _); [eapply keys_ok_range; [exact H4|exact H5]|by injection H5 as <-].
Qed.

Lemma set_class_pieces f l : pieces_ok l -> pieces_ok (set_class f <$> l).
Proof. intros Hl. apply Forall_fmap. eapply Forall_impl; [exact Hl|]. done. Qed.

(** The set and the list of deadlines agree, and every deadline has an entry in the map. *)
Definition order_ok (m : list (Z * PriorityClass)) (st : gset Z * list Z) : Prop :=
  NoDup st.2 /\ (forall p, p ∈ st.1 <-> p ∈ st.2) /\ forall p, p ∈ st.2 -> is_u32 p /\ is_Some (omap_find p m).

Lemma order_ok_mono m m' st : order_ok m st -> (forall p, is_Some (omap_find p m) -> is_Some (omap_find p m')) -> order_ok m' st.
Proof. intros (? & ? & Hin) Hmono. split; [done|]. split; [done|]. intros p Hp. destruct (Hin p Hp). auto. Qed.

Lemma order_ok_push m c s st : order_ok m st -> pieces_ok s -> (forall p d, MkPriority p d ∈ s -> is_Some (omap_find p m)) -> order_ok m (push_class c st s).
Proof.
  unfold push_class. revert st. induction s as [|[p d] s IH]; intros st Hst Hs Hf; simpl; [done|]. apply Forall_cons in Hs as [Hp Hs].
  apply IH; [|done|]; [|intros q e He; apply (Hf q e); by right]. case_decide; [|done]. unfold push_once. case_decide as Hin; [done|].
  destruct Hst as (Hnd & Heq & Hall). split; simpl; [|split].
  - apply NoDup_app. split; [done|]. split; [|apply NoDup_singleton]. intros x Hx ->%list_elem_of_singleton. apply Hin, Heq, Hx.
  - intros x. rewrite elem_of_app, elem_of_union, Heq. set_solver.
  - intros x [Hx| ->%list_elem_of_singleton]%elem_of_app; [by apply Hall|]. split; [done|]. apply (Hf p d). by left.
Qed.

Lemma add_other_shape st d st' : keys_ok st.1 -> order_ok st.1 st.2 -> add_other st d = Ok st' -> keys_ok st'.1 /\ order_ok st'.1 st'.2.
Proof.
  intros Hk Ho. unfold add_other. case_decide; [|by intros [= <-]]. intros (s & Hs & [= <-])%bind_Ok. apply schedule_pieces_ok in Hs. simpl.
  split; [by apply keys_ok_merge|]. apply order_ok_push; [|done|].
  - eapply order_ok_mono; [exact Ho|]. intros p Hp. apply merge_find; auto.
  - intros p c Hp. apply merge_find; eauto.
Qed.

Lemma add_others_shape l st st' : keys_ok st.1 -> order_ok st.1 st.2 -> fold_result add_other st l = Ok st' -> keys_ok st'.1 /\ order_ok st'.1 st'.2.
Proof.
  revert st. induction l as [|d l IH]; intros st Hk Ho; simpl; [by intros [= <-]|]. intros (st1 & H1 & H2)%bind_Ok.
  destruct (add_other_shape st d st1 Hk Ho H1) as [? ?]. by eapply IH.
Qed.

(** The deadlines of a plan are different 32-bit indices, of pieces that the plan lists. *)
Record plan_ok (plan : StreamDemandPlan) : Prop := {
  po_nodup : NoDup (plan_deadline_order plan);
  po_u32 : Forall is_u32 (plan_deadline_order plan);
  po_pieces : pieces_ok (plan_pieces plan);
  po_listed : plan_pieces plan = [] -> plan_deadline_order plan = [];
}.

Lemma build_plan_ok demands w plan : build_stream_demand_plan demands w = Ok plan -> plan_ok plan.
Proof.
  unfold build_stream_demand_plan. destruct (reverse (sort_demands demands)) as [|focused others]; [intros [= <-]; by repeat constructor|].
  intros (fs & Hfs & (combined & Hc & (st & Hst & [= <-])%bind_Ok)%bind_Ok)%bind_Ok. apply schedule_pieces_ok in Hfs.
  set (fs' := if decide (sd_kind focused = reader) then fs else set_class demote <$> fs) in *.
  assert (Hfs' : pieces_ok fs') by (unfold fs'; case_decide; [done|by apply set_class_pieces]).
  assert (Hm : keys_ok (merge_schedule [] fs')) by (apply keys_ok_merge; [split; [apply omap_ok_nil|by constructor]|done]).
  assert (Hcomb : keys_ok combined /\ forall p c, MkPriority p c ∈ fs' -> is_Some (omap_find p combined)).
  { unfold add_head in Hc. assert (Hf : forall p c, MkPriority p c ∈ fs' -> is_Some (omap_find p (merge_schedule [] fs'))).
    { intros p c Hp. apply merge_find; [split; [apply omap_ok_nil|by constructor]|done|eauto]. }
    destruct (_ <? _); [|by injection Hc as <-]. apply bind_Ok in Hc as (head & Hh%schedule_pieces_ok & [= <-]).
    pose proof (set_class_pieces (fun _ => playback) head Hh). split; [by apply keys_ok_merge|]. intros p c Hp. apply merge_find; eauto. }
  destruct Hcomb as [Hcomb Hin].
  assert (Ho : order_ok combined (push_class blocking (∅, []) fs')).
  { apply order_ok_push; [|done|done]. split; [constructor|]. split; [set_solver|]. by intros p ?%elem_of_nil. }
  destruct (add_others_shape others (combined, _) st Hcomb Ho Hst) as [Hk Hord].
  assert (Hfinal : order_ok st.1 (push_class critical st.2 (to_schedule st.1))).
  { apply order_ok_push; [done| |].
    - apply Forall_fmap. eapply Forall_impl; [apply Hk|]. done.
    - intros p c ([k v] & [= -> ->] & Hkv)%list_elem_of_fmap. simpl. apply omap_find_elem in Hkv; [by rewrite Hkv|apply Hk]. }
  destruct Hfinal as (Hnd & _ & Hall). split; simpl; [done| |by apply sorted_pieces|].
  - apply Forall_forall. intros p Hp. by apply Hall.
  - intros Hnil. destruct (push_class critical st.2 (to_schedule st.1)).2 as [|p l]; [done|]. destruct (Hall p) as [_ [c Hc']]; [by left|].
    apply omap_find_elem in Hc'; [|apply Hk]. assert (Hx : MkPriority p c ∈ stable_sort priority_rank (to_schedule st.1)).
    { rewrite (stable_sort_perm priority_rank (to_schedule st.1)). apply list_elem_of_fmap. by exists (p, c). }
    rewrite Hnil in Hx. by apply elem_of_nil in Hx.
Qed.

Lemma plan_priorities_ok plan : plan_ok plan -> keys_ok (plan_priorities plan) /\ (plan_priorities plan = [] -> plan_pieces plan = []).
Proof.
  intros [_ _ Hp _]. unfold plan_priorities.
  assert (Hg : forall l m, keys_ok m -> pieces_ok l -> keys_ok (fold_left (fun m p => omap_insert (pp_piece p) (pp_priority p) m) l m) /\
    (m <> [] -> fold_left (fun m p => omap_insert (pp_piece p) (pp_priority p) m) l m <> [])).
  { induction l as [|p l IH]; intros m Hm Hl; simpl; [done|]. apply Forall_cons in Hl as [? ?].
    destruct (IH (omap_insert (pp_piece p) (pp_priority p) m)) as [Hk Hne]; [by apply keys_ok_insert|done|]. split; [done|]. intros _. apply Hne.
    destruct m as [|[k v] m]; simpl; [done|]. by repeat case_match. }
  assert (Hnil : keys_ok []) by (split; [apply omap_ok_nil|by constructor]).
  split; [by apply Hg|]. destruct (plan_pieces plan) as [|p l]; [done|]. apply Forall_cons in Hp as [? ?]. simpl. intros He. exfalso. revert He.
  apply (Hg l (omap_insert (pp_piece p) (pp_priority p) [])); [by apply keys_ok_insert|done|done].
Qed.

(** ** What libtorrent was asked for *)

(** The update that counts: the last one. *)
Fixpoint last_update (i : Z) (l : list (Z * download_priority_t)) : option download_priority_t :=
  match l with
  | [] => None
  | (j, p) :: l => match last_update i l with Some q => Some q | None => if j =? i then Some p else None end
  end.

(** The priority and the deadline of a piece in a schedule. *)
Definition priority_of (m : list (Z * PriorityClass)) (cold : bool) (i : Z) : download_priority_t :=
  match omap_find i m with Some c => download_priority_for c cold | None => dont_download end.

Fixpoint due_from (ordinal : nat) (order : list Z) (i : Z) : option Z :=
  match order with
  | [] => None
  | p :: order => if as_int p =? i then Some (deadline_for ordinal) else due_from (S ordinal) order i
  end.

Section view.
Context {H W : Type} `{Torrents H W}.
(** The priority and the deadline a piece was last asked for. *)
Context (asked : W -> H -> Z -> download_priority_t) (due : W -> H -> Z -> option Z).
Implicit Types (s : Impl H) (w : W) (h : H).

(** The calls do what they say, on a handle for which they succeed. *)
Record view_laws : Prop := {
  vl_pieces : forall w h l i p, 0 <= i -> l !! Z.to_nat i = Some p -> asked (lt_prioritize_pieces w h l).1 h i = p;
  vl_updates : forall w h l i, asked (lt_prioritize_updates w h l).1 h i = default (asked w h i) (last_update i l);
  vl_set : forall w h p t f, exists w', lt_set_piece_deadline w h p t f = (w', Returned tt) /\
    (forall i, asked w' h i = asked w h i) /\ forall i, due w' h i = if p =? i then Some t else due w h i;
  vl_reset : forall w h p, let w' := (lt_reset_piece_deadline w h p).1 in
    (forall i, asked w' h i = asked w h i) /\ forall i, due w' h i = if p =? i then None else due w h i;
  vl_kept : forall w h w', (exists l, w' = (lt_prioritize_pieces w h l).1) \/ (exists l, w' = (lt_prioritize_updates w h l).1) -> forall i, due w' h i = due w h i;
  vl_still : forall w h w', (exists p b, w' = (lt_set_piece_first_block w h p b).1) \/ w' = (lt_now w).1 ->
    forall i, asked w' h i = asked w h i /\ due w' h i = due w h i;
}.

(** The schedule is what libtorrent was asked for; without one nothing is due. *)
Definition applied (n : Z) w h (o : option (CurrentSchedule H)) : Prop :=
  match o with
  | None => forall i, due w h i = None
  | Some cs =>
    (forall i, 0 <= i < n -> asked w h i = priority_of (cs_priorities cs) (cs_cold cs) i) /\
    forall i, due w h i = due_from 0 (cs_deadline_order cs) i
  end.

(** A schedule as [recompute_schedule] makes it. *)
Definition schedule_ok (o : option (CurrentSchedule H)) : Prop :=
  match o with
  | None => True
  | Some cs => keys_ok (cs_priorities cs) /\ NoDup (cs_deadline_order cs) /\ Forall is_u32 (cs_deadline_order cs)
  end.

Lemma as_int_inj p q : is_u32 p -> is_u32 q -> as_int p = as_int q -> p = q.
Proof. unfold as_int. intros. zcases; ulia. Qed.

Lemma as_int_small p i : is_u32 p -> 0 <= i <= I32_MAX -> (as_int p =? i) = (p =? i).
Proof. unfold as_int. intros. zcases; ulia. Qed.

(** *** Priorities *)

Lemma find_below {V} (m : list (Z * V)) k i : omap_ok m -> (forall k' v', (k', v') ∈ m -> k < k') -> i <= k -> omap_find i m = None.
Proof.
  intros Hm Hlt Hi. destruct (omap_find i m) as [v|] eqn:E; [|done]. apply omap_find_elem in E; [|done]. specialize (Hlt _ _ E). lia.
Qed.

Lemma initial_lookup m cold l i : keys_ok m -> 0 <= i < Z.of_nat (length l) ->
  fold_left (fun l (e : Z * PriorityClass) =>
    if e.1 <? Z.of_nat (length l) then <[Z.to_nat e.1 := download_priority_for e.2 cold]> l else l) m l !! Z.to_nat i =
  match omap_find i m with Some c => Some (download_priority_for c cold) | None => l !! Z.to_nat i end.
Proof.
  intros [Hm Hu] Hi. revert l Hi. induction m as [|[k c] m IH]; intros l Hi; [done|].
  apply omap_ok_cons in Hm as [Hm Hlt]. apply Forall_cons in Hu as [Hk Hu]. simpl in Hk. cbn [fold_left fst snd omap_find].
  set (l' := if k <? Z.of_nat (length l) then _ else l).
  assert (Hlen : length l' = length l) by (unfold l'; destruct (_ <? _); [apply length_insert|done]).
  rewrite IH by (done || by rewrite Hlen). destruct (Z.eqb_spec i k) as [->|Hne].
  - rewrite (find_below m k k) by (done || lia). unfold l'. destruct (Z.ltb_spec k (Z.of_nat (length l))); [|lia]. apply list_lookup_insert_eq. lia.
  - assert (Hold : l' !! Z.to_nat i = l !! Z.to_nat i) by (unfold l'; destruct (_ <? _); [apply list_lookup_insert_ne; ulia|done]).
    rewrite Hold. destruct (Z.ltb_spec i k); [|done]. by rewrite (find_below m k i) by (done || lia).
Qed.

(** The updates for some entries of a map. *)
Lemma last_update_app i l1 l2 : last_update i (l1 ++ l2) = match last_update i l2 with Some p => Some p | None => last_update i l1 end.
Proof.
  induction l1 as [|[j p] l1 IH]; simpl; [by destruct (last_update i l2)|]. rewrite IH. by destruct (last_update i l2).
Qed.

Lemma last_update_map (P : Z * PriorityClass -> Prop) `{!forall e, Decision (P e)} (g : Z * PriorityClass -> download_priority_t) m i :
  keys_ok m -> 0 <= i <= I32_MAX ->
  last_update i ((fun e => (as_int e.1, g e)) <$> filter P m) =
  match omap_find i m with Some c => if decide (P (i, c)) then Some (g (i, c)) else None | None => None end.
Proof.
  intros [Hm Hu] Hi. induction m as [|[k c] m IH]; [done|]. apply omap_ok_cons in Hm as [Hm Hlt]. apply Forall_cons in Hu as [Hk Hu]. simpl in Hk.
  specialize (IH Hm Hu). rewrite filter_cons. cbn [omap_find]. destruct (Z.eqb_spec i k) as [->|Hne].
  - rewrite (find_below m k k) in IH by (done || lia). case_decide; [|exact IH]. rewrite fmap_cons. cbn [last_update fst]. rewrite IH, as_int_small by done.
    by rewrite Z.eqb_refl.
  - assert (Hfind : (if i <? k then None else omap_find i m) = omap_find i m).
    { destruct (Z.ltb_spec i k); [|done]. symmetry. apply (find_below m k); [done|done|lia]. }
    rewrite Hfind. case_decide; [|exact IH]. rewrite fmap_cons. cbn [last_update fst]. rewrite IH, as_int_small by done.
    destruct (Z.eqb_spec k i); [congruence|]. by destruct (match omap_find i m with Some _ => _ | None => _ end).
Qed.

Lemma send_priorities_asked n w h prev combined cold : view_laws -> 0 <= n <= I32_MAX -> keys_ok combined -> schedule_ok prev ->
  (prev = None -> exists md, lt_torrent_file w h = Returned (Some md) /\ info_num_pieces md = n) ->
  (forall cs i, prev = Some cs -> 0 <= i < n -> asked w h i = priority_of (cs_priorities cs) (cs_cold cs) i) ->
  forall i, 0 <= i < n -> asked (send_priorities w h prev combined cold) h i = priority_of combined cold i.
Proof.
  intros laws Hn Hc Hp Hmeta Hprev i Hi. unfold send_priorities. destruct prev as [cs|].
  - specialize (Hprev cs i eq_refl Hi).
    assert (Hgoal : default (asked w h i) (last_update i (priority_updates cs combined cold)) = priority_of combined cold i).
    { rewrite Hprev. unfold priority_updates. destruct Hp as [Hp _]. rewrite last_update_app, !last_update_map by (done || lia).
      unfold priority_of, priority_changed. simpl. destruct (omap_find i combined) as [c|] eqn:E; destruct (omap_find i (cs_priorities cs)) as [old|] eqn:E';
        try done. case_decide as Hd; [done|]. simpl. apply not_true_iff_false, negb_false_iff, bool_decide_eq_true in Hd. done. }
    destruct (priority_updates cs combined cold) as [|u l] eqn:E; [exact Hgoal|]. rewrite (vl_updates laws). exact Hgoal.
  - destruct (Hmeta eq_refl) as (md & -> & <-). eapply (vl_pieces laws); [lia|]. unfold initial_priorities.
    rewrite initial_lookup by (done || rewrite length_replicate; lia). unfold priority_of. destruct (omap_find i combined); [done|].
    apply lookup_replicate. split; [done|lia].
Qed.

Lemma send_priorities_due w h prev combined cold i : view_laws -> due (send_priorities w h prev combined cold) h i = due w h i.
Proof.
  intros laws. unfold send_priorities. destruct prev as [cs|].
  - destruct (priority_updates _ _ _); [done|]. apply (vl_kept laws). eauto.
  - destruct (lt_torrent_file w h) as [[md|]|]; [|done..]. apply (vl_kept laws). eauto.
Qed.

(** *** Deadlines *)

Lemma due_from_none k l i : (forall p, p ∈ l -> as_int p <> i) -> due_from k l i = None.
Proof.
  revert k. induction l as [|p l IH]; intros k Hl; simpl; [done|]. destruct (Z.eqb_spec (as_int p) i) as [He|]; [exfalso; apply (Hl p); [by left|done]|].
  apply IH. intros q Hq. apply Hl. by right.
Qed.

Lemma due_from_some k l i t : due_from k l i = Some t -> exists p, p ∈ l /\ as_int p = i.
Proof.
  revert k. induction l as [|p l IH]; intros k; simpl; [done|]. destruct (Z.eqb_spec (as_int p) i); [intros _; exists p; split; [by left|done]|].
  intros (q & Hq & ?)%IH. exists q. split; [by right|done].
Qed.

Lemma due_from_lookup k l o p : NoDup l -> Forall is_u32 l -> l !! o = Some p -> due_from k l (as_int p) = Some (deadline_for (k + o)).
Proof.
  revert k o. induction l as [|q l IH]; intros k o Hnd Hu Ho; [done|]. apply NoDup_cons in Hnd as [Hq Hnd]. apply Forall_cons in Hu as [Hqu Hu]. simpl.
  destruct o as [|o]; simpl in Ho.
  - injection Ho as ->. by rewrite Z.eqb_refl, Nat.add_0_r.
  - assert (Hp : is_u32 p) by (rewrite Forall_forall in Hu; apply Hu; by eapply list_elem_of_lookup_2).
    destruct (Z.eqb_spec (as_int q) (as_int p)) as [He%as_int_inj|]; [subst; destruct Hq; by eapply list_elem_of_lookup_2|done|done|].
    rewrite (IH (S k) o Hnd Hu Ho). f_equal. f_equal. lia.
Qed.

Section deadlines.
Context (laws : view_laws) (id : text) (h : H).
Implicit Types st : Reads * W.

Lemma reset_deadlines_view l st : let st' := fold_left (reset_deadline id h) l st in
  (forall i, asked st'.2 h i = asked st.2 h i) /\ forall i, due st'.2 h i = if decide (i ∈ as_int <$> l) then None else due st.2 h i.
Proof.
  revert st. induction l as [|p l IH]; intros st; [done|]. cbn [fold_left].
  destruct (IH (reset_deadline id h st p)) as [Ia Id]. destruct (vl_reset laws st.2 h (as_int p)) as [Ra Rd]. simpl in Ia, Id, Ra, Rd.
  split; intros i; [by rewrite Ia|]. rewrite Id, Rd. destruct (Z.eqb_spec (as_int p) i) as [<-|Hne].
  - rewrite (decide_True (P := as_int p ∈ as_int <$> p :: l)) by (rewrite fmap_cons; by left). by case_decide.
  - destruct (decide (i ∈ as_int <$> l)); [rewrite decide_True by (rewrite fmap_cons; by right)|rewrite decide_False by (rewrite fmap_cons; by intros [?|?]%elem_of_cons)]; done.
Qed.

Lemma set_deadline_view jumped prev k p st : let st' := set_deadline id h jumped prev k p st in
  (jumped = false -> prev !! k = Some p -> due st.2 h (as_int p) = Some (deadline_for k)) ->
  (forall i, asked st'.2 h i = asked st.2 h i) /\ forall i, due st'.2 h i = if as_int p =? i then Some (deadline_for k) else due st.2 h i.
Proof.
  intros st' Hsame. unfold st', set_deadline. clear st'. cbv zeta. destruct (negb jumped && _ && _) eqn:Eu.
  - apply andb_true_iff in Eu as [[Hj%negb_true_iff Hp%bool_decide_eq_true]%andb_true_iff _]. specialize (Hsame Hj Hp).
    split; [done|]. intros i. by destruct (Z.eqb_spec (as_int p) i) as [<-|].
  - match goal with |- context [lt_set_piece_deadline _ _ _ _ ?f] => destruct (vl_set laws st.2 h (as_int p) (deadline_for k) f) as (w' & -> & Ha & Hd) end.
    clear Eu. destruct (map_contains _ _ && _); [|done]. unfold note_read. cbn [fst snd]. pose proof (vl_still laws w' h (lt_now w').1 ltac:(by right)) as Hs.
    destruct (lt_now w') as [w2 now]. cbn [fst snd] in *. split; intros i; destruct (Hs i) as [E1 E2]; rewrite ?E1, ?E2; done.
Qed.

Lemma set_deadlines_view jumped prev l k st : NoDup l -> Forall is_u32 l ->
  (forall o p, l !! o = Some p -> jumped = false -> prev !! (k + o)%nat = Some p -> due st.2 h (as_int p) = Some (deadline_for (k + o))) ->
  let st' := set_deadlines id h jumped prev k l st in
  (forall i, asked st'.2 h i = asked st.2 h i) /\ forall i, due st'.2 h i = match due_from k l i with Some t => Some t | None => due st.2 h i end.
Proof.
  revert k st. induction l as [|p l IH]; intros k st Hnd Hu Hsame; [done|]. apply NoDup_cons in Hnd as [Hp Hnd]. apply Forall_cons in Hu as [Hpu Hu]. simpl.
  destruct (set_deadline_view jumped prev k p st) as [Sa Sd].
  { intros Hj Hk. pose proof (Hsame 0%nat p eq_refl Hj) as Hx. rewrite Nat.add_0_r in Hx. by apply Hx. }
  destruct (IH (S k) (set_deadline id h jumped prev k p st) Hnd Hu) as [Ia Id].
  { intros o q Ho Hj Hk. rewrite Sd. destruct (Z.eqb_spec (as_int p) (as_int q)) as [He|].
    - apply as_int_inj in He as ->; [by destruct Hp; eapply list_elem_of_lookup_2|done|]. rewrite Forall_forall in Hu. apply Hu. by eapply list_elem_of_lookup_2.
    - replace (S k + o)%nat with (k + S o)%nat in * by lia. by apply (Hsame (S o) q). }
  split; [intros i; by rewrite Ia|]. intros i. rewrite Id, Sd. destruct (Z.eqb_spec (as_int p) i) as [<-|]; [|done].
  rewrite due_from_none; [done|]. intros q Hq He. apply as_int_inj in He as ->; [done| |done]. rewrite Forall_forall in Hu. by apply Hu.
Qed.

Lemma send_deadlines_view prev next st : NoDup prev -> Forall is_u32 prev -> NoDup next -> Forall is_u32 next ->
  (forall i, due st.2 h i = due_from 0 prev i) ->
  let st' := send_deadlines id h prev next st in
  (forall i, asked st'.2 h i = asked st.2 h i) /\ forall i, due st'.2 h i = due_from 0 next i.
Proof.
  intros Np Up Nn Un Hdue. unfold send_deadlines. destruct (jumped_away prev next); simpl.
  - destruct (reset_deadlines_view prev st) as [Ra Rd].
    assert (Hnone : forall i, due (fold_left (reset_deadline id h) prev st).2 h i = None).
    { intros i. rewrite Rd. case_decide as Hl; [done|]. rewrite Hdue. apply due_from_none. intros p Hp <-. apply Hl. by apply list_elem_of_fmap_2. }
    destruct (set_deadlines_view true prev next 0 (fold_left (reset_deadline id h) prev st) Nn Un ltac:(done)) as [Sa Sd].
    split; intros i; [by rewrite Sa|]. rewrite Sd, Hnone. by destruct (due_from 0 next i).
  - destruct (set_deadlines_view false prev next 0 st Nn Un) as [Sa Sd].
    { intros o p _ _ Hp. rewrite Hdue. by apply (due_from_lookup 0 prev o p). }
    destruct (reset_deadlines_view (filter (fun p => p ∉ next) prev) (set_deadlines id h false prev 0 next st)) as [Ra Rd].
    split; intros i; [by rewrite Ra|]. rewrite Rd. case_decide as Hl.
    + apply list_elem_of_fmap in Hl as (p & -> & [Hn Hp]%list_elem_of_filter). symmetry. apply due_from_none. intros q Hq He.
      apply as_int_inj in He as ->; [done| |]; [rewrite Forall_forall in Un; by apply Un|rewrite Forall_forall in Up; by apply Up].
    + rewrite Sd, Hdue. destruct (due_from 0 next i) as [t|] eqn:En; [done|].
      destruct (due_from 0 prev i) as [t|] eqn:Ep; [|done]. apply due_from_some in Ep as (p & Hp & <-). destruct Hl. apply list_elem_of_fmap_2.
      apply list_elem_of_filter. split; [|done]. intros Hn. apply list_elem_of_lookup_1 in Hn as [o Ho].
      by rewrite (due_from_lookup 0 next o p Nn Un Ho) in En.
Qed.
End deadlines.

(** *** The whole schedule *)

Lemma first_blocks_view h prev pb fb l w : view_laws -> let w' := fold_left (send_first_block h prev pb fb) l w in
  forall i, asked w' h i = asked w h i /\ due w' h i = due w h i.
Proof.
  intros laws. revert w. induction l as [|p l IH]; intros w w' i; [done|]. unfold w'. cbn [fold_left]. destruct (IH (send_first_block h prev pb fb w p) i) as [-> ->].
  unfold send_first_block. destruct (_ || _); [|done]. apply (vl_still laws). eauto.
Qed.

Definition order_of (o : option (CurrentSchedule H)) : list Z := match o with Some cs => cs_deadline_order cs | None => [] end.

Lemma apply_schedule_applied n id h prev combined plan fb s w : view_laws -> 0 <= n <= I32_MAX -> keys_ok combined -> schedule_ok prev -> plan_ok plan ->
  (combined = [] -> plan_deadline_order plan = []) -> (prev = None -> exists md, lt_torrent_file w h = Returned (Some md) /\ info_num_pieces md = n) ->
  applied n w h prev ->
  let '(s', w') := apply_schedule id h prev combined plan fb s w in
  (forall i, 0 <= i < n -> asked w' h i = priority_of combined (plan_cold plan) i) /\ (forall i, due w' h i = due_from 0 (plan_deadline_order plan) i) /\
  applied n w' h (current_schedules s' !! id) /\ schedule_ok (current_schedules s' !! id).
Proof.
  intros laws Hn Hk Hprev Hplan Hnil Hmeta Happ. unfold apply_schedule. fold (order_of prev).
  set (w1 := send_priorities w h prev combined (plan_cold plan)).
  assert (Hasked : forall i, 0 <= i < n -> asked w1 h i = priority_of combined (plan_cold plan) i).
  { apply send_priorities_asked; try done. intros cs i -> Hi. by apply Happ. }
  assert (Hdue : forall i, due w1 h i = due_from 0 (order_of prev) i).
  { intros i. unfold w1. rewrite send_priorities_due by done. destruct prev as [cs|]; [apply Happ|apply Happ]. }
  assert (Hord : NoDup (order_of prev) /\ Forall is_u32 (order_of prev)) by (destruct prev as [cs|]; [by destruct Hprev|by split; constructor]).
  destruct (send_deadlines_view laws id h (order_of prev) (plan_deadline_order plan) (reads s, w1)) as [Da Dd];
    [apply Hord|apply Hord|apply Hplan|apply Hplan|exact Hdue|].
  destruct (send_deadlines _ _ _ _ _) as [r w2]. cbn [fst snd] in Da, Dd.
  set (pb := match prev with Some p => _ | None => _ end). pose proof (first_blocks_view h (order_of prev) pb fb (plan_deadline_order plan) w2 laws) as Hf.
  cbv zeta in Hf. set (w3 := fold_left _ _ w2) in *.
  assert (Ha : forall i, 0 <= i < n -> asked w3 h i = priority_of combined (plan_cold plan) i).
  { intros i Hi. destruct (Hf i) as [-> _]. rewrite Da. by apply Hasked. }
  assert (Hd : forall i, due w3 h i = due_from 0 (plan_deadline_order plan) i) by (intros i; destruct (Hf i) as [_ ->]; apply Dd).
  split; [exact Ha|]. split; [exact Hd|]. destruct combined as [|e l]; simpl.
  - rewrite lookup_delete_eq. split; [|done]. intros i. by rewrite Hd, Hnil.
  - rewrite lookup_insert_eq. split; [by split|]. split; [done|]. split; apply Hplan.
Qed.

(** The handle that a recomputation uses. *)
Definition handle_of s (id : text) : option H :=
  match (schedule_demands s id).2 with Some h => Some h | None => cs_handle <$> current_schedules s !! id end.

Lemma kept_priorities_ok s id prev combined : schedule_ok prev -> keys_ok combined -> keys_ok (kept_priorities s id prev combined).
Proof.
  intros Hp Hc. unfold kept_priorities. destruct combined as [|e l]; [|done]. destruct prev as [cs|]; [|done].
  destruct (has_stream_for_torrent s id); [|done]. destruct Hp as [[Ho Hu] _]. split.
  - unfold omap_ok in *. by rewrite <-list_fmap_compose.
  - apply Forall_fmap. eapply Forall_impl; [exact Hu|]. by intros [k c].
Qed.
End view.

(** C4. The differences that a recomputation sends add up: when libtorrent was asked for the
    schedule that is remembered, it is asked for the new one afterwards, every piece with its
    priority and every deadline in its place, none left over; and when pieces are wanted that
    schedule is the plan of the demands. *)
Theorem recompute_schedule_applied {H W} `{Torrents H W} (asked : W -> H -> Z -> download_priority_t) (due : W -> H -> Z -> option Z)
    (laws : view_laws asked due) (n : Z) (id : text) (h : H) (s : Impl H) (w : W)
    (Hn : 0 <= n <= I32_MAX) (Hmeta : exists md, lt_torrent_file w h = Returned (Some md) /\ info_num_pieces md = n)
    (Hh : handle_of s id = Some h) (Hvalid : lt_is_valid w h = true)
    (Hok : schedule_ok (current_schedules s !! id)) (Happ : applied asked due n w h (current_schedules s !! id)) :
  let '(s', w') := recompute_schedule id s w in
  applied asked due n w' h (current_schedules s' !! id) /\ schedule_ok (current_schedules s' !! id) /\
  forall plan, build_stream_demand_plan (schedule_demands s id).1 (window s) = Ok plan -> plan_pieces plan <> [] ->
    (forall i, 0 <= i < n -> asked w' h i = priority_of (plan_priorities plan) (plan_cold plan) i) /\
    forall i, due w' h i = due_from 0 (plan_deadline_order plan) i.
Proof.
  unfold handle_of in Hh. unfold recompute_schedule. destruct (schedule_demands s id) as [demands h0]. cbn [fst snd] in *.
  destruct (build_stream_demand_plan demands (window s)) as [plan|e] eqn:Eb; [|done].
  pose proof (build_plan_ok _ _ _ Eb) as Hplan. destruct (plan_priorities_ok plan Hplan) as [Hk Hne].
  pose proof (move_anchor_state s id plan) as Hm. set (s1 := move_anchor s id plan) in *.
  assert (Hc : current_schedules s1 = current_schedules s) by (by rewrite Hm). rewrite Hc, Hh, Hvalid. cbn [negb].
  set (combined := kept_priorities s1 id (current_schedules s !! id) (plan_priorities plan)).
  assert (Hcomb : plan_pieces plan <> [] -> combined = plan_priorities plan).
  { intros Hp. unfold combined, kept_priorities. destruct (plan_priorities plan); [|done]. by destruct Hp; apply Hne. }
  assert (Hnil : combined = [] -> plan_deadline_order plan = []).
  { intros E. apply (po_listed _ Hplan). destruct (plan_pieces plan) as [|p l] eqn:Ep; [done|]. rewrite Hcomb in E by done. by apply Hne. }
  pose proof (apply_schedule_applied asked due n id h (current_schedules s !! id) combined plan (schedule_first_blocks demands) s1 w laws Hn
    (kept_priorities_ok s1 id _ _ Hok Hk) Hok Hplan Hnil (fun _ => Hmeta) Happ) as Hres.
  destruct (apply_schedule _ _ _ _ _ _ _ _) as [s' w']. destruct Hres as (Ha & Hd & Happ' & Hok'). split; [done|]. split; [done|].
  intros plan' [= <-] Hp. rewrite Hcomb in Ha by done. done.
Qed.

(** ** The torrent in memory *)

Definition memory_asked (m : memory) (_ : unit) (i : Z) : download_priority_t := default dont_download (mem_priorities m !! i).
Definition memory_due (m : memory) (_ : unit) (i : Z) : option Z := mem_deadlines m !! i.

Lemma memory_updates l (m : gmap Z download_priority_t) i :
  default dont_download (fold_left set_priority l m !! i) = default (default dont_download (m !! i)) (last_update i l).
Proof.
  revert m. induction l as [|[j p] l IH]; intros m; simpl; [done|]. rewrite IH. destruct (last_update i l); [done|]. unfold set_priority. simpl.
  destruct (Z.eqb_spec j i) as [->|Hne]; simpl; [by rewrite lookup_insert_eq|rewrite lookup_insert_ne by done]. done.
Qed.

Lemma memory_view : view_laws memory_asked memory_due.
Proof.
  split.
  - intros w h l i p Hi Hp. unfold memory_asked. simpl. rewrite lookup_map_seqZ, option_guard_True by lia. rewrite Z.sub_0_r. by rewrite Hp.
  - intros. unfold memory_asked. simpl. apply memory_updates.
  - intros w h p t f. eexists. split; [done|]. split; [done|]. intros i. unfold memory_due. simpl.
    destruct (Z.eqb_spec p i) as [->|]; [by rewrite lookup_insert_eq|by rewrite lookup_insert_ne].
  - intros w h p. split; [done|]. intros i. unfold memory_due. simpl.
    destruct (Z.eqb_spec p i) as [->|]; [by rewrite lookup_delete_eq|by rewrite lookup_delete_ne].
  - intros w h w' [[l ->]|[l ->]] i; done.
  - intros w h w' [(p & b & ->)| ->] i; done.
Qed.

(** A reader waits for bytes of the second piece of the film, which had no schedule. *)
Definition demo_waiting : Impl unit :=
  with_active_demands {[1 := MkActive 1 demo_route (MkRange 40000 50000) 0 true]}
    (with_routes {[route_target demo_route := demo_route]} (new_impl 1048576 1073741824 1000)).

Lemma recompute_schedule_applied_witness :
  let '(s', w') := recompute_schedule demo_id demo_waiting demo_memory in
  memory_asked w' tt 1 = top_priority /\ memory_due w' tt 1 = Some 0 /\ applied memory_asked memory_due 4 w' tt (current_schedules s' !! demo_id).
Proof.
  pose proof (recompute_schedule_applied memory_asked memory_due memory_view 4 demo_id tt demo_waiting demo_memory ltac:(lia)
    (ex_intro _ demo_info (conj eq_refl eq_refl)) ltac:(vm_compute; reflexivity) eq_refl I (fun i => eq_refl)) as Hx.
  assert (Hv : let '(s', w') := recompute_schedule demo_id demo_waiting demo_memory in memory_asked w' tt 1 = top_priority /\ memory_due w' tt 1 = Some 0)
    by (vm_compute; split; reflexivity).
  destruct (recompute_schedule demo_id demo_waiting demo_memory) as [s' w']. destruct Hx as [Hx _], Hv as [Hv1 Hv2]. split; [exact Hv1|]. split; [exact Hv2|exact Hx].
Defined.
