(* ===== verification/StreamBridge.v ===== *)
(** The stream bridge on the engine's thread: the operations of
    src/torrent/libtorrent_stream_bridge.cpp that register and stop streams, take the
    commands of the HTTP threads and the alerts of libtorrent, and the operations of the
    HTTP threads on the shared state; then the invariant of that state and what the
    operations guarantee. *)
From stdpp Require Import prelude strings list gmap.
From Stdlib Require Import ZArith Lia Ascii.
From S2P Require Import Prelude Text OrderedMap ByteRange PieceScheduler DemandPlan PieceCache EngineTypes BridgeState StreamSchedule.

(** ** The code *)

Section code.
Context {H W : Type} `{Torrents H W}.
Implicit Types (s : Impl H) (w : W) (r : Reads).

(** *** The HTTP threads' accesses *)

Definition enqueue s (command : HttpCommand H) : bool * Impl H :=
  if shutting_down s then (false, s)
  else if maximum_http_commands <=? Z.of_nat (length (commands s)) then (false, s)
  else (true, with_commands (commands s ++ [command]) s).

Definition enqueue_end s (demand_id : Z) : Impl H := with_commands (commands s ++ [end_demand demand_id]) s.

(** [routes.find(target)] with [acquire_http_request], under [routes_mutex]. *)
Definition find_route s (target : text) : option (StreamRoute H) * Impl H :=
  match routes s !! target with
  | None => (None, s)
  | Some route => (Some route, with_activities (alter acquire_http_request (route_activity route) (activities s)) s)
  end.

(** [next_demand_id.fetch_add(1)] and [make_shared<DemandState>()]. *)
Definition new_demand s : Z * nat * Impl H :=
  (next_demand_id s, length (demand_states s),
   with_demand_states (demand_states s ++ [false]) (with_next_demand_id (wrap64 (next_demand_id s + 1)) s)).

(** [make_shared<PieceWaiter>()]. *)
Definition make_waiter s (demand_id : Z) : nat * Impl H :=
  (length (waiters (reads s)), with_reads (with_waiters (waiters (reads s) ++ [new_waiter demand_id]) (reads s)) s).

(** [waiter->cancelled = true]. *)
Definition cancel_waiter s (p : nat) : Impl H :=
  with_reads
    (with_waiters
       (alter (fun v => MkWaiter (waiter_data v) (waiter_error v) (waiter_done v) true (waiter_demand_id v) (waiter_finished_blocks v))
          p (waiters (reads s))) (reads s)) s.

(** *** Streams *)

Definition route_is_active s (route : StreamRoute H) : bool :=
  match routes s !! route_target route with
  | None => false
  | Some active => text_eqb (route_stream_id active) (route_stream_id route) &&
                   text_eqb (route_torrent_id active) (route_torrent_id route)
  end.

Definition piece_available s w (route : StreamRoute H) (piece : Z) : bool :=
  contains (piece_cache s) (MkKey (route_torrent_id route) piece) ||
  match lt_have_piece w (route_handle route) (as_int piece) with Returned b => b | Raised _ => false end.

Definition erase_anchor (stream_id : text) s : Impl H :=
  with_anchors (filter (fun e => route_stream_id (an_route e.2) <> stream_id) (anchors s)) s.

(** [demand.state->cancelled.store(true)]. *)
Definition cancel_state (p : nat) s : Impl H := with_demand_states (<[p := true]> (demand_states s)) s.

Definition stream_target (stream_id : text) : text := str "/stream/" ++ stream_id.

(** The loop of [stop_stream] over the demands: [id] is the torrent found so far. *)
Definition stop_demand (stream_id : text) (st : text * Impl H) (entry : Z * ActiveDemand H) : text * Impl H :=
  let '(id, s) := st in
  let route := ad_route entry.2 in
  if decide (route_stream_id route <> stream_id) then st
  else
    let id := match id with [] => route_torrent_id route | _ => id end in
    let s := cancel_state (ad_state entry.2) s in
    let s := with_reads (cancel_demand_waiters entry.1 (str "stream was stopped") (reads s)) s in
    (id, with_active_demands (delete entry.1 (active_demands s)) s).

Definition stop_stream (stream_id : text) s w : (Impl H * W) * text :=
  let target := stream_target stream_id in
  let s := erase_anchor stream_id s in
  let '(id, s) :=
    match routes s !! target with
    | None => ([], s)
    | Some route => (route_torrent_id route, with_next_progress_sample 0 (with_routes (delete target (routes s)) s))
    end in
  let '(id, s) := fold_left (stop_demand stream_id) (map_to_list (active_demands s)) (id, s) in
  (match id with [] => (s, w) | _ => recompute_schedule id s w end, id).

(** The loop of [remove_torrent] over the demands. *)
Definition remove_demand (id : text) s (entry : Z * ActiveDemand H) : Impl H :=
  if decide (route_torrent_id (ad_route entry.2) = id) then
    with_active_demands (delete entry.1 (active_demands s)) (cancel_state (ad_state entry.2) s)
  else s.

Definition remove_torrent (id : text) s w : Impl H * W :=
  let s := with_revoked_torrents ({[id]} ∪ revoked_torrents s) s in
  let s := with_anchors (delete id (anchors s)) s in
  let s := with_piece_cache (erase_torrent (piece_cache s) id) s in
  let s := with_last_ready_pieces (delete id (last_ready_pieces s)) s in
  let r := with_requested_reads (filter (fun e => key_torrent_id e.1 <> id) (requested_reads (reads s))) (reads s) in
  let r := with_partial_blocks (filter (fun e => key_torrent_id e.1 <> id) (partial_blocks r)) r in
  let s := with_reads r s in
  let s := with_next_progress_sample 0 (with_routes (filter (fun e => route_torrent_id e.2 <> id) (routes s)) s) in
  let s := fold_left (remove_demand id) (map_to_list (active_demands s)) s in
  let '(s, w) := recompute_schedule id s w in
  (with_reads (remove_waiters id (reads s)) s, w).

(** *** Pieces *)

(** [written_blocks]: the blocks of the piece that libtorrent has finished. *)
Definition mark_finished (index : Z) (blocks : list bool) (p : partial_piece_info) : list bool :=
  if decide (pp_piece_index p <> index) then blocks
  else
    let count := Nat.min (length blocks) (Z.to_nat (Z.max (pp_blocks_in_piece p) 0)) in
    imap (fun i b => if (i <? count)%nat then bool_decide (pp_blocks p !! i = Some block_finished) else b) blocks.

Definition written_blocks w (handle : H) (metadata : torrent_info) (piece : Z) : list bool :=
  let index := as_int piece in
  let piece_bytes := Z.max (info_piece_size metadata index) 0 in
  let blocks := replicate (Z.to_nat ((piece_bytes + block_bytes - 1) / block_bytes)) false in
  match lt_get_download_queue w handle with
  | Returned queue => fold_left (mark_finished index) queue blocks
  | Raised _ => blocks
  end.

(** [demand.needs_data = value] through the reference into [active_demands]. *)
Definition set_needs_data (demand_id : Z) (value : bool) s : Impl H :=
  with_active_demands
    (alter (fun d => MkActive (ad_id d) (ad_route d) (ad_range d) (ad_state d) value) demand_id (active_demands s)) s.

Definition on_reads (f : Reads -> Reads) s : Impl H := with_reads (f (reads s)) s.

(** A downloaded piece is read, once. *)
Definition request_read (route : StreamRoute H) (piece : Z) s w : Impl H * W :=
  let key := MkKey (route_torrent_id route) piece in
  let '(w, now) := lt_now w in
  match requested_reads (reads s) !! key with
  | Some _ => (s, w)
  | None =>
    let s := on_reads (fun r => with_requested_reads (<[key := now]> (requested_reads r)) r) s in
    match lt_read_piece w (route_handle route) (as_int piece) with
    | (w, Returned _) => (s, w)
    | (w, Raised _) =>
      let s := on_reads (fun r => with_requested_reads (delete key (requested_reads r)) r) s in
      (on_reads (fail_piece key (str "failed to read a downloaded piece")) s, w)
    end
  end.

Definition process_piece_request (demand_id : Z) (route : StreamRoute H) (piece : Z) (p : nat) s w
  : (Impl H * W) * outcome unit :=
  let handle := route_handle route in
  if bool_decide (route_torrent_id route ∈ revoked_torrents s) || negb (lt_is_valid w handle) || negb (lt_in_session w handle)
  then ((on_reads (complete_waiter p None (str "torrent is unavailable")) s, w), Returned tt)
  else
    match lt_torrent_file w handle with
    | Raised e => ((s, w), Raised e)
    | Returned None => ((on_reads (complete_waiter p None (str "torrent piece is out of range")) s, w), Returned tt)
    | Returned (Some metadata) =>
      if wrap32 (info_num_pieces metadata) <=? piece then
        ((on_reads (complete_waiter p None (str "torrent piece is out of range")) s, w), Returned tt)
      else
        let key := MkKey (route_torrent_id route) piece in
        let '(cached, cache) := get (piece_cache s) key in
        let s := with_piece_cache cache s in
        match cached with
        | Some data =>
          let s := with_last_ready_pieces (<[route_torrent_id route := piece]> (last_ready_pieces s)) s in
          let s := set_needs_data demand_id false s in
          ((on_reads (complete_waiter p (Some data) []) s, w), Returned tt)
        | None =>
          let s := on_reads (fun r =>
            with_piece_waiters (<[key := default [] (piece_waiters r !! key) ++ [p]]> (piece_waiters r)) r) s in
          let available := piece_available s w route piece in
          let s := set_needs_data demand_id (negb available) s in
          if available then (request_read route piece s w, Returned tt)
          else
            let blocks :=
              match partial_blocks (reads s) !! key with
              | Some blocks => blocks
              | None => written_blocks w handle metadata piece
              end in
            ((on_reads (fun r => publish_blocks p blocks (with_partial_blocks (<[key := blocks]> (partial_blocks r)) r)) s, w),
             Returned tt)
        end
    end.

(** *** [poll] *)

(** One command; [changed] are the torrents whose schedule is to be made again. *)
Definition poll_command (command : HttpCommand H) (changed : gset text) s w : (Impl H * W) * outcome (gset text) :=
  match command with
  | begin_demand demand_id route range state =>
    if negb (bool_decide (route_torrent_id route ∈ revoked_torrents s)) && route_is_active s route then
      let needs_data := negb (piece_available s w route (demand_piece route range)) in
      ((with_active_demands (<[demand_id := MkActive demand_id route range state needs_data]> (active_demands s)) s, w),
       Returned ({[route_torrent_id route]} ∪ changed))
    else ((cancel_state state s, w), Returned changed)
  | end_demand demand_id =>
    match active_demands s !! demand_id with
    | Some found =>
      ((with_active_demands (delete demand_id (active_demands s)) s, w),
       Returned ({[route_torrent_id (ad_route found)]} ∪ changed))
    | None => ((s, w), Returned changed)
    end
  | read_piece demand_id route range piece p _ =>
    match active_demands s !! demand_id with
    | Some demand =>
      if default true (demand_states s !! ad_state demand) then
        ((on_reads (complete_waiter p None (str "stream demand is no longer active")) s, w), Returned changed)
      else
        let demand' := MkActive (ad_id demand) (ad_route demand) range (ad_state demand) (ad_needs_data demand) in
        let s := with_active_demands (<[demand_id := demand']> (active_demands s)) s in
        match process_piece_request demand_id route piece p s w with
        | (sw, Returned _) => (sw, Returned ({[route_torrent_id (ad_route demand)]} ∪ changed))
        | (sw, Raised e) => (sw, Raised e)
        end
    | None => ((on_reads (complete_waiter p None (str "stream demand is no longer active")) s, w), Returned changed)
    end
  end.

Fixpoint poll_commands (l : list (HttpCommand H)) (changed : gset text) s w : (Impl H * W) * outcome (gset text) :=
  match l with
  | [] => ((s, w), Returned changed)
  | command :: l =>
    match poll_command command changed s w with
    | ((s, w), Returned changed) => poll_commands l changed s w
    | ((s, w), Raised e) => ((s, w), Raised e)
    end
  end.

(** One piece of [reissue_stalled_reads]. *)
Definition reissue_read (now : Z) (st : Impl H * W) (entry : PieceCacheKey * list nat) : Impl H * W :=
  let '(s, w) := st in
  let key := entry.1 in
  if match requested_reads (reads s) !! key with Some at_ => now - at_ <? seconds 2 | None => false end then st
  else
    match list_find (fun e : Z * ActiveDemand H => route_torrent_id (ad_route e.2) = key_torrent_id key)
            (map_to_list (active_demands s)) with
    | None => st
    | Some (_, demand) =>
      let handle := route_handle (ad_route demand.2) in
      match lt_have_piece w handle (as_int (key_piece key)) with
      | Returned true =>
        match lt_read_piece w handle (as_int (key_piece key)) with
        | (w, Returned _) => (on_reads (fun r => with_requested_reads (<[key := now]> (requested_reads r)) r) s, w)
        | (w, Raised _) => (s, w)
        end
      | _ => st
      end
    end.

Definition reissue_stalled_reads s w : Impl H * W :=
  let '(w, now) := lt_now w in
  if bool_decide (piece_waiters (reads s) = ∅) || (now <? next_read_watchdog s) then (s, w)
  else
    fold_left (reissue_read now) (map_to_list (piece_waiters (reads s))) (with_next_read_watchdog (now + seconds 1) s, w).

(** Whether the loop of [expire_inactive_streams] keeps a route. *)
Definition stays s (now : Z) (route : StreamRoute H) : bool :=
  existsb (fun e => text_eqb (route_stream_id (ad_route e.2)) (route_stream_id route)) (map_to_list (active_demands s)) ||
  negb (default false ((fun a => is_inactive a now (inactivity_timeout s)) <$> activities s !! route_activity route)).

Definition expire_stream (st : Impl H * W) (stream : StoppedStream) : Impl H * W :=
  let '(s, w) := recompute_schedule (st_torrent_id stream) (erase_anchor (st_stream_id stream) st.1) st.2 in
  (with_expired_streams (expired_streams s ++ [stream]) s, w).

Definition expire_inactive_streams s w : Impl H * W :=
  if inactivity_timeout s =? 0 then (s, w)
  else
    let '(w, now) := lt_now w in
    if now <? next_inactivity_check s then (s, w)
    else
      let check_interval := clamp (inactivity_timeout s / milliseconds 1 / 2) 25 1000 in
      let s := with_next_inactivity_check (now + milliseconds check_interval) s in
      let gone := filter (fun e : text * StreamRoute H => stays s now e.2 = false) (map_to_list (routes s)) in
      let expired := (fun e => MkStopped (route_torrent_id e.2) (route_stream_id e.2)) <$> gone in
      let s := match gone with
               | [] => s
               | _ => with_next_progress_sample 0 (with_routes (filter (fun e => stays s now e.2 = true) (routes s)) s)
               end in
      fold_left expire_stream expired (s, w).

Definition poll s w : (Impl H * W) * outcome unit :=
  match poll_commands (commands s) ∅ (with_commands [] s) w with
  | (sw, Raised e) => (sw, Raised e)
  | ((s, w), Returned changed) =>
    let s := on_reads prune_cancelled_waiters s in
    let '(s, w) := fold_left (fun st id => recompute_schedule id st.1 st.2) (elements changed) (s, w) in
    let '(s, w) := reissue_stalled_reads s w in
    (expire_inactive_streams s w, Returned tt)
  end.

Definition pop_expired_streams s : list StoppedStream * Impl H := (expired_streams s, with_expired_streams [] s).

(** *** Alerts *)

(** [static_cast<std::uint32_t>] of an [int]. *)
Definition alert_key (handle : H) (piece : Z) : PieceCacheKey := MkKey (torrent_id handle) (wrap32 piece).

Definition handle_read_piece (alert : read_piece_alert H) s : Impl H :=
  let key := alert_key (rp_handle alert) (rp_piece alert) in
  let s := on_reads (fun r =>
    with_partial_blocks (delete key (partial_blocks r)) (with_requested_reads (delete key (requested_reads r)) r)) s in
  match rp_error alert, rp_buffer alert with
  | None, Some ((_ :: _) as data) =>
    let s := with_last_ready_pieces (<[key_torrent_id key := key_piece key]> (last_ready_pieces s)) s in
    let s := with_piece_cache (put (piece_cache s) key (Some data) true true).2 s in
    on_reads (fun r =>
      match piece_waiters r !! key with
      | None => r
      | Some l =>
        let r := complete_waiters l (Some data) [] r in
        with_piece_waiters (delete key (piece_waiters r)) r
      end) s
  | error, _ => on_reads (fail_piece key (match error with Some message => message | None => str "verified piece is empty" end)) s
  end.

Definition handle_block_finished (alert : block_finished_alert H) s w : Impl H * W :=
  if bool_decide (partial_blocks (reads s) = ∅) then (s, w)
  else
    let key := alert_key (bf_handle alert) (bf_piece_index alert) in
    match partial_blocks (reads s) !! key with
    | None => (s, w)
    | Some blocks =>
      if (bf_block_index alert <? 0) || (Z.of_nat (length blocks) <=? bf_block_index alert) then (s, w)
      else
        let first_data := none_finished blocks in
        let s := on_reads (fun r =>
          with_partial_blocks (<[key := <[Z.to_nat (bf_block_index alert) := true]> blocks]> (partial_blocks r)) r) s in
        let s := on_reads (publish_partial key) s in
        if first_data then recompute_schedule (key_torrent_id key) s w else (s, w)
    end.

Definition handle_hash_failed (alert : hash_failed_alert H) s : Impl H :=
  let key := alert_key (hf_handle alert) (hf_piece_index alert) in
  match partial_blocks (reads s) !! key with
  | None => s
  | Some blocks =>
    let s := on_reads (fun r => with_partial_blocks (<[key := replicate (length blocks) false]> (partial_blocks r)) r) s in
    on_reads (publish_partial key) s
  end.

(** *** Registering and ending *)

(** [PreparedStream]: the stream and the path of its URL. *)
Record PreparedStream := MkPrepared { ps_stream_id : text; ps_url : text }.

Definition stop_all (st : Impl H * W) (stream_id : text) : Impl H * W := (stop_stream stream_id st.1 st.2).1.

(** [token] is what [security::random_hex_token(32)] returned, [port] the server's port. *)
Definition register_stream (handle : H) (id : text) (file_index : Z) (file : TorrentFileInfo) (token : outcome text) (port : Z) s w
  : (Impl H * W) * outcome PreparedStream :=
  if shutting_down s then ((s, w), Raised (Some (str "stream bridge is shutting down")))
  else
    let unavailable := ((s, w), Raised (Some (str "torrent piece metadata is unavailable"))) in
    match lt_torrent_file w handle with
    | Raised e => ((s, w), Raised e)
    | Returned None => unavailable
    | Returned (Some metadata) =>
      if info_piece_length metadata <=? 0 then unavailable
      else
        match token, lt_save_path w handle with
        | Raised e, _ | _, Raised e => ((s, w), Raised e)
        | Returned stream_id, Returned save_path =>
          let '(w, now) := lt_now w in
          let route :=
            MkRoute handle id stream_id (stream_target stream_id) (content_type_for_path (fi_path file)) file_index
              (info_piece_length metadata) (fi_offset file) (fi_size file) (info_file_path metadata file_index save_path)
              (length (activities s)) (length (delivered s)) in
          let s := with_activities (activities s ++ [MkActivity 0 now]) (with_delivered (delivered s ++ [0]) s) in
          let previous_streams :=
            (fun e => route_stream_id e.2) <$> filter (fun e : text * StreamRoute H => route_torrent_id e.2 = id) (map_to_list (routes s)) in
          let '(s, w) := fold_left stop_all previous_streams (s, w) in
          let s := with_routes (<[route_target route := route]> (routes s)) s in
          let s := with_next_progress_sample 0 s in
          let s := with_last_ready_pieces (delete id (last_ready_pieces s)) s in
          let s := with_revoked_torrents (revoked_torrents s ∖ {[id]}) s in
          let prepared := MkPrepared stream_id (str "http://127.0.0.1:" ++ to_string port ++ route_target route) in
          if 0 <? route_file_size route then
            match blocking_demand_range (MkRange 0 (route_file_size route - 1)) 0 (route_file_offset route) (route_piece_size route) with
            | Throw e => ((s, w), Raised (Some (str (exn_what e))))
            | Ok range =>
              let s := with_anchors (<[id := MkAnchor route range true]> (anchors s)) s in
              (recompute_schedule id s w, Returned prepared)
            end
          else ((s, w), Returned prepared)
        end
    end.

(** [shutdown] up to [server->stop()], and from there on: the handlers have returned. *)
Definition shutdown_begin s : Impl H :=
  if shutting_down s then s
  else on_reads (end_waiters (str "engine is shutting down")) (with_shutting_down true s).

Definition clear_deadlines w (entry : text * CurrentSchedule H) : W := (lt_clear_piece_deadlines w (cs_handle entry.2)).1.

Definition shutdown_end s w : Impl H * W :=
  let s := with_commands [] s in
  let w := fold_left clear_deadlines (map_to_list (current_schedules s)) w in
  let s := with_current_schedules ∅ s in
  let s := on_reads (fun r => with_partial_blocks ∅ (with_requested_reads ∅ r)) s in
  let s := with_last_ready_pieces ∅ (with_anchors ∅ s) in
  let s := with_piece_cache (clear (piece_cache s)) s in
  let s := fold_left (fun s (entry : Z * ActiveDemand H) => cancel_state (ad_state entry.2) s) (map_to_list (active_demands s)) s in
  let s := with_expired_streams [] (with_active_demands ∅ s) in
  (with_stream_progress_cache [] (with_routes ∅ s), w).
End code.

(** ** The invariant of the streams *)

Section streams.
Context {H W : Type} `{Torrents H W}.
Implicit Types (s : Impl H) (w : W).

(** The stream of a route is registered. *)
Definition served s (route : StreamRoute H) : Prop :=
  exists active, routes s !! route_target route = Some active /\
    route_stream_id active = route_stream_id route /\ route_torrent_id active = route_torrent_id route.

Definition has_stream s (id : text) : Prop := exists t route, routes s !! t = Some route /\ route_torrent_id route = id.

(** The sizes of a route are what their types hold, and its pieces are not empty. *)
Definition route_wf (route : StreamRoute H) : Prop :=
  0 < route_piece_size route <= I32_MAX /\ is_u64 (route_file_offset route) /\ is_u64 (route_file_size route).

Record streams_core s : Prop := {
  sc_targets : forall t route, routes s !! t = Some route ->
    t = route_target route /\ t = stream_target (route_stream_id route) /\ route_torrent_id route <> [] /\ route_wf route;
  sc_single : forall t1 t2 r1 r2, routes s !! t1 = Some r1 -> routes s !! t2 = Some r2 ->
    route_torrent_id r1 = route_torrent_id r2 -> t1 = t2;
  sc_demands : forall d a, active_demands s !! d = Some a -> 1 <= d /\ ad_id a = d /\ served s (ad_route a);
  sc_anchors : forall id a, anchors s !! id = Some a -> route_torrent_id (an_route a) = id /\ served s (an_route a);
  sc_revoked : forall id, id ∈ revoked_torrents s -> ~ has_stream s id;
}.

(** A torrent has a schedule only while it has a stream. *)
Definition scheduled_ok s (id : text) : Prop := is_Some (current_schedules s !! id) -> has_stream s id.

Definition streams_ok s : Prop := streams_core s /\ forall id, scheduled_ok s id.

Lemma has_stream_spec s id : has_stream_for_torrent s id = true <-> has_stream s id.
Proof.
  unfold has_stream_for_torrent, has_stream. rewrite existsb_exists. split.
  - intros ([t route] & Hin & Ht). exists t, route. apply list_elem_of_In, elem_of_map_to_list in Hin.
    split; [done|]. by apply bool_decide_eq_true in Ht.
  - intros (t & route & Hr & Ht). exists (t, route). rewrite <-list_elem_of_In, elem_of_map_to_list. split; [done|].
    by apply bool_decide_eq_true.
Qed.

Lemma route_is_active_spec s route : route_is_active s route = true <-> served s route.
Proof.
  unfold route_is_active, served, text_eqb. destruct (routes s !! route_target route) as [a|]; [|naive_solver].
  rewrite andb_true_iff, !bool_decide_eq_true. naive_solver.
Qed.

Lemma served_stream s route : served s route -> has_stream s (route_torrent_id route).
Proof. intros (a & Ha & _ & Ht). by exists (route_target route), a. Qed.

Lemma new_streams_ok m d i : streams_ok (new_impl (H := H) m d i).
Proof. split; [split; simpl; done|]. intros id [? ?]. done. Qed.

(** The invariant depends on these members only. *)
Lemma streams_core_ext s s' : streams_core s -> routes s' = routes s -> active_demands s' = active_demands s ->
  anchors s' = anchors s -> revoked_torrents s' = revoked_torrents s -> streams_core s'.
Proof.
  intros [? ? ? ? ?] Er Ea En Ev. unfold served, has_stream in *.
  split; unfold served, has_stream; rewrite ?Er, ?Ea, ?En, ?Ev; done.
Qed.

Lemma streams_ok_ext s s' : streams_ok s -> routes s' = routes s -> active_demands s' = active_demands s ->
  anchors s' = anchors s -> revoked_torrents s' = revoked_torrents s -> current_schedules s' = current_schedules s -> streams_ok s'.
Proof.
  intros [Hc Hs] Er Ea En Ev Ec. split; [by eapply streams_core_ext|]. intros id. specialize (Hs id).
  unfold scheduled_ok, has_stream in *. by rewrite Ec, Er.
Qed.

(** Demands may change as long as they are served. *)
Lemma streams_ok_demands s m : streams_ok s ->
  (forall d a, m !! d = Some a -> 1 <= d /\ ad_id a = d /\ served s (ad_route a)) -> streams_ok (with_active_demands m s).
Proof. intros [[? ? ? ? ?] Hs] Hm. split; [by split|done]. Qed.

Lemma streams_ok_needs s d b : streams_ok s -> streams_ok (set_needs_data d b s).
Proof.
  intros Hok. apply streams_ok_demands; [done|]. intros d' a. rewrite lookup_alter. case_decide as Hd.
  - subst d'. destruct (active_demands s !! d) as [a0|] eqn:E; [|done]. intros [= <-]. by apply Hok in E.
  - intros Ha. by apply Hok in Ha.
Qed.

(** Without a stream there is nothing to demand. *)
Lemma no_stream_no_demands s id : streams_core s -> ~ has_stream s id -> schedule_demands s id = ([], None).
Proof.
  intros [_ _ Cd Ca _] Hn. unfold schedule_demands. destruct (waiting_readers s id) as [|[d a] l] eqn:E.
  - destruct (anchors s !! id) as [a|] eqn:Ea; [|done]. destruct Hn. destruct (Ca id a Ea) as [<- ?]. by apply served_stream.
  - destruct Hn. assert (Hin : (d, a) ∈ waiting_readers s id) by (rewrite E; by left).
    apply waiting_readers_elem in Hin as (Hin & <- & _). by apply served_stream, (Cd d a).
Qed.

(** A recomputation establishes the invariant of its torrent's schedule. *)
Lemma recompute_streams_ok id s w : streams_core s -> (forall id', id' <> id -> scheduled_ok s id') ->
  streams_ok (recompute_schedule id s w).1.
Proof.
  intros Hc Ho.
  assert (Hid : scheduled_ok s id \/ schedule_demands s id = ([], None)).
  { destruct (has_stream_for_torrent s id) eqn:E; [left; intros _; by apply has_stream_spec|right].
    apply no_stream_no_demands; [done|]. rewrite <-has_stream_spec. congruence. }
  destruct (recompute_changes id s w) as [[Hst Ha Hsc Hs]|[Heq Hne]].
  - set (s' := (recompute_schedule id s w).1) in *.
    assert (Hr : routes s' = routes s) by (by rewrite Hst). assert (Hd : active_demands s' = active_demands s) by (by rewrite Hst).
    assert (Hv : revoked_torrents s' = revoked_torrents s) by (by rewrite Hst).
    assert (Hzero : active_demands s !! 0 = None).
    { destruct (active_demands s !! 0) as [a|] eqn:E; [|done]. apply (sc_demands _ Hc) in E as [? _]. lia. }
    assert (Hserved : forall route, served s' route <-> served s route) by (intros; unfold served; by rewrite Hr).
    assert (Hhas : forall i, has_stream s' i <-> has_stream s i) by (intros; unfold has_stream; by rewrite Hr).
    pose proof Hc as [Ct Cs Cd Ca Cv]. split; [split|].
    + rewrite Hr. apply Ct.
    + rewrite Hr. apply Cs.
    + intros d a. rewrite Hd. intros Hda. destruct (Cd d a Hda) as (? & ? & ?). by rewrite Hserved.
    + intros i a Hi. rewrite Hserved. destruct Ha as [Ha|(d & a' & Hda & Htor & Ha)]; rewrite Ha in Hi; [by apply Ca|].
      apply lookup_insert_Some in Hi as [[<- <-]|[Hne Hi]]; [|by apply Ca]. simpl. split; [by apply Htor|]. by apply (Cd d a').
    + intros i. rewrite Hv, Hhas. apply Cv.
    + intros i Hi. rewrite Hhas. destruct (decide (i = id)) as [->|Hne]; [|rewrite Hsc in Hi by done; by apply (Ho i)].
      destruct (Hs Hi) as [(d & a & Hda & <-)|[[a Han]|Hst']].
      * by apply served_stream, (Cd d a).
      * destruct (Ca id a Han) as [<- ?]. by apply served_stream.
      * by apply has_stream_spec.
  - rewrite Heq. split; [done|]. intros i. destruct (decide (i = id)) as [->|Hn]; [|by apply Ho]. destruct Hid; done.
Qed.

Lemma recompute_keeps id s w : streams_ok s -> streams_ok (recompute_schedule id s w).1.
Proof. intros [Hc Hs]. apply recompute_streams_ok; auto. Qed.

Lemma recompute_all_keep l s w : streams_ok s -> streams_ok (fold_left (fun st id => recompute_schedule id st.1 st.2) l (s, w)).1.
Proof.
  revert s w. induction l as [|id l IH]; intros s w Hok; simpl; [done|].
  pose proof (recompute_keeps id s w Hok). destruct (recompute_schedule id s w). by apply IH.
Qed.
End streams.

(** ** Stopping *)

(** A loop over the demands that deletes those for which a test holds. *)
Lemma fold_delete {S V} (f : S -> Z * V -> S) (table : S -> gmap Z V) (cond : V -> bool) :
  (forall s e, table (f s e) = if cond e.2 then delete e.1 (table s) else table s) ->
  forall s, table (fold_left f (map_to_list (table s)) s) = filter (fun e => cond e.2 = false) (table s).
Proof.
  intros Hf s.
  assert (Hl : forall l s, forall d, table (fold_left f l s) !! d =
    if decide (Exists (fun e => e.1 = d /\ cond e.2 = true) l) then None else table s !! d).
  { induction l as [|e l IH]; intros s1 d; cbn [fold_left].
    - rewrite decide_False by (by intros ?%Exists_nil). done.
    - rewrite IH, Hf. destruct (decide (Exists _ l)) as [Hx|Hx].
      + by rewrite decide_True by (by right).
      + destruct (cond e.2) eqn:Ec.
        * rewrite lookup_delete. destruct (decide (e.1 = d)) as [He|He]; [by rewrite decide_True by (left; done)|].
          rewrite decide_False; [done|]. intros [[? _]|?]%Exists_cons; done.
        * rewrite decide_False; [done|]. intros [[_ ?]|?]%Exists_cons; [congruence|done]. }
  apply map_eq. intros d. rewrite Hl, map_lookup_filter. destruct (table s !! d) as [a|] eqn:E; simpl.
  - destruct (decide (Exists _ _)) as [Hx|Hx].
    + apply Exists_exists in Hx as ([d' a'] & Hin%elem_of_map_to_list & Hd & Hc). simpl in *. subst d'.
      assert (a' = a) as -> by congruence. rewrite option_guard_False; [done|congruence].
    + rewrite option_guard_True; [done|]. destruct (cond a) eqn:Ec; [|done]. destruct Hx. apply Exists_exists. exists (d, a).
      by rewrite elem_of_map_to_list.
  - by case_decide.
Qed.

Section stopping.
Context {H W : Type} `{Torrents H W}.
Implicit Types (s : Impl H) (w : W).

Definition of_stream (stream_id : text) (a : ActiveDemand H) : bool := bool_decide (route_stream_id (ad_route a) = stream_id).

(** What the loop of [stop_stream] does to the state. *)
Lemma stop_demands_state stream_id l id s :
  let s' := (fold_left (stop_demand stream_id) l (id, s)).2 in
  s' = with_reads (reads s') (with_demand_states (demand_states s') (with_active_demands (active_demands s') s)).
Proof.
  revert id s. induction l as [|e l IH]; intros id s; cbn [fold_left]; [by destruct s|].
  cbv zeta in *. unfold stop_demand at 2 4 6 8. cbn [fst snd]. case_decide as Hd; [apply IH|]. rewrite IH at 1. by destruct s.
Qed.

Lemma stop_demands_active stream_id id s :
  active_demands (fold_left (stop_demand stream_id) (map_to_list (active_demands s)) (id, s)).2 =
  filter (fun e => of_stream stream_id e.2 = false) (active_demands s).
Proof.
  refine (fold_delete (stop_demand stream_id) (fun st => active_demands st.2) (of_stream stream_id) _ (id, s)).
  intros [id' s'] e. unfold stop_demand, of_stream. case_decide as Hd; [by rewrite bool_decide_eq_false_2|].
  by rewrite bool_decide_eq_true_2.
Qed.

(** The loop finds the torrent of the stream. *)
Lemma stop_demands_id stream_id l id s : let id' := (fold_left (stop_demand stream_id) l (id, s)).1 in
  (id <> [] -> id' = id) /\ (id' = [] -> id = [] /\ forall e, e ∈ l -> route_stream_id (ad_route e.2) = stream_id -> route_torrent_id (ad_route e.2) = []) /\
  (id' = id \/ exists e, e ∈ l /\ route_stream_id (ad_route e.2) = stream_id /\ id' = route_torrent_id (ad_route e.2)).
Proof.
  revert id s. induction l as [|e l IH]; intros id s; cbn [fold_left].
  { simpl. split; [done|]. split; [|auto]. intros ->. split; [done|]. by intros e ?%elem_of_nil. }
  cbv zeta in *. unfold stop_demand at 2 4 6 8. cbn [fst snd]. case_decide as Hd.
  - destruct (IH id s) as (H1 & H2 & H3). split; [done|]. split.
    + intros Hn. destruct (H2 Hn) as [? H2']. split; [done|]. intros e' [->|Hin]%elem_of_cons; [done|by apply H2'].
    + destruct H3 as [?|(e' & ? & ?)]; [by left|]. right. exists e'. split; [by right|done].
  - set (id1 := match id with [] => _ | _ => id end).
    match goal with |- context [fold_left _ l (id1, ?s1)] => destruct (IH id1 s1) as (H1 & H2 & H3) end.
    assert (Hid1 : id1 = id \/ id = [] /\ id1 = route_torrent_id (ad_route e.2)) by (unfold id1; destruct id; auto).
    split; [|split].
    + intros Hne. assert (id1 = id) as Heq by (unfold id1; by destruct id). rewrite <-Heq. apply H1. by rewrite Heq.
    + intros Hn. destruct (H2 Hn) as [Hz H2']. assert (id = []) as -> by (unfold id1 in Hz; by destruct id). split; [done|].
      intros e' [->|Hin]%elem_of_cons; [done|by apply H2'].
    + destruct H3 as [H3|(e' & ? & ?)].
      * destruct Hid1 as [?|[_ ?]]; [left; congruence|]. right. exists e. split; [by left|]. split; [done|]. congruence.
      * right. exists e'. split; [by right|done].
Qed.
End stopping.

(** ** Streams that go *)

Section dropping.
Context {H W : Type} `{Torrents H W}.
Implicit Types (s : Impl H) (w : W).

Lemma stream_target_inj a b : stream_target a = stream_target b -> a = b.
Proof. unfold stream_target. apply app_inv_head. Qed.

(** Streams go with their demands and anchors; [gone] is a test on the stream and the torrent. *)
Record dropped (gone : text -> text -> bool) s s' : Prop := {
  dr_routes : routes s' = filter (fun e => gone (route_stream_id e.2) (route_torrent_id e.2) = false) (routes s);
  dr_demands : forall d a, active_demands s' !! d = Some a ->
    active_demands s !! d = Some a /\ gone (route_stream_id (ad_route a)) (route_torrent_id (ad_route a)) = false;
  dr_anchors : forall id a, anchors s' !! id = Some a ->
    anchors s !! id = Some a /\ gone (route_stream_id (an_route a)) (route_torrent_id (an_route a)) = false;
  dr_revoked : forall id, id ∈ revoked_torrents s' -> id ∈ revoked_torrents s \/ forall st, gone st id = true;
  dr_schedules : current_schedules s' = current_schedules s;
}.

Lemma dropped_routes gone s s' t route : dropped gone s s' ->
  routes s' !! t = Some route <-> routes s !! t = Some route /\ gone (route_stream_id route) (route_torrent_id route) = false.
Proof. intros [Hr _ _ _ _]. rewrite Hr, map_lookup_filter_Some. done. Qed.

Lemma dropped_core gone s s' : streams_core s -> dropped gone s s' -> streams_core s'.
Proof.
  intros [Ct Cs Cd Ca Cv] Hd. pose proof (fun t r => dropped_routes gone s s' t r Hd) as Hr.
  assert (Hserved : forall route, served s route -> gone (route_stream_id route) (route_torrent_id route) = false -> served s' route).
  { intros route (a & Hact & Es & Et) Hg. exists a. rewrite Hr, Es, Et. done. }
  split.
  - intros t route [? _]%Hr. by apply Ct.
  - intros t1 t2 r1 r2 [? _]%Hr [? _]%Hr. by apply Cs.
  - intros d a Hda. destruct (dr_demands _ _ _ Hd d a Hda) as [Hda' Hg]. destruct (Cd d a Hda') as (? & ? & ?). auto.
  - intros id a Hia. destruct (dr_anchors _ _ _ Hd id a Hia) as [Hia' Hg]. destruct (Ca id a Hia') as (? & ?). auto.
  - intros id Hid (t & route & [Hrt Hg]%Hr & Ht). destruct (dr_revoked _ _ _ Hd id Hid) as [Hold|Hall].
    + apply (Cv id Hold). by exists t, route.
    + rewrite Ht, Hall in Hg. done.
Qed.

Lemma dropped_scheduled gone s s' id : streams_ok s -> dropped gone s s' -> (forall st, gone st id = false) -> scheduled_ok s' id.
Proof.
  intros [_ Hs] Hd Hg. unfold scheduled_ok. rewrite (dr_schedules _ _ _ Hd). intros (t & route & Hrt & Ht)%Hs.
  exists t, route. rewrite (dropped_routes gone s s' t route Hd), Ht, Hg. done.
Qed.

(** A torrent whose streams stay keeps them. *)
Lemma dropped_scheduled_stays gone s s' id t route : streams_ok s -> dropped gone s s' -> routes s !! t = Some route ->
  route_torrent_id route = id -> gone (route_stream_id route) id = false -> scheduled_ok s' id.
Proof.
  intros _ Hd Hrt Ht Hg _. exists t, route. rewrite (dropped_routes gone s s' t route Hd), Ht, Hg. done.
Qed.

(** The state of [stop_stream] before its recomputation. *)
Definition stopped (stream_id : text) s : text * Impl H :=
  let s := erase_anchor stream_id s in
  let '(id, s) :=
    match routes s !! stream_target stream_id with
    | None => ([], s)
    | Some route => (route_torrent_id route, with_next_progress_sample 0 (with_routes (delete (stream_target stream_id) (routes s)) s))
    end in
  fold_left (stop_demand stream_id) (map_to_list (active_demands s)) (id, s).

Lemma stop_stream_eq stream_id s w : stop_stream stream_id s w =
  let '(id, s) := stopped stream_id s in (match id with [] => (s, w) | _ => recompute_schedule id s w end, id).
Proof. unfold stop_stream, stopped. by destruct (routes _ !! _). Qed.

(** The stream that goes, by its name. *)
Definition this_stream (stream_id : text) : text -> text -> bool := fun st _ => text_eqb st stream_id.

Lemma stopped_drops stream_id s : streams_core s -> dropped (this_stream stream_id) s (stopped stream_id s).2.
Proof.
  intros Hc.
  assert (Htarget : forall t route, routes s !! t = Some route -> route_stream_id route = stream_id <-> t = stream_target stream_id).
  { intros t route Hr. destruct (sc_targets _ Hc t route Hr) as (_ & -> & _). split; [by intros ->|apply stream_target_inj]. }
  assert (Hfilter : filter (fun e => this_stream stream_id (route_stream_id e.2) (route_torrent_id e.2) = false) (routes s)
     = delete (stream_target stream_id) (routes s)).
  { apply map_eq. intros t. apply option_eq. intros route. rewrite map_lookup_filter_Some, lookup_delete_Some. simpl.
    unfold this_stream, text_eqb. rewrite bool_decide_eq_false. split.
    - intros [Hr Hn]. split; [|done]. intros <-. apply Hn. by apply (Htarget _ _ Hr).
    - intros [Hn Hr]. split; [done|]. intros He%(Htarget _ _ Hr). done. }
  unfold stopped. set (s1 := erase_anchor stream_id s).
  set (p := match routes s1 !! _ with None => _ | Some _ => _ end).
  assert (Hp : routes p.2 = delete (stream_target stream_id) (routes s) /\ active_demands p.2 = active_demands s /\ anchors p.2 = anchors s1 /\
    revoked_torrents p.2 = revoked_torrents s /\ current_schedules p.2 = current_schedules s).
  { unfold p. change (routes s1) with (routes s). destruct (routes s !! stream_target stream_id) eqn:E; [done|]. simpl.
    by rewrite delete_id. }
  destruct p as [id s2]. simpl in Hp. destruct Hp as (Pr & Pd & Pa & Pv & Ps).
  pose proof (stop_demands_state stream_id (map_to_list (active_demands s2)) id s2) as Hst.
  pose proof (stop_demands_active stream_id id s2) as Hact. cbv zeta in Hst.
  set (s3 := (fold_left _ _ _).2) in *. split.
  - rewrite Hst. simpl. by rewrite Pr, Hfilter.
  - intros d a. rewrite Hact, map_lookup_filter_Some, Pd. intros [Hda Ho]. split; [done|]. exact Ho.
  - intros id' a. rewrite Hst. simpl. rewrite Pa. unfold s1. simpl. rewrite map_lookup_filter_Some. intros [Hia Ho]. split; [done|].
    by apply bool_decide_eq_false.
  - intros id'. rewrite Hst. simpl. rewrite Pv. auto.
  - rewrite Hst. done.
Qed.
End dropping.

(** ** The operations keep the invariant of the streams *)

Section operations.
Context {H W : Type} `{Torrents H W}.
Implicit Types (s : Impl H) (w : W).

(** A recomputation leaves the routes, the demands and the revoked torrents alone. *)
Lemma recompute_frame id s w : let s' := (recompute_schedule id s w).1 in
  s' = with_reads (reads s') (with_current_schedules (current_schedules s') (with_anchors (anchors s') s)).
Proof.
  destruct (recompute_changes id s w) as [[Hst _ _ _]|[-> _]]; [done|]. by destruct s.
Qed.

(** The torrent that [stop_stream] finds: that of the registered stream. *)
Lemma stopped_id stream_id s : streams_core s ->
  (stopped stream_id s).1 = match routes s !! stream_target stream_id with Some route => route_torrent_id route | None => [] end.
Proof.
  intros Hc. unfold stopped. set (s1 := erase_anchor stream_id s). change (routes s1) with (routes s).
  destruct (routes s !! stream_target stream_id) as [route|] eqn:E.
  - match goal with |- context [fold_left _ ?l (?i, ?s2)] => destruct (stop_demands_id stream_id l i s2) as (H1 & _ & _) end.
    apply H1. by apply (sc_targets _ Hc _ _ E).
  - match goal with |- context [fold_left _ ?l (?i, ?s2)] => destruct (stop_demands_id stream_id l i s2) as (_ & _ & [H3|H3]) end; [done|].
    destruct H3 as ([d a] & Hin%elem_of_map_to_list & Hs & _). exfalso.
    destruct (sc_demands _ Hc d a Hin) as (_ & _ & act & Hact & Hs' & _). destruct (sc_targets _ Hc _ _ Hact) as (_ & Ht & _).
    simpl in Hs. rewrite Hs', Hs in Ht. rewrite Ht in Hact. congruence.
Qed.

Lemma stop_stream_routes stream_id s w : streams_core s -> routes (stop_stream stream_id s w).1.1 = delete (stream_target stream_id) (routes s).
Proof.
  intros Hc. rewrite stop_stream_eq. pose proof (stopped_drops stream_id s Hc) as [Hr _ _ _ _].
  destruct (stopped stream_id s) as [id s']. simpl in Hr.
  assert (Heq : routes s' = delete (stream_target stream_id) (routes s)).
  { rewrite Hr. apply map_eq. intros t. apply option_eq. intros route. rewrite map_lookup_filter_Some, lookup_delete_Some. simpl.
    unfold this_stream, text_eqb. rewrite bool_decide_eq_false. split.
    - intros [Hrt Hn]. split; [|done]. intros <-. destruct (sc_targets _ Hc _ _ Hrt) as (_ & Ht%stream_target_inj & _). done.
    - intros [Hn Hrt]. split; [done|]. intros <-. destruct (sc_targets _ Hc _ _ Hrt) as (_ & Ht & _). done. }
  destruct id; simpl; [done|]. by rewrite recompute_frame.
Qed.

Lemma stop_stream_ok stream_id s w : streams_ok s -> streams_ok (stop_stream stream_id s w).1.1.
Proof.
  intros Hok. pose proof Hok as [Hc Hs]. rewrite stop_stream_eq. pose proof (stopped_drops stream_id s Hc) as Hd.
  pose proof (stopped_id stream_id s Hc) as Hid. destruct (stopped stream_id s) as [id s'] eqn:E. simpl in *.
  pose proof (dropped_core _ _ _ Hc Hd) as Hc'.
  assert (Hothers : forall id', id' <> id -> scheduled_ok s' id').
  { intros id' Hne Hsome. assert (Hst : has_stream s id') by (apply Hs; by rewrite <-(dr_schedules _ _ _ Hd)).
    destruct Hst as (t & route & Hrt & Ht). eapply (dropped_scheduled_stays _ s s'); [done|done|done|done| |done].
    unfold this_stream, text_eqb. apply bool_decide_eq_false. intros Hsid. destruct (sc_targets _ Hc _ _ Hrt) as (_ & Hteq & Hnil & _).
    rewrite Hsid in Hteq. rewrite <-Hteq, Hrt in Hid. congruence. }
  destruct id as [|c id]; simpl.
  - split; [done|]. intros id'. destruct (decide (id' = [])) as [->|Hne]; [|by apply Hothers]. intros Hsome.
    exfalso. destruct (Hs []) as (t & route & Hrt & Ht); [by rewrite <-(dr_schedules _ _ _ Hd)|].
    by destruct (sc_targets _ Hc _ _ Hrt) as (_ & _ & ? & _).
  - by apply recompute_streams_ok.
Qed.

(** *** [remove_torrent] *)

Definition of_torrent (id : text) : text -> text -> bool := fun _ tor => text_eqb tor id.

Lemma remove_demands_state id l s : let s' := fold_left (remove_demand id) l s in
  s' = with_demand_states (demand_states s') (with_active_demands (active_demands s') s).
Proof.
  revert s. induction l as [|e l IH]; intros s; cbn [fold_left]; [by destruct s|]. cbv zeta in *.
  unfold remove_demand at 2 4 6. case_decide; [rewrite IH at 1; by destruct s|apply IH].
Qed.

Lemma remove_demands_active id s : active_demands (fold_left (remove_demand id) (map_to_list (active_demands s)) s) =
  filter (fun e => text_eqb (route_torrent_id (ad_route e.2)) id = false) (active_demands s).
Proof.
  apply (fold_delete (remove_demand id) active_demands (fun a => text_eqb (route_torrent_id (ad_route a)) id)).
  intros s' e. unfold remove_demand, text_eqb. case_decide; [by rewrite bool_decide_eq_true_2|by rewrite bool_decide_eq_false_2].
Qed.

(** The state of [remove_torrent] before its loop over the demands, and before its recomputation. *)
Definition cleaned (id : text) s : Impl H :=
  let s := with_revoked_torrents ({[id]} ∪ revoked_torrents s) s in
  let s := with_anchors (delete id (anchors s)) s in
  let s := with_piece_cache (erase_torrent (piece_cache s) id) s in
  let s := with_last_ready_pieces (delete id (last_ready_pieces s)) s in
  let r := with_requested_reads (filter (fun e => key_torrent_id e.1 <> id) (requested_reads (reads s))) (reads s) in
  let r := with_partial_blocks (filter (fun e => key_torrent_id e.1 <> id) (partial_blocks r)) r in
  let s := with_reads r s in
  with_next_progress_sample 0 (with_routes (filter (fun e => route_torrent_id e.2 <> id) (routes s)) s).

Definition removed (id : text) s : Impl H := fold_left (remove_demand id) (map_to_list (active_demands s)) (cleaned id s).

Lemma removed_active id s : active_demands (removed id s) = filter (fun e => text_eqb (route_torrent_id (ad_route e.2)) id = false) (active_demands s).
Proof. exact (remove_demands_active id (cleaned id s)). Qed.

Lemma remove_torrent_eq id s w : remove_torrent id s w =
  let '(s, w) := recompute_schedule id (removed id s) w in (with_reads (remove_waiters id (reads s)) s, w).
Proof. done. Qed.

Lemma removed_drops id s : streams_core s -> dropped (of_torrent id) s (removed id s).
Proof.
  intros Hc. pose proof (removed_active id s) as Hact.
  pose proof (remove_demands_state id (map_to_list (active_demands s)) (cleaned id s)) as Hst. cbv zeta in Hst.
  change (fold_left _ _ _) with (removed id s) in Hst.
  unfold of_torrent, text_eqb in *. split.
  - rewrite Hst. simpl. apply map_eq. intros t. apply option_eq. intros route. rewrite !map_lookup_filter_Some. simpl.
    by rewrite bool_decide_eq_false.
  - intros d a. rewrite Hact, map_lookup_filter_Some. done.
  - intros i a. rewrite Hst. simpl. intros [Hne Hia]%lookup_delete_Some. split; [done|]. apply bool_decide_eq_false.
    intros He. destruct (sc_anchors _ Hc i a Hia). congruence.
  - intros i. rewrite Hst. simpl. intros [->%elem_of_singleton|?]%elem_of_union; [|by left]. right. intros _. by apply bool_decide_eq_true.
  - by rewrite Hst.
Qed.

Lemma remove_torrent_ok id s w : streams_ok s -> streams_ok (remove_torrent id s w).1.
Proof.
  intros Hok. pose proof Hok as [Hc Hs]. pose proof (removed_drops id s Hc) as Hd. rewrite remove_torrent_eq.
  assert (Hr : streams_ok (recompute_schedule id (removed id s) w).1).
  { apply recompute_streams_ok; [by eapply dropped_core|]. intros id' Hne. eapply dropped_scheduled; [done|done|].
    intros st. unfold of_torrent. by apply bool_decide_eq_false. }
  destruct (recompute_schedule id (removed id s) w) as [s' w']. simpl in *. by eapply streams_ok_ext.
Qed.
End operations.

(** ** Expiry and registration *)

Section expiry.
Context {H W : Type} `{Torrents H W}.
Implicit Types (s : Impl H) (w : W).

(** Between two turns of the last loop of [expire_inactive_streams]: the routes are gone, the
    anchors and schedules of the streams in [pending] are still there. *)
Record expiring (pending : list StoppedStream) s : Prop := {
  ex_core : streams_core (with_anchors (filter (fun e => e.1 ∉ st_torrent_id <$> pending) (anchors s)) s);
  ex_anchors : forall st a, st ∈ pending -> anchors s !! st_torrent_id st = Some a -> route_stream_id (an_route a) = st_stream_id st;
  ex_scheduled : forall id, id ∉ st_torrent_id <$> pending -> scheduled_ok s id;
  ex_nodup : NoDup (st_torrent_id <$> pending);
}.

Lemma expiring_done s : expiring [] s -> streams_ok s.
Proof.
  intros [Hc _ Hs _]. split; [|intros id; apply Hs; by intros ?%elem_of_nil]. eapply streams_core_ext; [exact Hc|done|done| |done].
  simpl. symmetry. apply map_filter_id. intros. by intros ?%elem_of_nil.
Qed.

Lemma expire_stream_step st pending s w : expiring (st :: pending) s -> expiring pending (expire_stream (s, w) st).1.
Proof.
  intros [Hc Ha Hs Hnd]. rewrite fmap_cons in *. apply NoDup_cons in Hnd as [Hst Hnd]. set (T := st_torrent_id st) in *.
  unfold expire_stream. cbn [fst snd]. fold T. set (s1 := erase_anchor (st_stream_id st) s).
  assert (Hnone : anchors s1 !! T = None).
  { unfold s1. simpl. apply map_lookup_filter_None. right. intros a Hia Hn. apply Hn. simpl. apply (Ha st); [by left|done]. }
  assert (Hsub : forall id a, anchors s1 !! id = Some a -> anchors s !! id = Some a).
  { intros id a. unfold s1. simpl. rewrite map_lookup_filter_Some. by intros [? _]. }
  pose proof Hc as [Ct Cs Cd Ca Cv].
  assert (Hwait : waiting_readers s1 T <> [] -> has_stream s T).
  { intros Hne. destruct (waiting_readers s1 T) as [|[d a] l] eqn:E; [done|].
    assert (Hin : (d, a) ∈ waiting_readers s1 T) by (rewrite E; by left). apply waiting_readers_elem in Hin as (Hin & <- & _).
    apply (served_stream s). by apply (Cd d a). }
  pose proof (recompute_frame T s1 w) as Hfr. pose proof (recompute_changes T s1 w) as Hch. cbv zeta in Hfr.
  destruct (recompute_schedule T s1 w) as [s2 w2]. cbn [fst] in Hfr, Hch |- *.
  assert (Hzero : active_demands s !! 0 = None).
  { destruct (active_demands s !! 0) as [a|] eqn:E; [|done]. destruct (Cd 0 a E). lia. }
  assert (Hanch : forall id a, anchors s2 !! id = Some a -> anchors s1 !! id = Some a \/
    id = T /\ route_torrent_id (an_route a) = T /\ served s (an_route a)).
  { destruct Hch as [[_ [Hx|(d & a' & Hda & Htor & Hx)] _ _]|[[= -> ->] _]]; intros id a; rewrite ?Hx; [by left| |by left].
    intros [[<- <-]|[_ ?]]%lookup_insert_Some; [|by left]. right. split; [done|]. simpl. split; [by apply Htor|]. by apply (Cd d a'). }
  assert (Hr2 : routes s2 = routes s) by (by rewrite Hfr).
  split; simpl.
  - split; simpl; rewrite ?Hr2; unfold served, has_stream in *; simpl in Ct, Cs, Cd, Ca, Cv |- *; rewrite ?Hr2.
    + apply Ct. + apply Cs. + rewrite Hfr. apply Cd.
    + intros id a [Hid Hni]%map_lookup_filter_Some. simpl in Hni. destruct (Hanch id a Hid) as [Hid'|(-> & Ht & Hsv)]; [|done].
      assert (Hne : id <> T) by (intros ->; congruence). apply Ca. apply map_lookup_filter_Some. split; [by apply Hsub|]. simpl.
      by apply not_elem_of_cons.
    + rewrite Hfr. simpl. apply Cv.
  - intros st' a Hin Hia. destruct (Hanch _ a Hia) as [Hia'|(HT & _ & _)].
    + apply (Ha st' a); [by right|]. by apply Hsub.
    + exfalso. apply Hst. rewrite <-HT. by apply list_elem_of_fmap_2.
  - intros id Hid. unfold scheduled_ok. simpl. unfold has_stream. simpl. rewrite Hr2. change (has_stream s id) with (has_stream s id).
    intros Hsome. destruct (decide (id = T)) as [->|Hne].
    + destruct Hch as [[_ _ _ Hsch]|[_ Hd]].
      * destruct (Hsch Hsome) as [(d & a & Hda & <-)|[Hx|Hx]]; [|rewrite Hnone in Hx; by destruct Hx|].
        -- apply (served_stream s). by apply (Cd d a).
        -- by apply (has_stream_spec s).
      * apply Hwait. intros Hw. apply Hd. unfold schedule_demands. by rewrite Hw, Hnone.
    + apply (Hs id); [by apply not_elem_of_cons|]. destruct Hch as [[_ _ Ho _]|[[= -> ->] _]]; [|done]. by rewrite Ho in Hsome.
  - done.
Qed.

Lemma expire_loop pending s w : expiring pending s -> streams_ok (fold_left expire_stream pending (s, w)).1.
Proof.
  revert s w. induction pending as [|st pending IH]; intros s w Hex; simpl; [by apply expiring_done|].
  pose proof (expire_stream_step st pending s w Hex). destruct (expire_stream (s, w) st). by apply IH.
Qed.

Lemma stays_demand s now d a route : active_demands s !! d = Some a -> route_stream_id (ad_route a) = route_stream_id route -> stays s now route = true.
Proof.
  intros Ha Hs. unfold stays. apply orb_true_iff. left. apply existsb_exists. exists (d, a).
  rewrite <-list_elem_of_In, elem_of_map_to_list. split; [done|]. by apply bool_decide_eq_true.
Qed.

(** The routes that go when streams expire. *)
Lemma expire_starts s now : streams_ok s ->
  let gone := filter (fun e : text * StreamRoute H => stays s now e.2 = false) (map_to_list (routes s)) in
  expiring ((fun e => MkStopped (route_torrent_id e.2) (route_stream_id e.2)) <$> gone)
    (with_routes (filter (fun e => stays s now e.2 = true) (routes s)) s).
Proof.
  intros [Hc Hs] gone. pose proof Hc as [Ct Cs Cd Ca Cv].
  assert (Hgone : forall id, id ∈ st_torrent_id <$> ((fun e => MkStopped (route_torrent_id e.2) (route_stream_id e.2)) <$> gone) <->
    exists t route, routes s !! t = Some route /\ stays s now route = false /\ route_torrent_id route = id).
  { intros id. rewrite <-list_fmap_compose, list_elem_of_fmap. unfold gone. split.
    - intros ([t route] & -> & [Hf Hin%elem_of_map_to_list]%list_elem_of_filter). eauto.
    - intros (t & route & Hr & Hf & <-). exists (t, route). split; [done|]. by rewrite list_elem_of_filter, elem_of_map_to_list. }
  assert (Hroutes : forall t route, filter (fun e : text * StreamRoute H => stays s now e.2 = true) (routes s) !! t = Some route <->
    routes s !! t = Some route /\ stays s now route = true) by (intros; by rewrite map_lookup_filter_Some).
  assert (Hserve : forall route act, routes s !! route_target route = Some act -> route_stream_id act = route_stream_id route ->
    route_torrent_id act = route_torrent_id route -> stays s now act = true ->
    served (with_routes (filter (fun e => stays s now e.2 = true) (routes s)) s) route).
  { intros route act Hact ? ? Hst. exists act. simpl. by rewrite Hroutes. }
  split; simpl.
  - split; simpl.
    + intros t route [? _]%Hroutes. by apply Ct.
    + intros t1 t2 r1 r2 [? _]%Hroutes [? _]%Hroutes. by apply Cs.
    + intros d a Hda. destruct (Cd d a Hda) as (? & ? & act & Hact & Hst & Ht). split; [done|]. split; [done|].
      apply (Hserve _ act); [done..|]. by eapply stays_demand.
    + intros id a [Hia Hni]%map_lookup_filter_Some. destruct (Ca id a Hia) as (Hid & act & Hact & Hst & Ht). split; [done|].
      apply (Hserve _ act); [done..|]. destruct (stays s now act) eqn:E; [done|]. destruct Hni. apply Hgone. simpl.
      exists (route_target (an_route a)), act. split; [done|]. split; [done|congruence].
    + intros id Hid (t & route & [Hr _]%Hroutes & Ht). apply (Cv id Hid). by exists t, route.
  - intros st a ([t route] & -> & [_ Hin%elem_of_map_to_list]%list_elem_of_filter)%list_elem_of_fmap Hia. simpl in *.
    destruct (Ca _ a Hia) as (Hid & act & Hact & Hst & Ht). rewrite <-Hst.
    assert (t = route_target (an_route a)) as -> by (eapply (Cs t _ route act); [done|done|congruence]). congruence.
  - intros id Hid Hsome. destruct (Hs id Hsome) as (t & route & Hr & Ht). exists t, route. simpl. split; [|done]. rewrite Hroutes. split; [done|].
    destruct (stays s now route) eqn:E; [done|]. destruct Hid. apply Hgone. eauto.
  - rewrite <-list_fmap_compose. apply (NoDup_fmap_2_strong _ gone); [|apply NoDup_filter, NoDup_map_to_list].
    intros [t1 r1] [t2 r2] [_ H1%elem_of_map_to_list]%list_elem_of_filter [_ H2%elem_of_map_to_list]%list_elem_of_filter Heq. simpl in Heq.
    assert (t1 = t2) as -> by (by eapply Cs). congruence.
Qed.

Lemma expire_inactive_streams_ok s w : streams_ok s -> streams_ok (expire_inactive_streams s w).1.
Proof.
  intros Hok. unfold expire_inactive_streams. destruct (_ =? 0); [done|]. destruct (lt_now w) as [w1 now]. destruct (now <? _); [done|].
  set (s1 := with_next_inactivity_check _ s). assert (Hok1 : streams_ok s1) by (by eapply streams_ok_ext).
  pose proof (expire_starts s1 now Hok1) as Hex. cbv zeta in Hex. set (gone := filter _ (map_to_list (routes s1))) in *.
  destruct gone as [|e gone]; [done|]. apply expire_loop. destruct Hex as [Ec Ea Es En]. split; [|done..].
  by eapply streams_core_ext.
Qed.
End expiry.

Section registration.
Context {H W : Type} `{Torrents H W}.
Implicit Types (s : Impl H) (w : W).

Lemma stop_all_spec l s w : streams_ok s -> let s' := (fold_left stop_all l (s, w)).1 in
  streams_ok s' /\ forall t route, routes s' !! t = Some route <-> routes s !! t = Some route /\ (route_stream_id route ∉ l).
Proof.
  revert s w. induction l as [|st l IH]; intros s w Hok; simpl.
  - split; [done|]. intros t route. split; [|tauto]. intros ?. split; [done|]. by intros ?%elem_of_nil.
  - unfold stop_all at 2 4. simpl. pose proof (stop_stream_ok st s w Hok) as Hok1.
    pose proof (stop_stream_routes st s w (proj1 Hok)) as Hr1. destruct (stop_stream st s w) as [[s1 w1] id]. simpl in *.
    destruct (IH s1 w1 Hok1) as [Hok2 Hr2]. split; [done|]. intros t route.
    rewrite Hr2, Hr1, lookup_delete_Some, not_elem_of_cons.
    assert (Hst : routes s !! t = Some route -> route_stream_id route = st <-> t = stream_target st).
    { intros Hrt. destruct (sc_targets _ (proj1 Hok) t route Hrt) as (_ & -> & _). split; [by intros ->|apply stream_target_inj]. }
    naive_solver.
Qed.

(** A stream is added for a torrent that has none. *)
Lemma streams_ok_add s id route : streams_ok s -> ~ has_stream s id -> route_torrent_id route = id -> id <> [] -> route_wf route ->
  route_target route = stream_target (route_stream_id route) -> routes s !! route_target route = None ->
  streams_ok (with_revoked_torrents (revoked_torrents s ∖ {[id]}) (with_routes (<[route_target route := route]> (routes s)) s)).
Proof.
  intros [[Ct Cs Cd Ca Cv] Hs] Hno Hid Hnil Hwf Htarget Hfresh.
  assert (Hserved : forall r, served s r -> served (with_routes (<[route_target route := route]> (routes s)) s) r).
  { intros r (a & Ha & ? & ?). exists a. simpl. rewrite lookup_insert_ne by congruence. done. }
  assert (Hold : forall t r, <[route_target route := route]> (routes s) !! t = Some r ->
    t = route_target route /\ r = route \/ routes s !! t = Some r /\ route_torrent_id r <> id).
  { intros t r [[<- <-]|[_ Hr]]%lookup_insert_Some; [by left|]. right. split; [done|]. intros He. apply Hno. by exists t, r. }
  split; [split|]; simpl.
  - intros t r [[-> ->]|[Hr _]]%Hold; [|by apply Ct]. subst id. done.
  - intros t1 t2 r1 r2 [[-> ->]|[H1 N1]]%Hold [[-> ->]|[H2 N2]]%Hold Heq; [done|congruence|congruence|by eapply Cs].
  - intros d a Hda. destruct (Cd d a Hda) as (? & ? & ?). split; [done|]. split; [done|]. by apply Hserved.
  - intros i a Hia. destruct (Ca i a Hia) as (? & ?). split; [done|]. by apply Hserved.
  - intros i [Hi Hne]%elem_of_difference (t & r & [[-> ->]|[Hr _]]%Hold & Ht); [set_solver|]. apply (Cv i Hi). by exists t, r.
  - intros i Hi. destruct (Hs i Hi) as (t & r & Hr & Ht). exists t, r. simpl. rewrite lookup_insert_ne by congruence. done.
Qed.

Lemma streams_ok_anchor s id a : streams_ok s -> route_torrent_id (an_route a) = id -> served s (an_route a) ->
  streams_ok (with_anchors (<[id := a]> (anchors s)) s).
Proof.
  intros [[Ct Cs Cd Ca Cv] Hs] Hid Ha. split; [split|]; simpl; try done.
  intros i b [[<- <-]|[_ Hb]]%lookup_insert_Some; [done|by apply Ca].
Qed.

(** What the types of libtorrent and of a file say: a piece length is an [int], offset and
    size are 64-bit. *)
Definition lengths_ok : Prop :=
  forall (w : W) (h : H) metadata, lt_torrent_file w h = Returned (Some metadata) -> info_piece_length metadata <= I32_MAX.
Definition file_ok (file : TorrentFileInfo) : Prop := is_u64 (fi_offset file) /\ is_u64 (fi_size file).

(** The name of a new stream is not in use. *)
Definition fresh_token s (token : outcome text) : Prop :=
  forall stream_id, token = Returned stream_id -> routes s !! stream_target stream_id = None.

Lemma register_stream_ok handle id file_index file token port s w : lengths_ok -> file_ok file -> streams_ok s -> id <> [] -> fresh_token s token ->
  streams_ok (register_stream handle id file_index file token port s w).1.1.
Proof.
  intros Hlen [Hoff Hsize] Hok Hnil Hfresh. unfold register_stream. destruct (shutting_down s); [done|].
  destruct (lt_torrent_file w handle) as [[metadata|]|] eqn:Em; [|done..]. destruct (Z.leb_spec (info_piece_length metadata) 0); [done|].
  destruct token as [stream_id|]; [|done]. destruct (lt_save_path w handle) as [save_path|]; [|done].
  destruct (lt_now w) as [w1 now]. set (route := MkRoute handle id stream_id _ _ _ _ _ _ _ _ _).
  set (s1 := with_activities _ _). set (previous := (fun e => route_stream_id e.2) <$> _).
  assert (Hok1 : streams_ok s1) by (by eapply streams_ok_ext).
  destruct (stop_all_spec previous s1 w1 Hok1) as [Hok2 Hr2]. destruct (fold_left stop_all previous (s1, w1)) as [s2 w2].
  cbn [fst] in Hok2, Hr2.
  assert (Hno : ~ has_stream s2 id).
  { intros (t & r & [Hr Hn]%Hr2 & Ht). apply Hn. unfold previous. apply list_elem_of_fmap. exists (t, r). split; [done|].
    by rewrite list_elem_of_filter, elem_of_map_to_list. }
  assert (Hnone : routes s2 !! route_target route = None).
  { destruct (routes s2 !! route_target route) as [r|] eqn:E; [|done]. apply Hr2 in E as [E _]. simpl in E.
    by rewrite (Hfresh stream_id eq_refl) in E. }
  assert (Hwf : route_wf route) by (split; [|done]; split; [done|by eapply Hlen]).
  assert (Hadd := streams_ok_add s2 id route Hok2 Hno eq_refl Hnil Hwf eq_refl Hnone).
  set (s3 := with_revoked_torrents _ _). assert (Hok3 : streams_ok s3) by (by eapply streams_ok_ext).
  destruct (0 <? _); [|done]. destruct (blocking_demand_range _ _ _ _) as [range|ex]; [|done].
  apply recompute_keeps, streams_ok_anchor; [done|done|]. exists route. simpl. by rewrite lookup_insert_eq.
Qed.
End registration.
