(* ===== verification/StreamProgress.v ===== *)
(** The progress of streams: [progress_for] and [statistics] of
    src/torrent/libtorrent_stream_bridge.cpp.  The byte counts are compared with the bytes of
    the file that lie in finished pieces. *)
From stdpp Require Import prelude strings list gmap.
From Stdlib Require Import ZArith Lia Ascii.
From S2P Require Import Prelude Text OrderedMap ByteRange PieceScheduler DemandPlan PieceCache EngineTypes BridgeState MemoryTorrent StreamSchedule StreamBridge.

(** ** The code *)

Definition saturating_count (count : nat) : Z := Z.min (Z.of_nat count) U32_MAX.

Definition blocking_pieces_of {H} (schedule : CurrentSchedule H) : list Z :=
  filter (fun piece => omap_find piece (cs_priorities schedule) = Some blocking) (cs_deadline_order schedule).

Definition blocking_pieces {H} (s : Impl H) (id : text) : list Z :=
  match current_schedules s !! id with Some schedule => blocking_pieces_of schedule | None => [] end.

(** The counters of the loop over the pieces of the file. *)
Record Progress := MkProgress { contiguous : bool; contiguous_ready_bytes : Z; verified_file_bytes : Z }.

(** [status.is_seeding || (piece < status.pieces.size() && status.pieces[piece])]. *)
Definition piece_ready (status : piece_status) (piece : Z) : bool :=
  is_seeding status || bool_decide (status_pieces status !! Z.to_nat piece = Some true).

(** One piece; [inr] when the loop returns because the piece has no bytes. *)
Definition piece_progress (file_offset file_end piece_size : Z) (metadata : torrent_info) (status : piece_status)
    (piece : Z) (p : Progress) : Progress + Progress :=
  if negb (piece_ready status piece) then inl (MkProgress false (contiguous_ready_bytes p) (verified_file_bytes p))
  else
    let piece_start := wrap64 (piece * piece_size) in
    let raw_piece_bytes := info_piece_size metadata piece in
    if raw_piece_bytes <=? 0 then inr (MkProgress (contiguous p) 0 0)
    else
      let piece_end := wrap64 (piece_start + raw_piece_bytes) in
      let overlap_start := Z.max file_offset piece_start in
      let overlap_end := Z.min file_end piece_end in
      if overlap_end <=? overlap_start then inl p
      else
        let overlap := overlap_end - overlap_start in
        inl (MkProgress (contiguous p)
               (if contiguous p then wrap64 (contiguous_ready_bytes p + overlap) else contiguous_ready_bytes p)
               (wrap64 (verified_file_bytes p + overlap))).

Fixpoint progress_loop (file_offset file_end piece_size : Z) (metadata : torrent_info) (status : piece_status)
    (pieces : list Z) (p : Progress) : Progress :=
  match pieces with
  | [] => p
  | piece :: pieces =>
    match piece_progress file_offset file_end piece_size metadata status piece p with
    | inl p => progress_loop file_offset file_end piece_size metadata status pieces p
    | inr p => p
    end
  end.

Section code.
Context {H W : Type} `{Torrents H W}.
Implicit Types (s : Impl H) (w : W).

(** The bytes of the file that are ready, from its start and in all. *)
Definition file_progress w (route : StreamRoute H) : Z * Z :=
  let handle := route_handle route in
  if (route_file_size route =? 0) || negb (lt_is_valid w handle) || negb (lt_in_session w handle) then (0, 0)
  else
    match lt_torrent_file w handle with
    | Returned (Some metadata) =>
      if (info_piece_length metadata <=? 0) || (U64_MAX - route_file_offset route <? route_file_size route) then (0, 0)
      else
        let file_end := route_file_offset route + route_file_size route in
        let first_piece := route_file_offset route / route_piece_size route in
        let last_piece := (file_end - 1) / route_piece_size route in
        if info_num_pieces metadata <=? last_piece then (0, 0)
        else
          match lt_query_pieces w handle with
          | Returned status =>
            let p := progress_loop (route_file_offset route) file_end (route_piece_size route) metadata status
                       (zseq first_piece (Z.to_nat (last_piece - first_piece + 1))) (MkProgress true 0 0) in
            (contiguous_ready_bytes p, verified_file_bytes p)
          | Raised _ => (0, 0)
          end
    | _ => (0, 0)
    end.

(** The demands of a stream, the newest first. *)
Definition stream_demands s (stream_id : text) : list (ActiveDemand H) :=
  reverse (stable_sort ad_id
    (snd <$> filter (fun e : Z * ActiveDemand H => route_stream_id (ad_route e.2) = stream_id) (map_to_list (active_demands s)))).

Definition progress_for s w (route : StreamRoute H) : BackendStream :=
  let demands := stream_demands s (route_stream_id route) in
  let start i := match demands !! i with Some d => range_start (ad_range d) | None => 0 end in
  let end_ i := match demands !! i with Some d => range_end (ad_range d) | None => 0 end in
  let schedule := current_schedules s !! route_torrent_id route in
  let blocked := match schedule with Some c => blocking_pieces_of c | None => [] end in
  let ready := file_progress w route in
  MkBackendStream (route_stream_id route) (route_file_index route) (route_file_size route) ready.1 ready.2
    (default 0 (delivered s !! route_counters route)) (saturating_count (length demands))
    (match schedule with Some c => saturating_count (length (cs_priorities c)) | None => 0 end)
    (saturating_count (length blocked)) (default U32_MAX (blocked !! 0%nat)) (default U32_MAX (blocked !! 1%nat))
    (default U32_MAX (last_ready_pieces s !! route_torrent_id route))
    (start 0%nat) (end_ 0%nat) (start 1%nat) (end_ 1%nat)
    (match schedule with Some c => cs_revision c | None => 0 end).

Record StreamBridgeStats := MkBridgeStats {
  sbs_active_streams : Z; sbs_active_http_requests : Z; sbs_active_demands : Z; sbs_pending_piece_reads : Z;
  sbs_cache : PieceCacheStats; sbs_streams : list BackendStream;
}.

(** The readers that wait, added up to the largest 32-bit value. *)
Definition pending_reads s : Z :=
  fold_left (fun n (e : PieceCacheKey * list nat) => Z.min (n + Z.of_nat (length e.2)) U32_MAX)
    (map_to_list (piece_waiters (reads s))) 0.

(** [requests] is [server->active_request_count()]. *)
Definition statistics (requests : Z) s w : (Impl H * W) * StreamBridgeStats :=
  let '(w, now) := lt_now w in
  let s := if next_progress_sample s <=? now then
             with_next_progress_sample (now + milliseconds 250)
               (with_stream_progress_cache ((fun e => progress_for s w e.2) <$> map_to_list (routes s)) s)
           else s in
  ((s, w),
   MkBridgeStats (saturating_count (base.size (routes s))) requests (saturating_count (base.size (active_demands s)))
     (pending_reads s) (stats (piece_cache s)) (stream_progress_cache s)).
End code.

(** ** Counting bytes *)

Lemma zseq_app a n m : zseq a (n + m) = zseq a n ++ zseq (a + Z.of_nat n) m.
Proof.
  revert a. induction n as [|n IH]; intros a; cbn [zseq Nat.add app]; [by rewrite Z.add_0_r|].
  rewrite IH. do 3 f_equal. lia.
Qed.

Lemma length_zseq a n : length (zseq a n) = n.
Proof. revert a. induction n as [|n IH]; intros a; cbn [zseq length]; [done|]. by rewrite IH. Qed.

(** How many of the first [n] bytes satisfy a test. *)
Definition count_bytes (test : Z -> bool) (n : Z) : Z :=
  Z.of_nat (length (filter (fun x => test x = true) (zseq 0 (Z.to_nat n)))).

Lemma count_extend test a b v : 0 <= a <= b -> (forall x, a <= x < b -> test x = v) ->
  count_bytes test b = count_bytes test a + (if v then b - a else 0).
Proof.
  intros Hab Hv. unfold count_bytes. replace (Z.to_nat b) with (Z.to_nat a + Z.to_nat (b - a))%nat by lia.
  rewrite zseq_app, filter_app, length_app. replace (0 + Z.of_nat (Z.to_nat a)) with a by lia.
  assert (Hx : forall x, x ∈ zseq a (Z.to_nat (b - a)) -> test x = v) by (intros x ?%elem_of_zseq; apply Hv; lia).
  destruct v.
  - rewrite (filter_all _ (zseq a _)) by exact Hx. rewrite length_zseq. lia.
  - rewrite (filter_none _ (zseq a _)); [simpl; lia|]. intros x Hin Ht. apply Hx in Hin. congruence.
Qed.

Lemma count_bounds test n : 0 <= n -> 0 <= count_bytes test n <= n.
Proof.
  intros Hn. unfold count_bytes. split; [lia|].
  pose proof (length_filter (fun x => test x = true) (zseq 0 (Z.to_nat n))) as Hl. rewrite length_zseq in Hl. lia.
Qed.

(** ** The progress of a file *)

Section progress.
Context (file_offset file_size piece_size total : Z) (metadata : torrent_info) (status : piece_status).

(** The file lies in a torrent of [total] bytes cut in pieces. *)
Record torrent_layout : Prop := {
  tl_size : 0 < piece_size;
  tl_file : 0 <= file_offset /\ 0 < file_size /\ file_offset + file_size <= total;
  tl_total : total + piece_size <= U64_MAX;
  tl_pieces : forall p, 0 <= p -> p * piece_size < total -> info_piece_size metadata p = Z.min piece_size (total - p * piece_size);
}.

(** Byte [x] of the file is in a finished piece. *)
Definition byte_ready (x : Z) : bool := piece_ready status ((file_offset + x) / piece_size).

(** The bytes of the file before piece [k]. *)
Definition before (k : Z) : Z := Z.min (Z.max (k * piece_size - file_offset) 0) file_size.

(** The counters when the pieces before [k] were looked at. *)
Record counted (k : Z) (p : Progress) : Prop := {
  co_verified : verified_file_bytes p = count_bytes byte_ready (before k);
  co_prefix : forall x, 0 <= x < contiguous_ready_bytes p -> byte_ready x = true;
  co_bounds : 0 <= contiguous_ready_bytes p <= before k;
  co_flag : if contiguous p then contiguous_ready_bytes p = before k
            else contiguous_ready_bytes p < before k /\ byte_ready (contiguous_ready_bytes p) = false;
}.

Lemma before_piece (Hl : torrent_layout) k x : before k <= x < before (k + 1) -> (file_offset + x) / piece_size = k.
Proof.
  destruct Hl as [Hs Hf _ _]. unfold before. intros Hx. symmetry.
  apply Z.div_unique with (file_offset + x - k * piece_size); [left; nia|nia].
Qed.

Lemma counted_step (Hl : torrent_layout) k p : 0 <= k -> k * piece_size < file_offset + file_size -> before k < before (k + 1) -> counted k p ->
  exists p', piece_progress file_offset (file_offset + file_size) piece_size metadata status k p = inl p' /\ counted (k + 1) p'.
Proof.
  intros Hk Hlast Hlt [Cv Cp Cb Cf]. pose proof Hl as [Hs Hf Ht Hp]. unfold piece_progress.
  assert (Hready : forall x, before k <= x < before (k + 1) -> byte_ready x = piece_ready status k).
  { intros x Hx. unfold byte_ready. by rewrite (before_piece Hl k x Hx). }
  assert (Hb0 : 0 <= before k) by (unfold before; lia).
  pose proof (count_extend byte_ready (before k) (before (k + 1)) _ ltac:(lia) Hready) as Hcount.
  pose proof (count_bounds byte_ready (before k) Hb0) as Hcb.
  destruct (piece_ready status k) eqn:Er; cbn [negb].
  - rewrite Hp by lia. unfold wrap64. rewrite (Z.mod_small (k * piece_size)) by lia.
    destruct (Z.leb_spec (Z.min piece_size (total - k * piece_size)) 0); [lia|].
    rewrite (Z.mod_small (k * piece_size + _)) by lia.
    assert (Hover : Z.min (file_offset + file_size) (k * piece_size + Z.min piece_size (total - k * piece_size)) -
      Z.max file_offset (k * piece_size) = before (k + 1) - before k) by (unfold before in *; lia).
    destruct (Z.leb_spec (Z.min (file_offset + file_size) (k * piece_size + Z.min piece_size (total - k * piece_size)))
      (Z.max file_offset (k * piece_size))); [lia|]. rewrite Hover. eexists. split; [done|].
    assert (Hbs : before (k + 1) <= file_size) by (unfold before; lia).
    rewrite (Z.mod_small (verified_file_bytes p + _)) by lia. rewrite (Z.mod_small (contiguous_ready_bytes p + _)) by lia.
    split; cbn [contiguous contiguous_ready_bytes verified_file_bytes].
    + lia.
    + intros x Hx. destruct (contiguous p); [|apply Cp; lia]. destruct (Z.ltb_spec x (before k)); [apply Cp; lia|apply Hready; lia].
    + destruct (contiguous p); lia.
    + destruct (contiguous p); [lia|]. split; [lia|apply Cf].
  - eexists. split; [done|]. split; cbn [contiguous contiguous_ready_bytes verified_file_bytes].
    + lia.
    + done.
    + lia.
    + destruct (contiguous p); [|split; [lia|apply Cf]]. split; [lia|]. apply Hready. lia.
Qed.

Lemma counted_loop (Hl : torrent_layout) n k p : 0 <= k -> k * piece_size < file_offset + file_size -> file_offset < (k + 1) * piece_size ->
  (n = 0%nat \/ (k + Z.of_nat n - 1) * piece_size < file_offset + file_size) -> counted k p ->
  counted (k + Z.of_nat n) (progress_loop file_offset (file_offset + file_size) piece_size metadata status (zseq k n) p).
Proof.
  revert k p. induction n as [|n IH]; intros k p Hk Hlt Hfirst Hn Hc; cbn [zseq progress_loop]; [by rewrite Z.add_0_r|].
  destruct Hn as [?|Hn]; [lia|]. pose proof Hl as [Hs Hf _ _].
  destruct (counted_step Hl k p) as (p' & -> & Hc'); [lia|nia| |done|]; [unfold before; nia|].
  destruct n as [|n]; [replace (k + Z.of_nat 1) with (k + 1) by lia; done|].
  replace (k + Z.of_nat (S (S n))) with (k + 1 + Z.of_nat (S n)) by lia. apply IH; [lia|nia|nia| |done]. right. nia.
Qed.
End progress.

Lemma count_mono test a b : 0 <= a <= b -> count_bytes test a <= count_bytes test b.
Proof.
  intros Hab. unfold count_bytes. replace (Z.to_nat b) with (Z.to_nat a + Z.to_nat (b - a))%nat by lia.
  rewrite zseq_app, filter_app, length_app. lia.
Qed.

(** C36. The progress of a stream is exact: the verified bytes are the bytes of the file that
    lie in finished pieces, the contiguous bytes are the longest prefix of the file made of
    such bytes, and neither exceeds the file. *)
Theorem progress_counts_bytes {H W} `{Torrents H W} (s : Impl H) (w : W) (route : StreamRoute H) (metadata : torrent_info)
    (status : piece_status) (total : Z)
    (Hvalid : lt_is_valid w (route_handle route) = true) (Hsession : lt_in_session w (route_handle route) = true)
    (Hmeta : lt_torrent_file w (route_handle route) = Returned (Some metadata)) (Hlen : 0 < info_piece_length metadata)
    (Hstatus : lt_query_pieces w (route_handle route) = Returned status)
    (Hlayout : torrent_layout (route_file_offset route) (route_file_size route) (route_piece_size route) total metadata)
    (Hnum : total <= info_num_pieces metadata * route_piece_size route) :
  let stream := progress_for s w route in
  let ready := byte_ready (route_file_offset route) (route_piece_size route) status in
  let n := bst_contiguous_ready_bytes stream in
  bst_verified_file_bytes stream = count_bytes ready (route_file_size route) /\
  (forall x, 0 <= x < n -> ready x = true) /\ (n < route_file_size route -> ready n = false) /\
  0 <= n <= bst_verified_file_bytes stream /\ bst_verified_file_bytes stream <= route_file_size route.
Proof.
  intros stream ready n. unfold n, stream. cbn [progress_for bst_verified_file_bytes bst_contiguous_ready_bytes].
  unfold file_progress. rewrite Hvalid, Hsession, Hmeta, Hstatus. pose proof Hlayout as [Hs Hf Ht Hp].
  set (off := route_file_offset route) in *. set (size := route_file_size route) in *. set (ps := route_piece_size route) in *.
  rewrite (proj2 (Z.eqb_neq size 0)), (proj2 (Z.leb_gt _ _) Hlen), (proj2 (Z.ltb_ge (U64_MAX - off) size)) by lia.
  set (first := off / ps). set (last := (off + size - 1) / ps).
  pose proof (div_block_bounds ps off Hs) as Hb1. pose proof (div_block_bounds ps (off + size - 1) Hs) as Hb2. fold first in Hb1. fold last in Hb2.
  assert (Hfl : first <= last) by (apply Z.div_le_mono; lia). assert (Hf0 : 0 <= first) by (apply Z.div_pos; lia).
  rewrite (proj2 (Z.leb_gt (info_num_pieces metadata) last)) by nia. cbn [negb orb].
  set (p := progress_loop _ _ _ _ _ _ _).
  assert (Hc : counted off size ps status (last + 1) p).
  { unfold p. replace (last + 1) with (first + Z.of_nat (Z.to_nat (last - first + 1))) by lia.
    apply (counted_loop off size ps total); [done|lia|lia|lia|right; nia|].
    assert (Hz : before off size ps first = 0) by (unfold before; lia).
    split; simpl; rewrite ?Hz; [done|lia|lia|done]. }
  assert (Hend : before off size ps (last + 1) = size) by (unfold before; lia).
  destruct Hc as [Cv Cp Cb Cf]. rewrite Hend in Cv, Cb, Cf. cbn [fst snd]. fold ready in Cv, Cp, Cf.
  split; [exact Cv|]. split; [exact Cp|]. split; [destruct (contiguous p); [lia|intros _; apply Cf]|].
  pose proof (count_extend ready 0 (contiguous_ready_bytes p) true ltac:(lia) Cp) as He. change (count_bytes ready 0) with 0 in He.
  pose proof (count_mono ready (contiguous_ready_bytes p) size ltac:(lia)). pose proof (count_bounds ready size ltac:(lia)).
  rewrite Cv. cbv iota in He. lia.
Qed.

Lemma demo_layout : torrent_layout 1000 120000 32768 130000 demo_info.
Proof. by split; simpl; [lia|lia|lia|]. Qed.

Lemma progress_counts_bytes_witness :
  let stream := progress_for (new_impl 1 1 0) demo_memory demo_route in
  bst_contiguous_ready_bytes stream = 31768 /\ bst_verified_file_bytes stream = 64536 /\
  bst_verified_file_bytes stream = count_bytes (byte_ready 1000 32768 (MkStatus false [true; false; true; false])) 120000.
Proof.
  split; [vm_compute; reflexivity|]. split; [vm_compute; reflexivity|].
  apply (progress_counts_bytes (new_impl 1 1 0) demo_memory demo_route demo_info (MkStatus false [true; false; true; false]) 130000);
    [reflexivity|reflexivity|reflexivity|reflexivity|reflexivity|exact demo_layout|vm_compute; discriminate].
Defined.
