(* ===== verification/BridgeInvariant.v ===== *)
(** The stream bridge as a state machine: the HTTP threads, the engine's thread and
    libtorrent as steps on the shared state of src/torrent/libtorrent_stream_bridge.cpp, and
    what holds in every state they reach. *)
From stdpp Require Import prelude strings list gmap.
From Stdlib Require Import ZArith Lia Ascii.
From S2P Require Import Prelude Text OrderedMap ByteRange PieceScheduler DemandPlan PieceCache EngineTypes BridgeState BridgeReads MemoryTorrent StreamSchedule StreamBridge StreamProgress.

(** ** The cache holds the bytes of the pieces *)

Section cache.
Context (content : PieceCacheKey -> piece_data).
Implicit Types c : PieceCache.

Definition cache_ok c : Prop := forall k e, entries c !! k = Some e -> entry_data e = content k.

Lemma cache_ok_sub c c' : cache_ok c -> entries c' ⊆ entries c -> cache_ok c'.
Proof. intros Hc Hs k e He. apply Hc. by eapply lookup_weaken. Qed.

Lemma evict_loop_entries fuel n c : entries (evict_loop fuel n c) ⊆ entries c.
Proof.
  revert c. induction fuel as [|fuel IH]; intros c; simpl; [done|]. destruct (last (recency c)) as [least|]; [|done].
  destruct (_ <? _); [|done]. destruct (entries c !! least.2) as [entry|]; [|etrans; [apply IH|done]].
  etrans; [apply IH|]. simpl. apply delete_subseteq.
Qed.

Lemma cache_ok_get c k d c' : cache_ok c -> get c k = (d, c') -> cache_ok c' /\ forall bytes, d = Some bytes -> bytes = content k.
Proof.
  unfold get. intros Hc. destruct (entries c !! k) as [e|] eqn:E; intros [= <- <-]; (split; [done|]); [|done].
  intros bytes [= <-]. by apply Hc.
Qed.

Lemma cache_ok_put c k d : cache_ok c -> d = content k -> cache_ok (put c k (Some d) true true).2.
Proof.
  intros Hc Hd. unfold put. set (c1 := match entries c !! k with Some _ => _ | None => c end).
  assert (Hc1 : cache_ok c1).
  { unfold c1. destruct (entries c !! k); [|done]. eapply cache_ok_sub; [exact Hc|]. simpl. apply delete_subseteq. }
  destruct (_ || _); [done|]. unfold insert_new. simpl. set (c2 := evict_loop _ _ _).
  assert (Hc2 : cache_ok c2) by (eapply cache_ok_sub; [exact Hc1|apply evict_loop_entries]).
  destruct (entries c2 !! k); simpl; [done|]. unfold cache_ok. simpl. intros k' e' [[<- <-]|[_ He]]%lookup_insert_Some; [done|by apply Hc2].
Qed.

Lemma erase_torrent_sub c id : entries (erase_torrent c id) ⊆ entries c.
Proof.
  unfold erase_torrent. generalize (map_to_list (entries c)) as l. intros l. revert c.
  induction l as [|e l IH]; intros c; simpl; [done|]. etrans; [apply IH|]. case_decide; [|done]. simpl. apply delete_subseteq.
Qed.

Lemma cache_ok_erase c id : cache_ok c -> cache_ok (erase_torrent c id).
Proof. intros Hc. eapply cache_ok_sub; [exact Hc|apply erase_torrent_sub]. Qed.
End cache.

(** ** The readers under the operations *)

Section reads.
Context {H W : Type} `{Torrents H W}.
Context (key_of : nat -> PieceCacheKey) (content : PieceCacheKey -> piece_data).
Implicit Types (s : Impl H) (w : W).

Abbreviation reads_ok := (reads_ok key_of content).

(** What libtorrent guarantees: exceptions have messages, a piece length is an [int], and a
    valid handle in the session has its metadata or none. *)
Record torrent_laws : Prop := {
  law_messages : messages (H := H) (W := W);
  law_lengths : lengths_ok (H := H) (W := W);
  law_metadata : forall (w : W) (h : H), lt_is_valid w h = true -> lt_in_session w h = true ->
    exists metadata, lt_torrent_file w h = Returned metadata;
}.

Context (laws : torrent_laws).

Lemma recompute_reads_ok queue id s w : reads_ok queue (reads s) -> reads_ok queue (reads (recompute_schedule id s w).1).
Proof.
  apply recompute_reads; [apply laws|apply reads_ok_requested|]. intros. by apply reads_ok_fail.
Qed.

Lemma recompute_all_reads_ok queue l s w : reads_ok queue (reads s) ->
  reads_ok queue (reads (fold_left (fun st id => recompute_schedule id st.1 st.2) l (s, w)).1).
Proof.
  revert s w. induction l as [|id l IH]; intros s w Hok; simpl; [done|].
  pose proof (recompute_reads_ok queue id s w Hok). destruct (recompute_schedule id s w). by apply IH.
Qed.

Lemma stop_demands_reads_ok queue st l id s : reads_ok queue (reads s) -> reads_ok queue (reads (fold_left (stop_demand st) l (id, s)).2).
Proof.
  revert id s. induction l as [|e l IH]; intros id s Hok; simpl; [done|]. case_decide; apply IH; [done|]. simpl.
  by apply reads_ok_cancel.
Qed.

Lemma stop_stream_reads_ok queue st s w : reads_ok queue (reads s) -> reads_ok queue (reads (stop_stream st s w).1.1).
Proof.
  intros Hok. rewrite stop_stream_eq. assert (Hs : reads_ok queue (reads (stopped st s).2)).
  { unfold stopped. destruct (routes _ !! _); by apply stop_demands_reads_ok. }
  destruct (stopped st s) as [[|c id] s']; [done|]. by apply recompute_reads_ok.
Qed.

Lemma removed_reads id s : reads (removed id s) =
  with_partial_blocks (filter (fun e => key_torrent_id e.1 <> id) (partial_blocks (reads s)))
    (with_requested_reads (filter (fun e => key_torrent_id e.1 <> id) (requested_reads (reads s))) (reads s)).
Proof. unfold removed. rewrite remove_demands_state. done. Qed.

(** Blocks that are not there do not appear. *)
Lemma fail_piece_blocks r k e : partial_blocks (fail_piece k e r) ⊆ partial_blocks r.
Proof.
  unfold fail_piece. simpl. destruct (piece_waiters r !! k); simpl; [rewrite complete_waiters_eq; simpl|]; apply delete_subseteq.
Qed.

Lemma recompute_blocks id s w k : partial_blocks (reads s) !! k = None -> partial_blocks (reads (recompute_schedule id s w).1) !! k = None.
Proof.
  apply (recompute_reads (fun r => partial_blocks r !! k = None)); [apply laws|done|].
  intros r k' e Hn _. eapply lookup_weaken_None; [exact Hn|apply fail_piece_blocks].
Qed.

Lemma remove_torrent_reads_ok queue id s w : reads_ok queue (reads s) -> reads_ok queue (reads (remove_torrent id s w).1).
Proof.
  intros Hok. rewrite remove_torrent_eq.
  assert (Hr : reads_ok queue (reads (removed id s))).
  { rewrite removed_reads. apply (reads_ok_fewer_blocks _ _ queue (with_requested_reads _ (reads s))); [by apply reads_ok_requested|].
    apply map_filter_subseteq. }
  pose proof (recompute_reads_ok queue id (removed id s) w Hr) as Hr2.
  assert (Hb : forall k, key_torrent_id k = id -> partial_blocks (reads (recompute_schedule id (removed id s) w).1) !! k = None).
  { intros k Hk. apply recompute_blocks. rewrite removed_reads. simpl. apply map_lookup_filter_None. right. intros b _ Hn. by apply Hn. }
  destruct (recompute_schedule id (removed id s) w) as [s' w']. simpl in *. by apply reads_ok_remove.
Qed.

Lemma request_read_ok queue route piece s w : reads_ok queue (reads s) -> reads_ok queue (reads (request_read route piece s w).1).
Proof.
  intros Hok. unfold request_read. destruct (lt_now w) as [w1 now]. destruct (requested_reads (reads s) !! _); [done|].
  destruct (lt_read_piece w1 _ _) as [w2 [u|what]]; simpl; [by apply reads_ok_requested|].
  apply reads_ok_fail; [|done]. by do 2 apply reads_ok_requested.
Qed.

Lemma request_read_frame route piece s w : let s' := (request_read route piece s w).1 in s' = with_reads (reads s') s.
Proof.
  unfold request_read. destruct (lt_now w) as [w1 now]. destruct (requested_reads (reads s) !! _); [by destruct s|].
  destruct (lt_read_piece w1 _ _) as [w2 [u|what]]; by destruct s.
Qed.
End reads.

(** ** Taking the commands *)

Section commands.
Context {H W : Type} `{Torrents H W}.
Context (key_of : nat -> PieceCacheKey) (content : PieceCacheKey -> piece_data).
Context (laws : torrent_laws (H := H) (W := W)).
Implicit Types (s : Impl H) (w : W).

Abbreviation reads_ok := (reads_ok key_of content).

(** The waiter of a command. *)
Definition waiter_of (c : HttpCommand H) : option nat :=
  match c with read_piece _ _ _ _ p _ => Some p | _ => None end.
Definition queue_of (l : list (HttpCommand H)) : list nat := omap waiter_of l.

Definition command_ok (c : HttpCommand H) : Prop :=
  match c with
  | begin_demand d _ _ _ => 1 <= d
  | end_demand _ => True
  | read_piece _ route _ piece p _ => key_of p = MkKey (route_torrent_id route) piece
  end.

(** The state while the engine's thread works, with the commands it took in [l]. *)
Record engine_ok (l : list (HttpCommand H)) s : Prop := {
  eo_streams : streams_ok s;
  eo_cache : cache_ok content (piece_cache s);
  eo_reads : reads_ok (queue_of l ++ queue_of (commands s)) (reads s);
  eo_commands : Forall command_ok l /\ Forall command_ok (commands s);
  eo_next : 1 <= next_demand_id s;
}.

(** Only the members the invariant names matter. *)
Lemma engine_ok_ext l s s' : engine_ok l s -> streams_ok s' -> piece_cache s' = piece_cache s ->
  reads_ok (queue_of l ++ queue_of (commands s)) (reads s') -> commands s' = commands s -> next_demand_id s' = next_demand_id s -> engine_ok l s'.
Proof. intros [? Hc ? ? ?] Hs Ep Hr Ec En. split; [done|by rewrite Ep|by rewrite Ec|by rewrite Ec|by rewrite En]. Qed.

Lemma engine_ok_recompute l id s w : engine_ok l s -> engine_ok l (recompute_schedule id s w).1.
Proof.
  intros Hok. pose proof (recompute_frame id s w) as Hf. cbv zeta in Hf. eapply engine_ok_ext; [done| | | | |].
  - by apply recompute_keeps, Hok.
  - by rewrite Hf.
  - by apply recompute_reads_ok, Hok.
  - by rewrite Hf.
  - by rewrite Hf.
Qed.

Lemma engine_ok_recompute_all l ids s w : engine_ok l s ->
  engine_ok l (fold_left (fun st id => recompute_schedule id st.1 st.2) ids (s, w)).1.
Proof.
  revert s w. induction ids as [|id ids IH]; intros s w Hok; simpl; [done|].
  pose proof (engine_ok_recompute l id s w Hok). destruct (recompute_schedule id s w). by apply IH.
Qed.

(** A command was taken whose waiter got an answer at once. *)
Lemma engine_ok_answer l d route range piece p st s data e :
  engine_ok (read_piece d route range piece p st :: l) s -> answer_ok content (key_of p) data e ->
  engine_ok l (on_reads (complete_waiter p data e) s).
Proof.
  intros [? ? Hr [Hl ?] ?] Ha. apply Forall_cons in Hl as [_ Hl]. split; simpl; try done; [by eapply streams_ok_ext|].
  by apply reads_ok_complete.
Qed.

Lemma streams_ok_range s d range a : streams_ok s -> active_demands s !! d = Some a ->
  streams_ok (with_active_demands (<[d := MkActive (ad_id a) (ad_route a) range (ad_state a) (ad_needs_data a)]> (active_demands s)) s).
Proof.
  intros Hok Ha. apply streams_ok_demands; [done|]. intros d' a'. destruct (sc_demands _ (proj1 Hok) d a Ha) as (? & ? & ?).
  intros [[<- <-]|[_ Hd]]%lookup_insert_Some; [done|]. by apply (sc_demands _ (proj1 Hok)).
Qed.

(** A piece request is answered, or its waiter waits; it does not fail. *)
Lemma process_piece_request_ok l d route range piece p st s w :
  engine_ok (read_piece d route range piece p st :: l) s ->
  exists sw, process_piece_request d route piece p s w = (sw, Returned tt) /\ engine_ok l sw.1.
Proof.
  intros Hok. assert (Hkey : key_of p = MkKey (route_torrent_id route) piece).
  { destruct (eo_commands _ _ Hok) as [Hl _]. by apply Forall_cons in Hl as [? _]. }
  unfold process_piece_request. destruct (bool_decide _ || _ || _) eqn:Eg.
  { eexists. split; [done|]. by eapply engine_ok_answer. }
  apply orb_false_iff in Eg as [[_ Hv%negb_false_iff]%orb_false_iff Hi%negb_false_iff].
  destruct (law_metadata laws w _ Hv Hi) as [metadata Hm]. rewrite Hm.
  destruct metadata as [metadata|]; [|eexists; split; [done|]; by eapply engine_ok_answer].
  destruct (_ <=? piece); [eexists; split; [done|]; by eapply engine_ok_answer|].
  destruct (get (piece_cache s) _) as [cached cache] eqn:Eget. rewrite <-Hkey in Eget |- *.
  destruct (cache_ok_get content _ _ _ _ (eo_cache _ _ Hok) Eget) as [Hcache Hbytes].
  destruct cached as [data|].
  - eexists. split; [done|]. eapply engine_ok_answer; [|split; [by apply Hbytes|done]].
    destruct Hok as [Hs _ Hr Hc Hn]. split; [|done..]. apply streams_ok_needs. by eapply streams_ok_ext.
  - set (s1 := on_reads _ _).
    assert (Hok1 : engine_ok l s1).
    { destruct Hok as [Hs _ Hr [Hl Hc] Hn]. apply Forall_cons in Hl as [_ Hl]. split; simpl; try done; [by eapply streams_ok_ext|].
      by apply (reads_ok_wait key_of content _ (reads s) p). }
    assert (Hwaits : is_Some (piece_waiters (reads s1) !! key_of p)) by (unfold s1; simpl; by rewrite lookup_insert_eq).
    assert (Hok2 : forall b, engine_ok l (set_needs_data d b s1)).
    { intros b. destruct Hok1 as [? ? ? ? ?]. split; try done. by apply streams_ok_needs. }
    destruct (piece_available s1 w route piece).
    + eexists. split; [done|]. pose proof (request_read_frame route piece (set_needs_data d (negb true) s1) w) as Hf. cbv zeta in Hf.
      eapply engine_ok_ext; [apply Hok2| | | | |].
      * rewrite Hf. by eapply streams_ok_ext; [apply Hok2|..].
      * by rewrite Hf.
      * apply request_read_ok, (Hok2 (negb true)).
      * by rewrite Hf.
      * by rewrite Hf.
    + eexists. split; [done|]. eapply engine_ok_ext; [apply (Hok2 (negb false))| |done| |done|done].
      * by eapply streams_ok_ext; [apply (Hok2 (negb false))|..].
      * simpl. apply reads_ok_publish, reads_ok_blocks; [apply Hok1|].
        intros k b [[<- _]|[_ Hb]]%lookup_insert_Some; [done|]. by eapply (ro_partial _ _ _ _ (eo_reads _ _ Hok1)).
Qed.

Lemma poll_command_ok c l changed s w : engine_ok (c :: l) s ->
  exists sw changed', poll_command c changed s w = (sw, Returned changed') /\ engine_ok l sw.1.
Proof.
  intros Hok. pose proof (eo_commands _ _ Hok) as [[Hc Hl]%Forall_cons Hq].
  destruct c as [d route range st|d|d route range piece p st]; cbn [poll_command].
  - assert (Hok' : engine_ok l s) by (destruct Hok; by split).
    destruct (negb _ && route_is_active s route) eqn:Ea; eexists _, _; (split; [done|]).
    + apply andb_true_iff in Ea as [_ Ea%route_is_active_spec]. destruct Hok' as [? ? ? ? ?]. split; try done.
      apply streams_ok_demands; [done|]. intros d' a [[<- <-]|[_ Hd]]%lookup_insert_Some; [done|]. by apply (sc_demands _ (proj1 eo_streams0)).
    + destruct Hok' as [? ? ? ? ?]. split; try done. by eapply streams_ok_ext.
  - assert (Hok' : engine_ok l s) by (destruct Hok; by split).
    destruct (active_demands s !! d) as [found|]; eexists _, _; (split; [done|]); [|done].
    destruct Hok' as [Hs ? ? ? ?]. split; try done. apply streams_ok_demands; [done|]. intros d' a [_ Hd]%lookup_delete_Some.
    by apply (sc_demands _ (proj1 Hs)).
  - destruct (active_demands s !! d) as [demand|] eqn:Ed; [|eexists _, _; split; [done|]; by eapply engine_ok_answer].
    destruct (default true _); [eexists _, _; split; [done|]; by eapply engine_ok_answer|].
    set (s1 := with_active_demands _ s).
    destruct (process_piece_request_ok l d route range piece p st s1 w) as (sw & -> & Hsw).
    { destruct Hok as [? ? ? ? ?]. split; try done. by apply streams_ok_range. }
    eexists _, _. done.
Qed.

Lemma poll_commands_ok l changed s w : engine_ok l s ->
  exists sw changed', poll_commands l changed s w = (sw, Returned changed') /\ engine_ok [] sw.1.
Proof.
  revert changed s w. induction l as [|c l IH]; intros changed s w Hok; cbn [poll_commands]; [eexists _, _; done|].
  destruct (poll_command_ok c l changed s w Hok) as ([s1 w1] & changed1 & -> & Hok1). by apply IH.
Qed.
End commands.

(** ** The engine's thread *)

Section engine.
Context {H W : Type} `{Torrents H W}.
Context (key_of : nat -> PieceCacheKey) (content : PieceCacheKey -> piece_data).
Context (laws : torrent_laws (H := H) (W := W)).
Implicit Types (s : Impl H) (w : W).

Abbreviation reads_ok := (reads_ok key_of content).
Abbreviation engine_ok := (engine_ok key_of content).

(** The members that the operations on streams leave alone. *)
Definition rest s := (piece_cache s, commands s, next_demand_id s, shutting_down s).

Lemma engine_ok_rest l s s' : engine_ok l s -> streams_ok s' -> rest s' = rest s ->
  reads_ok (queue_of l ++ queue_of (commands s)) (reads s') -> engine_ok l s'.
Proof. intros Hok Hs [= Ep Ec En _] Hr. by eapply engine_ok_ext. Qed.

Lemma recompute_rest id s w : rest (recompute_schedule id s w).1 = rest s.
Proof. by rewrite recompute_frame. Qed.

Lemma reissue_frame now l s w : let s' := (fold_left (reissue_read now) l (s, w)).1 in
  s' = with_reads (with_requested_reads (requested_reads (reads s')) (reads s)) s.
Proof.
  revert s w. induction l as [|e l IH]; intros s w; cbn [fold_left]; [by destruct s as [? ? ? ? ? ? ? ? ? ? ? []]|].
  cbv zeta in *. unfold reissue_read at 2 4. destruct (match requested_reads (reads s) !! e.1 with Some _ => _ | None => _ end); [apply IH|].
  destruct (list_find _ _) as [[i demand]|]; [|apply IH].
  destruct (lt_have_piece w _ _) as [[]|]; [|apply IH..]. destruct (lt_read_piece w _ _) as [w1 [u|what]]; [|apply IH].
  rewrite IH at 1. by destruct s.
Qed.

Lemma reissue_stalled_reads_ok l s w : engine_ok l s -> engine_ok l (reissue_stalled_reads s w).1.
Proof.
  intros Hok. unfold reissue_stalled_reads. destruct (lt_now w) as [w1 now]. destruct (_ || _); [done|].
  rewrite reissue_frame. eapply engine_ok_rest; [done| |done|].
  - by eapply streams_ok_ext; [apply Hok|..].
  - simpl. by apply reads_ok_requested, Hok.
Qed.

Lemma expire_loop_rest st s w : rest (fold_left expire_stream st (s, w)).1 = rest s.
Proof.
  revert s w. induction st as [|e st IH]; intros s w; [done|]. cbn [fold_left]. unfold expire_stream at 2. cbn [fst snd].
  pose proof (recompute_rest (st_torrent_id e) (erase_anchor (st_stream_id e) s) w) as Hr.
  destruct (recompute_schedule _ _ w) as [s1 w1]. rewrite IH. cbn [fst] in Hr. etrans; [|exact Hr]. done.
Qed.

Lemma expire_loop_reads queue st s w : reads_ok queue (reads s) -> reads_ok queue (reads (fold_left expire_stream st (s, w)).1).
Proof.
  revert s w. induction st as [|e st IH]; intros s w Hok; [done|]. cbn [fold_left]. unfold expire_stream at 2. cbn [fst snd].
  pose proof (recompute_reads_ok key_of content laws queue (st_torrent_id e) (erase_anchor (st_stream_id e) s) w Hok) as Hr.
  destruct (recompute_schedule _ _ w) as [s1 w1]. apply IH. done.
Qed.

Lemma expire_rest s w : rest (expire_inactive_streams s w).1 = rest s.
Proof.
  unfold expire_inactive_streams. destruct (_ =? 0); [done|]. destruct (lt_now w) as [w1 now]. destruct (now <? _); [done|].
  rewrite expire_loop_rest. by destruct (filter _ _).
Qed.

Lemma expire_inactive_streams_engine_ok l s w : engine_ok l s -> engine_ok l (expire_inactive_streams s w).1.
Proof.
  intros Hok. eapply engine_ok_rest; [done|by apply expire_inactive_streams_ok, Hok|apply expire_rest|]. unfold expire_inactive_streams.
  destruct (_ =? 0); [apply Hok|]. destruct (lt_now w) as [w1 now]. destruct (now <? _); [apply Hok|].
  apply expire_loop_reads. destruct (filter _ _); apply Hok.
Qed.

Lemma poll_ok s w : engine_ok [] s -> exists sw, poll s w = (sw, Returned tt) /\ engine_ok [] sw.1.
Proof.
  intros Hok. unfold poll.
  destruct (poll_commands_ok key_of content laws (commands s) ∅ (with_commands [] s) w) as ([s1 w1] & changed & -> & Hok1).
  { destruct Hok as [Hs Hc Hr [_ Hq] Hn]. split; try done; [by eapply streams_ok_ext|]. simpl. by rewrite app_nil_r. }
  simpl in Hok1.
  assert (Hok2 : engine_ok [] (on_reads prune_cancelled_waiters s1)).
  { eapply engine_ok_rest; [done| |done|]; [by eapply streams_ok_ext; [apply Hok1|..]|]. by apply reads_ok_prune, Hok1. }
  pose proof (engine_ok_recompute_all key_of content laws [] (elements changed) _ w1 Hok2) as Hok3.
  destruct (fold_left _ (elements changed) _) as [s2 w2]. pose proof (reissue_stalled_reads_ok [] s2 w2 Hok3) as Hok4.
  destruct (reissue_stalled_reads s2 w2) as [s3 w3]. eexists. split; [done|]. by apply expire_inactive_streams_engine_ok.
Qed.

(** *** Streams *)

Lemma stop_stream_rest st s w : rest (stop_stream st s w).1.1 = rest s.
Proof.
  rewrite stop_stream_eq. assert (Hr : rest (stopped st s).2 = rest s).
  { unfold stopped. destruct (routes _ !! _); by rewrite stop_demands_state. }
  destruct (stopped st s) as [[|c id] s']; [done|]. cbn [fst]. by rewrite recompute_rest.
Qed.

Lemma stop_stream_engine_ok st s w : engine_ok [] s -> engine_ok [] (stop_stream st s w).1.1.
Proof.
  intros Hok. eapply engine_ok_rest; [done|by apply stop_stream_ok, Hok|apply stop_stream_rest|]. by apply stop_stream_reads_ok, Hok.
Qed.

Lemma stop_all_engine_ok l s w : engine_ok [] s -> engine_ok [] (fold_left stop_all l (s, w)).1.
Proof.
  revert s w. induction l as [|st l IH]; intros s w Hok; simpl; [done|]. unfold stop_all at 2. simpl.
  pose proof (stop_stream_engine_ok st s w Hok) as Hok1. destruct (stop_stream st s w) as [[s1 w1] id]. by apply IH.
Qed.

Lemma register_stream_engine_ok handle id file_index file token port s w : engine_ok [] s -> file_ok file -> id <> [] -> fresh_token s token ->
  engine_ok [] (register_stream handle id file_index file token port s w).1.1.
Proof.
  intros Hok Hfile Hnil Hfresh. pose proof (register_stream_ok handle id file_index file token port s w (law_lengths laws) Hfile (eo_streams _ _ _ _ Hok) Hnil Hfresh) as Hs.
  enough (Hx : let s' := (register_stream handle id file_index file token port s w).1.1 in
    rest s' = rest s /\ reads_ok (queue_of (commands s)) (reads s')) by (eapply engine_ok_rest; [done|done|by apply Hx|by apply Hx]).
  clear Hs. unfold register_stream. destruct (shutting_down s); [split; [done|apply Hok]|].
  destruct (lt_torrent_file w handle) as [[metadata|]|]; [|split; [done|apply Hok]..].
  destruct (_ <=? 0); [split; [done|apply Hok]|].
  destruct token as [stream_id|]; [|split; [done|apply Hok]]. destruct (lt_save_path w handle) as [save_path|]; [|split; [done|apply Hok]].
  destruct (lt_now w) as [w1 now]. set (s1 := with_activities _ _). set (previous := (fun e => route_stream_id e.2) <$> _).
  assert (Hok1 : engine_ok [] s1). { eapply engine_ok_rest; [done| |done|apply Hok]. by eapply streams_ok_ext; [apply Hok|..]. }
  assert (Hrest : forall l s w, rest (fold_left stop_all l (s, w)).1 = rest s).
  { clear. induction l as [|st l IH]; intros s w; [done|]. cbn [fold_left]. unfold stop_all at 2. cbn [fst snd].
    pose proof (stop_stream_rest st s w) as Hr. destruct (stop_stream st s w) as [[s1 w1] id]. cbn [fst] in *. by rewrite IH. }
  pose proof (stop_all_engine_ok previous s1 w1 Hok1) as Hok2. pose proof (Hrest previous s1 w1) as Hr2.
  destruct (fold_left stop_all previous (s1, w1)) as [s2 w2]. cbn [fst] in Hok2, Hr2.
  assert (Hc2 : commands s2 = commands s) by (by injection Hr2).
  assert (Hreads : reads_ok (queue_of (commands s)) (reads s2)) by (rewrite <-Hc2; apply (eo_reads _ _ _ _ Hok2)).
  destruct (0 <? _); [|done]. destruct (blocking_demand_range _ _ _ _) as [range|ex]; [|done]. cbn [fst].
  split; [by rewrite recompute_rest|]. apply recompute_reads_ok; [done|]. exact Hreads.
Qed.

Lemma remove_demands_rest id l s : rest (fold_left (remove_demand id) l s) = rest s.
Proof.
  revert s. induction l as [|e l IH]; intros s; [done|]. cbn [fold_left]. rewrite IH. unfold remove_demand. by case_decide.
Qed.

Lemma removed_rest id s : rest (removed id s) = (erase_torrent (piece_cache s) id, commands s, next_demand_id s, shutting_down s).
Proof. unfold removed. by rewrite remove_demands_rest. Qed.

Lemma remove_torrent_engine_ok id s w : engine_ok [] s -> engine_ok [] (remove_torrent id s w).1.
Proof.
  intros Hok. pose proof (remove_torrent_ok id s w (eo_streams _ _ _ _ Hok)) as Hs.
  pose proof (remove_torrent_reads_ok key_of content laws _ id s w (eo_reads _ _ _ _ Hok)) as Hr. destruct Hok as [_ Hc _ [_ Hq] Hn].
  assert (Hf : rest (remove_torrent id s w).1 = (erase_torrent (piece_cache s) id, commands s, next_demand_id s, shutting_down s)).
  { rewrite remove_torrent_eq. pose proof (recompute_rest id (removed id s) w) as Hf. rewrite removed_rest in Hf.
    destruct (recompute_schedule id (removed id s) w) as [s' w']. exact Hf. }
  injection Hf as Ec Eq En _. split; [done| |by rewrite Eq|by rewrite Eq|by rewrite En]. rewrite Ec. by apply cache_ok_erase.
Qed.

(** *** Alerts *)

(** A read alert carries the bytes of the piece or an error with a message. *)
Definition alert_ok (alert : read_piece_alert H) : Prop :=
  match rp_error alert with
  | Some message => message <> []
  | None => forall data, rp_buffer alert = Some data -> data <> [] -> data = content (alert_key (rp_handle alert) (rp_piece alert))
  end.

Lemma handle_read_piece_ok alert s : engine_ok [] s -> alert_ok alert -> engine_ok [] (handle_read_piece alert s).
Proof.
  intros Hok Ha. unfold handle_read_piece. set (key := alert_key _ _). unfold alert_ok in Ha.
  assert (Hfail : forall e s1, e <> [] -> rest s1 = rest s -> streams_ok s1 ->
    reads_ok (queue_of (commands s)) (reads s1) -> engine_ok [] (on_reads (fail_piece key e) s1)).
  { intros e s1 He Hr Hs Hreads. eapply engine_ok_rest; [exact Hok| |exact Hr|]; [by eapply streams_ok_ext|]. by apply reads_ok_fail. }
  assert (Hless : reads_ok (queue_of (commands s)) (with_partial_blocks (delete key (partial_blocks (reads s)))
    (with_requested_reads (delete key (requested_reads (reads s))) (reads s)))).
  { apply reads_ok_fewer_blocks; [apply reads_ok_requested, Hok|]. apply delete_subseteq. }
  assert (Hst : streams_ok (on_reads (fun r => with_partial_blocks (delete key (partial_blocks r))
     (with_requested_reads (delete key (requested_reads r)) r)) s)) by (eapply streams_ok_ext; [apply Hok|done..]).
  destruct (rp_error alert) as [message|].
  { apply Hfail; [|done..]. by destruct (rp_buffer alert) as [[]|]. }
  destruct (rp_buffer alert) as [[|b data]|]; [by apply Hfail| |by apply Hfail].
  specialize (Ha (b :: data) eq_refl ltac:(done)). destruct Hok as [Hs Hc Hr Hq Hn].
  split; [by eapply streams_ok_ext| | |done|done].
  - by apply cache_ok_put.
  - exact (reads_ok_data key_of content _ (reads s) key (b :: data) Hr Ha).
Qed.

Lemma handle_block_finished_ok alert s w : engine_ok [] s -> engine_ok [] (handle_block_finished alert s w).1.
Proof.
  intros Hok. unfold handle_block_finished. case_bool_decide; [done|]. set (key := alert_key _ _).
  destruct (partial_blocks (reads s) !! key) as [blocks|] eqn:E; [|done]. destruct (_ || _); [done|]. set (s1 := on_reads _ (on_reads _ s)).
  assert (Hok1 : engine_ok [] s1).
  { eapply engine_ok_rest; [done| |done|]; [by eapply streams_ok_ext; [apply Hok|..]|]. simpl.
    apply reads_ok_publish_partial, reads_ok_blocks; [apply Hok|].
    intros k b [[<- _]|[_ Hb]]%lookup_insert_Some; eapply (ro_partial _ _ _ _ (eo_reads _ _ _ _ Hok)); done. }
  destruct (none_finished blocks); [|done]. by apply engine_ok_recompute.
Qed.

Lemma handle_hash_failed_ok alert s : engine_ok [] s -> engine_ok [] (handle_hash_failed alert s).
Proof.
  intros Hok. unfold handle_hash_failed. set (key := alert_key _ _). destruct (partial_blocks (reads s) !! key) as [blocks|] eqn:E; [|done].
  eapply engine_ok_rest; [done| |done|]; [by eapply streams_ok_ext; [apply Hok|..]|]. simpl.
  apply reads_ok_publish_partial, reads_ok_blocks; [apply Hok|].
  intros k b [[<- _]|[_ Hb]]%lookup_insert_Some; eapply (ro_partial _ _ _ _ (eo_reads _ _ _ _ Hok)); done.
Qed.
End engine.

(** ** The steps of all threads *)

Section steps.
Context {H W : Type} `{Torrents H W}.
Context (key_of : nat -> PieceCacheKey) (content : PieceCacheKey -> piece_data).
Implicit Types (s : Impl H) (w : W).

Abbreviation reads_ok := (reads_ok key_of content).
Abbreviation engine_ok := (engine_ok key_of content).

(** [serve_piece] makes a waiter and queues a command with it; when the queue refuses the
    command, nobody else sees the waiter. *)
Definition queue_read (d : Z) (route : StreamRoute H) (range : ByteRange) (piece : Z) (state : nat) s : Impl H :=
  let '(p, s1) := make_waiter s d in
  let '(queued, s2) := enqueue s1 (read_piece d route range piece p state) in
  if (queued : bool) then s2 else s.

(** [handle_http] takes a demand number and queues the demand. *)
Definition queue_demand (route : StreamRoute H) (range : ByteRange) s : Impl H :=
  let '(d, state, s1) := new_demand s in (enqueue s1 (begin_demand d route range state)).2.

(** The thread that makes the calls of [ProtocolBackend]; it makes no call after [shutdown]. *)
Inductive engine_step : Impl H * W -> Impl H * W -> Prop :=
| step_poll s w : engine_step (s, w) (poll s w).1
| step_register s w handle id file_index file token port : file_ok file -> id <> [] -> fresh_token s token ->
    engine_step (s, w) (register_stream handle id file_index file token port s w).1
| step_stop s w stream_id : engine_step (s, w) (stop_stream stream_id s w).1
| step_remove s w id : engine_step (s, w) (remove_torrent id s w)
| step_read_piece s w alert : alert_ok content alert -> engine_step (s, w) (handle_read_piece alert s, w)
| step_block_finished s w alert : engine_step (s, w) (handle_block_finished alert s w)
| step_hash_failed s w alert : engine_step (s, w) (handle_hash_failed alert s, w)
| step_pop_expired s w : engine_step (s, w) ((pop_expired_streams s).2, w)
| step_statistics s w requests : engine_step (s, w) (statistics requests s w).1
| step_shutdown s w : engine_step (s, w) (shutdown_begin s, w).

(** The HTTP threads. *)
Inductive http_step : Impl H -> Impl H -> Prop :=
| step_find s target : http_step s (find_route s target).2
| step_release s p now : http_step s (with_activities (alter (fun a => release_http_request a now) p (activities s)) s)
| step_begin s route range : next_demand_id s < U64_MAX -> http_step s (queue_demand route range s)
| step_end s d : http_step s (enqueue_end s d)
| step_read s d route range piece state : key_of (length (waiters (reads s))) = MkKey (route_torrent_id route) piece ->
    http_step s (queue_read d route range piece state s)
| step_cancel s p : http_step s (cancel_waiter s p)
| step_deliver s p n : http_step s (with_delivered (add_delivered_bytes (delivered s) p n) s).

(** Every waiter has its answer or its reader has gone. *)
Definition readers_gone s : Prop := forall p v, waiters (reads s) !! p = Some v -> waiter_done v = true \/ waiter_cancelled v = true.

Inductive bridge_step : Impl H * W -> Impl H * W -> Prop :=
| step_engine s w sw : shutting_down s = false -> engine_step (s, w) sw -> bridge_step (s, w) sw
| step_http s s' w : http_step s s' -> bridge_step (s, w) (s', w)
| step_world s w w' : bridge_step (s, w) (s, w')
| step_shutdown_end s w : shutting_down s = true -> readers_gone s -> bridge_step (s, w) (shutdown_end s w).

(** While the server is stopped the lists are empty but the blocks are not. *)
Definition live s : Impl H := if shutting_down s then on_reads (with_partial_blocks ∅) s else s.

Definition bridge_ok s : Prop := engine_ok [] (live s).

Lemma live_with s (f : Impl H -> Impl H) : shutting_down (f s) = shutting_down s ->
  (shutting_down s = true -> f (on_reads (with_partial_blocks ∅) s) = on_reads (with_partial_blocks ∅) (f s)) -> live (f s) = f (live s).
Proof. unfold live. intros -> Hf. destruct (shutting_down s); [|done]. symmetry. by apply Hf. Qed.

Lemma queue_of_app (l1 l2 : list (HttpCommand H)) : queue_of (l1 ++ l2) = queue_of l1 ++ queue_of l2.
Proof. apply omap_app. Qed.

(** A thread adds a command that has no waiter. *)
Lemma engine_ok_enqueue s c : engine_ok [] s -> command_ok key_of c -> waiter_of c = None ->
  engine_ok [] (with_commands (commands s ++ [c]) s).
Proof.
  intros [Hs Hc Hr [_ Hq] Hn] Hok Hw. split; simpl; try done; [by eapply streams_ok_ext| |].
  - rewrite queue_of_app. unfold queue_of at 2. simpl. rewrite Hw, app_nil_r. done.
  - split; [done|]. apply Forall_app. split; [done|]. by constructor.
Qed.

Lemma queue_demand_ok route range s : engine_ok [] s -> next_demand_id s < U64_MAX -> engine_ok [] (queue_demand route range s).
Proof.
  intros Hok Hlt. unfold queue_demand. cbn [new_demand]. set (s1 := with_demand_states _ _).
  assert (Hok1 : engine_ok [] s1).
  { destruct Hok as [Hs Hc Hr Hq Hn]. split; simpl; try done; [by eapply streams_ok_ext|]. rewrite wrap64_id by ulia. lia. }
  unfold enqueue. destruct (shutting_down s1); [done|]. destruct (_ <=? _); [done|]. cbn [snd].
  apply engine_ok_enqueue; [done| |done]. simpl. apply Hok.
Qed.

Lemma queue_read_ok d route range piece state s : engine_ok [] s ->
  key_of (length (waiters (reads s))) = MkKey (route_torrent_id route) piece -> engine_ok [] (queue_read d route range piece state s).
Proof.
  intros Hok Hkey. unfold queue_read. cbn [make_waiter]. unfold enqueue. simpl. destruct (shutting_down s); [done|].
  destruct (_ <=? _); [done|]. destruct Hok as [Hs Hc Hr [_ Hq] Hn]. split; simpl; try done; [by eapply streams_ok_ext| |].
  - rewrite queue_of_app. simpl. by apply reads_ok_new.
  - split; [done|]. apply Forall_app. split; [done|]. by constructor.
Qed.

Lemma http_step_ok s s' : http_step s s' -> bridge_ok s -> bridge_ok s'.
Proof.
  unfold bridge_ok. intros Hstep Hok. destruct Hstep as [s target|s p now|s route range Hlt|s d|s d route range piece state Hkey|s p|s p n].
  - unfold find_route. destruct (routes s !! target) as [route|]; [|done]. cbn [snd].
    rewrite (live_with s (fun s => with_activities (alter acquire_http_request (route_activity route) (activities s)) s)) by done.
    destruct Hok as [? ? ? ? ?]. split; try done. by eapply streams_ok_ext.
  - rewrite (live_with s (fun s => with_activities _ s)) by done. destruct Hok as [? ? ? ? ?]. split; try done. by eapply streams_ok_ext.
  - assert (Hn : next_demand_id (live s) = next_demand_id s) by (unfold live; by destruct (shutting_down s)).
    rewrite (live_with s (queue_demand route range)); [by apply queue_demand_ok; [|rewrite Hn]| |].
    + unfold queue_demand, enqueue. simpl. destruct (shutting_down s) eqn:E; [done|]. by destruct (_ <=? _).
    + intros E. unfold queue_demand, enqueue. simpl. by rewrite E.
  - rewrite (live_with s (fun s => enqueue_end s d)) by done. by apply engine_ok_enqueue.
  - assert (Hw : waiters (reads (live s)) = waiters (reads s)) by (unfold live; by destruct (shutting_down s)).
    rewrite (live_with s (queue_read d route range piece state)); [by apply queue_read_ok; [|rewrite Hw]| |].
    + unfold queue_read, enqueue. simpl. destruct (shutting_down s) eqn:E; [done|]. by destruct (_ <=? _).
    + intros E. unfold queue_read, enqueue. simpl. by rewrite E.
  - rewrite (live_with s (fun s => cancel_waiter s p)) by done. destruct Hok as [Hs Hc Hr Hq Hn].
    split; try done; [by eapply streams_ok_ext|]. by apply reads_ok_abandon.
  - rewrite (live_with s (fun s => with_delivered _ s)) by done. destruct Hok as [? ? ? ? ?]. split; try done. by eapply streams_ok_ext.
Qed.
End steps.

(** ** What holds in every state *)

Section reachable.
Context {H W : Type} `{Torrents H W}.
Context (key_of : nat -> PieceCacheKey) (content : PieceCacheKey -> piece_data).
Implicit Types (s : Impl H) (w : W).

Lemma engine_step_ok s w sw : torrent_laws (H := H) (W := W) -> engine_step content (s, w) sw -> engine_ok key_of content [] s ->
  engine_ok key_of content [] sw.1 \/ bridge_ok key_of content sw.1 /\ shutting_down sw.1 = true.
Proof.
  intros laws Hstep Hok. inversion Hstep; subst; clear Hstep; cbn [fst].
  - left. by destruct (poll_ok key_of content laws s w Hok) as (sw & -> & ?).
  - left. by apply register_stream_engine_ok.
  - left. by apply stop_stream_engine_ok.
  - left. by apply remove_torrent_engine_ok.
  - left. by apply handle_read_piece_ok.
  - left. by apply handle_block_finished_ok.
  - left. by apply handle_hash_failed_ok.
  - left. destruct Hok as [? ? ? ? ?]. split; try done. by eapply streams_ok_ext.
  - left. unfold statistics. destruct (lt_now w) as [w1 now]. cbn [fst]. destruct (_ <=? now); [|done].
    destruct Hok as [? ? ? ? ?]. split; try done. by eapply streams_ok_ext.
  - unfold shutdown_begin. destruct (shutting_down s) eqn:E; [by left|]. right. split; [|done].
    unfold bridge_ok, live. simpl. destruct Hok as [? ? ? ? ?]. split; try done; [by eapply streams_ok_ext|]. by apply reads_ok_end.
Qed.

Lemma shutdown_end_ok s w : bridge_ok key_of content s -> shutting_down s = true -> readers_gone s -> bridge_ok key_of content (shutdown_end s w).1.
Proof.
  unfold bridge_ok, live. intros Hok E Hg. rewrite E in Hok. unfold shutdown_end. set (s1 := with_last_ready_pieces _ _).
  set (s2 := fold_left _ _ _).
  assert (Hrest : rest s2 = rest (with_piece_cache (clear (piece_cache s1)) s1) /\ reads s2 = reads s1 /\ revoked_torrents s2 = revoked_torrents s1 /\
    current_schedules s2 = ∅ /\ anchors s2 = ∅).
  { unfold s2. generalize (map_to_list (active_demands (with_piece_cache (clear (piece_cache s1)) s1))) as l. intros l.
    assert (Hin : forall l s0, let s' := fold_left (fun s (entry : Z * ActiveDemand H) => cancel_state (ad_state entry.2) s) l s0 in
      rest s' = rest s0 /\ reads s' = reads s0 /\ revoked_torrents s' = revoked_torrents s0 /\ current_schedules s' = current_schedules s0 /\
      anchors s' = anchors s0).
    { clear. induction l as [|e l IH]; intros s0; cbn [fold_left]; [done|]. exact (IH (cancel_state (ad_state e.2) s0)). }
    exact (Hin l (with_piece_cache (clear (piece_cache s1)) s1)). }
  destruct Hrest as ([= Ep Ec En Es] & Er & Ev & Esc & Ea). cbn [fst]. set (s3 := with_stream_progress_cache [] _).
  assert (Hsd : shutting_down s3 = true) by (change (shutting_down s2 = true); rewrite Es; exact E). rewrite Hsd.
  destruct Hok as [Hs Hc Hr [_ Hq] Hn].
  split; simpl.
  - split.
    + split.
      * intros t route Hx. done.
      * intros t1 t2 r1 r2 Hx. done.
      * intros d a Hx. done.
      * intros id a Hx. change (anchors s2 !! id = Some a) in Hx. rewrite Ea in Hx. done.
      * intros id _ (t & route & Hx & _). done.
    + intros id [c Hx]. change (current_schedules s2 !! id = Some c) in Hx. rewrite Esc in Hx. done.
  - rewrite Ep. intros k e He. done.
  - rewrite Ec, Er. simpl. eapply reads_ok_drop_queue; [|exact Hg].
    apply (reads_ok_requested key_of content _ _ ∅) in Hr. exact Hr.
  - rewrite Ec. done.
  - rewrite En. exact Hn.
Qed.

Lemma bridge_step_ok sw sw' : torrent_laws (H := H) (W := W) -> bridge_step key_of content sw sw' ->
  bridge_ok key_of content sw.1 -> bridge_ok key_of content sw'.1.
Proof.
  intros laws Hstep Hok. destruct Hstep as [s w sw E Hstep|s s' w Hstep|s w w'|s w E Hg].
  - assert (Hok' : engine_ok key_of content [] s) by (unfold bridge_ok, live in Hok; cbn [fst] in Hok; by rewrite E in Hok).
    destruct (engine_step_ok s w sw laws Hstep Hok') as [Hx|[Hx _]]; [|done]. unfold bridge_ok, live.
    destruct (shutting_down sw.1); [|done]. destruct Hx as [Hs Hc Hr Hq Hn]. split; try done; [by eapply streams_ok_ext|].
    simpl. apply reads_ok_fewer_blocks; [done|]. apply map_empty_subseteq.
  - by eapply http_step_ok.
  - done.
  - by apply shutdown_end_ok.
Qed.

Lemma reachable_ok memory disk inactivity w0 s w : torrent_laws (H := H) (W := W) ->
  rtc (bridge_step key_of content) (new_impl memory disk inactivity, w0) (s, w) -> bridge_ok key_of content s.
Proof.
  intros laws Hsteps. assert (Hinit : bridge_ok key_of content (new_impl (H := H) memory disk inactivity)).
  { unfold bridge_ok, live. simpl. split; simpl; [apply new_streams_ok|done|apply reads_ok_empty|done|lia]. }
  remember (new_impl memory disk inactivity, w0) as a eqn:Ea. remember (s, w) as b eqn:Eb.
  assert (Hb : bridge_ok key_of content a.1) by (by rewrite Ea). clear Hinit Ea.
  assert (bridge_ok key_of content b.1) as Hres; [|by rewrite Eb in Hres]. clear Eb.
  induction Hsteps as [|x y z Hxy _ IH]; [done|]. apply IH. by eapply bridge_step_ok.
Qed.
End reachable.

(** ** The theorems *)

(** [poll] leaves the queue empty. *)
Lemma poll_command_rest {H W} `{Torrents H W} (c : HttpCommand H) changed (s : Impl H) (w : W) :
  commands (poll_command c changed s w).1.1 = commands s.
Proof.
  destruct c as [d route range st|d|d route range piece p st]; cbn [poll_command].
  - by destruct (_ && _).
  - by destruct (active_demands s !! d).
  - destruct (active_demands s !! d) as [demand|]; [|done]. destruct (default true _); [done|].
    set (s1 := with_active_demands _ s). change (commands s) with (commands s1). unfold process_piece_request.
    destruct (_ || _); [done|]. destruct (lt_torrent_file _ _) as [[metadata|]|]; [|done..].
    destruct (_ <=? piece); [done|]. destruct (get _ _) as [[data|] cache]; [done|].
    destruct (piece_available _ _ _ _); [|done]. cbn [fst]. by rewrite request_read_frame.
Qed.

Lemma poll_commands_rest {H W} `{Torrents H W} (l : list (HttpCommand H)) changed (s : Impl H) (w : W) :
  commands (poll_commands l changed s w).1.1 = commands s.
Proof.
  revert changed s w. induction l as [|c l IH]; intros changed s w; cbn [poll_commands]; [done|].
  pose proof (poll_command_rest c changed s w) as Hc. destruct (poll_command c changed s w) as [[s1 w1] [changed1|e]]; [|done].
  cbn [fst] in *. by rewrite IH.
Qed.

Lemma poll_empties {H W} `{Torrents H W} (s : Impl H) (w : W) s' w' r : poll s w = ((s', w'), r) -> commands s' = [].
Proof.
  unfold poll. pose proof (poll_commands_rest (commands s) ∅ (with_commands [] s) w) as Hc.
  destruct (poll_commands _ _ _ _) as [[s1 w1] [changed|e]]; cbn [fst] in Hc; [|intros [= <- _ _]; done].
  assert (Hrec : forall ids s0 w0, commands (fold_left (fun st id => recompute_schedule id st.1 st.2) ids (s0, w0)).1 = commands s0).
  { clear. induction ids as [|id ids IH]; intros s0 w0; [done|]. cbn [fold_left fst snd].
    pose proof (recompute_rest id s0 w0) as Hr. destruct (recompute_schedule id s0 w0) as [s1 w1]. rewrite IH.
    by injection Hr. }
  pose proof (Hrec (elements changed) (on_reads prune_cancelled_waiters s1) w1) as Hc2. destruct (fold_left _ (elements changed) _) as [s2 w2].
  cbn [fst] in Hc2. unfold reissue_stalled_reads. destruct (lt_now w2) as [w3 now].
  assert (Hc3 : forall s3 w3, commands s3 = commands s2 -> (expire_inactive_streams s3 w3, Returned tt) = ((s', w'), r) -> commands s' = []).
  { intros s3 w4 H3 [= He _]. pose proof (expire_rest s3 w4) as Hx. rewrite He in Hx. injection Hx as _ Hx _ _. cbn [fst] in Hx. rewrite Hx, H3, Hc2. exact Hc. }
  destruct (_ || _); [by apply Hc3|].
  match goal with |- context [fold_left (reissue_read now) ?l ?st] => pose proof (reissue_frame now l st.1 st.2) as Hf;
    cbv zeta in Hf; cbn [fst snd] in Hf; destruct (fold_left (reissue_read now) l st) as [s3 w4] eqn:E3 end.
  apply Hc3. cbn [fst] in Hf. by rewrite Hf.
Qed.

(** C3. No reader is lost, whatever the threads do: in every state that the HTTP threads, the
    engine's thread and libtorrent reach, each waiter has its answer, which is an error or the
    bytes of its piece, or its reader gave up, or it is in the command queue or in the list of
    its piece; and the lists hold only waiters of their piece that have no answer yet. *)
Theorem readers_accounted {H W} `{Torrents H W} (key_of : nat -> PieceCacheKey) (content : PieceCacheKey -> piece_data)
    (laws : torrent_laws (H := H) (W := W)) (memory disk inactivity : Z) (w0 w : W) (s : Impl H)
    (Hreach : rtc (bridge_step key_of content) (new_impl memory disk inactivity, w0) (s, w)) :
  (forall p v, waiters (reads s) !! p = Some v ->
     if waiter_done v then answer_ok content (key_of p) (waiter_data v) (waiter_error v)
     else waiter_cancelled v = true \/ p ∈ queue_of (commands s) \/ exists l, piece_waiters (reads s) !! key_of p = Some l /\ p ∈ l) /\
  (forall k l p, piece_waiters (reads s) !! k = Some l -> p ∈ l ->
     key_of p = k /\ exists v, waiters (reads s) !! p = Some v /\ waiter_done v = false).
Proof.
  pose proof (reachable_ok key_of content memory disk inactivity w0 s w laws Hreach) as [_ _ [Hl _ _ Ha Hacc] _ _].
  assert (Ew : waiters (reads (live s)) = waiters (reads s)) by (unfold live; by destruct (shutting_down s)).
  assert (Ep : piece_waiters (reads (live s)) = piece_waiters (reads s)) by (unfold live; by destruct (shutting_down s)).
  assert (Ec : commands (live s) = commands s) by (unfold live; by destruct (shutting_down s)).
  unfold waits in Hl. rewrite Ew, Ep in *. simpl in Hacc. rewrite Ec in Hacc. split.
  - intros p v Hv. destruct (waiter_done v) eqn:Ed; [by apply Ha|]. destruct (Hacc p v Hv) as [?|?]; [congruence|done].
  - intros k l p Hk Hin. by apply (Hl k l Hk).
Qed.

(** C14. The bridge's tables agree in every reachable state: a torrent has at most one stream;
    every demand and every anchor belongs to a registered stream of its torrent; a schedule is
    kept only for a torrent with a stream; a removed torrent has no stream. *)
Theorem streams_consistent {H W} `{Torrents H W} (key_of : nat -> PieceCacheKey) (content : PieceCacheKey -> piece_data)
    (laws : torrent_laws (H := H) (W := W)) (memory disk inactivity : Z) (w0 w : W) (s : Impl H)
    (Hreach : rtc (bridge_step key_of content) (new_impl memory disk inactivity, w0) (s, w)) :
  (forall t1 t2 r1 r2, routes s !! t1 = Some r1 -> routes s !! t2 = Some r2 -> route_torrent_id r1 = route_torrent_id r2 -> t1 = t2) /\
  (forall d a, active_demands s !! d = Some a -> served s (ad_route a)) /\
  (forall id a, anchors s !! id = Some a -> route_torrent_id (an_route a) = id /\ served s (an_route a)) /\
  (forall id, is_Some (current_schedules s !! id) -> has_stream s id) /\
  (forall id, id ∈ revoked_torrents s -> ~ has_stream s id).
Proof.
  pose proof (reachable_ok key_of content memory disk inactivity w0 s w laws Hreach) as [Hs _ _ _ _].
  assert (Hok : streams_ok s) by (eapply streams_ok_ext; [exact Hs|..]; unfold live; by destruct (shutting_down s)).
  destruct Hok as [[Ct Cs Cd Ca Cv] Hsch]. split; [done|]. split; [intros d a Hd; by apply (Cd d a)|]. done.
Qed.

(** C16. [poll] takes every command: it returns without an exception, the queue is empty after
    it, and every waiter is answered, given up or in the list of its piece. *)
Theorem poll_takes_all {H W} `{Torrents H W} (key_of : nat -> PieceCacheKey) (content : PieceCacheKey -> piece_data)
    (laws : torrent_laws (H := H) (W := W)) (memory disk inactivity : Z) (w0 w : W) (s : Impl H)
    (Hreach : rtc (bridge_step key_of content) (new_impl memory disk inactivity, w0) (s, w)) (Hup : shutting_down s = false) :
  exists s' w', poll s w = ((s', w'), Returned tt) /\ commands s' = [] /\
    forall p v, waiters (reads s') !! p = Some v ->
      waiter_done v = true \/ waiter_cancelled v = true \/ exists l, piece_waiters (reads s') !! key_of p = Some l /\ p ∈ l.
Proof.
  pose proof (reachable_ok key_of content memory disk inactivity w0 s w laws Hreach) as Hok.
  unfold bridge_ok, live in Hok. rewrite Hup in Hok. destruct (poll_ok key_of content laws s w Hok) as ([s' w'] & Hp & Hok').
  exists s', w'. split; [done|].
  assert (Hc : commands s' = []) by exact (poll_empties s w s' w' _ Hp).
  split; [done|]. destruct Hok' as [_ _ [_ _ _ _ Hacc] _ _]. cbn [fst] in Hacc. rewrite Hc in Hacc. intros p v Hv.
  destruct (Hacc p v Hv) as [?|[?|[Hx|?]]]; auto. by apply elem_of_nil in Hx.
Qed.

(** ** A run *)

(** A film is registered, a reader asks for bytes in its second piece, and the piece arrives. *)
Definition demo_key_of (_ : nat) : PieceCacheKey := MkKey demo_id 1.
Definition demo_content (_ : PieceCacheKey) : piece_data := str "bytes of the piece".
Definition demo_range : ByteRange := MkRange 40000 50000.

Abbreviation demo_reach := (rtc (bridge_step (H := unit) (W := memory) demo_key_of demo_content) (new_impl 1048576 1073741824 1000, demo_memory)).

Definition demo_registered : Impl unit * memory :=
  (register_stream tt demo_id 0 (MkFileInfo (str "film.mkv") 1000 120000) (Returned (str "token")) 8080
     (new_impl 1048576 1073741824 1000) demo_memory).1.
Definition demo_reading : Impl unit :=
  queue_read 1 demo_route demo_range 1 0 (queue_demand demo_route demo_range demo_registered.1).
Definition demo_polled : Impl unit * memory := (poll demo_reading demo_registered.2).1.
Definition demo_answered : Impl unit := handle_read_piece (MkReadAlert tt 1 None (Some (demo_content (demo_key_of 0)))) demo_polled.1.

Lemma memory_torrent_laws : torrent_laws (H := unit) (W := memory).
Proof. split; [by intros ? ? ? ? ? ? ? [=]|by intros w h m [= <-]|]. intros w h _ _. by eexists. Qed.

Lemma demo_registered_reached : demo_reach demo_registered.
Proof.
  apply rtc_once, step_engine; [done|]. apply step_register; [by vm_compute|done|]. intros stream_id _. apply lookup_empty.
Qed.

Lemma demo_reading_reached : demo_reach (demo_reading, demo_registered.2).
Proof.
  pose proof demo_registered_reached as Hr. rewrite (surjective_pairing demo_registered) in Hr.
  eapply rtc_r; [eapply rtc_r; [exact Hr|]|].
  - apply step_http, (step_begin _ _ demo_route demo_range). vm_compute. reflexivity.
  - apply step_http, step_read. reflexivity.
Qed.

Lemma demo_polled_reached : demo_reach (demo_polled.1, demo_polled.2).
Proof.
  rewrite <-surjective_pairing. eapply rtc_r; [exact demo_reading_reached|]. apply step_engine; [vm_compute; reflexivity|]. apply step_poll.
Qed.

Lemma demo_answered_reached : demo_reach (demo_answered, demo_polled.2).
Proof.
  eapply rtc_r; [exact demo_polled_reached|]. apply step_engine; [vm_compute; reflexivity|]. apply step_read_piece.
  intros data [= <-] _. reflexivity.
Qed.

Lemma readers_accounted_witness :
  (exists v, waiters (reads demo_answered) !! 0%nat = Some v /\ waiter_done v = true /\ answer_ok demo_content (demo_key_of 0) (waiter_data v) (waiter_error v)) /\
  piece_waiters (reads demo_polled.1) !! MkKey demo_id 1 = Some [0%nat].
Proof.
  split; [|vm_compute; reflexivity].
  destruct (readers_accounted demo_key_of demo_content memory_torrent_laws _ _ _ _ _ _ demo_answered_reached) as [Hacc _].
  destruct (waiters (reads demo_answered) !! 0%nat) as [v|] eqn:E; [|exfalso; revert E; vm_compute; discriminate].
  exists v. split; [reflexivity|]. specialize (Hacc 0%nat v E).
  assert (Hd : waiter_done v = true) by (revert E; vm_compute; intros [= <-]; reflexivity).
  split; [exact Hd|]. rewrite Hd in Hacc. exact Hacc.
Defined.

Lemma streams_consistent_witness : has_stream demo_polled.1 demo_id /\ served demo_polled.1 demo_route.
Proof.
  destruct (streams_consistent demo_key_of demo_content memory_torrent_laws _ _ _ _ _ _ demo_polled_reached) as (_ & Hd & _ & Hs & _). split.
  - apply Hs. vm_compute. eexists. reflexivity.
  - destruct (active_demands demo_polled.1 !! 1) as [a|] eqn:E; [|exfalso; revert E; vm_compute; discriminate].
    pose proof (Hd 1 a E) as Hx. assert (ad_route a = demo_route) as <- by (revert E; vm_compute; intros [= <-]; reflexivity). exact Hx.
Defined.

Lemma poll_takes_all_witness : exists s' w', poll demo_reading demo_registered.2 = ((s', w'), Returned tt) /\ commands s' = [].
Proof.
  destruct (poll_takes_all demo_key_of demo_content memory_torrent_laws _ _ _ _ _ _ demo_reading_reached) as (s' & w' & Hp & Hc & _);
    [vm_compute; reflexivity|]. exists s', w'. split; [exact Hp|exact Hc].
Defined.
