(* ===== verification/StreamLifecycle.v ===== *)
(** The life of a stream: what [stop_stream], [remove_torrent] and [expire_inactive_streams] of
    src/torrent/libtorrent_stream_bridge.cpp leave behind. *)
From stdpp Require Import prelude strings list gmap.
From Stdlib Require Import ZArith Lia Ascii.
From S2P Require Import Prelude Text OrderedMap ByteRange PieceScheduler DemandPlan PieceCache EngineTypes BridgeState BridgeReads MemoryTorrent StreamSchedule StreamBridge StreamProgress BridgeInvariant.

(** ** A torrent without demands *)

Section idle.
Context {H W : Type} `{Torrents H W}.
Implicit Types (s : Impl H) (w : W) (r : Reads).

(** Requests of the torrent [id] were taken back, and no others. *)
Definition fewer_requests (id : text) (m m0 : gmap PieceCacheKey Z) : Prop :=
  m ⊆ m0 /\ forall k, key_torrent_id k <> id -> m !! k = m0 !! k.

Lemma fewer_refl id m : fewer_requests id m m.
Proof. by split. Qed.

Lemma reset_deadlines_reads id h l st : exists m, fewer_requests id m (requested_reads st.1) /\
  (fold_left (reset_deadline id h) l st).1 = with_requested_reads m st.1.
Proof.
  revert st. induction l as [|p l IH]; intros [r w]; cbn [fold_left]; [exists (requested_reads r); split; [apply fewer_refl|by destruct r]|].
  destruct (IH (reset_deadline id h (r, w) p)) as (m & [Hm Ho] & ->). exists m. simpl in *. split; [|done]. split.
  - etrans; [exact Hm|]. apply delete_subseteq.
  - intros k Hk. rewrite (Ho k Hk), lookup_delete_ne; [done|]. by intros <-.
Qed.

(** With nothing to demand a recomputation only takes requests back, and a torrent without a
    stream has no schedule after it. *)
Lemma recompute_idle id s w : schedule_demands s id = ([], None) ->
  let s' := (recompute_schedule id s w).1 in
  (active_demands s !! 0 = None -> anchors s' = anchors s) /\
  (exists m, fewer_requests id m (requested_reads (reads s)) /\ reads s' = with_requested_reads m (reads s)) /\
  (has_stream_for_torrent s id = false -> current_schedules s' = delete id (current_schedules s)).
Proof.
  intros Hd. unfold recompute_schedule. rewrite Hd. change (build_stream_demand_plan [] (window s)) with (Ok (MkPlan 0 [] [] false)).
  cbv beta iota zeta. set (s1 := move_anchor s id _).
  assert (Hm : s1 = with_anchors (anchors s1) s) by apply move_anchor_state.
  assert (Ha : active_demands s !! 0 = None -> anchors s1 = anchors s) by (unfold s1, move_anchor; simpl; intros ->; done).
  assert (Hr : reads s1 = reads s) by (by rewrite Hm). assert (Hc : current_schedules s1 = current_schedules s) by (by rewrite Hm).
  assert (Hself : exists m, fewer_requests id m (requested_reads (reads s)) /\ reads s = with_requested_reads m (reads s)).
  { exists (requested_reads (reads s)). split; [apply fewer_refl|]. by destruct (reads s). }
  destruct (cs_handle <$> current_schedules s1 !! id) as [h|]; [|split; [exact Ha|]; simpl; rewrite Hr, Hc; done].
  destruct (negb (lt_is_valid w h)); [split; [exact Ha|]; simpl; rewrite Hr, Hc; done|].
  change (plan_priorities (MkPlan 0 [] [] false)) with (@nil (Z * PriorityClass)).
  set (combined := kept_priorities s1 id (current_schedules s1 !! id) []). unfold apply_schedule. cbn [plan_deadline_order plan_cold fold_left].
  match goal with |- context [send_deadlines ?i ?h ?p ?n ?st] => destruct (send_deadlines i h p n st) as [r w'] eqn:E end.
  assert (Hx : exists m, fewer_requests id m (requested_reads (reads s)) /\ r = with_requested_reads m (reads s)).
  { unfold send_deadlines in E. simpl in E. match type of E with context [jumped_away ?a []] =>
      replace (jumped_away a []) with false in E by (unfold jumped_away; rewrite andb_false_r; done) end.
    match type of E with fold_left _ ?l (_, ?w1) = _ => destruct (reset_deadlines_reads id h l (reads s1, w1)) as (m & Hsub & Heq) end.
    rewrite E in Heq. simpl in *. exists m. by rewrite <-Hr. }
  assert (Hs : has_stream_for_torrent s1 id = has_stream_for_torrent s id) by (by rewrite Hm).
  destruct combined as [|c l] eqn:Ek; cbn [fst].
  - split; [exact Ha|]. split; [exact Hx|]. intros _. simpl. by rewrite Hc.
  - split; [done|]. split; [done|]. intros Hn. exfalso. unfold combined, kept_priorities in Ek. rewrite Hs, Hn in Ek.
    by destruct (current_schedules s1 !! id).
Qed.
End idle.

(** ** Removing a torrent *)

Section removing.
Context {H W : Type} `{Torrents H W}.
Implicit Types (s : Impl H) (w : W).

Lemma erase_torrent_entries c id k e : entries (erase_torrent c id) !! k = Some e -> key_torrent_id k <> id.
Proof.
  unfold erase_torrent. intros Hk Hid.
  assert (Hsub : forall l c0, entries (fold_left (fun c e => if decide (key_torrent_id e.1 = id) then erase c e.1 e.2 else c) l c0) ⊆ entries c0).
  { induction l as [|x l IH]; intros c0; simpl; [done|]. etrans; [apply IH|]. case_decide; [|done]. simpl. apply delete_subseteq. }
  assert (Hin : (k, e) ∈ map_to_list (entries c)). { apply elem_of_map_to_list. eapply lookup_weaken; [exact Hk|]. apply Hsub. }
  assert (Hgone : forall l c0, (k, e) ∈ l -> entries (fold_left (fun c e => if decide (key_torrent_id e.1 = id) then erase c e.1 e.2 else c) l c0) !! k = None).
  { induction l as [|x l IH]; intros c0; [by intros ?%elem_of_nil|]. intros [<-|Hx]%elem_of_cons; simpl; [|by apply IH].
    rewrite decide_True by done. eapply lookup_weaken_None; [|apply Hsub]. simpl. apply lookup_delete_eq. }
  rewrite (Hgone _ c Hin) in Hk. done.
Qed.

(** Nothing of a torrent is left. *)
Record torrent_cleared (id : text) s : Prop := {
  tc_streams : ~ has_stream s id;
  tc_demands : forall d a, active_demands s !! d = Some a -> route_torrent_id (ad_route a) <> id;
  tc_anchor : anchors s !! id = None;
  tc_schedule : current_schedules s !! id = None;
  tc_waiters : forall k l, piece_waiters (reads s) !! k = Some l -> key_torrent_id k <> id;
  tc_requested : forall k t, requested_reads (reads s) !! k = Some t -> key_torrent_id k <> id;
  tc_blocks : forall k b, partial_blocks (reads s) !! k = Some b -> key_torrent_id k <> id;
  tc_cache : forall k e, entries (piece_cache s) !! k = Some e -> key_torrent_id k <> id;
  tc_ready : last_ready_pieces s !! id = None;
  tc_revoked : id ∈ revoked_torrents s;
}.

(** The members of [removed] that its loop over the demands does not touch. *)
Lemma removed_members id s : let s' := removed id s in
  piece_cache s' = erase_torrent (piece_cache s) id /\ last_ready_pieces s' = delete id (last_ready_pieces s) /\
  revoked_torrents s' = {[id]} ∪ revoked_torrents s /\ anchors s' = delete id (anchors s) /\ current_schedules s' = current_schedules s.
Proof.
  assert (Hin : forall l (s0 : Impl H), let s' := fold_left (remove_demand id) l s0 in
    piece_cache s' = piece_cache s0 /\ last_ready_pieces s' = last_ready_pieces s0 /\ revoked_torrents s' = revoked_torrents s0 /\
    anchors s' = anchors s0 /\ current_schedules s' = current_schedules s0).
  { induction l as [|e l IH]; intros s0; [done|]. cbn [fold_left]. unfold remove_demand at 2 4 6 8 10. case_decide; [|apply IH].
    exact (IH (with_active_demands (delete e.1 (active_demands (cancel_state (ad_state e.2) s0))) (cancel_state (ad_state e.2) s0))). }
  exact (Hin (map_to_list (active_demands s)) (cleaned id s)).
Qed.
End removing.

(** ** Flags of demands *)

Section flags.
Context {H : Type}.

(** A loop that sets the flags of some demands sets them, and clears none. *)
Lemma fold_flags {S} (f : S -> Z * ActiveDemand H -> S) (flags : S -> list bool) (cond : ActiveDemand H -> bool) l st d a :
  (forall st e, flags (f st e) = if cond e.2 then <[ad_state e.2 := true]> (flags st) else flags st) ->
  (d, a) ∈ l -> cond a = true -> (ad_state a < length (flags st))%nat -> flags (fold_left f l st) !! ad_state a = Some true.
Proof.
  intros Hf.
  assert (Hlen : forall st e, length (flags (f st e)) = length (flags st)).
  { intros st' e. rewrite Hf. destruct (cond e.2); [apply length_insert|done]. }
  assert (Hstay : forall l st p, flags st !! p = Some true -> flags (fold_left f l st) !! p = Some true).
  { induction l0 as [|e l0 IH]; intros st' p Hp; [done|]. apply IH. rewrite Hf. destruct (cond e.2); [|done].
    destruct (decide (ad_state e.2 = p)) as [<-|Hne]; [|by rewrite list_lookup_insert_ne]. apply list_lookup_insert_eq. by eapply lookup_lt_Some. }
  revert st. induction l as [|e l IH]; intros st Hin Hc Hlt; [by apply elem_of_nil in Hin|]. cbn [fold_left].
  apply elem_of_cons in Hin as [<-|Hin].
  - apply Hstay. rewrite Hf. simpl. rewrite Hc. by apply list_lookup_insert_eq.
  - apply IH; [done|done|]. by rewrite Hlen.
Qed.
End flags.

Section removal.
Context {H W : Type} `{Torrents H W}.
Implicit Types (s : Impl H) (w : W).

Lemma removed_flags id s d a : active_demands s !! d = Some a -> route_torrent_id (ad_route a) = id ->
  (ad_state a < length (demand_states s))%nat -> demand_states (removed id s) !! ad_state a = Some true.
Proof.
  intros Hd Ht Hlt.
  apply (fold_flags (remove_demand id) demand_states (fun a => text_eqb (route_torrent_id (ad_route a)) id) _ (cleaned id s) d a).
  - intros st e. unfold remove_demand, text_eqb. case_decide; [by rewrite bool_decide_eq_true_2|by rewrite bool_decide_eq_false_2].
  - by apply elem_of_map_to_list.
  - by apply bool_decide_eq_true.
  - exact Hlt.
Qed.

(** What [remove_torrent] does to a state that satisfies the invariant. *)
Lemma remove_torrent_cleared key_of content id s w : engine_ok key_of content [] s -> torrent_cleared id (remove_torrent id s w).1.
Proof.
  intros Hok. pose proof (eo_streams _ _ _ _ Hok) as [Hc Hsch]. pose proof (removed_drops id s Hc) as Hd.
  pose proof (dropped_core _ _ _ Hc Hd) as Hc1. destruct (removed_members id s) as (Mc & Ml & Mv & Ma & Ms).
  assert (Hno : ~ has_stream (removed id s) id) by (apply (sc_revoked _ Hc1); rewrite Mv; set_solver).
  assert (Hidle := no_stream_no_demands _ id Hc1 Hno). rewrite remove_torrent_eq.
  pose proof (recompute_frame id (removed id s) w) as Hf. cbv zeta in Hf. destruct (recompute_idle id (removed id s) w Hidle) as (Ra & (m & Hm & Rr) & Rs).
  destruct (recompute_schedule id (removed id s) w) as [s2 w2]. cbn [fst] in *.
  assert (Hzero : active_demands (removed id s) !! 0 = None).
  { destruct (active_demands (removed id s) !! 0) as [a|] eqn:E; [|done]. destruct (sc_demands _ Hc1 0 a E). lia. }
  specialize (Ra Hzero). specialize (Rs ltac:(destruct (has_stream_for_torrent _ id) eqn:E; [by apply has_stream_spec in E|done])).
  rewrite removed_reads in Rr. pose proof (eo_reads _ _ _ _ Hok) as Hr. simpl in Hr.
  assert (Hb : forall k, key_torrent_id k = id -> partial_blocks (reads s2) !! k = None).
  { intros k Hk. rewrite Rr. simpl. apply map_lookup_filter_None. right. intros b _ Hn. by apply Hn. }
  assert (Hl : forall k l, piece_waiters (reads s2) !! k = Some l -> l <> []) by (intros k l; rewrite Rr; simpl; intros Hk; by apply (ro_lists _ _ _ _ Hr k l)).
  destruct (remove_waiters_spec id (reads s2) Hb Hl) as [Sp Sw Sl So Sq Spb].
  split; simpl.
  - unfold has_stream in *. simpl. rewrite Hf. simpl. done.
  - rewrite Hf. simpl. intros d a Hda. destruct (dr_demands _ _ _ Hd d a Hda) as [_ Hg]. by apply bool_decide_eq_false in Hg.
  - rewrite Ra, Ma. apply lookup_delete_eq.
  - rewrite Rs. apply lookup_delete_eq.
  - intros k l Hk Hid. destruct (piece_waiters (reads s2) !! k) as [l0|] eqn:E.
    + rewrite (Sl k l0) in Hk by (by apply elem_of_map_to_list). unfold kept in Hk. rewrite bool_decide_eq_true_2, filter_none in Hk; done.
    + rewrite So in Hk; [congruence|]. intros ([k' l'] & -> & Hin%elem_of_map_to_list)%list_elem_of_fmap. simpl in E. congruence.
  - intros k t. rewrite Sq, Rr. simpl. intros Hk. eapply lookup_weaken in Hk; [|exact (proj1 Hm)]. rewrite removed_reads in Hk. simpl in Hk.
    by apply map_lookup_filter_Some in Hk as [_ ?].
  - rewrite Sp, Rr. simpl. intros k b [_ Hk]%map_lookup_filter_Some. done.
  - rewrite Hf. simpl. rewrite Mc. intros k e. apply erase_torrent_entries.
  - rewrite Hf. simpl. rewrite Ml. apply lookup_delete_eq.
  - rewrite Hf. simpl. rewrite Mv. set_solver.
Qed.

(** The waiters of the torrent are answered, the others stay. *)
Lemma remove_torrent_waiters key_of content id s w : engine_ok key_of content [] s ->
  let s' := (remove_torrent id s w).1 in
  (forall k l p, piece_waiters (reads s) !! k = Some l -> p ∈ l -> waiters (reads s') !! p =
     if decide (key_torrent_id k = id) then settle_waiter None (str "torrent was removed") <$> waiters (reads s) !! p else waiters (reads s) !! p) /\
  (forall k, key_torrent_id k <> id -> piece_waiters (reads s') !! k = piece_waiters (reads s) !! k).
Proof.
  intros Hok. pose proof (eo_streams _ _ _ _ Hok) as [Hc Hsch]. pose proof (removed_drops id s Hc) as Hd.
  pose proof (dropped_core _ _ _ Hc Hd) as Hc1. destruct (removed_members id s) as (Mc & Ml & Mv & Ma & Ms).
  assert (Hno : ~ has_stream (removed id s) id) by (apply (sc_revoked _ Hc1); rewrite Mv; set_solver).
  rewrite remove_torrent_eq. destruct (recompute_idle id (removed id s) w (no_stream_no_demands _ id Hc1 Hno)) as (_ & (m & _ & Rr) & _).
  destruct (recompute_schedule id (removed id s) w) as [s2 w2]. cbn [fst] in *. rewrite removed_reads in Rr.
  pose proof (eo_reads _ _ _ _ Hok) as Hr. simpl in Hr.
  assert (Hb : forall k, key_torrent_id k = id -> partial_blocks (reads s2) !! k = None).
  { intros k Hk. rewrite Rr. simpl. apply map_lookup_filter_None. right. intros b _ Hn. by apply Hn. }
  assert (El : piece_waiters (reads s2) = piece_waiters (reads s)) by (by rewrite Rr).
  assert (Ew : waiters (reads s2) = waiters (reads s)) by (by rewrite Rr).
  assert (Hl : forall k l, piece_waiters (reads s2) !! k = Some l -> l <> []) by (intros k l; rewrite El; intros Hk; by apply (ro_lists _ _ _ _ Hr k l)).
  destruct (remove_waiters_spec id (reads s2) Hb Hl) as [_ Sw Sl So _ _]. rewrite El, Ew in *. simpl. split.
  - intros k l p Hk Hin. rewrite Sw.
    assert (Htouch : touched (fun k _ => bool_decide (key_torrent_id k = id)) (map_to_list (piece_waiters (reads s))) p <-> key_torrent_id k = id).
    { unfold touched. rewrite Exists_exists. split.
      - intros ([k2 l2] & Hin2%elem_of_map_to_list & Hp2 & Ht%bool_decide_eq_true). simpl in *.
        by rewrite <-(reads_ok_key _ _ _ _ _ _ _ Hr Hk Hin), (reads_ok_key _ _ _ _ _ _ _ Hr Hin2 Hp2).
      - intros Hid. exists (k, l). rewrite elem_of_map_to_list. split; [done|]. split; [done|]. by apply bool_decide_eq_true. }
    destruct (decide (touched _ _ p)) as [Ht|Ht]; [rewrite decide_True by tauto|rewrite decide_False by tauto]; done.
  - intros k Hne. destruct (piece_waiters (reads s) !! k) as [l|] eqn:E.
    + rewrite (Sl k l) by (by apply elem_of_map_to_list). unfold kept. rewrite bool_decide_eq_false_2, filter_all by done.
      apply (ro_lists _ _ _ _ Hr k l) in E as [Hn _]. by destruct l.
    + rewrite So; [done|]. intros ([k' l'] & -> & Hin%elem_of_map_to_list)%list_elem_of_fmap. simpl in E. congruence.
Qed.
End removal.

(** ** Stopping a stream *)

(** The waiter is in some list. *)
Definition listed (p : nat) (r : Reads) : Prop := exists k l, piece_waiters r !! k = Some l /\ p ∈ l.

(** What is left of a list without the readers [mine]. *)
Definition list_without (mine : nat -> bool) (l : list nat) : option (list nat) :=
  match filter (fun p => mine p = false) l with [] => None | rest => Some rest end.

(** The readers [mine] that wait were told [e] and left their lists; a list without readers is
    gone with the blocks of its piece; the other readers and lists are as before. *)
Record readers_cut (mine : nat -> bool) (e : text) (r r' : Reads) : Prop := {
  cut_told : forall p, (listed p r /\ mine p = true -> waiters r' !! p = settle_waiter None e <$> waiters r !! p) /\
    (~ (listed p r /\ mine p = true) -> waiters r' !! p = waiters r !! p);
  cut_lists : forall k, piece_waiters r' !! k = piece_waiters r !! k ≫= list_without mine;
  cut_blocks : forall k, partial_blocks r' !! k =
    if decide (is_Some (piece_waiters r !! k) /\ piece_waiters r' !! k = None) then None else partial_blocks r !! k;
}.

Lemma cut_none e r : (forall k l, piece_waiters r !! k = Some l -> l <> []) -> readers_cut (fun _ => false) e r r.
Proof.
  intros Hl. split.
  - intros p. by split; [intros [_ [=]]|].
  - intros k. destruct (piece_waiters r !! k) as [l|] eqn:E; [|done]. cbn. unfold list_without. rewrite filter_all by done.
    apply Hl in E. by destruct l.
  - intros k. rewrite decide_False; [done|]. by intros [[l ->] [=]].
Qed.

Lemma list_without_twice m1 m2 l : list_without m1 l ≫= list_without m2 = list_without (fun p => m1 p || m2 p) l.
Proof.
  unfold list_without.
  assert (E : filter (fun p => m1 p || m2 p = false) l = filter (fun p => m2 p = false) (filter (fun p => m1 p = false) l)).
  { rewrite list_filter_filter. apply filter_ext_in. intros p _. rewrite orb_false_iff. tauto. }
  rewrite E. by destruct (filter (fun p => m1 p = false) l).
Qed.

Lemma cut_listed mine e r r' p : readers_cut mine e r r' -> listed p r' <-> listed p r /\ mine p = false.
Proof.
  intros [_ Hl _]. unfold listed. split.
  - intros (k & l' & Hk & Hin). rewrite Hl in Hk. destruct (piece_waiters r !! k) as [l|] eqn:E; [|done]. cbn in Hk. unfold list_without in Hk.
    assert (Hf : p ∈ filter (fun p => mine p = false) l) by (destruct (filter _ l); by simplify_eq).
    apply list_elem_of_filter in Hf as [Hm Hp]. split; [by exists k, l|done].
  - intros [(k & l & Hk & Hin) Hm]. assert (Hf : p ∈ filter (fun p => mine p = false) l) by (by apply list_elem_of_filter).
    exists k. rewrite Hl, Hk. cbn. unfold list_without. destruct (filter _ l) as [|q rest] eqn:E; [by apply elem_of_nil in Hf|].
    by exists (q :: rest).
Qed.

Lemma cut_trans m1 m2 e r r1 r2 : readers_cut m1 e r r1 -> readers_cut m2 e r1 r2 -> readers_cut (fun p => m1 p || m2 p) e r r2.
Proof.
  intros H1 H2. pose proof (fun p => cut_listed _ _ _ _ p H1) as Hli. destruct H1 as [W1 L1 B1], H2 as [W2 L2 B2]. split.
  - intros p. destruct (W1 p) as [W1a W1b], (W2 p) as [W2a W2b]. specialize (Hli p). split.
    + intros [Hp Hm]. destruct (m1 p) eqn:E1.
      * rewrite W2b by (intros [[_ ?]%Hli _]; congruence). by apply W1a.
      * rewrite W2a by (split; [by apply Hli|done]). f_equal. apply W1b. by intros [_ ?].
    + intros Hn. assert (Hn1 : ~ (listed p r /\ m1 p = true)) by (intros [? Hm]; apply Hn; rewrite Hm; done).
      rewrite W2b, W1b; [done|done|]. intros [[Hp Hm]%Hli Hm2]. apply Hn. split; [done|]. by rewrite Hm2, orb_true_r.
  - intros k. rewrite L2, L1. destruct (piece_waiters r !! k) as [l|]; [|done]. apply list_without_twice.
  - intros k. rewrite B2, B1. destruct (piece_waiters r !! k) as [l|] eqn:E.
    + destruct (piece_waiters r1 !! k) as [l1|] eqn:E1.
      * rewrite (decide_False (P := is_Some (Some l) /\ Some l1 = None)) by (by intros [_ ?]). repeat case_decide; naive_solver.
      * assert (E2 : piece_waiters r2 !! k = None) by (by rewrite L2, E1). rewrite E2. repeat case_decide; naive_solver.
    + rewrite L1, E. cbn. repeat case_decide; naive_solver.
Qed.

(** The readers of a demand. *)
Definition reader_of (r : Reads) (d : Z) (p : nat) : bool := bool_decide (demand_of r p = Some d).

Lemma cancel_cuts d e r : (forall k l, piece_waiters r !! k = Some l -> l <> []) ->
  let r' := cancel_demand_waiters d e r in
  readers_cut (reader_of r d) e r r' /\ (forall p, demand_of r' p = demand_of r p) /\ requested_reads r' = requested_reads r.
Proof.
  intros Hne r'. unfold r'. destruct (cancel_demand_waiters_spec d e r) as [Ss Sw Sl So Sq Sp Sb]. cbv beta in *.
  assert (Hkept : forall k l, kept (fun _ p => negb (bool_decide (demand_of r p = Some d))) k l = list_without (reader_of r d) l).
  { intros k l. unfold kept, list_without, reader_of. erewrite (filter_ext_in _ _ l); [done|]. intros p _. cbv beta. by rewrite negb_true_iff. }
  assert (Hlists : forall k, piece_waiters (cancel_demand_waiters d e r) !! k = piece_waiters r !! k ≫= list_without (reader_of r d)).
  { intros k. destruct (piece_waiters r !! k) as [l|] eqn:E.
    - rewrite (Sl k l) by (by apply elem_of_map_to_list). apply Hkept.
    - rewrite So; [done|]. intros ([k' l'] & -> & Hin%elem_of_map_to_list)%list_elem_of_fmap. simpl in E. congruence. }
  split; [|by split]. split.
  - intros p. rewrite Sw.
    assert (Ht : touched (fun (_ : PieceCacheKey) p => bool_decide (demand_of r p = Some d)) (map_to_list (piece_waiters r)) p <->
      listed p r /\ reader_of r d p = true).
    { unfold touched, listed, reader_of. rewrite Exists_exists. split.
      - intros ([k l] & Hin%elem_of_map_to_list & Hp & Hd). split; [by exists k, l|done].
      - intros [(k & l & Hk & Hp) Hd]. exists (k, l). by rewrite elem_of_map_to_list. }
    split; intros Hx; [rewrite decide_True by tauto|rewrite decide_False by tauto]; done.
  - exact Hlists.
  - intros k. case_decide as Hd.
    + destruct Hd as [[l Hk] Hn]. destruct (partial_blocks (cancel_demand_waiters d e r) !! k) as [b|] eqn:Eb; [|done]. exfalso.
      apply Sp in Eb as [_ Hx]. apply (Hx l); [by apply elem_of_map_to_list|]. rewrite Hlists, Hk in Hn. cbn in Hn. by rewrite Hkept.
    + apply Sb. intros l Hin%elem_of_map_to_list Hn. apply Hd. split; [by eexists|]. rewrite Hlists, Hin. cbn. by rewrite <-(Hkept k).
Qed.

Lemma cut_nonempty mine e r r' : readers_cut mine e r r' -> forall k l, piece_waiters r' !! k = Some l -> l <> [].
Proof.
  intros [_ Hl _] k l'. rewrite Hl. destruct (piece_waiters r !! k) as [l|]; [|done]. cbn. unfold list_without.
  destruct (filter _ l); [done|]. by intros [= <-].
Qed.

Lemma cut_ext m1 m2 e r r' : (forall p, m1 p = m2 p) -> readers_cut m1 e r r' -> readers_cut m2 e r r'.
Proof.
  intros Hm [W L B]. split; [|intros k; rewrite L; destruct (piece_waiters r !! k) as [l|]; [cbn|done]|done].
  - intros p. rewrite <-Hm. apply W.
  - unfold list_without. by erewrite (filter_ext_in _ (fun p => m2 p = false) l) by (intros p _; cbv beta; by rewrite Hm).
Qed.

Section stopping.
Context {H W : Type} `{Torrents H W}.
Implicit Types (s : Impl H) (w : W).

(** The readers of the demands of a stream among some demands. *)
Definition readers_of (stream_id : text) (l : list (Z * ActiveDemand H)) (r : Reads) (p : nat) : bool :=
  existsb (fun e => of_stream stream_id e.2 && reader_of r e.1 p) l.

(** The loop of [stop_stream] takes the readers of the stream out and touches nothing else but
    the demands and their flags. *)
Lemma stop_demands_reads stream_id l id s : (forall k l, piece_waiters (reads s) !! k = Some l -> l <> []) ->
  let s' := (fold_left (stop_demand stream_id) l (id, s)).2 in
  readers_cut (readers_of stream_id l (reads s)) (str "stream was stopped") (reads s) (reads s') /\
  requested_reads (reads s') = requested_reads (reads s) /\
  s' = with_reads (reads s') (with_active_demands (active_demands s') (with_demand_states (demand_states s') s)).
Proof.
  revert id s. induction l as [|e l IH]; intros id s Hne; cbn [fold_left].
  { split; [by apply cut_none|]. split; [done|]. by destruct s. }
  destruct (stop_demand stream_id (id, s) e) as [i1 s1] eqn:Es. unfold stop_demand in Es. case_decide as Hd; injection Es as <- Es.
  - subst s1. destruct (IH id s Hne) as (Hc & Hq & Hs). split; [|by split]. eapply cut_ext; [|exact Hc]. intros p. unfold readers_of. cbn [existsb].
    unfold of_stream. by rewrite bool_decide_eq_false_2.
  - destruct (cancel_cuts e.1 (str "stream was stopped") (reads s) Hne) as (C1 & D1 & Q1).
    match goal with |- context [fold_left _ l (?i, _)] => set (i1 := i) end.
    assert (Er : reads s1 = cancel_demand_waiters e.1 (str "stream was stopped") (reads s)) by (by rewrite <-Es).
    destruct (IH i1 s1) as (Hc & Hq & Hs); [rewrite Er; exact (cut_nonempty _ _ _ _ C1)|]. rewrite Er in Hc, Hq. split; [|split].
    + eapply cut_ext; [|exact (cut_trans _ _ _ _ _ _ C1 Hc)]. intros p. unfold readers_of. cbn [existsb].
      assert (Ho : of_stream stream_id e.2 = true) by (by apply bool_decide_eq_true_2). rewrite Ho. cbn [andb]. f_equal.
      clear -D1. induction l as [|e' l IH]; [done|]. cbn [existsb]. rewrite IH. f_equal. f_equal. unfold reader_of. by rewrite D1.
    + rewrite Hq. exact Q1.
    + rewrite Hs at 1. rewrite <-Es. by destruct s.
Qed.

Lemma stopped_flags stream_id s d a : active_demands s !! d = Some a -> route_stream_id (ad_route a) = stream_id ->
  (ad_state a < length (demand_states s))%nat -> demand_states (stopped stream_id s).2 !! ad_state a = Some true.
Proof.
  intros Hd Ht Hlt. unfold stopped. set (s1 := erase_anchor stream_id s). set (p := match routes s1 !! _ with None => _ | Some _ => _ end).
  assert (Hp : active_demands p.2 = active_demands s /\ demand_states p.2 = demand_states s) by (unfold p; by destruct (routes s1 !! _)).
  destruct p as [id s2]. simpl in Hp. destruct Hp as [Pa Pd].
  refine (fold_flags (stop_demand stream_id) (fun st => demand_states st.2) (of_stream stream_id) _ (id, s2) d a _ _ _ _).
  - intros [id' s'] e. unfold stop_demand, of_stream. case_decide; [by rewrite bool_decide_eq_false_2|by rewrite bool_decide_eq_true_2].
  - rewrite Pa. by apply elem_of_map_to_list.
  - by apply bool_decide_eq_true.
  - simpl. by rewrite Pd.
Qed.

(** The flags of other demands stay. *)
Lemma stop_demands_flags stream_id l id s i : (forall e, e ∈ l -> route_stream_id (ad_route e.2) = stream_id -> ad_state e.2 <> i) ->
  demand_states (fold_left (stop_demand stream_id) l (id, s)).2 !! i = demand_states s !! i.
Proof.
  revert id s. induction l as [|e l IH]; intros id s Hl; cbn [fold_left]; [done|]. unfold stop_demand at 2. cbn [fst snd].
  case_decide as Hd; [apply IH; intros e' He'; apply Hl; by right|]. rewrite IH by (intros e' He'; apply Hl; by right). cbn.
  apply list_lookup_insert_ne. apply Hl; [by left|done].
Qed.
End stopping.

(** ** The theorems *)

(** What [stop_stream] changes before it recomputes the schedule. *)
Lemma stopped_parts {H W} `{Torrents H W} stream_id (route : StreamRoute H) (s : Impl H) :
  routes s !! route_target route = Some route -> route_target route = stream_target stream_id ->
  (forall k l, piece_waiters (reads s) !! k = Some l -> l <> []) ->
  let s' := (stopped stream_id s).2 in
  s' = with_routes (routes s') (with_next_progress_sample 0 (with_active_demands (active_demands s') (with_anchors (anchors s')
    (with_reads (reads s') (with_demand_states (demand_states s') s))))) /\
  routes s' = delete (route_target route) (routes s) /\
  active_demands s' = filter (fun e => route_stream_id (ad_route e.2) <> stream_id) (active_demands s) /\
  anchors s' = filter (fun e => route_stream_id (an_route e.2) <> stream_id) (anchors s) /\
  current_schedules s' = current_schedules s /\
  (forall i, (forall d a, active_demands s !! d = Some a -> route_stream_id (ad_route a) = stream_id -> ad_state a <> i) ->
     demand_states s' !! i = demand_states s !! i) /\
  readers_cut (readers_of stream_id (map_to_list (active_demands s)) (reads s)) (str "stream was stopped") (reads s) (reads s') /\
  requested_reads (reads s') = requested_reads (reads s).
Proof.
  intros Hroute Htarget Hne. unfold stopped. cbv zeta. change (routes (erase_anchor stream_id s)) with (routes s).
  rewrite <-Htarget, Hroute. set (s1 := with_next_progress_sample 0 _).
  destruct (stop_demands_reads stream_id (map_to_list (active_demands s1)) (route_torrent_id route) s1 Hne) as (Hcut & Hreq & Hframe).
  pose proof (stop_demands_active stream_id (route_torrent_id route) s1) as Hact.
  pose proof (fun i => stop_demands_flags stream_id (map_to_list (active_demands s1)) (route_torrent_id route) s1 i) as Hflags.
  set (s2 := (fold_left _ _ _).2) in *. split_and!.
  - rewrite Hframe. by destruct s.
  - by rewrite Hframe.
  - rewrite Hact. apply map_filter_ext. intros d a _. unfold of_stream. simpl. by rewrite bool_decide_eq_false.
  - by rewrite Hframe.
  - by rewrite Hframe.
  - intros i Hi. rewrite Hflags; [done|]. intros [d a] Hin%elem_of_map_to_list. by apply (Hi d a).
  - exact Hcut.
  - exact Hreq.
Qed.

(** A stream is stopped in the state [s]: every member that is not named here is as before. *)
Record stream_stopped {H} (route : StreamRoute H) (s s' : Impl H) : Prop := {
  ss_frame : s' = with_routes (routes s') (with_next_progress_sample 0 (with_active_demands (active_demands s') (with_anchors (anchors s')
    (with_current_schedules (current_schedules s') (with_reads (reads s') (with_demand_states (demand_states s') s))))));
  ss_routes : routes s' = delete (route_target route) (routes s);
  ss_demands : active_demands s' = filter (fun e => route_stream_id (ad_route e.2) <> route_stream_id route) (active_demands s);
  ss_anchors : anchors s' = filter (fun e => route_stream_id (an_route e.2) <> route_stream_id route) (anchors s);
  ss_anchor : anchors s' !! route_torrent_id route = None;
  ss_schedules : current_schedules s' = delete (route_torrent_id route) (current_schedules s);
  ss_flags : forall d a, active_demands s !! d = Some a -> route_stream_id (ad_route a) = route_stream_id route ->
    (ad_state a < length (demand_states s))%nat -> demand_states s' !! ad_state a = Some true;
  ss_other_flags : forall i, (forall d a, active_demands s !! d = Some a -> route_stream_id (ad_route a) = route_stream_id route -> ad_state a <> i) ->
    demand_states s' !! i = demand_states s !! i;
  ss_readers : readers_cut (readers_of (route_stream_id route) (map_to_list (active_demands s)) (reads s)) (str "stream was stopped") (reads s) (reads s');
  ss_requests : fewer_requests (route_torrent_id route) (requested_reads (reads s')) (requested_reads (reads s));
}.

Lemma stop_stream_stops {H W} `{Torrents H W} (key_of : nat -> PieceCacheKey) (content : PieceCacheKey -> piece_data)
    (route : StreamRoute H) (s : Impl H) (w : W) : engine_ok key_of content [] s -> routes s !! route_target route = Some route ->
  let '((s', _), id) := stop_stream (route_stream_id route) s w in id = route_torrent_id route /\ stream_stopped route s s'.
Proof.
  intros Hok Hroute. set (stream_id := route_stream_id route). pose proof (eo_streams _ _ _ _ Hok) as [Hc Hs].
  destruct (sc_targets _ Hc _ _ Hroute) as (_ & Htarget & Hnil & _). rewrite stop_stream_eq.
  pose proof (stopped_id stream_id s Hc) as Hid. fold stream_id in Htarget. rewrite <-Htarget, Hroute in Hid.
  pose proof (stopped_drops stream_id s Hc) as Hd. pose proof (dropped_core _ _ _ Hc Hd) as Hc1.
  pose proof (fun d a => stopped_flags stream_id s d a) as Hflags.
  destruct (stopped_parts stream_id route s Hroute Htarget) as (Hframe & Hroutes & Hact & Hanch & Hsch & Hother & Hread & Hreq).
  { intros k l Hk. by apply (ro_lists _ _ _ _ (eo_reads _ _ _ _ Hok) k l). }
  destruct (stopped stream_id s) as [id s1]. cbn [fst snd] in *.
  assert (Hno : ~ has_stream s1 id).
  { intros (t & r & [Hr Hg]%(dropped_routes _ s s1 t r Hd) & Ht). apply bool_decide_eq_false in Hg.
    assert (t = route_target route) as -> by (eapply (sc_single _ Hc t); [done|done|congruence]). apply Hg. unfold stream_id. congruence. }
  destruct id as [|c id]; [congruence|]. set (id' := c :: id) in *.
  pose proof (recompute_frame id' s1 w) as Hf. cbv zeta in Hf.
  destruct (recompute_idle id' s1 w (no_stream_no_demands s1 id' Hc1 Hno)) as (Ra & (m & Hm & Rr) & Rs).
  destruct (recompute_schedule id' s1 w) as [s' w']. cbn [fst] in *.
  assert (Hzero : active_demands s1 !! 0 = None).
  { destruct (active_demands s1 !! 0) as [a|] eqn:E; [|done]. destruct (sc_demands _ Hc1 0 a E). lia. }
  specialize (Ra Hzero). specialize (Rs ltac:(destruct (has_stream_for_torrent s1 id') eqn:E; [by apply has_stream_spec in E|done])).
  assert (Hrest : routes s' = routes s1 /\ active_demands s' = active_demands s1 /\ demand_states s' = demand_states s1) by (by rewrite Hf).
  destruct Hrest as (Er & Ea & Es). split; [done|]. split; fold stream_id; rewrite ?Er, ?Ea, ?Es, ?Ra, <-?Hid; try done.
  - etrans; [exact Hf|]. rewrite ?Ra.
    exact (f_equal (fun x => with_reads (reads s') (with_current_schedules (current_schedules s') (with_anchors (anchors s1) x))) Hframe).
  - destruct (anchors s1 !! id') as [a|] eqn:E; [|done]. destruct Hno. destruct (sc_anchors _ Hc1 id' a E) as [<- Hsv]. by apply served_stream.
  - by rewrite Rs, Hsch.
  - rewrite Rr. destruct Hread. by split.
  - rewrite Rr, <-Hreq. exact Hm.
Qed.

(** C32. Stopping a registered stream ends all of it and nothing else: the torrent is reported;
    the route goes, the demands and the anchor of the stream and the schedule of its torrent;
    the flags of its demands are set, and no others; every reader that waits for one of these
    demands is told that the stream was stopped and leaves its list, the other readers and
    their lists stay, with the blocks of their pieces; requests to read pieces are taken back
    only for the torrent; all routes, demands, anchors and schedules of others, the queue of
    commands, the caches and all other members are as before. *)
Theorem stop_stream_ends {H W} `{Torrents H W} (key_of : nat -> PieceCacheKey) (content : PieceCacheKey -> piece_data)
    (laws : torrent_laws (H := H) (W := W)) (memory disk inactivity : Z) (w0 w : W) (s : Impl H)
    (Hreach : rtc (bridge_step key_of content) (new_impl memory disk inactivity, w0) (s, w)) (Hup : shutting_down s = false)
    (route : StreamRoute H) (Hroute : routes s !! route_target route = Some route) :
  let '((s', _), id) := stop_stream (route_stream_id route) s w in
  id = route_torrent_id route /\ stream_stopped route s s'.
Proof.
  pose proof (reachable_ok key_of content memory disk inactivity w0 s w laws Hreach) as Hok.
  unfold bridge_ok, live in Hok. rewrite Hup in Hok. apply (stop_stream_stops key_of content); done.
Qed.

(** Removing a torrent leaves nothing of it: no stream, demand, anchor, schedule, waiter,
    request, block, cached piece; the flags of its demands are set, the waiters of its pieces
    get the error "torrent was removed" unless their readers had gone; the lists of all other
    torrents stay as they are. *)
Theorem remove_torrent_clears {H W} `{Torrents H W} (key_of : nat -> PieceCacheKey) (content : PieceCacheKey -> piece_data)
    (laws : torrent_laws (H := H) (W := W)) (memory disk inactivity : Z) (w0 w : W) (s : Impl H)
    (Hreach : rtc (bridge_step key_of content) (new_impl memory disk inactivity, w0) (s, w)) (Hup : shutting_down s = false) (id : text) :
  let s' := (remove_torrent id s w).1 in
  torrent_cleared id s' /\
  (forall d a, active_demands s !! d = Some a -> route_torrent_id (ad_route a) = id -> (ad_state a < length (demand_states s))%nat ->
     demand_states s' !! ad_state a = Some true) /\
  (forall k l p v, piece_waiters (reads s) !! k = Some l -> p ∈ l -> waiters (reads s) !! p = Some v -> exists v', waiters (reads s') !! p = Some v' /\
     if decide (key_torrent_id k = id) then waiter_cancelled v' = true \/ waiter_done v' = true /\ waiter_error v' = str "torrent was removed"
     else v' = v) /\
  (forall k, key_torrent_id k <> id -> piece_waiters (reads s') !! k = piece_waiters (reads s) !! k).
Proof.
  intros s'. pose proof (reachable_ok key_of content memory disk inactivity w0 s w laws Hreach) as Hok.
  unfold bridge_ok, live in Hok. rewrite Hup in Hok. destruct (remove_torrent_waiters key_of content id s w Hok) as [Hw Hl].
  split; [by eapply remove_torrent_cleared|]. split; [|split; [|done]].
  - intros d a Hd Ht Hlt. pose proof (removed_flags id s d a Hd Ht Hlt) as Hx. unfold s'. rewrite remove_torrent_eq.
    pose proof (recompute_frame id (removed id s) w) as Hf. cbv zeta in Hf.
    destruct (recompute_schedule id (removed id s) w) as [s2 w2]. cbn [fst] in *. rewrite Hf. exact Hx.
  - intros k l p v Hk Hin Hv. unfold s'. rewrite (Hw k l p Hk Hin), Hv.
    destruct (ro_lists _ _ _ _ (eo_reads _ _ _ _ Hok) k l Hk) as (_ & _ & Hall). destruct (Hall p Hin) as (_ & v1 & Hv1 & Hnd).
    assert (v1 = v) as -> by congruence. destruct (decide (key_torrent_id k = id)); simpl; [|eauto]. eexists. split; [done|].
    unfold settle_waiter. rewrite Hnd. destruct (waiter_cancelled v) eqn:Ec; simpl; auto.
Qed.

(** ** Expiry *)

Lemma expire_loop_streams {H W} `{Torrents H W} l (s : Impl H) (w : W) : let s' := (fold_left expire_stream l (s, w)).1 in
  routes s' = routes s /\ expired_streams s' = expired_streams s ++ l /\ active_demands s' = active_demands s.
Proof.
  revert s w. induction l as [|e l IH]; intros s w; cbn [fold_left]; [split; [done|]; split; [by rewrite app_nil_r|done]|].
  unfold expire_stream at 2 4 6. cbn [fst snd]. pose proof (recompute_frame (st_torrent_id e) (erase_anchor (st_stream_id e) s) w) as Hf. cbv zeta in Hf.
  destruct (recompute_schedule _ _ w) as [s1 w1]. cbn [fst] in Hf.
  destruct (IH (with_expired_streams (expired_streams s1 ++ [e]) s1) w1) as (Ir & Ie & Ia). rewrite Ir, Ie, Ia. simpl.
  rewrite Hf. simpl. by rewrite <-app_assoc.
Qed.

Lemma map_to_list_filter {V} (P : text * V -> Prop) `{!forall e, Decision (P e)} (m : gmap text V) :
  map_to_list (filter P m) ≡ₚ filter P (map_to_list m).
Proof.
  apply NoDup_Permutation; [apply NoDup_map_to_list|apply NoDup_filter, NoDup_map_to_list|]. intros [k v].
  rewrite list_elem_of_filter, !elem_of_map_to_list, map_lookup_filter_Some. tauto.
Qed.

(** Only streams that nobody uses expire: when a route goes, its stream has no demand, no
    request is active on it and none was for the whole timeout; every stream that goes is
    reported once, every other one stays, and with a timeout of zero none goes. *)
Theorem expire_spares_used {H W} `{Torrents H W} (s : Impl H) (w : W) :
  let s' := (expire_inactive_streams s w).1 in
  let now := (lt_now w).2 in
  (forall t route, routes s' !! t = Some route -> routes s !! t = Some route) /\
  (forall t route, routes s !! t = Some route -> routes s' !! t = None ->
     inactivity_timeout s <> 0 /\
     (forall d a, active_demands s !! d = Some a -> route_stream_id (ad_route a) <> route_stream_id route) /\
     (exists act, activities s !! route_activity route = Some act /\ active_http_requests act = 0 /\ inactivity_timeout s <= now - last_activity act)) /\
  exists l, expired_streams s' = expired_streams s ++ l /\
    l ≡ₚ (fun e : text * StreamRoute H => MkStopped (route_torrent_id e.2) (route_stream_id e.2)) <$>
      map_to_list (filter (fun e => routes s' !! e.1 = None) (routes s)).
Proof.
  intros s' now. unfold s', now, expire_inactive_streams. clear s' now.
  assert (Hsame : forall (s1 : Impl H), routes s1 = routes s -> expired_streams s1 = expired_streams s ->
    (forall t route, routes s1 !! t = Some route -> routes s !! t = Some route) /\
    (forall t route, routes s !! t = Some route -> routes s1 !! t = None -> False) /\
    exists l, expired_streams s1 = expired_streams s ++ l /\ l ≡ₚ (fun e : text * StreamRoute H => MkStopped (route_torrent_id e.2) (route_stream_id e.2)) <$>
      map_to_list (filter (fun e => routes s1 !! e.1 = None) (routes s))).
  { intros s1 Er Ee. rewrite Er, Ee. split; [done|]. split; [congruence|]. exists []. rewrite app_nil_r. split; [done|].
    assert (filter (fun e : text * StreamRoute H => routes s !! e.1 = None) (routes s) = ∅) as ->; [|by rewrite map_to_list_empty].
    apply map_empty. intros t. apply map_lookup_filter_None. right. intros r Hr Hn. simpl in Hn. congruence. }
  destruct (Z.eqb_spec (inactivity_timeout s) 0) as [E0|E0].
  { cbn [fst]. destruct (Hsame s eq_refl eq_refl) as (? & Hf & ?). split; [done|]. split; [intros; by edestruct Hf|done]. }
  destruct (lt_now w) as [w1 now]. cbn [fst snd]. destruct (now <? next_inactivity_check s).
  { cbn [fst]. destruct (Hsame s eq_refl eq_refl) as (? & Hf & ?). split; [done|]. split; [intros; by edestruct Hf|done]. }
  set (s1 := with_next_inactivity_check _ s). set (gone := filter (fun e : text * StreamRoute H => stays s1 now e.2 = false) (map_to_list (routes s1))).
  set (s2 := match gone with [] => s1 | _ => _ end).
  assert (Hr2 : routes s2 = filter (fun e => stays s1 now e.2 = true) (routes s)).
  { unfold s2. destruct gone as [|e g] eqn:Eg; [|done]. change (routes s1) with (routes s). symmetry. apply map_filter_id.
    intros t r Hr. simpl. destruct (stays s1 now r) eqn:Es; [done|]. exfalso. unfold gone in Eg.
    assert (Hin : (t, r) ∈ filter (fun e : text * StreamRoute H => stays s1 now e.2 = false) (map_to_list (routes s1))).
    { apply list_elem_of_filter. split; [done|]. by apply elem_of_map_to_list. }
    rewrite Eg in Hin. by apply elem_of_nil in Hin. }
  assert (He2 : expired_streams s2 = expired_streams s) by (unfold s2; by destruct gone).
  destruct (expire_loop_streams ((fun e => MkStopped (route_torrent_id e.2) (route_stream_id e.2)) <$> gone) s2 w1) as (Fr & Fe & _).
  set (s3 := (fold_left expire_stream _ _).1) in *. rewrite Fr, Fe, Hr2, He2.
  assert (Hlook : forall t route, routes s !! t = Some route ->
    filter (fun e : text * StreamRoute H => stays s1 now e.2 = true) (routes s) !! t = None <-> stays s1 now route = false).
  { intros t route Hr. rewrite map_lookup_filter, Hr. simpl. destruct (stays s1 now route); [by rewrite option_guard_True|by rewrite option_guard_False]. }
  split; [intros t route [? _]%map_lookup_filter_Some; done|]. split.
  - intros t route Hr Hn. apply (Hlook t route Hr) in Hn. unfold stays in Hn. apply orb_false_iff in Hn as [Hd Ha%negb_false_iff].
    split; [done|]. split.
    + intros d a Hda Heq. pose proof (stays_demand s1 now d a route Hda Heq) as Hst. unfold stays in Hst.
      rewrite Hd, Ha in Hst. done.
    + change (activities s1) with (activities s) in Ha. change (inactivity_timeout s1) with (inactivity_timeout s) in Ha.
      destruct (activities s !! route_activity route) as [act|]; [|done]. exists act. split; [done|]. simpl in Ha.
      unfold is_inactive in Ha. apply andb_true_iff in Ha as [?%Z.eqb_eq ?%Z.leb_le]. done.
  - eexists. split; [done|]. apply fmap_Permutation. unfold gone. change (routes s1) with (routes s).
    rewrite <-map_to_list_filter. match goal with |- ?x ≡ₚ ?y => assert (x = y) as ->; [|done] end. f_equal. apply map_eq. intros t. apply option_eq. intros r.
    rewrite !map_lookup_filter_Some. simpl. split; intros [Hr Hx]; (split; [done|]); by apply (Hlook t r Hr).
Qed.

(** ** The demonstration film is stopped and removed *)

(** The reader of the film's second piece is told. *)
Lemma stop_stream_ends_witness :
  (stop_stream (route_stream_id demo_route) demo_polled.1 demo_polled.2).2 = demo_id /\
  stream_stopped demo_route demo_polled.1 (stop_stream (route_stream_id demo_route) demo_polled.1 demo_polled.2).1.1.
Proof.
  pose proof (stop_stream_ends demo_key_of demo_content memory_torrent_laws _ _ _ _ _ _ demo_polled_reached ltac:(vm_compute; reflexivity)
    demo_route ltac:(vm_compute; reflexivity)) as Hs.
  destruct (stop_stream _ demo_polled.1 demo_polled.2) as [[s' w'] id]. exact Hs.
Defined.

Example demo_reader_told :
  match waiters (reads (stop_stream (route_stream_id demo_route) demo_polled.1 demo_polled.2).1.1) !! 0%nat with
  | Some v => waiter_done v && bool_decide (waiter_error v = str "stream was stopped")
  | None => false
  end = true.
Proof. vm_compute. reflexivity. Qed.
