(* ===== verification/StreamBody.v ===== *)
(** The HTTP threads of the stream bridge: [handle_http], [stream_body], [serve_piece] and
    [finished_run_end] of src/torrent/libtorrent_stream_bridge.cpp.  A request is answered by a
    thread that shares the bridge's state with the engine's thread; its code is cut at the
    places where it touches the shared state, the client or the file, and [handle_turn] runs it
    from one such place to the next.  The theorems hold for every interleaving of these turns
    with the steps of all other threads. *)
From stdpp Require Import prelude strings list gmap.
From Stdlib Require Import ZArith Lia Ascii.
From S2P Require Import Prelude Text OrderedMap ByteRange PieceScheduler DemandPlan PieceCache HttpProtocol EngineTypes BridgeState BridgeReads MemoryTorrent StreamSchedule StreamBridge StreamProgress BridgeInvariant.

(** ** The code *)

Section code.
Context {H : Type}.
Implicit Types (s : Impl H) (route : StreamRoute H).

Definition bounded_demand_range route (response_range : ByteRange) (position : Z) : result ByteRange :=
  blocking_demand_range response_range position (route_file_offset route) (route_piece_size route).

(** The loop of [finished_run_end] over the blocks that follow. *)
Fixpoint leading_run (blocks : list bool) : Z :=
  match blocks with true :: rest => 1 + leading_run rest | _ => 0 end.

Definition finished_run_end (blocks : list bool) (cursor limit : Z) : Z :=
  let block := cursor / block_bytes in
  let block := block + leading_run (drop (Z.to_nat block) blocks) in
  Z.min (wrap64 (block * block_bytes)) limit.

Record PieceSlice := MkSlice { piece_start : Z; slice_begin : Z; slice_end : Z }.

(** What [stream_body] works on.  [body_payload] is its [optional<PayloadReader>], of which only
    [is_open()] matters here. *)
Record Body := MkBody {
  body_demand : Z; body_state : nat; body_route : StreamRoute H; body_range : ByteRange; body_payload : option bool }.

Definition absolute_start (b : Body) : Z := wrap64 (route_file_offset (body_route b) + range_start (body_range b)).
Definition absolute_end (b : Body) : Z := wrap64 (route_file_offset (body_route b) + range_end (body_range b)).
Definition absolute_end_exclusive (b : Body) : Z := wrap64 (absolute_end b + 1).
Definition first_piece (b : Body) : Z := absolute_start b / route_piece_size (body_route b).
Definition last_piece (b : Body) : Z := absolute_end b / route_piece_size (body_route b).

(** The early returns before the loop of [stream_body]. *)
Definition body_refused (b : Body) : bool :=
  (U64_MAX - route_file_offset (body_route b) <? range_end (body_range b)) ||
  (absolute_end b =? U64_MAX) || (U32_MAX <? last_piece b).

Definition current_absolute (b : Body) (piece : Z) : Z :=
  Z.max (absolute_start b) (wrap64 (piece * route_piece_size (body_route b))).

Definition slice_of (b : Body) (piece : Z) : PieceSlice :=
  let start := wrap64 (piece * route_piece_size (body_route b)) in
  MkSlice start (current_absolute b piece - start)
    (wrap64 (Z.min (absolute_end_exclusive b) (wrap64 (start + route_piece_size (body_route b))) - start)).

(** The variables of [serve_piece]. *)
Record Turn := MkTurn {
  turn_piece : Z; turn_slice : PieceSlice; turn_waiter : nat; turn_cursor : Z; turn_deadline : Z; turn_readable : bool }.

Definition unreadable (t : Turn) : Turn :=
  MkTurn (turn_piece t) (turn_slice t) (turn_waiter t) (turn_cursor t) (turn_deadline t) false.
Definition advance (t : Turn) (cursor deadline : Z) : Turn :=
  MkTurn (turn_piece t) (turn_slice t) (turn_waiter t) cursor deadline (turn_readable t).

(** The places in the code at which a thread may be, with the variables that live there. *)
Inductive point :=
| looking_up (request : HttpRequest)
| responding (request : HttpRequest) (route : StreamRoute H)
| sending_headers (b : Body) (headers : text)
| next_piece (b : Body) (piece : Z)                                  (* the head of the loop of stream_body *)
| waiting (b : Body) (t : Turn)                                      (* the head of the loop of serve_piece *)
| sending_verified (b : Body) (t : Turn) (verified : piece_data)
| reading_payload (b : Body) (t : Turn) (unverified_end : Z)
| sending_payload (b : Body) (t : Turn) (unverified_end : Z) (buffer : text)
| leaving (b : Body) (complete : bool)                               (* ~DemandGuard; whether the loop ran to its end *)
| releasing (route : StreamRoute H)                                  (* ~HttpRequestLease *)
| returned.

(** What a turn finds outside: the stop token, the clock, what the writer returned, whether the
    payload file could be opened, the bytes [read_exact] delivered. *)
Record Input := MkInput { in_stop : bool; in_now : Z; in_write : bool; in_open : bool; in_read : option text }.

(** What a turn does that others see.  When the writer fails a part of the bytes may have gone. *)
Inductive event :=
| Acquired (activity : nat)
| Released (activity : nat)
| Began (demand_id : Z)
| Ended (demand_id : Z)
| Answered (head : text) (written : bool)
| Sent (offset : Z) (bytes : text) (verified : bool)
| Cut (offset : Z) (bytes : text) (verified : bool).

Definition wrote (offset : Z) (bytes : text) (verified written : bool) : event :=
  if written then Sent offset bytes verified else Cut offset bytes verified.

Definition demand_cancelled s (b : Body) : bool := default true (demand_states s !! body_state b).

(** The offset in the file of the cursor. *)
Definition cursor_offset (b : Body) (t : Turn) : Z :=
  wrap64 (wrap64 (piece_start (turn_slice t) + turn_cursor t) - route_file_offset (body_route b)).

Definition deliver (b : Body) (bytes : text) s : Impl H :=
  with_delivered (add_delivered_bytes (delivered s) (route_counters (body_route b)) (Z.of_nat (length bytes))) s.

(** [handle_http] from the look-up on. *)
Definition look_up (i : Input) (request : HttpRequest) s : point * Impl H * list event :=
  match find_route s (rq_target request) with
  | (None, s) => (returned, s, [Answered (build_error_response status_not_found 0) (in_write i)])
  | (Some route, s) => (responding request route, s, [Acquired (route_activity route)])
  end.

Definition respond (i : Input) (request : HttpRequest) route s : point * Impl H * list event :=
  let response := build_stream_response request (route_file_size route) (route_content_type route) in
  match rs_include_body response, rs_body_range response with
  | true, Some range =>
    let '(demand_id, state, s) := new_demand s in
    match bounded_demand_range route range (range_start range) with
    | Throw _ => (releasing route, s, [])
    | Ok demand_range =>
      let '(queued, s) := enqueue s (begin_demand demand_id route demand_range state) in
      if (queued : bool) then (sending_headers (MkBody demand_id state route range None) (rs_headers response), s, [Began demand_id])
      else (releasing route, s, [Answered (build_error_response status_service_unavailable 0) (in_write i)])
    end
  | _, _ => (releasing route, s, [Answered (rs_headers response) (in_write i)])
  end.

(** One turn of the loop of [stream_body], up to the loop of [serve_piece].  A waiter whose
    command the queue refused is dropped. *)
Definition begin_piece (i : Input) (b : Body) (piece : Z) s : point * Impl H * list event :=
  let route := body_route b in
  if (piece <=? last_piece b) && negb (in_stop i) && negb (demand_cancelled s b) then
    if current_absolute b piece <? route_file_offset route then (leaving b false, s, [])
    else
      match bounded_demand_range route (body_range b) (current_absolute b piece - route_file_offset route) with
      | Throw _ => (leaving b false, s, [])
      | Ok demand_range =>
        let '(p, s1) := make_waiter s (body_demand b) in
        let '(queued, s2) := enqueue s1 (read_piece (body_demand b) route demand_range (wrap32 piece) p (body_state b)) in
        let slice := slice_of b piece in
        let readable := match body_payload b with None => true | Some open => open end in
        if (queued : bool)
        then (waiting b (MkTurn piece slice p (slice_begin slice) (in_now i + piece_wait_timeout) readable), s2, [])
        else (leaving b false, s, [])
      end
  else (leaving b (last_piece b <? piece), s, []).

(** One turn of the loop of [serve_piece] up to the file or the client; none while the wait goes
    on. *)
Definition wait_turn (i : Input) (b : Body) (t : Turn) s : option (point * Impl H * list event) :=
  let abandon := cancel_waiter s (turn_waiter t) in
  if turn_cursor t <? slice_end (turn_slice t) then
    let waiter := default (new_waiter (body_demand b)) (waiters (reads s) !! turn_waiter t) in
    let run_end := finished_run_end (waiter_finished_blocks waiter) (turn_cursor t) (slice_end (turn_slice t)) in
    let unverified_ready := turn_readable t && (turn_cursor t <? run_end) in
    let ended := in_stop i || demand_cancelled s b in
    if negb (waiter_done waiter || ended || unverified_ready) && (in_now i <? turn_deadline t) then None
    else if ended || (waiter_done waiter && negb (bool_decide (waiter_error waiter = []))) then Some (leaving b false, abandon, [])
    else if waiter_done waiter then
      match waiter_data waiter with
      | Some verified =>
        if Z.of_nat (length verified) <? slice_end (turn_slice t) then Some (leaving b false, s, [])
        else Some (sending_verified b t verified, s, [])
      | None => Some (reading_payload b t (turn_cursor t), s, [])
      end
    else if unverified_ready then Some (reading_payload b t run_end, s, [])
    else Some (leaving b false, abandon, [])
  else Some (next_piece b (turn_piece t + 1), abandon, []).

Definition send_verified (i : Input) (b : Body) (t : Turn) (verified : piece_data) s : point * Impl H * list event :=
  let bytes := take (Z.to_nat (slice_end (turn_slice t) - turn_cursor t)) (drop (Z.to_nat (turn_cursor t)) verified) in
  if in_write i then (next_piece b (turn_piece t + 1), deliver b bytes s, [wrote (cursor_offset b t) bytes true true])
  else (leaving b false, s, [wrote (cursor_offset b t) bytes true false]).

Definition read_payload (i : Input) (b : Body) (t : Turn) (unverified_end : Z) s : point * Impl H * list event :=
  let open := match body_payload b with Some open => open | None => in_open i end in
  let b := MkBody (body_demand b) (body_state b) (body_route b) (body_range b) (Some open) in
  let absolute := wrap64 (piece_start (turn_slice t) + turn_cursor t) in
  if absolute <? route_file_offset (body_route b) then (waiting b (unreadable t), s, [])
  else
    match (if open then in_read i else None) with
    | None => (waiting b (unreadable t), s, [])
    | Some buffer => (sending_payload b t unverified_end buffer, s, [])
    end.

Definition send_payload (i : Input) (b : Body) (t : Turn) (unverified_end : Z) (buffer : text) s : point * Impl H * list event :=
  let e := wrote (cursor_offset b t) buffer false (in_write i) in
  if in_write i then (waiting b (advance t unverified_end (in_now i + piece_wait_timeout)), deliver b buffer s, [e])
  else (leaving b false, cancel_waiter s (turn_waiter t), [e]).

(** One turn of the thread; none when it waits or has returned. *)
Definition handle_turn (i : Input) (t : point) s : option (point * Impl H * list event) :=
  match t with
  | looking_up request => Some (look_up i request s)
  | responding request route => Some (respond i request route s)
  | sending_headers b headers =>
    let next := if in_write i && negb (body_refused b) then next_piece b (first_piece b) else leaving b false in
    Some (next, s, [Answered headers (in_write i)])
  | next_piece b piece => Some (begin_piece i b piece s)
  | waiting b t => wait_turn i b t s
  | sending_verified b t verified => Some (send_verified i b t verified s)
  | reading_payload b t unverified_end => Some (read_payload i b t unverified_end s)
  | sending_payload b t unverified_end buffer => Some (send_payload i b t unverified_end buffer s)
  | leaving b _ => Some (releasing (body_route b), enqueue_end s (body_demand b), [Ended (body_demand b)])
  | releasing route =>
    Some (returned, with_activities (alter (fun a => release_http_request a (in_now i)) (route_activity route) (activities s)) s,
          [Released (route_activity route)])
  | returned => None
  end.
End code.
Arguments point : clear implicits.
Arguments Body : clear implicits.

(** ** The slices of a body *)

Section slices.
Context {H : Type}.
Implicit Types (b : Body H) (route : StreamRoute H).

(** The body of a response to the request for a file of the route. *)
Record body_of (request : HttpRequest) b : Prop := {
  bo_wf : route_wf (body_route b);
  bo_target : route_target (body_route b) = rq_target request;
  bo_range : let response := build_stream_response request (route_file_size (body_route b)) (route_content_type (body_route b)) in
    rs_include_body response = true /\ rs_body_range response = Some (body_range b);
}.

Lemma response_range request n ct range : is_u64 n -> rs_body_range (build_stream_response request n ct) = Some range -> in_resource n range.
Proof.
  intros Hn. unfold build_stream_response. pose proof (parse_range_wf (default [] (rq_range request)) n Hn) as Hw.
  destruct (parse_range_header _ n) as [st rv]. unfold wf_result, is_success in Hw. simpl in *.
  destruct st; try done; unfold build_success_response; simpl; intros ->; simpl in *; destruct Hw as [[_ ?]|(_ & _ & [=])]; done.
Qed.

Lemma body_in_resource request b : body_of request b -> in_resource (route_file_size (body_route b)) (body_range b).
Proof. intros [(_ & _ & Hn) _ [_ Hr]]. by eapply response_range. Qed.

Lemma demand_range_ok request b position : body_of request b -> range_start (body_range b) <= position <= range_end (body_range b) ->
  exists r, bounded_demand_range (body_route b) (body_range b) position = Ok r.
Proof.
  intros Hb Hp. destruct (bo_wf _ _ Hb) as ([Hps _] & _). unfold bounded_demand_range, blocking_demand_range. zcases; try lia. eauto.
Qed.

(** Where the bodies that are served lie. *)
Record extent b : Prop := {
  ex_start : absolute_start b = route_file_offset (body_route b) + range_start (body_range b);
  ex_end : absolute_end b = route_file_offset (body_route b) + range_end (body_range b);
  ex_end_exclusive : absolute_end_exclusive b = route_file_offset (body_route b) + range_end (body_range b) + 1;
  ex_pieces : 0 <= first_piece b <= last_piece b /\ last_piece b <= U32_MAX;
  ex_bytes : 0 <= absolute_start b < absolute_end_exclusive b /\ absolute_end_exclusive b <= U64_MAX;
}.

Lemma accepted_extent request b : body_of request b -> body_refused b = false -> extent b.
Proof.
  intros Hb. pose proof (body_in_resource _ _ Hb) as [Hr Hlt]. destruct (bo_wf _ _ Hb) as ([Hps _] & Hoff & Hsz).
  unfold body_refused. intros [[H1%Z.ltb_ge H2%Z.eqb_neq]%orb_false_iff H3%Z.ltb_ge]%orb_false_iff.
  assert (Hs : absolute_start b = route_file_offset (body_route b) + range_start (body_range b)) by (apply wrap64_id; ulia).
  assert (He : absolute_end b = route_file_offset (body_route b) + range_end (body_range b)) by (apply wrap64_id; ulia).
  assert (Hx : absolute_end_exclusive b = absolute_end b + 1) by (apply wrap64_id; ulia).
  split; [done|done|lia| |ulia]. split; [|done]. split.
  - apply Z.div_pos; ulia.
  - apply Z.div_le_mono; ulia.
Qed.

(** The slice of a piece that holds bytes of the range. *)
Record slice_ok b (piece : Z) (slice : PieceSlice) : Prop := {
  sl_piece : 0 <= piece <= U32_MAX;
  sl_start : piece_start slice = piece * route_piece_size (body_route b);
  sl_begin : piece_start slice + slice_begin slice = Z.max (absolute_start b) (piece_start slice);
  sl_end : piece_start slice + slice_end slice = Z.min (absolute_end_exclusive b) (piece_start slice + route_piece_size (body_route b));
  sl_order : 0 <= slice_begin slice < slice_end slice;
}.

Lemma slice_spec request b piece : body_of request b -> extent b -> first_piece b <= piece <= last_piece b ->
  slice_ok b piece (slice_of b piece) /\ current_absolute b piece = piece_start (slice_of b piece) + slice_begin (slice_of b piece).
Proof.
  intros Hb [Es Ee Ex [Hf Hl] Hbytes] Hp. destruct (bo_wf _ _ Hb) as ([Hps Hps'] & Hoff & Hsz).
  set (ps := route_piece_size (body_route b)) in *.
  assert (Hlast : last_piece b * ps <= absolute_end b) by (unfold last_piece; fold ps; pose proof (div_block_bounds ps (absolute_end b) Hps); lia).
  assert (Hfirst : absolute_start b < first_piece b * ps + ps) by (unfold first_piece; fold ps; pose proof (div_block_bounds ps (absolute_start b) Hps); lia).
  assert (H1 : piece * ps <= last_piece b * ps) by (apply Z.mul_le_mono_nonneg_r; lia).
  assert (H2 : first_piece b * ps <= piece * ps) by (apply Z.mul_le_mono_nonneg_r; lia).
  assert (H3 : 0 <= piece * ps) by (apply Z.mul_nonneg_nonneg; lia).
  assert (H4 : piece * ps + ps <= U64_MAX).
  { transitivity ((U32_MAX + 1) * I32_MAX); [|lia]. replace (piece * ps + ps) with ((piece + 1) * ps) by lia. apply Z.mul_le_mono_nonneg; lia. }
  assert (Hstart : wrap64 (piece * ps) = piece * ps) by (apply wrap64_id; ulia).
  assert (Hnext : wrap64 (piece * ps + ps) = piece * ps + ps) by (apply wrap64_id; ulia).
  unfold slice_of, current_absolute. fold ps. rewrite Hstart, Hnext. simpl. split; [|lia].
  rewrite wrap64_id by ulia. split; simpl; fold ps; lia.
Qed.

(** The first position of a piece in the range. *)
Definition position b (piece : Z) : Z :=
  Z.min (absolute_end_exclusive b) (Z.max (absolute_start b) (piece * route_piece_size (body_route b))) - route_file_offset (body_route b).

Lemma slice_positions request b piece slice : body_of request b -> extent b -> first_piece b <= piece <= last_piece b -> slice_ok b piece slice ->
  position b piece = piece_start slice + slice_begin slice - route_file_offset (body_route b) /\
  position b (piece + 1) = piece_start slice + slice_end slice - route_file_offset (body_route b).
Proof.
  intros Hb He Hp [_ Sp Sb Se So]. unfold position. destruct (bo_wf _ _ Hb) as ([Hps _] & _). set (ps := route_piece_size (body_route b)) in *.
  replace ((piece + 1) * ps) with (piece * ps + ps) by lia. rewrite <-Sp.
  pose proof (ex_bytes _ He). assert (Hfirst : absolute_start b < piece_start slice + ps).
  { rewrite Sp. pose proof (div_block_bounds ps (absolute_start b) Hps). unfold first_piece in Hp. fold ps in Hp.
    assert (absolute_start b / ps * ps <= piece * ps) by (apply Z.mul_le_mono_nonneg_r; lia). lia. }
  lia.
Qed.

Lemma position_first request b : body_of request b -> extent b -> position b (first_piece b) = range_start (body_range b).
Proof.
  intros Hb He. unfold position, first_piece. destruct (bo_wf _ _ Hb) as ([Hps _] & _).
  pose proof (div_block_bounds _ (absolute_start b) Hps). pose proof (ex_bytes _ He). rewrite (ex_start _ He) in *. lia.
Qed.

Lemma position_last request b : body_of request b -> extent b -> position b (last_piece b + 1) = range_end (body_range b) + 1.
Proof.
  intros Hb He. unfold position, last_piece. destruct (bo_wf _ _ Hb) as ([Hps _] & _). set (ps := route_piece_size (body_route b)) in *.
  pose proof (div_block_bounds ps (absolute_end b) Hps). pose proof (ex_bytes _ He).
  replace ((absolute_end b / ps + 1) * ps) with (absolute_end b / ps * ps + ps) by lia. rewrite (ex_end_exclusive _ He), (ex_start _ He), (ex_end _ He) in *. lia.
Qed.
End slices.

(** ** What a thread has done *)

Definition sent (log : list event) : list (Z * text * bool) :=
  omap (fun e => match e with Sent offset bytes verified => Some (offset, bytes, verified) | _ => None end) log.
Definition cut (log : list event) : list (Z * text * bool) :=
  omap (fun e => match e with Cut offset bytes verified => Some (offset, bytes, verified) | _ => None end) log.
Definition heads (log : list event) : list (text * bool) :=
  omap (fun e => match e with Answered head written => Some (head, written) | _ => None end) log.

(** The chunks follow each other from one offset to another. *)
Fixpoint contiguous (from to : Z) (l : list (Z * text * bool)) : Prop :=
  match l with
  | [] => from = to
  | (offset, bytes, _) :: l => offset = from /\ contiguous (from + Z.of_nat (length bytes)) to l
  end.

Lemma contiguous_snoc from to l bytes v : contiguous from to l -> contiguous from (to + Z.of_nat (length bytes)) (l ++ [(to, bytes, v)]).
Proof. revert from. induction l as [|[[o bs] v'] l IH]; intros from; simpl; [by intros ->|]. intros [-> Hc]. split; [done|]. by apply IH. Qed.

(** The bytes of the chunks. *)
Fixpoint body_bytes (l : list (Z * text * bool)) : text :=
  match l with [] => [] | (_, bytes, _) :: l => bytes ++ body_bytes l end.

(** Byte [n] of contiguous chunks is in a chunk, at the place of the sum. *)
Lemma contiguous_lookup from to l n x : contiguous from to l -> body_bytes l !! n = Some x ->
  exists c i, c ∈ l /\ c.1.2 !! i = Some x /\ c.1.1 + Z.of_nat i = from + Z.of_nat n.
Proof.
  revert from n. induction l as [|[[o bs] v] l IH]; intros from n; simpl; [done|]. intros [-> Hc].
  intros [Hx|[Hlen Hx]]%lookup_app_Some.
  - exists (from, bs, v), n. simpl. split; [by left|done].
  - destruct (IH _ _ Hc Hx) as (c & i & Hin & Hi & Ho). exists c, i. split; [by right|]. split; [done|]. rewrite Ho. lia.
Qed.

Lemma contiguous_length from to l : contiguous from to l -> Z.of_nat (length (body_bytes l)) = to - from.
Proof.
  revert from. induction l as [|[[o bs] v] l IH]; intros from; simpl; [intros ->; lia|]. intros [-> Hc]. rewrite length_app. specialize (IH _ Hc). lia.
Qed.

Section system.
Context {H W : Type} `{Torrents H W}.
Context (key_of : nat -> PieceCacheKey) (content : PieceCacheKey -> piece_data).
(** What the payload file of a route may deliver at an offset. *)
Context (source : StreamRoute H -> Z -> text -> Prop).
Implicit Types (s : Impl H) (w : W) (b : Body H).

(** The byte of the file at an offset, by the verified pieces of the torrent. *)
Definition file_byte (route : StreamRoute H) (offset : Z) : option ascii :=
  let absolute := route_file_offset route + offset in
  content (MkKey (route_torrent_id route) (absolute / route_piece_size route)) !! Z.to_nat (absolute mod route_piece_size route).

(** The bytes are those of the file. *)
Definition true_bytes (route : StreamRoute H) (offset : Z) (bytes : text) : Prop :=
  forall i x, bytes !! i = Some x -> file_byte route (offset + Z.of_nat i) = Some x.

(** Bytes of a verified piece are those of the file, the others come from the payload file. *)
Definition chunk_ok (route : StreamRoute H) (c : Z * text * bool) : Prop :=
  if c.2 then true_bytes route c.1.1 c.1.2 else source route c.1.1 c.1.2.

(** A thread with the requests it made, and the threads it runs beside. *)
Record System := MkSystem { sys_point : point H; sys_log : list event; sys_turns : nat; sys_state : Impl H; sys_world : W }.

(** [read_exact] fills the buffer with what the file holds there. *)
Definition input_ok (i : Input) (t : point H) : Prop :=
  match t with
  | reading_payload b t e => forall buffer, in_read i = Some buffer ->
      Z.of_nat (length buffer) = e - turn_cursor t /\ source (body_route b) (cursor_offset b t) buffer
  | _ => True
  end.

(** [key_of] tells the piece each waiter is made for. *)
Definition waiter_made (t : point H) s : Prop :=
  match t with
  | next_piece b piece => piece <= last_piece b -> key_of (length (waiters (reads s))) = MkKey (route_torrent_id (body_route b)) (wrap32 piece)
  | _ => True
  end.

Inductive system_step : System -> System -> Prop :=
| other_step t log n s w s' w' : bridge_step key_of content (s, w) (s', w') ->
    system_step (MkSystem t log n s w) (MkSystem t log n s' w')
| thread_step i t log n s w t' s' es : handle_turn i t s = Some (t', s', es) -> input_ok i t -> waiter_made t s ->
    next_demand_id s < U64_MAX -> system_step (MkSystem t log n s w) (MkSystem t' (log ++ es) (S n) s' w).

(** ** The invariant of a thread *)

Definition response_for (request : HttpRequest) (route : StreamRoute H) : StreamResponse :=
  build_stream_response request (route_file_size route) (route_content_type route).

(** The body was sent up to an offset. *)
Record progress (request : HttpRequest) b (log : list event) (pos : Z) : Prop := {
  pg_body : body_of request b;
  pg_extent : extent b;
  pg_head : heads log = [(rs_headers (response_for request (body_route b)), true)];
  pg_sent : contiguous (range_start (body_range b)) pos (sent log);
  pg_chunks : Forall (chunk_ok (body_route b)) (sent log);
  pg_cut : cut log = [];
}.

(** The body ended at an offset, with the last write cut or not. *)
Record body_done (request : HttpRequest) b (log : list event) (pos : Z) : Prop := {
  bd_body : body_of request b;
  bd_pos : range_start (body_range b) <= pos <= range_end (body_range b) + 1;
  bd_head : heads log = [(rs_headers (response_for request (body_route b)), true)];
  bd_sent : contiguous (range_start (body_range b)) pos (sent log);
  bd_chunks : Forall (chunk_ok (body_route b)) (sent log ++ cut log);
  bd_cut : Forall (fun c : Z * text * bool => c.1.1 = pos /\ pos + Z.of_nat (length c.1.2) <= range_end (body_range b) + 1) (cut log);
}.

Definition bodiless (log : list event) : Prop := sent log = [] /\ cut log = [] /\ (length (heads log) <= 1)%nat.
Definition quiet (log : list event) : Prop := sent log = [] /\ cut log = [] /\ heads log = [].

Definition offset_of b (t : Turn) : Z := piece_start (turn_slice t) + turn_cursor t - route_file_offset (body_route b).

Record turn_ok (request : HttpRequest) b (t : Turn) (log : list event) : Prop := {
  to_progress : progress request b log (offset_of b t);
  to_piece : first_piece b <= turn_piece t <= last_piece b;
  to_slice : slice_ok b (turn_piece t) (turn_slice t);
  to_cursor : slice_begin (turn_slice t) <= turn_cursor t <= slice_end (turn_slice t);
  to_waiter : key_of (turn_waiter t) = MkKey (route_torrent_id (body_route b)) (turn_piece t);
}.

Definition point_ok (request : HttpRequest) (t : point H) (log : list event) : Prop :=
  match t with
  | looking_up r => r = request /\ quiet log
  | responding r route => r = request /\ route_wf route /\ route_target route = rq_target request /\ quiet log
  | sending_headers b headers => body_of request b /\ headers = rs_headers (response_for request (body_route b)) /\ quiet log
  | next_piece b piece => first_piece b <= piece <= last_piece b + 1 /\ progress request b log (position b piece)
  | waiting b t => turn_ok request b t log
  | sending_verified b t verified =>
    turn_ok request b t log /\ turn_cursor t < slice_end (turn_slice t) <= Z.of_nat (length verified) /\
    verified = content (MkKey (route_torrent_id (body_route b)) (turn_piece t))
  | reading_payload b t e => turn_ok request b t log /\ turn_cursor t < e <= slice_end (turn_slice t) /\ turn_readable t = true
  | sending_payload b t e buffer =>
    turn_ok request b t log /\ turn_cursor t < e <= slice_end (turn_slice t) /\ Z.of_nat (length buffer) = e - turn_cursor t /\
    source (body_route b) (cursor_offset b t) buffer
  | leaving b complete =>
    if complete then body_done request b log (range_end (body_range b) + 1) /\ cut log = []
    else bodiless log \/ exists pos, body_done request b log pos
  | releasing _ | returned => bodiless log \/ exists b pos, body_done request b log pos
  end.

Lemma progress_done request b log pos : progress request b log pos -> range_start (body_range b) <= pos <= range_end (body_range b) + 1 ->
  body_done request b log pos.
Proof. intros [? ? ? ? ? Hc] ?. split; try done; rewrite Hc; [by rewrite app_nil_r|done]. Qed.

Lemma turn_offset request b t log : turn_ok request b t log ->
  range_start (body_range b) <= offset_of b t <= range_end (body_range b) + 1 /\
  (turn_cursor t < slice_end (turn_slice t) -> cursor_offset b t = offset_of b t /\ offset_of b t + (slice_end (turn_slice t) - turn_cursor t) <= range_end (body_range b) + 1).
Proof.
  intros [Hp _ [_ Sp Sb Se So] Hc _]. pose proof (pg_extent _ _ _ _ Hp) as He. pose proof (ex_bytes _ He).
  pose proof (ex_start _ He). pose proof (ex_end_exclusive _ He). destruct (bo_wf _ _ (pg_body _ _ _ _ Hp)) as (_ & Hoff & _).
  destruct (body_in_resource _ _ (pg_body _ _ _ _ Hp)) as [Hr _]. unfold offset_of, cursor_offset. split; [lia|]. intros Hlt. split; [|lia].
  rewrite (wrap64_id (_ + _)) by ulia. apply wrap64_id. ulia.
Qed.
End system.
Arguments System : clear implicits.

(** ** The invariant is kept *)

Section turns.
Context {H W : Type} `{Torrents H W}.
Context (key_of : nat -> PieceCacheKey) (content : PieceCacheKey -> piece_data) (source : StreamRoute H -> Z -> text -> Prop).
Context (request : HttpRequest).
Implicit Types (s : Impl H) (w : W) (b : Body H) (log : list event).

Abbreviation progress := (progress content source request).
Abbreviation body_done := (body_done content source request).
Abbreviation turn_ok := (turn_ok key_of content source request).
Abbreviation point_ok := (point_ok key_of content source request).

Lemma sent_app log es : sent (log ++ es) = sent log ++ sent es. Proof. apply omap_app. Qed.
Lemma cut_app log es : cut (log ++ es) = cut log ++ cut es. Proof. apply omap_app. Qed.
Lemma heads_app log es : heads (log ++ es) = heads log ++ heads es. Proof. apply omap_app. Qed.

(** Events of the other kinds change nothing. *)
Lemma log_same log es : sent es = [] -> cut es = [] -> heads es = [] ->
  sent (log ++ es) = sent log /\ cut (log ++ es) = cut log /\ heads (log ++ es) = heads log.
Proof. rewrite sent_app, cut_app, heads_app. intros -> -> ->. by rewrite !app_nil_r. Qed.

Lemma quiet_bodiless log : quiet log -> bodiless log.
Proof. intros (? & ? & Hh). split; [done|]. split; [done|]. rewrite Hh. simpl. lia. Qed.

Lemma quiet_answer log head ok : quiet log -> bodiless (log ++ [Answered head ok]).
Proof. intros (Hs & Hc & Hh). unfold bodiless. rewrite sent_app, cut_app, heads_app, Hs, Hc, Hh. simpl. split; [done|]. split; [done|lia]. Qed.

Lemma ended_same log log' : sent log' = sent log -> cut log' = cut log -> heads log' = heads log ->
  (bodiless log \/ exists b pos, body_done b log pos) -> bodiless log' \/ exists b pos, body_done b log' pos.
Proof.
  intros Es Ec Eh [Hb|(b & pos & [? ? ? ? ? ?])]; [left; unfold bodiless; by rewrite Es, Ec, Eh|].
  right. exists b, pos. split; rewrite ?Es, ?Ec, ?Eh; done.
Qed.

(** The progress does not depend on the payload file. *)
Lemma progress_payload b o log pos : progress b log pos ->
  progress (MkBody (body_demand b) (body_state b) (body_route b) (body_range b) o) log pos.
Proof. intros [[? ? ?] [? ? ? ? ?] ? ? ? ?]. by split; [split|split|..]. Qed.

Lemma turn_payload b o t log : turn_ok b t log -> turn_ok (MkBody (body_demand b) (body_state b) (body_route b) (body_range b) o) t log.
Proof. intros [Hp ? [? ? ? ? ?] ? ?]. split; [by apply progress_payload|done|by split|done|done]. Qed.

Lemma turn_left b t log : turn_ok b t log -> bodiless log \/ exists pos, body_done b log pos.
Proof. intros Ht. right. exists (offset_of b t). apply progress_done; [apply Ht|]. by eapply turn_offset. Qed.

(** The next piece follows. *)
Lemma turn_next b t log log' : turn_ok b t log -> progress b log' (offset_of b t + (slice_end (turn_slice t) - turn_cursor t)) ->
  point_ok (next_piece b (turn_piece t + 1)) log'.
Proof.
  intros [_ Hpc Hsl Hcur _] Hp. split; [lia|].
  destruct (slice_positions request b _ _ (pg_body _ _ _ _ _ _ Hp) (pg_extent _ _ _ _ _ _ Hp) Hpc Hsl) as [_ ->].
  unfold offset_of in Hp. by replace (_ + _ - _) with (piece_start (turn_slice t) + turn_cursor t - route_file_offset (body_route b) +
    (slice_end (turn_slice t) - turn_cursor t)) by lia.
Qed.

(** *** Before the body *)

Lemma look_up_keeps i s log t' s' es : bridge_ok key_of content s -> quiet log -> look_up i request s = (t', s', es) -> point_ok t' (log ++ es).
Proof.
  intros Hok Hq. unfold look_up, find_route. destruct (routes s !! rq_target request) as [route|] eqn:E; intros [= <- <- <-]; simpl.
  - assert (Hs : streams_ok s) by (eapply streams_ok_ext; [apply (eo_streams _ _ _ _ Hok)|..]; unfold live; by destruct (shutting_down s)).
    destruct (sc_targets _ (proj1 Hs) _ _ E) as (? & _ & _ & ?). split; [done|]. split; [done|]. split; [done|].
    destruct (log_same log [Acquired (route_activity route)]) as (Es & Ec & Eh); [done..|]. unfold quiet. by rewrite Es, Ec, Eh.
  - left. by apply quiet_answer.
Qed.

Lemma respond_keeps i route s log t' s' es : route_wf route -> route_target route = rq_target request -> quiet log ->
  respond i request route s = (t', s', es) -> point_ok t' (log ++ es).
Proof.
  intros Hwf Ht Hq. unfold respond. fold (response_for request route).
  assert (Hplain : forall head ok, bodiless (log ++ [Answered head ok]) \/ exists b pos, body_done b (log ++ [Answered head ok]) pos)
    by (intros; left; by apply quiet_answer).
  destruct (rs_include_body (response_for request route)) eqn:Ei; [|intros [= <- <- <-]; apply Hplain].
  destruct (rs_body_range (response_for request route)) as [range|] eqn:Er; [|intros [= <- <- <-]; apply Hplain].
  cbn [new_demand]. destruct (bounded_demand_range route range _) as [r|]; [|intros [= <- <- <-]; left; rewrite app_nil_r; by apply quiet_bodiless].
  unfold enqueue. destruct (shutting_down _); [intros [= <- <- <-]; apply Hplain|]. destruct (_ <=? _); intros [= <- <- <-]; [apply Hplain|].
  split; [by split|]. split; [done|]. destruct (log_same log [Began (next_demand_id s)]) as (Es & Ec & Eh); [done..|].
  unfold quiet. by rewrite Es, Ec, Eh.
Qed.

Lemma headers_keeps b headers ok log : body_of request b -> headers = rs_headers (response_for request (body_route b)) -> quiet log ->
  point_ok (if ok && negb (body_refused b) then next_piece b (first_piece b) else leaving b false) (log ++ [Answered headers ok]).
Proof.
  intros Hb -> Hq. destruct ok; simpl; [|left; by apply quiet_answer].
  destruct (body_refused b) eqn:E; simpl; [left; by apply quiet_answer|]. pose proof (accepted_extent _ _ Hb E) as He.
  destruct (ex_pieces _ He). split; [lia|]. rewrite (position_first _ _ Hb He). destruct Hq as (Es & Ec & Eh).
  split; rewrite ?sent_app, ?cut_app, ?heads_app, ?Es, ?Ec, ?Eh; simpl; try done; apply He.
Qed.

(** *** In the body *)

Lemma begin_piece_keeps i b piece s log t' s' es : point_ok (next_piece b piece) log -> waiter_made key_of (next_piece b piece) s ->
  begin_piece i b piece s = (t', s', es) -> point_ok t' (log ++ es).
Proof.
  intros [Hpc Hp] Hkey. pose proof (pg_body _ _ _ _ _ _ Hp) as Hb. pose proof (pg_extent _ _ _ _ _ _ Hp) as He.
  assert (Hpos : range_start (body_range b) <= position b piece <= range_end (body_range b) + 1).
  { pose proof (ex_bytes _ He). unfold position. pose proof (ex_start _ He). pose proof (ex_end_exclusive _ He). lia. }
  assert (Hleft : point_ok (leaving b false) (log ++ [])) by (rewrite app_nil_r; right; exists (position b piece); by apply progress_done).
  unfold begin_piece. destruct (Z.leb_spec piece (last_piece b)) as [Hle|Hgt]; cbn [andb].
  - destruct (negb _ && negb _); [|intros [= <- <- <-]; destruct (Z.ltb_spec (last_piece b) piece); [lia|done]].
    destruct (_ <? route_file_offset _); [intros [= <- <- <-]; done|]. destruct (bounded_demand_range _ _ _); [|intros [= <- <- <-]; done].
    destruct (slice_spec request b piece Hb He ltac:(lia)) as [Hs _]. remember (slice_of b piece) as slice eqn:Es. clear Es.
    cbn [make_waiter]. unfold enqueue. destruct (shutting_down _); [intros [= <- <- <-]; done|]. destruct (_ <=? _); intros [= <- <- <-]; [done|].
    rewrite app_nil_r. split; simpl.
    + destruct (slice_positions request b piece _ Hb He ltac:(lia) Hs) as [Heq _]. rewrite Heq in Hp. exact Hp.
    + lia. + done. + pose proof (sl_order _ _ _ Hs). lia.
    + rewrite (Hkey Hle), wrap32_id; [done|]. destruct (sl_piece _ _ _ Hs). ulia.
  - intros [= <- <- <-]. destruct (Z.ltb_spec (last_piece b) piece); [|lia]. assert (piece = last_piece b + 1) as -> by lia.
    rewrite app_nil_r. rewrite (position_last _ _ Hb He) in *. split; [by apply progress_done|apply Hp].
Qed.

Lemma wait_turn_keeps i b t s log t' s' es : bridge_ok key_of content s -> turn_ok b t log ->
  wait_turn i b t s = Some (t', s', es) -> point_ok t' (log ++ es).
Proof.
  intros Hok Ht. pose proof (turn_left b t log Ht) as Hleft. unfold wait_turn.
  destruct (Z.ltb_spec (turn_cursor t) (slice_end (turn_slice t))) as [Hlt|Hge].
  2:{ intros [= <- <- <-]. rewrite app_nil_r. eapply turn_next; [done|]. destruct (to_cursor _ _ _ _ _ _ _ Ht).
      replace (_ + _) with (offset_of b t) by lia. apply Ht. }
  assert (Hans : forall v, waiters (reads s) !! turn_waiter t = Some v -> waiter_done v = true ->
    answer_ok content (key_of (turn_waiter t)) (waiter_data v) (waiter_error v)).
  { pose proof (ro_answers _ _ _ _ (eo_reads _ _ _ _ Hok)) as Ha. unfold live in Ha. destruct (shutting_down s); apply Ha. }
  set (v := default _ _). set (run_end := finished_run_end _ _ _). set (ready := turn_readable t && _).
  destruct (negb _ && _); [done|]. destruct (_ || _) eqn:Eend; [intros [= <- <- <-]; rewrite app_nil_r; done|].
  apply orb_false_iff in Eend as [_ Eerr]. destruct (waiter_done v) eqn:Ed; cbn [andb] in Eerr.
  - apply negb_false_iff, bool_decide_eq_true in Eerr.
    assert (Hv : waiters (reads s) !! turn_waiter t = Some v) by (unfold v in *; by destruct (waiters (reads s) !! turn_waiter t)).
    specialize (Hans v Hv Ed). unfold answer_ok in Hans. destruct (waiter_data v) as [data|]; [|by rewrite Eerr in Hans]. destruct Hans as [-> _].
    rewrite (to_waiter _ _ _ _ _ _ _ Ht). destruct (Z.ltb_spec (Z.of_nat (length (content (MkKey (route_torrent_id (body_route b)) (turn_piece t)))))
      (slice_end (turn_slice t))); intros [= <- <- <-]; rewrite app_nil_r; [done|]. split; [done|]. split; [lia|done].
  - destruct ready eqn:Er; intros [= <- <- <-]; rewrite app_nil_r; [|done]. apply andb_true_iff in Er as [Hr Er%Z.ltb_lt].
    split; [done|]. split; [|done]. split; [done|]. unfold run_end, finished_run_end. lia.
Qed.

(** The log after a write from the cursor on. *)
Lemma wrote_sent b t log bytes v : turn_ok b t log -> turn_cursor t < slice_end (turn_slice t) -> chunk_ok content source (body_route b) (cursor_offset b t, bytes, v) ->
  progress b (log ++ [wrote (cursor_offset b t) bytes v true]) (offset_of b t + Z.of_nat (length bytes)).
Proof.
  intros Ht Hlt Hc. destruct (turn_offset _ _ _ _ _ _ _ Ht) as [_ Ho]. destruct (Ho Hlt) as [Heq _].
  destruct (to_progress _ _ _ _ _ _ _ Ht) as [? ? Ph Ps Pc Pcut].
  split; rewrite ?sent_app, ?cut_app, ?heads_app, ?Ph, ?Pcut; simpl; try done.
  - rewrite Heq. by apply contiguous_snoc.
  - apply Forall_app. split; [done|]. by constructor.
Qed.

Lemma wrote_cut b t log bytes v : turn_ok b t log -> turn_cursor t < slice_end (turn_slice t) -> chunk_ok content source (body_route b) (cursor_offset b t, bytes, v) ->
  Z.of_nat (length bytes) <= slice_end (turn_slice t) - turn_cursor t ->
  point_ok (leaving b false) (log ++ [wrote (cursor_offset b t) bytes v false]).
Proof.
  intros Ht Hlt Hc Hlen. right. exists (offset_of b t). destruct (turn_offset _ _ _ _ _ _ _ Ht) as [Hpos Ho]. destruct (Ho Hlt) as [Heq Hend].
  destruct (to_progress _ _ _ _ _ _ _ Ht) as [? ? Ph Ps Pc Pcut].
  split; rewrite ?sent_app, ?cut_app, ?heads_app, ?Ph, ?Pcut; simpl; rewrite ?app_nil_r; try done.
  - apply Forall_app. split; [done|]. by constructor.
  - constructor; [|done]. simpl. split; [done|lia].
Qed.

(** The bytes of a verified piece are those of the file. *)
Lemma verified_bytes b t log data n : turn_ok b t log -> turn_cursor t < slice_end (turn_slice t) ->
  data = content (MkKey (route_torrent_id (body_route b)) (turn_piece t)) -> n = Z.to_nat (slice_end (turn_slice t) - turn_cursor t) ->
  true_bytes content (body_route b) (cursor_offset b t) (take n (drop (Z.to_nat (turn_cursor t)) data)).
Proof.
  intros Ht Hlt -> -> j x Hx. destruct (turn_offset _ _ _ _ _ _ _ Ht) as [_ Ho]. destruct (Ho Hlt) as [-> _].
  pose proof (bo_wf _ _ (pg_body _ _ _ _ _ _ (to_progress _ _ _ _ _ _ _ Ht))) as ([Hps _] & _).
  destruct Ht as [_ _ [_ Sp Sb Se So] Hcur _]. rewrite lookup_take_Some, lookup_drop in Hx. destruct Hx as [Hx Hj].
  unfold file_byte, offset_of. set (ps := route_piece_size (body_route b)) in *.
  assert (Hr : 0 <= turn_cursor t + Z.of_nat j < ps) by lia.
  replace (route_file_offset (body_route b) + _) with (turn_cursor t + Z.of_nat j + turn_piece t * ps) by lia.
  rewrite Z.div_add, Z.mod_add, (Z.div_small (_ + _)), (Z.mod_small (_ + _)) by lia. rewrite Z.add_0_l, Z2Nat.inj_add, Nat2Z.id by lia. done.
Qed.

Lemma send_verified_keeps i b t data s log t' s' es : point_ok (sending_verified b t data) log ->
  send_verified i b t data s = (t', s', es) -> point_ok t' (log ++ es).
Proof.
  intros (Ht & Hlt & Hdata). unfold send_verified. set (bytes := take _ _).
  assert (Hlen : Z.of_nat (length bytes) = slice_end (turn_slice t) - turn_cursor t).
  { unfold bytes. rewrite length_take, length_drop. destruct (to_slice _ _ _ _ _ _ _ Ht). destruct (to_cursor _ _ _ _ _ _ _ Ht). lia. }
  assert (Hc : chunk_ok content source (body_route b) (cursor_offset b t, bytes, true)) by (by eapply verified_bytes; [| lia|..]).
  destruct (in_write i); intros [= <- <- <-].
  - eapply turn_next; [done|]. rewrite <-Hlen. apply wrote_sent; [done|lia|done].
  - apply wrote_cut; [done|lia|done|lia].
Qed.

Lemma read_payload_keeps i b t e s log t' s' es : point_ok (reading_payload b t e) log -> input_ok source i (reading_payload b t e) ->
  read_payload i b t e s = (t', s', es) -> point_ok t' (log ++ es).
Proof.
  intros (Ht & He & _) Hi. unfold read_payload. set (open := match body_payload b with Some o => o | None => _ end).
  pose proof (turn_payload b (Some open) t log Ht) as Ht'. set (b' := MkBody _ _ _ _ _) in *.
  assert (Hun : turn_ok b' (unreadable t) log) by (by destruct Ht' as [? ? ? ? ?]).
  destruct (_ <? _); [intros [= <- <- <-]; by rewrite app_nil_r|]. destruct (if open then in_read i else None) as [buffer|] eqn:E;
    intros [= <- <- <-]; rewrite app_nil_r; [|done].
  destruct open; [|done]. destruct (Hi buffer E) as [Hlen Hsrc]. done.
Qed.

Lemma send_payload_keeps i b t e buffer s log t' s' es : point_ok (sending_payload b t e buffer) log ->
  send_payload i b t e buffer s = (t', s', es) -> point_ok t' (log ++ es).
Proof.
  intros (Ht & He & Hlen & Hsrc). unfold send_payload. destruct (in_write i); intros [= <- <- <-]; [|by apply wrote_cut; [|lia| |lia]].
  pose proof (wrote_sent b t log buffer false Ht ltac:(lia) Hsrc) as Hp. rewrite Hlen in Hp.
  destruct Ht as [_ ? ? Hcur ?]. split; simpl; try done; [|lia].
  unfold offset_of in *. simpl. by replace (_ + e - _) with (piece_start (turn_slice t) + turn_cursor t - route_file_offset (body_route b) + (e - turn_cursor t)) by lia.
Qed.

Lemma turn_keeps i t s log t' s' es : bridge_ok key_of content s -> point_ok t log -> input_ok source i t -> waiter_made key_of t s ->
  handle_turn i t s = Some (t', s', es) -> point_ok t' (log ++ es).
Proof.
  intros Hok Hp Hi Hw. destruct t as [r|r route|b headers|b piece|b t|b t data|b t e|b t e buffer|b complete|route|]; cbn [handle_turn].
  - destruct Hp as [-> Hq]. intros [= Ht]. by eapply look_up_keeps.
  - destruct Hp as (-> & ? & ? & ?). intros [= Ht]. by eapply respond_keeps.
  - destruct Hp as (? & ? & ?). intros [= <- <- <-]. by apply headers_keeps.
  - intros [= Ht]. by eapply begin_piece_keeps.
  - intros Ht. by eapply wait_turn_keeps.
  - intros [= Ht]. by eapply send_verified_keeps.
  - intros [= Ht]. by eapply read_payload_keeps.
  - intros [= Ht]. by eapply send_payload_keeps.
  - intros [= <- <- <-]. destruct (log_same log [Ended (body_demand b)]) as (Es & Ec & Eh); [done..|].
    apply (ended_same log); [done..|]. simpl in Hp. destruct complete.
    + right. eexists b, _. apply Hp. + destruct Hp as [?|[pos ?]]; [by left|]. right. by exists b, pos.
  - intros [= <- <- <-]. destruct (log_same log [Released (route_activity route)]) as (Es & Ec & Eh); [done..|]. by apply (ended_same log).
  - done.
Qed.
End turns.

(** ** The turns of a thread are steps of the bridge *)

Section steps.
Context {H W : Type} `{Torrents H W}.
Context (key_of : nat -> PieceCacheKey) (content : PieceCacheKey -> piece_data) (source : StreamRoute H -> Z -> text -> Prop).
Context (request : HttpRequest).
Implicit Types (s : Impl H) (w : W) (b : Body H) (log : list event).

Abbreviation point_ok := (point_ok key_of content source request).

Lemma respond_step i route s t' s' es : route_wf route -> next_demand_id s < U64_MAX ->
  respond i request route s = (t', s', es) -> s' = s \/ http_step key_of s s'.
Proof.
  intros Hwf Hlt. unfold respond. fold (response_for request route).
  destruct (rs_include_body _); [|intros [= _ <- _]; by left]. destruct (rs_body_range _) as [range|] eqn:Er; [|intros [= _ <- _]; by left].
  assert (exists r, bounded_demand_range route range (range_start range) = Ok r) as [r Hr].
  { apply response_range in Er as [Hin _]; [|apply Hwf]. destruct Hwf as ([Hps _] & _). unfold bounded_demand_range, blocking_demand_range.
    zcases; try lia. eauto. }
  pose proof (step_begin key_of s route r Hlt) as Hstep. unfold queue_demand in Hstep. cbn [new_demand] in *. rewrite Hr.
  destruct (enqueue _ _) as [[] s2]; intros [= _ <- _]; by right.
Qed.

Lemma begin_piece_step i b piece s t' s' es : waiter_made key_of (next_piece b piece) s -> begin_piece i b piece s = (t', s', es) ->
  s' = s \/ http_step key_of s s'.
Proof.
  intros Hkey. unfold begin_piece. destruct (Z.leb_spec piece (last_piece b)) as [Hle|]; cbn [andb]; [|intros [= _ <- _]; by left].
  destruct (_ && _); [|intros [= _ <- _]; by left]. destruct (_ <? _); [intros [= _ <- _]; by left|].
  destruct (bounded_demand_range _ _ _) as [r|]; [|intros [= _ <- _]; by left].
  pose proof (step_read key_of s (body_demand b) (body_route b) r (wrap32 piece) (body_state b) (Hkey Hle)) as Hstep.
  unfold queue_read in Hstep. cbn [make_waiter] in *. destruct (enqueue _ _) as [[] s2]; intros [= _ <- _]; [by right|by left].
Qed.

Lemma turn_step i t s log t' s' es : point_ok t log -> waiter_made key_of t s -> next_demand_id s < U64_MAX ->
  handle_turn i t s = Some (t', s', es) -> s' = s \/ http_step key_of s s'.
Proof.
  intros Hp Hw Hn. destruct t as [r|r route|b headers|b piece|b t|b t data|b t e|b t e buffer|b complete|route|]; cbn [handle_turn].
  - unfold look_up. pose proof (step_find key_of s (rq_target r)) as Hs. destruct (find_route s _) as [[route|] s1]; intros [= _ <- _]; by right.
  - destruct Hp as (-> & Hwf & _). intros [= Ht]. by eapply respond_step.
  - intros [= _ <- _]. by left.
  - intros [= Ht]. by eapply begin_piece_step.
  - assert (Hc : s' = cancel_waiter s (turn_waiter t) -> s' = s \/ http_step key_of s s') by (intros ->; right; constructor).
    unfold wait_turn. repeat (case_match; try done); intros [= _ Heq _]; first [by left|by apply Hc].
  - unfold send_verified. destruct (in_write i); intros [= _ <- _]; [right; constructor|by left].
  - unfold read_payload. intros [= Ht]. left. revert Ht. repeat (case_match; try done); by intros [= _ <- _].
  - unfold send_payload. destruct (in_write i); intros [= _ <- _]; right; constructor.
  - intros [= _ <- _]. right. constructor.
  - intros [= _ <- _]. right. constructor.
  - done.
Qed.

(** ** The invariant of a run *)

Record system_ok (y : System H W) : Prop := {
  so_bridge : bridge_ok key_of content (sys_state y);
  so_point : point_ok (sys_point y) (sys_log y);
}.

Lemma system_step_ok y y' : torrent_laws (H := H) (W := W) -> system_step key_of content source y y' -> system_ok y -> system_ok y'.
Proof.
  intros laws Hstep [Hb Hp]. destruct Hstep as [t log n s w s' w' Hstep|i t log n s w t' s' es Ht Hi Hw Hn]; simpl in *; (split; simpl; [|try done]).
  - by apply (bridge_step_ok key_of content _ _ laws Hstep).
  - destruct (turn_step i t s log t' s' es Hp Hw Hn Ht) as [->|Hs]; [done|]. by eapply http_step_ok.
  - by eapply turn_keeps.
Qed.
End steps.

(** ** How many turns are left *)

Section count.
Context {H W : Type} `{Torrents H W}.
Context (key_of : nat -> PieceCacheKey) (content : PieceCacheKey -> piece_data) (source : StreamRoute H -> Z -> text -> Prop).
Context (request : HttpRequest).
Implicit Types (s : Impl H) (w : W) (b : Body H) (log : list event).

Abbreviation turn_ok := (turn_ok key_of content source request).
Abbreviation point_ok := (point_ok key_of content source request).

Definition body_length b : Z := range_end (body_range b) - range_start (body_range b) + 1.

(** The bytes of the range that follow an offset, and the turns for them and for the pieces
    that follow. *)
Definition left_from b (offset : Z) : Z := range_end (body_range b) + 1 - offset.
Definition work_left b (pieces offset : Z) : Z := 8 * pieces + 3 * left_from b offset.
Definition turn_work b (t : Turn) : Z := work_left b (last_piece b - turn_piece t) (offset_of b t).

Definition turns_left (t : point H) : Z :=
  match t with
  | looking_up _ | responding _ _ => 0
  | sending_headers b _ => 11 * body_length b + 4
  | next_piece b piece => work_left b (last_piece b + 1 - piece) (position b piece) + 3
  | waiting b t => turn_work b t + (if turn_readable t then 7 else 5)
  | sending_verified b t _ => turn_work b t + 4
  | reading_payload b t _ => turn_work b t + 6
  | sending_payload b t _ _ => turn_work b t + 5
  | leaving _ _ => 2
  | releasing _ => 1
  | returned => 0
  end.

(** The bytes that the answers to the request may have. *)
Definition answer_length (n : Z) : Prop := n = 0 \/ exists b, body_of request b /\ n = body_length b.

(** What the turns so far and those to come add up to. *)
Definition count_ok (t : point H) (n : Z) : Prop :=
  match t with
  | looking_up _ => n = 0
  | responding _ _ => n = 1
  | sending_headers b _ | next_piece b _ | waiting b _ | sending_verified b _ _ | reading_payload b _ _ | sending_payload b _ _ _ | leaving b _ =>
    body_of request b /\ n + turns_left t <= 11 * body_length b + 6
  | releasing _ | returned => exists len, answer_length len /\ n + turns_left t <= 11 * len + 6
  end.

(** A turn does not use up more than it may. *)
Lemma count_spend (t t' : point H) b n : body_of request b -> n + turns_left t <= 11 * body_length b + 6 -> turns_left t' + 1 <= turns_left t ->
  body_of request b /\ n + 1 + turns_left t' <= 11 * body_length b + 6.
Proof. intros ? ? ?. split; [done|lia]. Qed.

Lemma body_pieces b : body_of request b -> extent b -> last_piece b - first_piece b + 1 <= body_length b.
Proof.
  intros Hb He. destruct (bo_wf _ _ Hb) as ([Hps _] & _). pose proof (ex_bytes _ He). unfold last_piece, first_piece, body_length.
  pose proof (ex_start _ He). pose proof (ex_end _ He). pose proof (ex_end_exclusive _ He). set (ps := route_piece_size (body_route b)) in *.
  assert (absolute_end b / ps <= absolute_start b / ps + (absolute_end b - absolute_start b)); [|lia].
  rewrite <-Z.div_add by lia. apply Z.div_le_mono; [lia|].
  assert (absolute_end b - absolute_start b <= (absolute_end b - absolute_start b) * ps); [|lia].
  rewrite <-(Z.mul_1_r (absolute_end b - absolute_start b)) at 1. apply Z.mul_le_mono_nonneg_l; lia.
Qed.

(** The work of a piece ends where that of the next begins. *)
Lemma work_next b t log : turn_ok b t log ->
  work_left b (last_piece b + 1 - (turn_piece t + 1)) (position b (turn_piece t + 1)) = turn_work b t - 3 * (slice_end (turn_slice t) - turn_cursor t).
Proof.
  intros [Hp Hpc Hsl _ _].
  destruct (slice_positions request b _ _ (pg_body _ _ _ _ _ _ Hp) (pg_extent _ _ _ _ _ _ Hp) Hpc Hsl) as [_ ->].
  unfold turn_work, work_left, left_from, offset_of. lia.
Qed.

Lemma work_nonneg b t log : turn_ok b t log -> 0 <= turn_work b t.
Proof.
  intros Ht. destruct (turn_offset _ _ _ _ _ _ _ Ht) as [? _]. destruct (to_piece _ _ _ _ _ _ _ Ht). unfold turn_work, work_left, left_from. lia.
Qed.

Lemma respond_count i route s t' s' es : route_wf route -> route_target route = rq_target request ->
  respond i request route s = (t', s', es) -> count_ok t' 2.
Proof.
  intros Hwf Ht. unfold respond. fold (response_for request route).
  assert (Hnone : exists len, answer_length len /\ 2 + 1 <= 11 * len + 6) by (exists 0; split; [by left|lia]).
  destruct (rs_include_body _) eqn:Ei; [|intros [= <- _ _]; done]. destruct (rs_body_range _) as [range|] eqn:Er; [|intros [= <- _ _]; done].
  cbn [new_demand]. destruct (bounded_demand_range _ _ _); [|intros [= <- _ _]; done]. destruct (enqueue _ _) as [[] s2]; intros [= <- _ _]; [|done].
  split; [by split|]. simpl. lia.
Qed.

Lemma begin_piece_count i b piece s log t' s' es n : point_ok (next_piece b piece) log -> body_of request b ->
  n + turns_left (next_piece b piece) <= 11 * body_length b + 6 -> begin_piece i b piece s = (t', s', es) -> count_ok t' (n + 1).
Proof.
  intros [Hpc Hp] Hb Hn. pose proof (pg_extent _ _ _ _ _ _ Hp) as He.
  assert (Hpos : position b piece <= range_end (body_range b) + 1) by (unfold position; rewrite (ex_end_exclusive _ He); lia).
  assert (Hleave : forall c, count_ok (leaving b c) (n + 1)).
  { intros c. eapply (count_spend (next_piece b piece)); [done|done|]. simpl. unfold work_left, left_from. lia. }
  unfold begin_piece. destruct (Z.leb_spec piece (last_piece b)) as [Hle|Hgt]; cbn [andb]; [|intros [= <- _ _]; done].
  destruct (negb _ && negb _); [|intros [= <- _ _]; done]. destruct (_ <? route_file_offset _); [intros [= <- _ _]; done|].
  destruct (bounded_demand_range _ _ _); [|intros [= <- _ _]; done].
  destruct (slice_spec request b piece Hb He ltac:(lia)) as [Hs _]. remember (slice_of b piece) as slice eqn:Es. clear Es.
  cbn [make_waiter]. destruct (enqueue _ _) as [[] s2]; intros [= <- _ _]; [|done].
  eapply (count_spend (next_piece b piece)); [done|done|]. destruct (slice_positions request b piece slice Hb He ltac:(lia) Hs) as [Heq _].
  simpl. unfold turn_work, offset_of. simpl. rewrite Heq. unfold work_left. destruct (match body_payload b with Some o => o | None => true end); lia.
Qed.

Lemma wait_turn_count i b t s log t' s' es n : bridge_ok key_of content s -> turn_ok b t log -> body_of request b ->
  n + turns_left (waiting b t) <= 11 * body_length b + 6 -> wait_turn i b t s = Some (t', s', es) -> count_ok t' (n + 1).
Proof.
  intros Hok Ht Hb Hn Hturn. pose proof (work_nonneg b t log Ht) as Hpos. pose proof (wait_turn_keeps key_of content source request i b t s log t' s' es Hok Ht Hturn) as Hk.
  unfold wait_turn in Hturn. destruct (Z.ltb_spec (turn_cursor t) (slice_end (turn_slice t))) as [Hlt|Hge].
  2:{ injection Hturn as <- _ _. eapply (count_spend (waiting b t)); [done|done|]. cbn [turns_left]. rewrite (work_next b t log Ht).
      destruct (to_cursor _ _ _ _ _ _ _ Ht). destruct (turn_readable t); lia. }
  set (v := default _ _) in *. set (run_end := finished_run_end _ _ _) in *. set (ready := turn_readable t && _) in *.
  assert (Hsome : forall p, turns_left p + 1 <= turns_left (waiting b t) -> body_of request b /\ n + 1 + turns_left p <= 11 * body_length b + 6)
    by (intros p; by apply count_spend).
  assert (Hleave : forall c, count_ok (leaving b c) (n + 1)) by (intros c; apply Hsome; simpl; destruct (turn_readable t); lia).
  destruct (negb _ && _); [done|]. destruct (_ || _); [by injection Hturn as <- _ _|].
  destruct (waiter_done v).
  - destruct (waiter_data v) as [data|].
    + destruct (Z.of_nat (length data) <? _); injection Hturn as <- _ _; [done|]. apply Hsome. simpl. destruct (turn_readable t); lia.
    + injection Hturn as <- _ <-. destruct Hk as (_ & Hk & _). lia.
  - destruct ready eqn:Er; injection Hturn as <- _ _; [|done]. apply andb_true_iff in Er as [Er _]. apply Hsome. simpl. rewrite Er. lia.
Qed.

Lemma turn_count i t s log t' s' es n : bridge_ok key_of content s -> point_ok t log -> handle_turn i t s = Some (t', s', es) ->
  count_ok t n -> count_ok t' (n + 1).
Proof.
  intros Hok Hp Ht Hc. destruct t as [r|r route|b headers|b piece|b t|b t data|b t e|b t e buffer|b complete|route|]; cbn [handle_turn] in Ht.
  - injection Ht as Ht. unfold look_up in Ht. simpl in Hc. subst n. destruct (find_route s _) as [[route|] s1]; injection Ht as <- _ _; simpl; [lia|].
    exists 0. split; [by left|lia].
  - injection Ht as Ht. simpl in Hc. subst n. destruct Hp as (-> & ? & ? & _). by eapply respond_count.
  - injection Ht as <- _ _. destruct Hc as [Hb Hc]. assert (Hr := body_in_resource _ _ Hb). unfold in_resource in Hr.
    destruct (in_write i && negb (body_refused b)) eqn:E; eapply (count_spend (sending_headers b headers)); try done.
    + apply andb_true_iff in E as [_ E%negb_true_iff]. pose proof (accepted_extent _ _ Hb E) as He. pose proof (body_pieces b Hb He).
      simpl. rewrite (position_first _ _ Hb He). unfold work_left, left_from, body_length in *. lia.
    + simpl. unfold body_length. lia.
  - injection Ht as Ht. destruct Hc. by eapply begin_piece_count.
  - destruct Hc. by eapply wait_turn_count.
  - injection Ht as Ht. destruct Hc as [Hb Hc], Hp as (Htk & Hlt & _). pose proof (work_nonneg b t log Htk). unfold send_verified in Ht.
    destruct (in_write i); injection Ht as <- _ _; eapply (count_spend (sending_verified b t data)); try done; cbn [turns_left]; [|lia].
    rewrite (work_next b t log Htk). lia.
  - injection Ht as Ht. destruct Hc as [Hb Hc], Hp as (Htk & Hlt & Hread). unfold read_payload in Ht.
    set (open := match body_payload b with Some o => o | None => _ end) in Ht.
    assert (Hb' : body_of request (MkBody (body_demand b) (body_state b) (body_route b) (body_range b) (Some open))) by (by destruct Hb).
    destruct (_ <? _); [injection Ht as <- _ _|destruct (if open then in_read i else None); injection Ht as <- _ _];
      (split; [exact Hb'|]); simpl in *; change (turn_work (MkBody _ _ _ _ _) ?x) with (turn_work b x) in *; unfold turn_work, offset_of, work_left, left_from, body_length, last_piece, absolute_end in *; simpl in *; lia.
  - injection Ht as Ht. destruct Hc as [Hb Hc], Hp as (Htk & Hlt & _). pose proof (work_nonneg b t log Htk). unfold send_payload in Ht.
    destruct (in_write i); injection Ht as <- _ _; eapply (count_spend (sending_payload b t e buffer)); try done; simpl; [|lia].
    unfold turn_work, offset_of, work_left, left_from. simpl. destruct (turn_readable t); lia.
  - injection Ht as <- _ _. destruct Hc as [Hb Hc]. exists (body_length b). split; [right; by exists b|]. simpl in *. lia.
  - injection Ht as <- _ _. destruct Hc as (len & ? & Hc). exists len. split; [done|]. simpl in *. lia.
  - done.
Qed.
End count.

(** ** Leases and demands *)

Definition acquired (log : list event) : list nat := omap (fun e => match e with Acquired a => Some a | _ => None end) log.
Definition released (log : list event) : list nat := omap (fun e => match e with Released a => Some a | _ => None end) log.
Definition begun (log : list event) : list Z := omap (fun e => match e with Began d => Some d | _ => None end) log.
Definition ended (log : list event) : list Z := omap (fun e => match e with Ended d => Some d | _ => None end) log.

Section balance.
Context {H : Type}.
Implicit Types (s : Impl H) (b : Body H).

(** The body a thread serves. *)
Definition serving (t : point H) : option (Body H) :=
  match t with
  | sending_headers b _ | next_piece b _ | waiting b _ | sending_verified b _ _ | reading_payload b _ _ | sending_payload b _ _ _ | leaving b _ => Some b
  | _ => None
  end.

(** The lease and the demand that a thread holds. *)
Definition lease (t : point H) : list nat :=
  match t with
  | responding _ route | releasing route => [route_activity route]
  | _ => match serving t with Some b => [route_activity (body_route b)] | None => [] end
  end.
Definition open_demand (t : point H) : list Z := match serving t with Some b => [body_demand b] | None => [] end.

Definition balanced (t : point H) (log : list event) : Prop :=
  acquired log = released log ++ lease t /\ begun log = ended log ++ open_demand t.

Lemma turn_balance i (t : point H) s t' s' es : handle_turn i t s = Some (t', s', es) ->
  lease t ++ acquired es = released es ++ lease t' /\ open_demand t ++ begun es = ended es ++ open_demand t'.
Proof.
  destruct t as [r|r route|b headers|b piece|b t|b t data|b t e|b t e buffer|b complete|route|]; cbn [handle_turn]; try done.
  - unfold look_up. destruct (find_route s _) as [[route|] s1]; by intros [= <- _ <-].
  - unfold respond. destruct (rs_include_body _); [|by intros [= <- _ <-]]. destruct (rs_body_range _); [|by intros [= <- _ <-]].
    cbn [new_demand]. destruct (bounded_demand_range _ _ _); [|by intros [= <- _ <-]]. by destruct (enqueue _ _) as [[] s2]; intros [= <- _ <-].
  - intros [= <- _ <-]. by destruct (_ && _).
  - unfold begin_piece. destruct (_ && _); [|by intros [= <- _ <-]]. destruct (_ <? _); [by intros [= <- _ <-]|].
    destruct (bounded_demand_range _ _ _); [|by intros [= <- _ <-]]. cbn [make_waiter]. by destruct (enqueue _ _) as [[] s2]; intros [= <- _ <-].
  - unfold wait_turn. repeat (case_match; try done); by intros [= <- _ <-].
  - unfold send_verified. by destruct (in_write i); intros [= <- _ <-].
  - unfold read_payload. intros [= Ht]. revert Ht. repeat (case_match; try done); by intros [= <- _ <-].
  - unfold send_payload. by destruct (in_write i); intros [= <- _ <-].
  - by intros [= <- _ <-].
  - by intros [= <- _ <-].
Qed.

Lemma balanced_turn i (t : point H) log s t' s' es : balanced t log -> handle_turn i t s = Some (t', s', es) -> balanced t' (log ++ es).
Proof.
  intros [Ha Hb] [Ta Tb]%turn_balance. unfold balanced, acquired, released, begun, ended in *.
  rewrite !omap_app, Ha, Hb, <-!app_assoc. by rewrite Ta, Tb.
Qed.
End balance.

(** ** Runs *)

Section runs.
Context {H W : Type} `{Torrents H W}.
Context (key_of : nat -> PieceCacheKey) (content : PieceCacheKey -> piece_data) (source : StreamRoute H -> Z -> text -> Prop).
Context (laws : torrent_laws (H := H) (W := W)) (memory disk inactivity : Z) (w0 w1 : W) (s0 : Impl H) (request : HttpRequest).

(** What holds in every state of a run. *)
Lemma run_ok y : rtc (bridge_step key_of content) (new_impl memory disk inactivity, w0) (s0, w1) ->
  rtc (system_step key_of content source) (MkSystem (looking_up request) [] 0 s0 w1) y ->
  system_ok key_of content source request y /\ balanced (sys_point y) (sys_log y) /\ count_ok request (sys_point y) (Z.of_nat (sys_turns y)).
Proof.
  intros Hreach Hrun. remember (MkSystem _ _ _ _ _) as y0 eqn:E0.
  assert (Hy0 : system_ok key_of content source request y0 /\ balanced (sys_point y0) (sys_log y0) /\ count_ok request (sys_point y0) (Z.of_nat (sys_turns y0))).
  { subst y0. split; [|done]. split; [|done]. by eapply reachable_ok. }
  clear E0. induction Hrun as [|y y' y'' Hstep _ IH]; [done|]. apply IH. destruct Hy0 as (Hok & Hbal & Hcount).
  split; [by eapply system_step_ok|]. destruct Hstep as [|i t log n s w t' s' es Ht Hi Hw Hn]; [done|]. destruct Hok as [Hb Hp]. simpl in *.
  split; [by eapply balanced_turn|]. rewrite Nat2Z.inj_succ. by eapply turn_count.
Qed.

Lemma point_log t log : point_ok key_of content source request t log ->
  bodiless log \/ exists b pos, body_done content source request b log pos.
Proof.
  assert (Hturn : forall b tn, turn_ok key_of content source request b tn log -> bodiless log \/ exists b pos, body_done content source request b log pos).
  { intros b tn [?|?]%turn_left; [by left|right; by exists b]. }
  destruct t as [r|r route|b headers|b piece|b t|b t data|b t e|b t e buffer|b complete|route|]; simpl.
  - intros [_ ?]. left. by apply quiet_bodiless.
  - intros (_ & _ & _ & ?). left. by apply quiet_bodiless.
  - intros (_ & _ & ?). left. by apply quiet_bodiless.
  - intros [Hpc Hp]. right. exists b, (position b piece). apply progress_done; [done|]. pose proof (pg_extent _ _ _ _ _ _ Hp) as He.
    pose proof (ex_bytes _ He). unfold position. pose proof (ex_start _ He). pose proof (ex_end_exclusive _ He). lia.
  - apply Hturn.
  - intros [? _]. by eapply Hturn.
  - intros [? _]. by eapply Hturn.
  - intros [? _]. by eapply Hturn.
  - destruct complete; [intros [? _]|intros [?|?]]; eauto.
  - done.
  - done.
Qed.
End runs.

(** The bytes of true chunks are those of the file. *)
Lemma true_body {H} (content : PieceCacheKey -> piece_data) source (route : StreamRoute H) from to l n x :
  contiguous from to l -> Forall (chunk_ok content source route) l -> (forall o bytes, source route o bytes -> true_bytes content route o bytes) ->
  body_bytes l !! n = Some x -> file_byte content route (from + Z.of_nat n) = Some x.
Proof.
  intros Hc Hall Hsrc Hx. destruct (contiguous_lookup _ _ _ _ _ Hc Hx) as ([[o bytes] v] & i & Hin & Hi & Ho). rewrite <-Ho.
  rewrite Forall_forall in Hall. specialize (Hall _ Hin). unfold chunk_ok in Hall. simpl in *. destruct v; [by apply Hall|by apply (Hsrc o bytes Hall)].
Qed.

(** ** The theorems *)

(** The turns so far are no more than those of the whole answer. *)
Lemma turns_bound {H} key_of content source request (t : point H) log n : point_ok key_of content source request t log -> count_ok request t n ->
  exists len, answer_length (H := H) request len /\ n <= 11 * len + 6.
Proof.
  intros Hp Hc. assert (Hnone : exists len, answer_length (H := H) request len /\ 1 <= 11 * len + 6) by (exists 0; split; [by left|lia]).
  assert (Hbody : forall b : Body H, body_of request b /\ n + turns_left t <= 11 * body_length b + 6 -> 0 <= turns_left t ->
    exists len, answer_length (H := H) request len /\ n <= 11 * len + 6).
  { intros b [Hb Hn] Hpos. exists (body_length b). split; [right; by exists b|lia]. }
  assert (Hturn : forall b tn, turn_ok key_of content source request b tn log -> 0 <= turn_work b tn) by (intros b tn; apply work_nonneg).
  destruct t as [r|r route|b headers|b piece|b t|b t data|b t e|b t e buffer|b complete|route|]; simpl in *.
  - destruct Hnone as (len & ? & ?). exists len. split; [done|lia].
  - by subst.
  - apply (Hbody b Hc). destruct (body_in_resource _ _ (proj1 Hc)). unfold body_length. lia.
  - apply (Hbody b Hc). destruct Hp as [Hpc Hp]. pose proof (pg_extent _ _ _ _ _ _ Hp) as He. unfold work_left, left_from, position.
    rewrite (ex_end_exclusive _ He). lia.
  - apply (Hbody b Hc). specialize (Hturn b t Hp). destruct (turn_readable t); lia.
  - apply (Hbody b Hc). specialize (Hturn b t (proj1 Hp)). lia.
  - apply (Hbody b Hc). specialize (Hturn b t (proj1 Hp)). lia.
  - apply (Hbody b Hc). specialize (Hturn b t (proj1 Hp)). lia.
  - apply (Hbody b Hc). lia.
  - destruct Hc as (len & ? & Hn). exists len. split; [done|lia].
  - destruct Hc as (len & ? & Hn). exists len. split; [done|lia].
Qed.

(** C2. The client gets the range it asked for, in order and from its beginning: besides one
    head, a thread sends chunks that follow each other from the start of the response's range
    and never leave it; the bytes of verified pieces are the bytes of the file, the others are
    what the payload file delivered at that offset; a write that fails is the last one; a
    thread that leaves its loop at the end has sent the whole range. *)
Theorem handler_sends_range {H W} `{Torrents H W} (key_of : nat -> PieceCacheKey) (content : PieceCacheKey -> piece_data)
    (source : StreamRoute H -> Z -> text -> Prop) (laws : torrent_laws (H := H) (W := W)) (memory disk inactivity : Z) (w0 w1 : W) (s0 : Impl H)
    (request : HttpRequest) (y : System H W)
    (Hreach : rtc (bridge_step key_of content) (new_impl memory disk inactivity, w0) (s0, w1))
    (Hrun : rtc (system_step key_of content source) (MkSystem (looking_up request) [] 0 s0 w1) y) :
  let log := sys_log y in
  (length (heads log) <= 1)%nat /\
  ((sent log = [] /\ cut log = []) \/
   exists route range pos,
     route_target route = rq_target request /\ rs_body_range (response_for request route) = Some range /\
     heads log = [(rs_headers (response_for request route), true)] /\
     range_start range <= pos <= range_end range + 1 /\ contiguous (range_start range) pos (sent log) /\
     Forall (chunk_ok content source route) (sent log ++ cut log) /\
     Forall (fun c => c.1.1 = pos /\ pos + Z.of_nat (length c.1.2) <= range_end range + 1) (cut log) /\
     ((forall o bytes, source route o bytes -> true_bytes content route o bytes) ->
        Z.of_nat (length (body_bytes (sent log))) = pos - range_start range /\
        forall n x, body_bytes (sent log) !! n = Some x -> file_byte content route (range_start range + Z.of_nat n) = Some x)) /\
  (forall b, sys_point y = leaving b true -> contiguous (range_start (body_range b)) (range_end (body_range b) + 1) (sent log) /\ cut log = []).
Proof.
  intros log. destruct (run_ok key_of content source laws memory disk inactivity w0 w1 s0 request y Hreach Hrun) as ([_ Hp] & _).
  assert (Hlast : forall b, sys_point y = leaving b true -> contiguous (range_start (body_range b)) (range_end (body_range b) + 1) (sent log) /\ cut log = []).
  { intros b Eb. rewrite Eb in Hp. destruct Hp as [[_ _ _ ? _ _] ?]. done. }
  destruct (point_log key_of content source request _ _ Hp) as [(? & ? & ?)|(b & pos & [Hb Hpos Hh Hs Hc Hcut])]; [by split; [|split; [left|]]|].
  fold log in Hh, Hs, Hc, Hcut. split; [rewrite Hh; simpl; lia|]. split; [right|done]. exists (body_route b), (body_range b), pos.
  split; [apply Hb|]. split; [apply (bo_range _ _ Hb)|]. repeat (split; [done|]). intros Hsrc. split; [by apply contiguous_length|].
  intros n x Hx. eapply true_body; [done| |done|done]. by apply Forall_app in Hc as [? _].
Qed.

(** A thread gives back what it takes: at every moment the leases it acquired are those it
    released and the one it holds, the demands it began those it ended and the one it serves;
    after it has returned nothing is left. *)
Theorem handler_balanced {H W} `{Torrents H W} (key_of : nat -> PieceCacheKey) (content : PieceCacheKey -> piece_data)
    (source : StreamRoute H -> Z -> text -> Prop) (laws : torrent_laws (H := H) (W := W)) (memory disk inactivity : Z) (w0 w1 : W) (s0 : Impl H)
    (request : HttpRequest) (y : System H W)
    (Hreach : rtc (bridge_step key_of content) (new_impl memory disk inactivity, w0) (s0, w1))
    (Hrun : rtc (system_step key_of content source) (MkSystem (looking_up request) [] 0 s0 w1) y) :
  let log := sys_log y in
  acquired log = released log ++ lease (sys_point y) /\ begun log = ended log ++ open_demand (sys_point y) /\
  (sys_point y = returned -> released log = acquired log /\ ended log = begun log).
Proof.
  destruct (run_ok key_of content source laws memory disk inactivity w0 w1 s0 request y Hreach Hrun) as (_ & [Ha Hb] & _).
  split; [done|]. split; [done|]. intros E. rewrite E in Ha, Hb. by rewrite app_nil_r in Ha, Hb.
Qed.

(** C15. Every request ends: a thread takes at most eleven turns per byte of its answer and six
    more, however the other threads run, and it can always take the next one when the time it
    waits for has come. *)
Theorem handler_terminates {H W} `{Torrents H W} (key_of : nat -> PieceCacheKey) (content : PieceCacheKey -> piece_data)
    (source : StreamRoute H -> Z -> text -> Prop) (laws : torrent_laws (H := H) (W := W)) (memory disk inactivity : Z) (w0 w1 : W) (s0 : Impl H)
    (request : HttpRequest) (y : System H W)
    (Hreach : rtc (bridge_step key_of content) (new_impl memory disk inactivity, w0) (s0, w1))
    (Hrun : rtc (system_step key_of content source) (MkSystem (looking_up request) [] 0 s0 w1) y) :
  (exists len, answer_length (H := H) request len /\ Z.of_nat (sys_turns y) <= 11 * len + 6) /\
  (forall i, sys_point y <> returned -> (forall b t, sys_point y = waiting b t -> turn_deadline t <= in_now i) ->
     is_Some (handle_turn i (sys_point y) (sys_state y))).
Proof.
  destruct (run_ok key_of content source laws memory disk inactivity w0 w1 s0 request y Hreach Hrun) as ([_ Hp] & _ & Hc). split.
  - by eapply turns_bound.
  - intros i Hne Hdl. destruct (sys_point y) as [r|r route|b headers|b piece|b t|b t data|b t e|b t e buffer|b complete|route|]; try (eexists; reflexivity); [|by destruct Hne].
    simpl. unfold wait_turn. specialize (Hdl b t eq_refl). destruct (_ <? _); [|by eexists]. destruct (negb _ && (in_now i <? _)) eqn:E.
    + apply andb_true_iff in E as [_ E%Z.ltb_lt]. lia.
    + repeat case_match; by eexists.
Qed.

(** ** A run *)

(** A client asks for the first bytes of the second piece, and the piece arrives while its
    thread waits. *)
Definition demo_request : HttpRequest := MkHttpRequest method_get (route_target demo_route) (Some (str "bytes=31768-31775")).
Definition demo_source (_ : StreamRoute unit) (_ : Z) (_ : text) : Prop := False.
Definition demo_input : Input := MkInput false 10 true true None.

Abbreviation demo_system_step := (system_step (H := unit) (W := memory) demo_key_of demo_content demo_source).

(** One turn of the thread and one step of the engine's thread. *)
Definition demo_turn (y : System unit memory) : System unit memory :=
  match handle_turn demo_input (sys_point y) (sys_state y) with
  | Some (t, s, es) => MkSystem t (sys_log y ++ es) (S (sys_turns y)) s (sys_world y)
  | None => y
  end.
Definition run_engine (f : Impl unit * memory -> Impl unit * memory) (y : System unit memory) : System unit memory :=
  let sw := f (sys_state y, sys_world y) in MkSystem (sys_point y) (sys_log y) (sys_turns y) sw.1 sw.2.

Definition demo_poll (sw : Impl unit * memory) : Impl unit * memory := (poll sw.1 sw.2).1.
Definition demo_alert (sw : Impl unit * memory) : Impl unit * memory :=
  (handle_read_piece (MkReadAlert tt 1 None (Some (demo_content (demo_key_of 0)))) sw.1, sw.2).

(** Whether the thread can take a turn that the run allows. *)
Definition run_ready (y : System unit memory) : bool :=
  bool_decide (is_Some (handle_turn demo_input (sys_point y) (sys_state y))) && (next_demand_id (sys_state y) <? U64_MAX) &&
  match sys_point y with
  | next_piece b piece => (last_piece b <? piece) || bool_decide (MkKey demo_id 1 = MkKey (route_torrent_id (body_route b)) (wrap32 piece))
  | _ => true
  end.

Lemma demo_turn_rtc y0 y : run_ready y = true -> rtc demo_system_step y0 y -> rtc demo_system_step y0 (demo_turn y).
Proof.
  unfold run_ready, demo_turn. intros [[[[[t s] es] Ht]%bool_decide_eq_true Hn%Z.ltb_lt]%andb_true_iff Hw]%andb_true_iff Hy. rewrite Ht.
  eapply rtc_r; [exact Hy|]. destruct y as [p log n s1 w]. eapply thread_step; [exact Ht|by destruct p| |exact Hn].
  destruct p; simpl in *; try done. intros Hle. apply orb_true_iff in Hw as [Hw%Z.ltb_lt|Hw%bool_decide_eq_true]; [lia|exact Hw].
Qed.

Lemma run_engine_step f y : bridge_step demo_key_of demo_content (sys_state y, sys_world y) (f (sys_state y, sys_world y)) ->
  demo_system_step y (run_engine f y).
Proof. intros Hs. unfold run_engine. destruct y as [p log n s w]. simpl in *. destruct (f (s, w)) as [s' w']. by constructor. Qed.

Lemma run_poll_rtc y0 y : shutting_down (sys_state y) = false -> rtc demo_system_step y0 y -> rtc demo_system_step y0 (run_engine demo_poll y).
Proof. intros Hs Hy. eapply rtc_r; [exact Hy|]. apply run_engine_step, step_engine; [done|]. apply step_poll. Qed.

Lemma run_alert_rtc y0 y : shutting_down (sys_state y) = false -> rtc demo_system_step y0 y -> rtc demo_system_step y0 (run_engine demo_alert y).
Proof.
  intros Hs Hy. eapply rtc_r; [exact Hy|]. apply run_engine_step, step_engine; [done|]. apply step_read_piece. by intros data [= <-] _.
Qed.

Definition demo_start : System unit memory := MkSystem (looking_up demo_request) [] 0 demo_registered.1 demo_registered.2.
Definition demo_asked : System unit memory := Nat.iter 4 demo_turn demo_start.
Definition demo_arrived : System unit memory :=
  run_engine demo_alert (run_engine demo_poll demo_asked).
Definition demo_served : System unit memory := Nat.iter 3 demo_turn demo_arrived.

Lemma demo_asked_run : rtc demo_system_step demo_start demo_asked.
Proof.
  unfold demo_asked. simpl. do 4 (apply demo_turn_rtc; [vm_compute; reflexivity|]). apply rtc_refl.
Qed.

Lemma demo_arrived_run : rtc demo_system_step demo_start demo_arrived.
Proof.
  unfold demo_arrived. apply run_alert_rtc; [vm_compute; reflexivity|]. apply run_poll_rtc; [vm_compute; reflexivity|]. exact demo_asked_run.
Qed.

Lemma demo_served_run : rtc demo_system_step demo_start demo_served.
Proof.
  unfold demo_served. simpl. do 3 (apply demo_turn_rtc; [vm_compute; reflexivity|]). exact demo_arrived_run.
Qed.

Lemma demo_start_reached : rtc (bridge_step demo_key_of demo_content) (new_impl 1048576 1073741824 1000, demo_memory) (demo_registered.1, demo_registered.2).
Proof. rewrite <-surjective_pairing. exact demo_registered_reached. Qed.

Lemma handler_sends_range_witness : body_bytes (sent (sys_log demo_served)) = str "bytes of" /\
  forall n x, body_bytes (sent (sys_log demo_served)) !! n = Some x -> exists route : StreamRoute unit, file_byte demo_content route (31768 + Z.of_nat n) = Some x.
Proof.
  split; [vm_compute; reflexivity|].
  destruct (handler_sends_range demo_key_of demo_content demo_source memory_torrent_laws _ _ _ _ _ _ _ _ demo_start_reached demo_served_run)
    as (_ & [[Hs _]|(route & range & pos & _ & Hr & _ & _ & Hc & _ & _ & Hx)] & _); [exfalso; revert Hs; vm_compute; discriminate|].
  destruct Hx as [_ Hx]; [intros o bytes []|]. intros n x Hn. exists route. rewrite <-(Hx n x Hn). f_equal.
  assert (Hst : exists bytes, sent (sys_log demo_served) = [(31768, bytes, true)]) by (eexists; vm_compute; reflexivity).
  destruct Hst as [bytes Hst]. rewrite Hst in Hc. destruct Hc as [-> _]. reflexivity.
Defined.

Lemma handler_terminates_witness : sys_turns demo_served = 7%nat /\ exists len, answer_length (H := unit) demo_request len /\ 7 <= 11 * len + 6.
Proof.
  destruct (handler_terminates demo_key_of demo_content demo_source memory_torrent_laws _ _ _ _ _ _ _ _ demo_start_reached demo_served_run) as ((len & Hl & Hn) & _).
  split; [vm_compute; reflexivity|]. exists len. split; [exact Hl|exact Hn].
Defined.
