(* ===== verification/PlayerConnection.v ===== *)
(** The player's connection: the loopback server of [Loopback] with the handler of
    [StreamBody].  The writes of a thread of the stream bridge, with their answers, are those of
    the handler that [handle_connection] runs, so what the client of a socket gets is the head
    and the bytes that the bridge's theorems speak of, or a beginning of them when the
    connection is disturbed. *)
From stdpp Require Import prelude strings list gmap.
From Stdlib Require Import ZArith Lia Ascii.
From S2P Require Import Prelude Text ByteRange PieceScheduler PieceCache HttpProtocol Posix LoopbackSockets Loopback EngineTypes BridgeState BridgeReads MemoryTorrent StreamBridge BridgeInvariant StreamBody.

(** ** The writes of a thread *)

(** What a thread gave its writer, with the answers. *)
Definition write_of (e : event) : option (text * bool) :=
  match e with
  | Answered head written => Some (head, written)
  | Sent _ bytes _ => Some (bytes, true)
  | Cut _ bytes _ => Some (bytes, false)
  | _ => None
  end.
Definition writes (log : list event) : list (text * bool) := omap write_of log.

(** The head comes first, and a write that fails is the last one. *)
Definition in_order (log : list event) : Prop :=
  writes log = heads log ++ ((fun c => (c.1.2, true)) <$> sent log) ++ ((fun c => (c.1.2, false)) <$> cut log) /\ (length (cut log) <= 1)%nat.

Lemma body_bytes_chunks l : body_bytes l = concat ((fun c : Z * text * bool => c.1.2) <$> l).
Proof. induction l as [|[[o bytes] v] l IH]; [done|]. cbn. by rewrite IH. Qed.

(** Writes of which only the last fails bring a beginning of them all, and all of them when
    none fails. *)
Lemma reaches_prefix ws1 data written out : Forall (fun w : text * bool => w.2 = true) ws1 -> reaches (ws1 ++ [(data, written)]) out ->
  out `prefix_of` concat ws1.*1 ++ data /\ (written = true -> out = concat ws1.*1 ++ data).
Proof.
  intros Hall. revert out. induction Hall as [|[d b] ws1 Hb _ IH]; intros out Hr; inversion Hr as [|? ? piece ? rest Hp Hw Hrest]; subst.
  - inversion Hrest. subst. cbn. rewrite app_nil_r. done.
  - cbn in Hb. subst b. rewrite (Hw eq_refl). destruct (IH rest Hrest) as [Hpre Hok]. cbn. rewrite <-app_assoc. split; [by apply prefix_app|].
    by intros ->%Hok.
Qed.

Lemma reaches_all ws out : Forall (fun w : text * bool => w.2 = true) ws -> reaches ws out -> out = concat ws.*1.
Proof.
  intros Hall. revert out. induction Hall as [|[d b] ws Hb _ IH]; intros out Hr; inversion Hr as [|? ? piece ? rest Hp Hw Hrest]; subst; [done|].
  cbn in *. subst b. by rewrite (Hw eq_refl), (IH rest).
Qed.

(** Heads that a request may get: of a response, or of an error before there is one. *)
Section heads.
Context {H : Type}.
Inductive head_for (request : HttpRequest) : text -> Prop :=
| head_not_found : head_for request (build_error_response status_not_found 0)
| head_unavailable : head_for request (build_error_response status_service_unavailable 0)
| head_response (route : StreamRoute H) : route_target route = rq_target request ->
    head_for request (rs_headers (build_stream_response request (route_file_size route) (route_content_type route))).
End heads.

Section runs.
Context {H W : Type} `{Torrents H W}.
Context (key_of : nat -> PieceCacheKey) (content : PieceCacheKey -> piece_data) (source : StreamRoute H -> Z -> text -> Prop).
Context (request : HttpRequest).
Implicit Types (s : Impl H) (w : W) (log : list event).

Abbreviation point_ok := (point_ok key_of content source request).
Abbreviation turn_ok := (turn_ok key_of content source request).

(** What one turn appends to an ordered log. *)
Definition appends log (es : list event) : Prop :=
  (writes es = [] /\ heads es = [] /\ sent es = [] /\ cut es = []) \/
  (quiet log /\ exists h written, es = [Answered h written] /\ head_for (H := H) request h) \/
  (cut log = [] /\ exists o bytes v written, es = [wrote o bytes v written]).

Lemma appends_none log es : writes es = [] -> heads es = [] -> sent es = [] -> cut es = [] -> appends log es.
Proof. intros. by left. Qed.

Lemma appended log es : in_order log -> Forall (fun h => head_for (H := H) request h.1) (heads log) -> appends log es ->
  in_order (log ++ es) /\ Forall (fun h => head_for (H := H) request h.1) (heads (log ++ es)).
Proof.
  unfold in_order, writes, heads, sent, cut. rewrite !omap_app.
  fold (writes log) (writes es) (heads log) (heads es) (sent log) (sent es) (cut log) (cut es).
  intros [Ho Hcl] Hh [(Hw & Hhe & Hse & Hce)|[((Hs & Hc & Hq) & h & written & -> & Hk)|(Hc & o & bytes & v & written & ->)]].
  - by rewrite Hw, Hhe, Hse, Hce, !app_nil_r.
  - rewrite Ho, Hs, Hc, Hq. cbn. split; [split; [done|lia]|]. constructor; [exact Hk|done].
  - rewrite Ho, Hc. split; [|destruct written; cbn; by rewrite app_nil_r].
    destruct written; cbn; rewrite ?app_nil_r, ?fmap_app, <-?app_assoc; (split; [done|lia]).
Qed.

Lemma turn_appends i t s log t' s' es : point_ok t log -> handle_turn i t s = Some (t', s', es) -> appends log es.
Proof.
  intros Hp Ht. assert (Hcut : forall b tn, turn_ok b tn log -> cut log = []) by (intros b tn [[] _ _ _ _]; done).
  destruct t as [r|r route|b headers|b piece|b t|b t data|b t e|b t e buffer|b complete|route|]; cbn in Hp, Ht; [..|done].
  - injection Ht as Ht. destruct Hp as [-> Hq]. unfold look_up in Ht. destruct (find_route s _) as [[route|] s1]; injection Ht as <- <- <-.
    + by apply appends_none.
    + right; left. split; [done|]. eexists _, _. split; [done|constructor].
  - injection Ht as Ht. destruct Hp as (-> & Hwf & Htg & Hq). unfold respond in Ht.
    assert (Hresponse : appends log [Answered (rs_headers (build_stream_response request (route_file_size route) (route_content_type route))) (in_write i)]).
    { right; left. split; [done|]. eexists _, _. split; [done|]. by apply head_response. }
    destruct (rs_include_body _); [destruct (rs_body_range _) as [range|]|]; try (injection Ht as <- <- <-; exact Hresponse).
    destruct (new_demand s) as [[demand_id state] s1]. destruct (bounded_demand_range _ _ _) as [dr|]; [|injection Ht as <- <- <-; by apply appends_none].
    destruct (enqueue s1 _) as [[|] s2]; injection Ht as <- <- <-; [by apply appends_none|].
    right; left. split; [done|]. eexists _, _. split; [done|constructor].
  - injection Ht as <- <- <-. destruct Hp as (Hb & -> & Hq). right; left. split; [done|]. eexists _, _. split; [done|].
    apply head_response, (bo_target _ _ Hb).
  - injection Ht as Ht. unfold begin_piece in Ht. destruct Hp as [_ Hp]. apply appends_none; repeat case_match; simplify_eq; done.
  - unfold wait_turn in Ht. apply appends_none; repeat case_match; simplify_eq; done.
  - injection Ht as Ht. unfold send_verified in Ht. right; right. split; [by eapply Hcut, Hp|].
    destruct (in_write i) eqn:Ew; injection Ht as <- <- <-; eexists _, _, _, (in_write i); rewrite Ew; reflexivity.
  - injection Ht as Ht. unfold read_payload in Ht. apply appends_none; repeat case_match; simplify_eq; done.
  - injection Ht as Ht. unfold send_payload in Ht. right; right. split; [by eapply Hcut, Hp|].
    destruct (in_write i) eqn:Ew; injection Ht as <- <- <-; eexists _, _, _, (in_write i); rewrite Ew; reflexivity.
  - injection Ht as <- <- <-. by apply appends_none.
  - injection Ht as <- <- <-. by apply appends_none.
Qed.

(** Every run has its writes in order, and its head is one of the request. *)
Lemma run_in_order (laws : torrent_laws (H := H) (W := W)) memory disk inactivity w0 w1 s0 y :
  rtc (bridge_step key_of content) (new_impl memory disk inactivity, w0) (s0, w1) ->
  rtc (system_step key_of content source) (MkSystem (looking_up request) [] 0 s0 w1) y ->
  system_ok key_of content source request y /\ in_order (sys_log y) /\ Forall (fun h => head_for (H := H) request h.1) (heads (sys_log y)).
Proof.
  intros Hreach Hrun. remember (MkSystem _ _ _ _ _) as y0 eqn:E0.
  assert (Hy0 : system_ok key_of content source request y0 /\ in_order (sys_log y0) /\ Forall (fun h => head_for (H := H) request h.1) (heads (sys_log y0))).
  { subst y0. split; [|split; [split; [done|cbn; lia]|done]]. split; [|done]. by eapply reachable_ok. }
  clear E0. induction Hrun as [|y y' y'' Hstep _ IH]; [done|]. apply IH. destruct Hy0 as (Hok & Ho & Hh).
  split; [by eapply system_step_ok|]. destruct Hstep as [|i t log n s w t' s' es Ht Hi Hw Hn]; [done|]. destruct Hok as [_ Hp]. cbn in *.
  apply appended; [done|done|]. by eapply turn_appends.
Qed.
End runs.

(** ** The client of a connection *)

(** A thread that makes no more writes. *)
Definition done_writing {H} (t : point H) : Prop :=
  match t with leaving _ _ | releasing _ | returned => True | _ => False end.

Lemma done_log {H} key_of content source request (t : point H) log : done_writing t ->
  point_ok key_of content source request t log ->
  (bodiless log /\ ~ exists b, t = leaving b true) \/
  exists b pos, body_done content source request b log pos /\ forall b', t = leaving b' true -> pos = range_end (body_range b) + 1.
Proof.
  intros Ht Hp. destruct t as [| | | | | | | |b [|]|route|]; try done; cbn in Hp.
  - right. destruct Hp as [Hp _]. exists b, (range_end (body_range b) + 1). by split; [|intros].
  - destruct Hp as [Hp|(pos & Hp)]; [left; split; [done|]; by intros [? ?]|right]. exists b, pos. by split; [|intros].
  - destruct Hp as [Hp|(b & pos & Hp)]; [left; split; [done|]; by intros [? ?]|right]. exists b, pos. by split; [|intros].
  - destruct Hp as [Hp|(b & pos & Hp)]; [left; split; [done|]; by intros [? ?]|right]. exists b, pos. by split; [|intros].
Qed.

(** What the client gets of an answer, all of it when [whole] holds: an error, one head
    without a body, or the head of a response for a route of its target and then chunks of the
    file that follow each other from the start of the response's range, up to its end when the
    thread left its loop at the end.  The chunks of verified pieces are the bytes of the file,
    the others are what the payload file delivered there. *)
Inductive player_answer {H} (content : PieceCacheKey -> piece_data) (source : StreamRoute H -> Z -> text -> Prop)
    (request : HttpRequest) (t : point H) (whole : Prop) (out : text) : Prop :=
| answer_nothing : (~ exists b, t = leaving b true) ->
    out `prefix_of` build_error_response status_internal_server_error 0 ->
    (whole -> out = build_error_response status_internal_server_error 0) -> player_answer content source request t whole out
| answer_head h : head_for (H := H) request h -> (~ exists b, t = leaving b true) -> out `prefix_of` h -> (whole -> out = h) ->
    player_answer content source request t whole out
| answer_body (route : StreamRoute H) range pos chunks :
    let response := build_stream_response request (route_file_size route) (route_content_type route) in
    route_target route = rq_target request -> rs_body_range response = Some range ->
    contiguous (range_start range) pos chunks -> pos <= range_end range + 1 -> Forall (chunk_ok content source route) chunks ->
    out `prefix_of` rs_headers response ++ body_bytes chunks -> (whole -> out = rs_headers response ++ body_bytes chunks) ->
    (forall b, t = leaving b true -> pos = range_end range + 1) -> player_answer content source request t whole out.

Lemma error_nonempty st n : build_error_response st n <> [].
Proof. intros E%(f_equal length). unfold build_error_response in E. rewrite !length_app in E. change (length crlf) with 2%nat in E. cbn in E. lia. Qed.

Lemma headers_nonempty request n ct : rs_headers (build_stream_response request n ct) <> [].
Proof.
  unfold build_stream_response. destruct (range_status _); cbn; try apply error_nonempty;
    intros E%(f_equal length); rewrite length_app in E; change (length crlf) with 2%nat in E; cbn in E; lia.
Qed.

Lemma head_nonempty {H} request h : head_for (H := H) request h -> h <> [].
Proof. intros [| |route _]; [apply error_nonempty..|apply headers_nonempty]. Qed.

(** The writes of a log, as far as they reach the client. *)
Lemma log_answer {H} key_of content source request (t : point H) log (whole : Prop) out extra :
  done_writing t -> point_ok key_of content source request t log -> in_order log ->
  Forall (fun h => head_for (H := H) request h.1) (heads log) -> reaches (writes log) out ->
  extra = [] \/ (Forall is_empty_write (writes log) /\ extra `prefix_of` build_error_response status_internal_server_error 0) ->
  (whole -> Forall (fun x => x.2 = true) (writes log) /\ (writes log = [] -> extra = build_error_response status_internal_server_error 0)) ->
  player_answer content source request t whole (out ++ extra).
Proof.
  intros Ht Hp [Ho Hc] Hh Hr Hx Hwhole.
  assert (Hextra : heads log <> [] -> extra = []).
  { destruct Hx as [->|[He _]]; [done|]. intros Hne. exfalso. rewrite Ho in He. apply Forall_app in He as [He _].
    destruct (heads log) as [|[h b] l]; [done|]. apply Forall_cons in He as [He _]. apply Forall_cons in Hh as [Hh _].
    apply bool_decide_unpack in He. by apply (head_nonempty _ _ Hh). }
  destruct (done_log _ _ _ _ _ _ Ht Hp) as [[(Hs & Hcut & Hl) Hn]|(b & pos & [Hb Hpos Hhead Hsent Hchunks Hcuts] & Hend)].
  - rewrite Hs, Hcut in Ho. cbn in Ho. rewrite app_nil_r in Ho. destruct (heads log) as [|[h b] [|]] eqn:Eh; [| |simpl in Hl; lia].
    + rewrite Ho in *. inversion Hr. subst out. apply answer_nothing; [done| |by intros [_ Hw]%Hwhole; apply Hw].
      destruct Hx as [->|[_ ?]]; [apply prefix_nil|done].
    + rewrite (Hextra ltac:(done)), app_nil_r. apply Forall_cons in Hh as [Hh _]. cbn in Hh. rewrite Ho in Hr, Hwhole.
      destruct (reaches_prefix [] h b out (Forall_nil_2 _) Hr) as [Hpre Hall]. apply (answer_head _ _ _ _ _ _ h); [done..|].
      intros [Hw _]%Hwhole. apply Forall_cons in Hw as [Hw _]. by apply Hall.
  - assert (Hne : heads log <> []) by (by rewrite Hhead). rewrite (Hextra Hne), app_nil_r. clear Hextra Hx.
    set (hdr := rs_headers (response_for request (body_route b))) in *.
    assert (Hall : Forall (fun w : text * bool => w.2 = true) ((hdr, true) :: ((fun c : Z * text * bool => (c.1.2, true)) <$> sent log))).
    { constructor; [done|]. by apply Forall_fmap, Forall_true. }
    assert (Hbytes : concat ((hdr, true) :: ((fun c : Z * text * bool => (c.1.2, true)) <$> sent log)).*1 = hdr ++ body_bytes (sent log)).
    { cbn. f_equal. rewrite body_bytes_chunks. f_equal. rewrite <-list_fmap_compose. done. }
    rewrite Hhead in Ho. destruct (cut log) as [|[[o bytes] v] [|]] eqn:Ec; [| |simpl in Hc; lia].
    + cbn in Ho. rewrite app_nil_r in Ho, Hchunks. rewrite Ho in Hr. apply (reaches_all _ _ Hall) in Hr. rewrite Hbytes in Hr.
      apply (answer_body _ _ _ _ _ _ (body_route b) (body_range b) pos (sent log)); try done; [apply (bo_target _ _ Hb)|apply (bo_range _ _ Hb)|lia|..].
      * by rewrite Hr.
    + apply Forall_cons in Hcuts as [[Hoff Hlen] _]. cbn in Hoff, Hlen. subst o. cbn [app] in Ho. rewrite Ho in Hr.
      rewrite app_comm_cons in Hr. destruct (reaches_prefix _ bytes false out Hall Hr) as [Hpre _]. rewrite Hbytes in Hpre.
      pose proof (contiguous_snoc _ _ _ bytes v Hsent) as Hsnoc.
      apply (answer_body _ _ _ _ _ _ (body_route b) (body_range b) (pos + Z.of_nat (length bytes)) (sent log ++ [(pos, bytes, v)])); try done;
        [apply (bo_target _ _ Hb)|apply (bo_range _ _ Hb)|..].
      * rewrite !body_bytes_chunks, fmap_app, concat_app in *. cbn. by rewrite app_nil_r, app_assoc.
      * intros [Hw _]%Hwhole. rewrite Ho in Hw. apply Forall_cons in Hw as [_ Hw]. apply Forall_app in Hw as [_ Hw].
        apply Forall_cons in Hw as [Hw _]. discriminate Hw.
      * intros b' Hb'%Hend. lia.
Qed.

(** C1. End to end, from the player's bytes to the file's, on any network.  When the bytes that
    a client sends are a request and the handler of its connection is a thread of the stream
    bridge, that is, made the writes of such a thread and got the answers the thread got, then
    in any interleaving with all other threads the client gets one answer: an error, or the
    head of the response for the file of its target followed by chunks of the file that follow
    each other from the start of the requested range on, all of the range when the thread ends
    its loop.  Chunks of verified pieces are the true bytes of the file, the others what the
    payload file delivered at that place.  The client gets all of the answer unless something
    disturbs the connection, and then a beginning of it; the request is only stopped when the
    client does not wait for its answer or the worker was stopped. *)
Theorem player_gets_range {V} `{SV : Sockets V, NV : NetworkView V} (sockets : socket_laws (W := V))
    {H W} `{HT : Torrents H W} (laws : torrent_laws (H := H) (W := W)) (key_of : nat -> PieceCacheKey) (content : PieceCacheKey -> piece_data)
    (source : StreamRoute H -> Z -> text -> Prop) (memory disk inactivity : Z) (w0 w1 : W) (s0 : Impl H)
    (request : HttpRequest) (Hreach : rtc (bridge_step key_of content) (new_impl memory disk inactivity, w0) (s0, w1))
    (handler : HttpRequest -> handler_action) (client : Z) (w : V) (fuel : nat) (Hcl : client <> -1)
    (Hopen : wv_shut w = true -> wv_stopped w = true) (Hrequest : arrival_of (incoming w) = good_request request)
    (Hf : (Nat.max (length (incoming w)) (Nat.max (longest_answer handler (incoming w)) 1000) + pending w < fuel)%nat) :
  exists c' r out, handle_connection fuel handler client (new_connection w) = Some (c', r) /\ outgoing (cn_world c') = outgoing w ++ out /\
    (dm_requested (cn_monitor c') = true -> stop_reason (cn_world c')) /\
    forall y : System H W, rtc (system_step key_of content source) (MkSystem (looking_up request) [] 0 s0 w1) y ->
      done_writing (sys_point y) -> writes (sys_log y) = cn_writes c' ->
      player_answer content source request (sys_point y) (disturbed c' = false /\ r = Ok tt) out.
Proof.
  destruct (connection_outcome sockets handler client w fuel Hcl Hopen Hf) as (c' & r & out & E & Hw & Ho & Hout & Hu).
  exists c', r, out. split_and!; [done..|apply Hw|]. intros y Hrun Hdone Hwrites.
  destruct (run_in_order key_of content source request laws _ _ _ _ _ _ _ Hreach Hrun) as ([_ Hp] & Hord & Hh).
  destruct Hout as [error out Ha|Ha Hnone|req what Ha Hnone|req out extra Ha _ Hr Hx Hall Hover Hshut].
  - congruence.
  - apply (log_answer key_of _ _ _ _ (sys_log y) _ [] []); rewrite ?Hwrites, ?Hnone; auto; [constructor|].
    destruct Ha as [?|Hd]; [congruence|]. intros [? _]. congruence.
  - apply (log_answer key_of _ _ _ _ (sys_log y) _ [] []); rewrite ?Hwrites, ?Hnone; auto; [constructor|]. by intros [_ ?].
  - apply (log_answer key_of _ _ _ _ (sys_log y)); rewrite ?Hwrites; auto. intros [Hd Hok]. split; [by apply Hall|]. intros Hnil.
    rewrite Hnil in Hr. inversion Hr. subst out. specialize (Hu Hd Hok). cbn [app] in Hu. rewrite Hu. unfold answer, handler_answer. rewrite Ha.
    by destruct (Hall Hd) as [<- _].
Qed.

(** ** A run *)

(** The handler that makes writes one after the other. *)
Fixpoint script (ws : list (text * bool)) : handler_action :=
  match ws with [] => Return false | (data, _) :: ws => Write data (fun _ => script ws) end.

Definition demo_request_text : text := str "GET /stream/token HTTP/1.1" ++ crlf ++ str "Range: bytes=31768-31775" ++ crlf ++ crlf.
Definition demo_client (more : string) (turns : list nat) : Network.world :=
  Network.MkWorld (demo_request_text ++ str more) false [] 3 turns false false false.
Definition demo_handler (_ : HttpRequest) : handler_action := script (writes (sys_log demo_served)).
Abbreviation demo_connection := (handle_connection 2000 demo_handler 5 (new_connection (demo_client "" []))).

Example demo_connection_writes :
  match demo_connection with
  | Some (c, Ok _) => bool_decide (writes (sys_log demo_served) = cn_writes c) && negb (disturbed c)
  | _ => false
  end = true.
Proof. by vm_compute. Qed.

Lemma player_gets_range_witness :
  exists c' out, demo_connection = Some (c', Ok tt) /\ outgoing (cn_world c') = [] ++ out /\ disturbed c' = false /\
    player_answer demo_content demo_source demo_request (sys_point demo_served) (disturbed c' = false /\ Ok tt = Ok tt) out.
Proof.
  destruct (player_gets_range Network.network_laws memory_torrent_laws demo_key_of demo_content demo_source _ _ _ _ _ _ demo_request
    demo_start_reached demo_handler 5 (demo_client "" []) 2000) as (c' & r & out & E & Ho & _ & Hp);
    [discriminate|discriminate|by vm_compute|apply Nat.ltb_lt; by vm_compute|].
  pose proof demo_connection_writes as Hc. rewrite E in Hc. destruct r as [[]|]; [|discriminate Hc].
  apply andb_true_iff in Hc as [Hw Hd]. apply bool_decide_eq_true_1 in Hw. apply negb_true_iff in Hd.
  exists c', out. split_and!; [done..|]. apply Hp; [exact demo_served_run|by vm_compute|done].
Defined.

(** The last bytes the player gets; when it sends more after its request and the watching
    thread sees that after eighteen bytes, nothing more. *)
Definition player_end (w : Network.world) : option text :=
  match handle_connection 2000 demo_handler 5 (new_connection w) with
  | Some (c, Ok _) => Some (drop (length (outgoing (cn_world c)) - 12) (outgoing (cn_world c)))
  | _ => None
  end.

Example demo_player : player_end (demo_client "" []) = Some (crlf ++ crlf ++ str "bytes of").
Proof. by vm_compute. Qed.

Example demo_player_cancelled : player_end (demo_client "more bytes than the last receive takes" [0; 0; 9]%nat) = Some (str ".1 206 Parti").
Proof. by vm_compute. Qed.
