(* ===== verification/BackendTelemetry.v ===== *)
(** The limits, the telemetry and the statistics of the libtorrent backend: the settings of
    the session, the counters that src/torrent/libtorrent_backend.cpp keeps for a torrent, how
    the alerts change them, and the loop of [statistics] that adds them up. *)
From stdpp Require Import prelude strings list gmap.
From Stdlib Require Import ZArith Lia Ascii.
From S2P Require Import Prelude Text EngineTypes.

(** ** Limits and settings *)

Definition maximum_session_state_size : Z := 4 * 1024 * 1024.
Definition maximum_resume_state_size : Z := 16 * 1024 * 1024.
Definition maximum_pending_disk_reclaims : Z := 256.
Definition peer_connect_timeout_seconds : Z := 3.
Definition peer_handshake_timeout_seconds : Z := 20.
Definition peer_reconnect_floor_seconds : Z := 4.
Definition piece_request_timeout_seconds : Z := 4.
Definition request_queue_seconds : Z := 1.
Definition maximum_outstanding_requests_per_peer : Z := 64.
Definition idle_session_tick_milliseconds : Z := 500.
Definition streaming_session_tick_milliseconds : Z := 100.

Record TorrentProfileSettings := MkProfile {
  connection_limit : Z; connection_attempts_per_second : Z; connect_boost : Z }.

Definition torrent_profile_settings (profile : Z) : TorrentProfileSettings :=
  if profile =? NUVIO_ENGINE_TORRENT_PROFILE_SOFT then MkProfile 35 35 35
  else if profile =? NUVIO_ENGINE_TORRENT_PROFILE_BALANCED then MkProfile 120 120 120
  else if profile =? NUVIO_ENGINE_TORRENT_PROFILE_FAST then MkProfile 200 200 200
  else MkProfile 120 120 120.

Inductive MetadataSource := source_live | source_restored | source_cold | source_provided.

#[global] Instance MetadataSource_eq_dec : EqDecision MetadataSource.
Proof. solve_decision. Defined.

Definition metadata_source_name (source : MetadataSource) : text :=
  match source with
  | source_live => str "live"
  | source_restored => str "restored"
  | source_cold => str "cold"
  | source_provided => str "provided"
  end.

Definition bounded_rate (value : Z) : Z := Z.min value I32_MAX.

(** [lt::settings_pack]: the assignments in order; a category of [lt::alert_category]. *)
Inductive alert_category :=
| cat_error | cat_peer | cat_storage | cat_tracker | cat_connect | cat_status | cat_performance_warning
| cat_dht | cat_file_progress | cat_block_progress.
Inductive setting_value := set_str (v : text) | set_bool (v : bool) | set_int (v : Z) | set_mask (v : list alert_category).
Abbreviation settings_pack := (list (text * setting_value)).

Definition make_settings (config : ProtocolBackendConfig) : settings_pack :=
  let profile := torrent_profile_settings (pc_torrent_profile config) in
  [(str "user_agent", set_str (str "Nuvio Engine/0.1.5"));
   (str "listen_interfaces", set_str (str "0.0.0.0:0,[::]:0"));
   (str "enable_dht", set_bool true); (str "enable_lsd", set_bool true);
   (str "enable_upnp", set_bool true); (str "enable_natpmp", set_bool true);
   (str "announce_to_all_tiers", set_bool true); (str "announce_to_all_trackers", set_bool true);
   (str "close_redundant_connections", set_bool false);
   (str "connections_limit", set_int (connection_limit profile));
   (str "peer_connect_timeout", set_int peer_connect_timeout_seconds);
   (str "handshake_timeout", set_int peer_handshake_timeout_seconds);
   (str "min_reconnect_time", set_int peer_reconnect_floor_seconds);
   (str "connection_speed", set_int (connection_attempts_per_second profile));
   (str "torrent_connect_boost", set_int (connect_boost profile));
   (str "request_timeout", set_int piece_request_timeout_seconds);
   (str "request_queue_time", set_int request_queue_seconds);
   (str "tick_interval", set_int idle_session_tick_milliseconds);
   (str "enable_outgoing_utp", set_bool false);
   (str "max_out_request_queue", set_int maximum_outstanding_requests_per_peer);
   (str "whole_pieces_threshold", set_int 0)] ++
  (if bool_decide (pc_tls_ca_bundle_path config = []) then [] else [(str "nuvio_ssl_ca_bundle", set_str (pc_tls_ca_bundle_path config))]) ++
  [(str "alert_mask", set_mask [cat_error; cat_peer; cat_storage; cat_tracker; cat_connect; cat_status;
                                cat_performance_warning; cat_dht; cat_file_progress; cat_block_progress])] ++
  (if pc_upload_mode config =? NUVIO_ENGINE_UPLOAD_LIMITED
   then [(str "upload_rate_limit", set_int (bounded_rate (pc_upload_limit_bytes_per_second config)))] else []) ++
  (if pc_upload_mode config =? NUVIO_ENGINE_UPLOAD_DISABLED then [(str "unchoke_slots_limit", set_int 0)] else []).

Definition is_canonical_torrent_id (value : text) : bool :=
  if negb (length value =? 40)%nat && negb (length value =? 64)%nat then false
  else forallb (fun character => isxdigit character && Ascii.eqb character (tolower character)) value.

(** [nonnegative], of an [int] or an [int64_t]. *)
Definition nonnegative (value : Z) : Z := if 0 <? value then value else 0.

Definition bounded_count (value : Z) : Z := Z.min value U32_MAX.

(** [if (value != max) ++value] on a 32-bit counter. *)
Definition bounded_increment (value : Z) : Z := if value =? U32_MAX then value else value + 1.

(** ** The telemetry of a torrent *)

Record TorrentTelemetry := MkTelemetry {
  tt_connected_peers : Z; tt_connected_seeds : Z; tt_known_peers : Z; tt_connect_candidates : Z;
  tt_interested_peers : Z; tt_unchoked_peers : Z; tt_downloading_peers : Z; tt_snubbed_peers : Z;
  tt_pending_block_requests : Z; tt_target_block_requests : Z; tt_timed_out_block_requests : Z;
  tt_connecting_peers : Z; tt_handshaking_peers : Z; tt_target_piece_peers : Z;
  tt_target_piece_unchoked_peers : Z; tt_target_piece_downloading_peers : Z;
  tt_off_target_downloading_peers : Z; tt_tracker_reply_events : Z; tt_tracker_error_events : Z;
  tt_dht_reply_events : Z;
  tt_download_rate : Z; tt_upload_rate : Z; tt_total_download : Z; tt_total_upload : Z;
  tt_tracker_peers_returned : Z; tt_dht_peers_returned : Z; tt_peer_connect_events : Z;
  tt_peer_disconnect_events : Z; tt_peer_disconnect_timeouts : Z; tt_peer_disconnect_connect_failures : Z;
  tt_peer_disconnect_redundant : Z; tt_peer_disconnect_turnover : Z; tt_peer_disconnect_other : Z;
  tt_torrent_finished_events : Z;
}.

(** [TorrentTelemetry{}]. *)
Definition no_telemetry : TorrentTelemetry :=
  MkTelemetry 0 0 0 0 0 0 0 0 0 0 0 0 0 0 0 0 0 0 0 0 0 0 0 0 0 0 0 0 0 0 0 0 0 0.

(** [lt::torrent_status], what the code reads of it. *)
Record torrent_status := MkTorrentStatus {
  ts_has_metadata : bool; ts_is_seeding : bool;
  ts_num_peers : Z; ts_num_seeds : Z; ts_list_peers : Z; ts_connect_candidates : Z;
  ts_download_payload_rate : Z; ts_upload_payload_rate : Z; ts_total_payload_download : Z; ts_total_payload_upload : Z;
}.

(** The body of the loop of [handle_state_update]. *)
Definition update_status (status : torrent_status) (t : TorrentTelemetry) : TorrentTelemetry :=
  MkTelemetry
    (bounded_count (nonnegative (ts_num_peers status))) (bounded_count (nonnegative (ts_num_seeds status)))
    (bounded_count (nonnegative (ts_list_peers status))) (bounded_count (nonnegative (ts_connect_candidates status)))
    (tt_interested_peers t) (tt_unchoked_peers t) (tt_downloading_peers t) (tt_snubbed_peers t)
    (tt_pending_block_requests t) (tt_target_block_requests t) (tt_timed_out_block_requests t)
    (tt_connecting_peers t) (tt_handshaking_peers t) (tt_target_piece_peers t)
    (tt_target_piece_unchoked_peers t) (tt_target_piece_downloading_peers t) (tt_off_target_downloading_peers t)
    (tt_tracker_reply_events t) (tt_tracker_error_events t) (tt_dht_reply_events t)
    (nonnegative (ts_download_payload_rate status)) (nonnegative (ts_upload_payload_rate status))
    (nonnegative (ts_total_payload_download status)) (nonnegative (ts_total_payload_upload status))
    (tt_tracker_peers_returned t) (tt_dht_peers_returned t) (tt_peer_connect_events t)
    (tt_peer_disconnect_events t) (tt_peer_disconnect_timeouts t) (tt_peer_disconnect_connect_failures t)
    (tt_peer_disconnect_redundant t) (tt_peer_disconnect_turnover t) (tt_peer_disconnect_other t)
    (tt_torrent_finished_events t).

(** *** Peers *)

(** [lt::peer_info]: the flags and the members the code reads. *)
Record peer_info := MkPeer {
  pi_connecting : bool; pi_handshake : bool; pi_interesting : bool; pi_remote_choked : bool; pi_snubbed : bool; pi_seed : bool;
  pi_payload_down_speed : Z; pi_download_queue_length : Z; pi_requests_in_buffer : Z; pi_target_dl_queue_length : Z;
  pi_timed_out_requests : Z; pi_downloading_piece_index : Z; pi_pieces : list bool;
}.

(** The local counters of [handle_peer_info]. *)
Record PeerCounts := MkCounts {
  pk_interested : Z; pk_unchoked : Z; pk_downloading : Z; pk_snubbed : Z; pk_pending : Z; pk_target : Z; pk_timed_out : Z;
  pk_connecting : Z; pk_handshaking : Z; pk_target_piece_peers : Z; pk_target_piece_unchoked : Z;
  pk_target_piece_downloading : Z; pk_off_target_downloading : Z;
}.

Definition is_blocking_piece (blocking : list Z) (piece : Z) : bool :=
  if piece <? 0 then false else existsb (Z.eqb (wrap32 piece)) blocking.

(** The peer has a piece that a reader waits for. *)
Definition has_target (blocking : list Z) (peer : peer_info) : bool :=
  pi_seed peer ||
  existsb (fun piece => (piece <? wrap32 (Z.of_nat (length (pi_pieces peer)))) &&
                        default false (pi_pieces peer !! Z.to_nat piece)) blocking.

(** [++counter] when the condition holds. *)
Definition count_if (condition : bool) (counter : Z) : Z := if condition then wrap64 (counter + 1) else counter.

Definition count_peer (blocking : list Z) (c : PeerCounts) (peer : peer_info) : PeerCounts :=
  let watching := negb (bool_decide (blocking = [])) in
  let target := watching && has_target blocking peer in
  let on_target := is_blocking_piece blocking (pi_downloading_piece_index peer) in
  MkCounts
    (count_if (pi_interesting peer) (pk_interested c))
    (count_if (negb (pi_remote_choked peer)) (pk_unchoked c))
    (count_if (0 <? pi_payload_down_speed peer) (pk_downloading c))
    (count_if (pi_snubbed peer) (pk_snubbed c))
    (saturating_add (saturating_add (pk_pending c) (nonnegative (pi_download_queue_length peer))) (nonnegative (pi_requests_in_buffer peer)))
    (saturating_add (pk_target c) (nonnegative (pi_target_dl_queue_length peer)))
    (saturating_add (pk_timed_out c) (nonnegative (pi_timed_out_requests peer)))
    (count_if (pi_connecting peer) (pk_connecting c))
    (count_if (pi_handshake peer) (pk_handshaking c))
    (count_if target (pk_target_piece_peers c))
    (count_if (target && negb (pi_remote_choked peer)) (pk_target_piece_unchoked c))
    (count_if (watching && on_target) (pk_target_piece_downloading c))
    (count_if (watching && negb on_target && (0 <=? pi_downloading_piece_index peer)) (pk_off_target_downloading c)).

Definition count_peers (blocking : list Z) (peers : list peer_info) : PeerCounts :=
  fold_left (count_peer blocking) peers (MkCounts 0 0 0 0 0 0 0 0 0 0 0 0 0).

(** The end of [handle_peer_info]. *)
Definition update_peers (c : PeerCounts) (t : TorrentTelemetry) : TorrentTelemetry :=
  MkTelemetry
    (tt_connected_peers t) (tt_connected_seeds t) (tt_known_peers t) (tt_connect_candidates t)
    (bounded_count (pk_interested c)) (bounded_count (pk_unchoked c)) (bounded_count (pk_downloading c)) (bounded_count (pk_snubbed c))
    (bounded_count (pk_pending c)) (bounded_count (pk_target c)) (bounded_count (pk_timed_out c))
    (bounded_count (pk_connecting c)) (bounded_count (pk_handshaking c)) (bounded_count (pk_target_piece_peers c))
    (bounded_count (pk_target_piece_unchoked c)) (bounded_count (pk_target_piece_downloading c))
    (bounded_count (pk_off_target_downloading c))
    (tt_tracker_reply_events t) (tt_tracker_error_events t) (tt_dht_reply_events t)
    (tt_download_rate t) (tt_upload_rate t) (tt_total_download t) (tt_total_upload t)
    (tt_tracker_peers_returned t) (tt_dht_peers_returned t) (tt_peer_connect_events t)
    (tt_peer_disconnect_events t) (tt_peer_disconnect_timeouts t) (tt_peer_disconnect_connect_failures t)
    (tt_peer_disconnect_redundant t) (tt_peer_disconnect_turnover t) (tt_peer_disconnect_other t)
    (tt_torrent_finished_events t).

(** *** Events *)

(** [lt::close_reason_t], as far as the code tells the reasons apart. *)
Inductive close_reason_t :=
| reason_timeout | reason_timed_out_interest | reason_timed_out_activity | reason_timed_out_handshake | reason_timed_out_request
| reason_upload_to_upload | reason_not_interested_upload_only | reason_peer_churn | reason_other.

Abbreviation assign_telemetry t f v := ltac:(
  let eta := constr:(MkTelemetry
    (tt_connected_peers t) (tt_connected_seeds t) (tt_known_peers t) (tt_connect_candidates t)
    (tt_interested_peers t) (tt_unchoked_peers t) (tt_downloading_peers t) (tt_snubbed_peers t)
    (tt_pending_block_requests t) (tt_target_block_requests t) (tt_timed_out_block_requests t)
    (tt_connecting_peers t) (tt_handshaking_peers t) (tt_target_piece_peers t)
    (tt_target_piece_unchoked_peers t) (tt_target_piece_downloading_peers t) (tt_off_target_downloading_peers t)
    (tt_tracker_reply_events t) (tt_tracker_error_events t) (tt_dht_reply_events t)
    (tt_download_rate t) (tt_upload_rate t) (tt_total_download t) (tt_total_upload t)
    (tt_tracker_peers_returned t) (tt_dht_peers_returned t) (tt_peer_connect_events t)
    (tt_peer_disconnect_events t) (tt_peer_disconnect_timeouts t) (tt_peer_disconnect_connect_failures t)
    (tt_peer_disconnect_redundant t) (tt_peer_disconnect_turnover t) (tt_peer_disconnect_other t)
    (tt_torrent_finished_events t)) in
  match eval pattern (f t) in eta with ?g _ => let r := eval cbv beta in (g v) in exact r end) (only parsing).

(** [handle_peer_connect], [handle_torrent_finished]: one more event. *)
Definition count_connect (t : TorrentTelemetry) : TorrentTelemetry :=
  assign_telemetry t tt_peer_connect_events (saturating_increment (tt_peer_connect_events t)).
Definition count_finished (t : TorrentTelemetry) : TorrentTelemetry :=
  assign_telemetry t tt_torrent_finished_events (saturating_increment (tt_torrent_finished_events t)).

(** [handle_peer_disconnected]; [connecting] is [alert.op == operation_t::connect]. *)
Definition count_disconnect (reason : close_reason_t) (connecting : bool) (t : TorrentTelemetry) : TorrentTelemetry :=
  let t := assign_telemetry t tt_peer_disconnect_events (saturating_increment (tt_peer_disconnect_events t)) in
  match reason with
  | reason_timeout | reason_timed_out_interest | reason_timed_out_activity | reason_timed_out_handshake | reason_timed_out_request =>
    assign_telemetry t tt_peer_disconnect_timeouts (saturating_increment (tt_peer_disconnect_timeouts t))
  | reason_upload_to_upload | reason_not_interested_upload_only =>
    assign_telemetry t tt_peer_disconnect_redundant (saturating_increment (tt_peer_disconnect_redundant t))
  | reason_peer_churn => assign_telemetry t tt_peer_disconnect_turnover (saturating_increment (tt_peer_disconnect_turnover t))
  | reason_other =>
    if connecting
    then assign_telemetry t tt_peer_disconnect_connect_failures (saturating_increment (tt_peer_disconnect_connect_failures t))
    else assign_telemetry t tt_peer_disconnect_other (saturating_increment (tt_peer_disconnect_other t))
  end.

(** [handle_tracker_reply], [handle_tracker_error], [handle_dht_reply]. *)
Definition count_tracker_reply (num_peers : Z) (t : TorrentTelemetry) : TorrentTelemetry :=
  let t := assign_telemetry t tt_tracker_reply_events (bounded_increment (tt_tracker_reply_events t)) in
  assign_telemetry t tt_tracker_peers_returned (saturating_add (tt_tracker_peers_returned t) (nonnegative num_peers)).
Definition count_tracker_error (t : TorrentTelemetry) : TorrentTelemetry :=
  assign_telemetry t tt_tracker_error_events (bounded_increment (tt_tracker_error_events t)).
Definition count_dht_reply (num_peers : Z) (t : TorrentTelemetry) : TorrentTelemetry :=
  let t := assign_telemetry t tt_dht_reply_events (bounded_increment (tt_dht_reply_events t)) in
  assign_telemetry t tt_dht_peers_returned (saturating_add (tt_dht_peers_returned t) (nonnegative num_peers)).

(** ** Statistics *)

(** One turn of the loop of [statistics]: the totals have the members of a telemetry. *)
Definition add_telemetry (r t : TorrentTelemetry) : TorrentTelemetry :=
  let add f := saturating_add (f r) (f t) in
  MkTelemetry
    (Z.min (wrap64 (tt_connected_peers r + tt_connected_peers t)) U32_MAX)
    (Z.min (wrap64 (tt_connected_seeds r + tt_connected_seeds t)) U32_MAX)
    (add tt_known_peers) (add tt_connect_candidates) (add tt_interested_peers) (add tt_unchoked_peers)
    (add tt_downloading_peers) (add tt_snubbed_peers) (add tt_pending_block_requests) (add tt_target_block_requests)
    (add tt_timed_out_block_requests) (add tt_connecting_peers) (add tt_handshaking_peers) (add tt_target_piece_peers)
    (add tt_target_piece_unchoked_peers) (add tt_target_piece_downloading_peers) (add tt_off_target_downloading_peers)
    (add tt_tracker_reply_events) (add tt_tracker_error_events) (add tt_dht_reply_events)
    (add tt_download_rate) (add tt_upload_rate) (add tt_total_download) (add tt_total_upload)
    (add tt_tracker_peers_returned) (add tt_dht_peers_returned) (add tt_peer_connect_events)
    (add tt_peer_disconnect_events) (add tt_peer_disconnect_timeouts) (add tt_peer_disconnect_connect_failures)
    (add tt_peer_disconnect_redundant) (add tt_peer_disconnect_turnover) (add tt_peer_disconnect_other)
    (add tt_torrent_finished_events).

Definition total_telemetry (telemetry : gmap text TorrentTelemetry) : TorrentTelemetry :=
  fold_left (fun r (e : text * TorrentTelemetry) => add_telemetry r e.2) (map_to_list telemetry) no_telemetry.

(** What [statistics] takes from the other members and components. *)
Record OtherStats := MkOther {
  os_active_torrents : Z; os_active_streams : Z; os_active_http_requests : Z; os_pending_piece_reads : Z;
  os_memory_cache_capacity_bytes : Z; os_memory_cache_used_bytes : Z; os_memory_cache_hits : Z; os_memory_cache_misses : Z;
  os_memory_cache_evictions : Z; os_memory_cache_entries : Z; os_warm_torrents : Z; os_quiesced_torrents : Z;
  os_disk_cache_capacity_bytes : Z; os_disk_cache_used_bytes : Z; os_disk_cache_protected_bytes : Z; os_disk_cache_evictions : Z;
  os_disk_cache_reclaimed_bytes : Z; os_disk_cache_over_budget : bool; os_streams : list BackendStream;
}.

(** The assignments to [result]: the totals of the 32-bit counters are cut once more. *)
Definition fill_stats (t : TorrentTelemetry) (o : OtherStats) : BackendStats := {|
  bs_active_torrents := os_active_torrents o; bs_active_streams := os_active_streams o;
  bs_active_http_requests := os_active_http_requests o;
  bs_connected_peers := bounded_count (tt_connected_peers t); bs_connected_seeds := bounded_count (tt_connected_seeds t);
  bs_known_peers := bounded_count (tt_known_peers t); bs_connect_candidates := bounded_count (tt_connect_candidates t);
  bs_interested_peers := bounded_count (tt_interested_peers t); bs_unchoked_peers := bounded_count (tt_unchoked_peers t);
  bs_downloading_peers := bounded_count (tt_downloading_peers t); bs_snubbed_peers := bounded_count (tt_snubbed_peers t);
  bs_pending_block_requests := bounded_count (tt_pending_block_requests t);
  bs_target_block_requests := bounded_count (tt_target_block_requests t);
  bs_timed_out_block_requests := bounded_count (tt_timed_out_block_requests t);
  bs_pending_piece_reads := os_pending_piece_reads o;
  bs_connecting_peers := bounded_count (tt_connecting_peers t); bs_handshaking_peers := bounded_count (tt_handshaking_peers t);
  bs_target_piece_peers := bounded_count (tt_target_piece_peers t);
  bs_target_piece_unchoked_peers := bounded_count (tt_target_piece_unchoked_peers t);
  bs_target_piece_downloading_peers := bounded_count (tt_target_piece_downloading_peers t);
  bs_off_target_downloading_peers := bounded_count (tt_off_target_downloading_peers t);
  bs_tracker_reply_events := bounded_count (tt_tracker_reply_events t);
  bs_tracker_error_events := bounded_count (tt_tracker_error_events t);
  bs_dht_reply_events := bounded_count (tt_dht_reply_events t);
  bs_download_rate_bytes_per_second := tt_download_rate t; bs_upload_rate_bytes_per_second := tt_upload_rate t;
  bs_total_payload_download_bytes := tt_total_download t; bs_total_payload_upload_bytes := tt_total_upload t;
  bs_memory_cache_capacity_bytes := os_memory_cache_capacity_bytes o; bs_memory_cache_used_bytes := os_memory_cache_used_bytes o;
  bs_memory_cache_hits := os_memory_cache_hits o; bs_memory_cache_misses := os_memory_cache_misses o;
  bs_memory_cache_evictions := os_memory_cache_evictions o; bs_memory_cache_entries := os_memory_cache_entries o;
  bs_warm_torrents := os_warm_torrents o; bs_quiesced_torrents := os_quiesced_torrents o;
  bs_disk_cache_capacity_bytes := os_disk_cache_capacity_bytes o; bs_disk_cache_used_bytes := os_disk_cache_used_bytes o;
  bs_disk_cache_protected_bytes := os_disk_cache_protected_bytes o; bs_disk_cache_evictions := os_disk_cache_evictions o;
  bs_disk_cache_reclaimed_bytes := os_disk_cache_reclaimed_bytes o;
  bs_tracker_peers_returned := tt_tracker_peers_returned t; bs_dht_peers_returned := tt_dht_peers_returned t;
  bs_peer_connect_events := tt_peer_connect_events t; bs_peer_disconnect_events := tt_peer_disconnect_events t;
  bs_peer_disconnect_timeouts := tt_peer_disconnect_timeouts t;
  bs_peer_disconnect_connect_failures := tt_peer_disconnect_connect_failures t;
  bs_peer_disconnect_redundant := tt_peer_disconnect_redundant t; bs_peer_disconnect_turnover := tt_peer_disconnect_turnover t;
  bs_peer_disconnect_other := tt_peer_disconnect_other t; bs_torrent_finished_events := tt_torrent_finished_events t;
  bs_disk_cache_over_budget := os_disk_cache_over_budget o; bs_streams := os_streams o;
|}.

(** ** What the counters hold *)

(** The members of a telemetry with the member of the statistics that has their total. *)
Definition counters32 : list ((TorrentTelemetry -> Z) * (BackendStats -> Z)) :=
  [(tt_connected_peers, bs_connected_peers); (tt_connected_seeds, bs_connected_seeds); (tt_known_peers, bs_known_peers);
   (tt_connect_candidates, bs_connect_candidates); (tt_interested_peers, bs_interested_peers);
   (tt_unchoked_peers, bs_unchoked_peers); (tt_downloading_peers, bs_downloading_peers); (tt_snubbed_peers, bs_snubbed_peers);
   (tt_pending_block_requests, bs_pending_block_requests); (tt_target_block_requests, bs_target_block_requests);
   (tt_timed_out_block_requests, bs_timed_out_block_requests); (tt_connecting_peers, bs_connecting_peers);
   (tt_handshaking_peers, bs_handshaking_peers); (tt_target_piece_peers, bs_target_piece_peers);
   (tt_target_piece_unchoked_peers, bs_target_piece_unchoked_peers);
   (tt_target_piece_downloading_peers, bs_target_piece_downloading_peers);
   (tt_off_target_downloading_peers, bs_off_target_downloading_peers);
   (tt_tracker_reply_events, bs_tracker_reply_events); (tt_tracker_error_events, bs_tracker_error_events);
   (tt_dht_reply_events, bs_dht_reply_events)].
Definition counters64 : list ((TorrentTelemetry -> Z) * (BackendStats -> Z)) :=
  [(tt_download_rate, bs_download_rate_bytes_per_second); (tt_upload_rate, bs_upload_rate_bytes_per_second);
   (tt_total_download, bs_total_payload_download_bytes); (tt_total_upload, bs_total_payload_upload_bytes);
   (tt_tracker_peers_returned, bs_tracker_peers_returned); (tt_dht_peers_returned, bs_dht_peers_returned);
   (tt_peer_connect_events, bs_peer_connect_events); (tt_peer_disconnect_events, bs_peer_disconnect_events);
   (tt_peer_disconnect_timeouts, bs_peer_disconnect_timeouts);
   (tt_peer_disconnect_connect_failures, bs_peer_disconnect_connect_failures);
   (tt_peer_disconnect_redundant, bs_peer_disconnect_redundant); (tt_peer_disconnect_turnover, bs_peer_disconnect_turnover);
   (tt_peer_disconnect_other, bs_peer_disconnect_other); (tt_torrent_finished_events, bs_torrent_finished_events)].

(** Every counter fits its type. *)
Definition telemetry_ok (t : TorrentTelemetry) : Prop :=
  Forall (fun f => is_u32 (f t)) counters32.*1 /\ Forall (fun f => is_u64 (f t)) counters64.*1.

(** The causes of disconnections are no more than the disconnections, unless these are cut. *)
Definition disconnects_ok (t : TorrentTelemetry) : Prop :=
  tt_peer_disconnect_events t =
  Z.min U64_MAX (tt_peer_disconnect_timeouts t + tt_peer_disconnect_connect_failures t + tt_peer_disconnect_redundant t +
                 tt_peer_disconnect_turnover t + tt_peer_disconnect_other t).

(** What the counters of [handle_peer_info] mean: the numbers of peers of a kind, and sums. *)
Record peers_counted (blocking : list Z) (peers : list peer_info) (t : TorrentTelemetry) : Prop := {
  pc_interested : tt_interested_peers t = bounded_count (Z.of_nat (length (filter (fun p => pi_interesting p = true) peers)));
  pc_unchoked : tt_unchoked_peers t = bounded_count (Z.of_nat (length (filter (fun p => pi_remote_choked p = false) peers)));
  pc_downloading : tt_downloading_peers t = bounded_count (Z.of_nat (length (filter (fun p => 0 < pi_payload_down_speed p) peers)));
  pc_snubbed : tt_snubbed_peers t = bounded_count (Z.of_nat (length (filter (fun p => pi_snubbed p = true) peers)));
  pc_pending : tt_pending_block_requests t =
    bounded_count (zsum ((fun p => nonnegative (pi_download_queue_length p) + nonnegative (pi_requests_in_buffer p)) <$> peers));
  pc_target : tt_target_block_requests t = bounded_count (zsum ((fun p => nonnegative (pi_target_dl_queue_length p)) <$> peers));
  pc_timed_out : tt_timed_out_block_requests t = bounded_count (zsum ((fun p => nonnegative (pi_timed_out_requests p)) <$> peers));
  pc_connecting : tt_connecting_peers t = bounded_count (Z.of_nat (length (filter (fun p => pi_connecting p = true) peers)));
  pc_handshaking : tt_handshaking_peers t = bounded_count (Z.of_nat (length (filter (fun p => pi_handshake p = true) peers)));
  pc_target_peers : tt_target_piece_peers t =
    bounded_count (Z.of_nat (length (filter (fun p => blocking <> [] /\ has_target blocking p = true) peers)));
  pc_target_unchoked : tt_target_piece_unchoked_peers t =
    bounded_count (Z.of_nat (length (filter (fun p => (blocking <> [] /\ has_target blocking p = true) /\ pi_remote_choked p = false) peers)));
  pc_target_downloading : tt_target_piece_downloading_peers t =
    bounded_count (Z.of_nat (length (filter (fun p => 0 <= pi_downloading_piece_index p /\ pi_downloading_piece_index p ∈ blocking) peers)));
  pc_off_target : tt_off_target_downloading_peers t =
    bounded_count (Z.of_nat (length
      (filter (fun p => 0 <= pi_downloading_piece_index p /\ blocking <> [] /\ (pi_downloading_piece_index p ∉ blocking)) peers)));
}.

(** The members of a peer are [int]s. *)
Definition is_int (z : Z) : Prop := - I32_MAX - 1 <= z <= I32_MAX.
Definition peer_ok (p : peer_info) : Prop :=
  is_int (pi_download_queue_length p) /\ is_int (pi_requests_in_buffer p) /\ is_int (pi_target_dl_queue_length p) /\
  is_int (pi_timed_out_requests p) /\ is_int (pi_downloading_piece_index p).

Lemma nonnegative_u64 z : z <= U64_MAX -> is_u64 (nonnegative z).
Proof. unfold nonnegative. intros. zcases; ulia. Qed.

Lemma nonnegative_int z : is_int z -> is_u64 (nonnegative z).
Proof. intros Hz. apply nonnegative_u64. unfold is_int in Hz. lia. Qed.

Lemma is_blocking_piece_spec blocking piece : is_int piece ->
  is_blocking_piece blocking piece = bool_decide (0 <= piece /\ piece ∈ blocking).
Proof.
  intros Hp. unfold is_blocking_piece. destruct (Z.ltb_spec piece 0); [symmetry; apply bool_decide_eq_false; lia|].
  rewrite wrap32_id by (unfold is_int in Hp; ulia). apply eq_true_iff_eq. rewrite existsb_exists, bool_decide_eq_true. split.
  - intros (x & Hx & ->%Z.eqb_eq). by rewrite list_elem_of_In.
  - intros [_ Hin]. exists piece. rewrite <-list_elem_of_In. split; [done|]. by apply Z.eqb_eq.
Qed.

(** A counter that a loop increments is the number of elements that satisfy the test. *)
Section counting.
Context {A S : Type} (step : S -> A -> S) (counter : S -> Z).

Lemma counted_if (test : A -> bool) (P : A -> Prop) `{!forall x, Decision (P x)} l s :
  (forall s x, counter (step s x) = count_if (test x) (counter s)) -> (forall x, x ∈ l -> test x = true <-> P x) ->
  0 <= counter s -> counter s + Z.of_nat (length l) <= U64_MAX ->
  counter (fold_left step l s) = counter s + Z.of_nat (length (filter P l)).
Proof.
  intros Hstep. revert s. induction l as [|x l IH]; intros s HP H0 Hl; [simpl; lia|]. cbn [fold_left length] in *.
  assert (Hx : counter (step s x) = counter s + (if decide (P x) then 1 else 0)).
  { rewrite Hstep. unfold count_if. destruct (HP x ltac:(by left)) as [Ht Hp]. destruct (test x), (decide (P x)) as [HPx|HPx].
    - apply wrap64_id. ulia.
    - by destruct HPx; apply Ht.
    - by discriminate Hp.
    - lia. }
  rewrite IH; [|intros; apply HP; by right|rewrite Hx; destruct (decide (P x)); lia..].
  rewrite Hx, filter_cons. destruct (decide (P x)); cbn [length]; lia.
Qed.

Lemma counted_sum (term : A -> Z) l s k :
  (forall s x k, counter s = Z.min U64_MAX k -> 0 <= k -> x ∈ l -> counter (step s x) = Z.min U64_MAX (k + term x)) ->
  (forall x, x ∈ l -> 0 <= term x) -> counter s = Z.min U64_MAX k -> 0 <= k ->
  counter (fold_left step l s) = Z.min U64_MAX (k + zsum (term <$> l)).
Proof.
  revert s k. induction l as [|x l IH]; intros s k Hstep Ht Hs Hk; cbn [fold_left fmap list_fmap]; [by rewrite Z.add_0_r|].
  rewrite zsum_cons, (IH _ (k + term x)); [f_equal; lia| | |apply Hstep; auto; by left|].
  - intros s' y k' E Hk' Hy. apply Hstep; [done..|by right].
  - intros y Hy. apply Ht. by right.
  - pose proof (Ht x ltac:(by left)). lia.
Qed.
End counting.

Lemma bounded_min k : bounded_count (Z.min U64_MAX k) = bounded_count k.
Proof. unfold bounded_count. lia. Qed.

Section peers.
Context (blocking : list Z) (peers : list peer_info).
Implicit Types k : PeerCounts -> Z.

Lemma peers_if k (test : peer_info -> bool) (P : peer_info -> Prop) `{!forall x, Decision (P x)} :
  (forall s x, k (count_peer blocking s x) = count_if (test x) (k s)) -> k (MkCounts 0 0 0 0 0 0 0 0 0 0 0 0 0) = 0 ->
  Z.of_nat (length peers) <= U32_MAX -> (forall x, x ∈ peers -> test x = true <-> P x) ->
  k (count_peers blocking peers) = Z.of_nat (length (filter P peers)).
Proof. intros Hk H0 Hn HP. unfold count_peers. rewrite (counted_if _ _ test P), H0; [done|done|done|lia..]. Qed.

Lemma peers_sum k (term : peer_info -> Z) :
  (forall s x v, k s = Z.min U64_MAX v -> 0 <= v -> x ∈ peers -> k (count_peer blocking s x) = Z.min U64_MAX (v + term x)) ->
  k (MkCounts 0 0 0 0 0 0 0 0 0 0 0 0 0) = 0 -> (forall x, x ∈ peers -> 0 <= term x) ->
  bounded_count (k (count_peers blocking peers)) = bounded_count (zsum (term <$> peers)).
Proof.
  intros Hk H0 Ht. unfold count_peers. rewrite (counted_sum _ _ term _ _ 0); [by rewrite Z.add_0_l, bounded_min|done|done| |done].
  by rewrite H0.
Qed.
End peers.

(** [handle_peer_info] leaves in the telemetry, cut to 32 bits, how many of the peers the
    alert lists are connecting, interesting and so on, the lengths of their queues added up,
    and how many have, or are sending, a piece that a reader waits for. *)
Lemma peer_info_counts (blocking : list Z) (peers : list peer_info) (t : TorrentTelemetry)
    (Hp : Forall peer_ok peers) (Hn : Z.of_nat (length peers) <= U32_MAX) :
  peers_counted blocking peers (update_peers (count_peers blocking peers) t).
Proof.
  rewrite Forall_forall in Hp. set (c := count_peers blocking peers).
  assert (Hblock : forall p, p ∈ peers -> is_blocking_piece blocking (pi_downloading_piece_index p) =
    bool_decide (0 <= pi_downloading_piece_index p /\ pi_downloading_piece_index p ∈ blocking)).
  { intros p Hin. apply is_blocking_piece_spec. apply (Hp p Hin). }
  assert (Hadd : forall p (f : peer_info -> Z) s v, is_int (f p) -> s = Z.min U64_MAX v -> 0 <= v ->
    saturating_add s (nonnegative (f p)) = Z.min U64_MAX (v + nonnegative (f p))).
  { intros p f s v Hf -> Hv. apply saturating_add_step; [done|]. by apply nonnegative_int. }
  assert (Hpos : forall z, 0 <= nonnegative z) by (intros z; unfold nonnegative; zcases; lia).
  split;
    cbn [update_peers tt_interested_peers tt_unchoked_peers tt_downloading_peers tt_snubbed_peers tt_pending_block_requests
         tt_target_block_requests tt_timed_out_block_requests tt_connecting_peers tt_handshaking_peers tt_target_piece_peers
         tt_target_piece_unchoked_peers tt_target_piece_downloading_peers tt_off_target_downloading_peers].
  - f_equal. by apply (peers_if _ _ _ pi_interesting).
  - f_equal. apply (peers_if _ _ _ (fun p => negb (pi_remote_choked p))); [done..|]. intros x _. apply negb_true_iff.
  - f_equal. apply (peers_if _ _ _ (fun p => 0 <? pi_payload_down_speed p)); [done..|]. intros x _. apply Z.ltb_lt.
  - f_equal. by apply (peers_if _ _ _ pi_snubbed).
  - apply peers_sum; [|done|intros; apply Z.add_nonneg_nonneg; apply Hpos]. intros s x v E Hv Hin. cbn [count_peer pk_pending].
    destruct (Hp x Hin) as (H1 & H2 & _). rewrite Z.add_assoc. apply Hadd; [done| |specialize (Hpos (pi_download_queue_length x)); lia].
    by apply Hadd.
  - apply peers_sum; [|done|intros; apply Hpos]. intros s x v E Hv Hin. destruct (Hp x Hin) as (_ & _ & H3 & _). by apply Hadd.
  - apply peers_sum; [|done|intros; apply Hpos]. intros s x v E Hv Hin. destruct (Hp x Hin) as (_ & _ & _ & H4 & _). by apply Hadd.
  - f_equal. by apply (peers_if _ _ _ pi_connecting).
  - f_equal. by apply (peers_if _ _ _ pi_handshake).
  - f_equal. apply (peers_if _ _ _ (fun p => negb (bool_decide (blocking = [])) && has_target blocking p)); [done..|]. intros x _.
    by rewrite andb_true_iff, negb_true_iff, bool_decide_eq_false.
  - f_equal. apply (peers_if _ _ _ (fun p => negb (bool_decide (blocking = [])) && has_target blocking p && negb (pi_remote_choked p))); [done..|].
    intros x _. by rewrite !andb_true_iff, !negb_true_iff, bool_decide_eq_false.
  - f_equal. apply (peers_if _ _ _ (fun p => negb (bool_decide (blocking = [])) && is_blocking_piece blocking (pi_downloading_piece_index p))); [done..|].
    intros x Hx. rewrite andb_true_iff, negb_true_iff, bool_decide_eq_false, (Hblock x Hx), bool_decide_eq_true.
    split; [tauto|]. intros [H0 Hin]. split; [|done]. intros E. rewrite E in Hin. by apply elem_of_nil in Hin.
  - f_equal. apply (peers_if _ _ _ (fun p => negb (bool_decide (blocking = [])) && negb (is_blocking_piece blocking (pi_downloading_piece_index p)) &&
      (0 <=? pi_downloading_piece_index p))); [done..|].
    intros x Hx. rewrite !andb_true_iff, !negb_true_iff, bool_decide_eq_false, (Hblock x Hx), bool_decide_eq_false, Z.leb_le. tauto.
Qed.

(** *** The counters keep their width *)

(** The members of a status are [int]s and 64-bit totals. *)
Definition status_ok (s : torrent_status) : Prop :=
  is_int (ts_num_peers s) /\ is_int (ts_num_seeds s) /\ is_int (ts_list_peers s) /\ is_int (ts_connect_candidates s) /\
  is_int (ts_download_payload_rate s) /\ is_int (ts_upload_payload_rate s) /\
  ts_total_payload_download s <= I64_MAX /\ ts_total_payload_upload s <= I64_MAX.

Lemma bounded_count_u32 z : 0 <= z -> is_u32 (bounded_count z).
Proof. unfold bounded_count. ulia. Qed.

Lemma bounded_increment_u32 z : is_u32 z -> is_u32 (bounded_increment z).
Proof. unfold bounded_increment. intros. zcases; ulia. Qed.

Lemma nonnegative_pos z : 0 <= nonnegative z.
Proof. unfold nonnegative. zcases; lia. Qed.

Record counts_ok (c : PeerCounts) : Prop := {
  ck_interested : 0 <= pk_interested c; ck_unchoked : 0 <= pk_unchoked c; ck_downloading : 0 <= pk_downloading c;
  ck_snubbed : 0 <= pk_snubbed c; ck_pending : 0 <= pk_pending c; ck_target : 0 <= pk_target c; ck_timed_out : 0 <= pk_timed_out c;
  ck_connecting : 0 <= pk_connecting c; ck_handshaking : 0 <= pk_handshaking c; ck_target_peers : 0 <= pk_target_piece_peers c;
  ck_target_unchoked : 0 <= pk_target_piece_unchoked c; ck_target_downloading : 0 <= pk_target_piece_downloading c;
  ck_off_target : 0 <= pk_off_target_downloading c;
}.

Lemma count_if_pos b c : 0 <= c -> 0 <= count_if b c.
Proof. unfold count_if. intros. destruct b; [|done]. pose proof (wrap64_u64 (c + 1)). ulia. Qed.

Lemma saturating_add_pos a b : 0 <= a -> 0 <= b -> 0 <= saturating_add a b.
Proof. unfold saturating_add. intros. zcases; lia. Qed.

Lemma count_peers_ok blocking peers : counts_ok (count_peers blocking peers).
Proof.
  unfold count_peers. assert (counts_ok (MkCounts 0 0 0 0 0 0 0 0 0 0 0 0 0)) as H by (split; simpl; lia). revert H.
  generalize (MkCounts 0 0 0 0 0 0 0 0 0 0 0 0 0). induction peers as [|p peers IH]; intros c Hc; [done|]. cbn [fold_left]. apply IH.
  destruct Hc. split; cbn [count_peer pk_interested pk_unchoked pk_downloading pk_snubbed pk_pending pk_target pk_timed_out pk_connecting
    pk_handshaking pk_target_piece_peers pk_target_piece_unchoked pk_target_piece_downloading pk_off_target_downloading];
    auto using count_if_pos, saturating_add_pos, nonnegative_pos.
Qed.

(** One hypothesis for each counter, and one goal. *)
Ltac counters :=
  unfold telemetry_ok, counters32, counters64 in *; cbn [fmap list_fmap fst] in *;
  repeat match goal with
    | H : _ /\ _ |- _ => destruct H
    | H : Forall _ (_ :: _) |- _ => apply Forall_cons in H
    | H : Forall _ [] |- _ => clear H
    end;
  split; repeat first [apply Forall_nil_2 | apply Forall_cons_2].

(** Each counter keeps its width, or is changed by an operation that keeps it. *)
Ltac widths :=
  try assumption;
  auto using saturating_increment_u64, bounded_increment_u32, saturating_add_u64, nonnegative_int, bounded_count_u32, nonnegative_pos.

Lemma no_telemetry_ok : telemetry_ok no_telemetry.
Proof. counters; simpl; ulia. Qed.

Lemma update_status_ok s t : status_ok s -> telemetry_ok t -> telemetry_ok (update_status s t).
Proof.
  intros Hs Ht. destruct Hs as (? & ? & ? & ? & ? & ? & ? & ?). destruct t. counters; simpl in *;
  widths; apply nonnegative_u64; lia.
Qed.

Lemma update_peers_ok c t : counts_ok c -> telemetry_ok t -> telemetry_ok (update_peers c t).
Proof. intros Hc Ht. destruct Hc. destruct t. counters; simpl in *; widths. Qed.

Lemma count_connect_ok t : telemetry_ok t -> telemetry_ok (count_connect t).
Proof. intros Ht. destruct t. counters; simpl in *; widths. Qed.

Lemma count_finished_ok t : telemetry_ok t -> telemetry_ok (count_finished t).
Proof. intros Ht. destruct t. counters; simpl in *; widths. Qed.

Lemma count_disconnect_ok r b t : telemetry_ok t -> telemetry_ok (count_disconnect r b t).
Proof. intros Ht. destruct t. destruct r, b; counters; simpl in *; widths. Qed.

Lemma count_tracker_reply_ok n t : is_int n -> telemetry_ok t -> telemetry_ok (count_tracker_reply n t).
Proof. intros Hn Ht. destruct t. counters; simpl in *; widths. Qed.

Lemma count_tracker_error_ok t : telemetry_ok t -> telemetry_ok (count_tracker_error t).
Proof. intros Ht. destruct t. counters; simpl in *; widths. Qed.

Lemma count_dht_reply_ok n t : is_int n -> telemetry_ok t -> telemetry_ok (count_dht_reply n t).
Proof. intros Hn Ht. destruct t. counters; simpl in *; widths. Qed.

(** The causes of disconnections add up to the disconnections, whatever the events. *)
Lemma count_disconnect_causes r b t : telemetry_ok t -> disconnects_ok t -> disconnects_ok (count_disconnect r b t).
Proof.
  intros Ht. unfold disconnects_ok. assert (Hw : Forall (fun f => is_u64 (f t))
    [tt_peer_disconnect_timeouts; tt_peer_disconnect_connect_failures; tt_peer_disconnect_redundant; tt_peer_disconnect_turnover;
     tt_peer_disconnect_other]).
  { apply Forall_forall. intros f Hf. destruct Ht as [_ Ht]. rewrite Forall_forall in Ht. apply Ht. clear -Hf. set_solver. }
  repeat match goal with H : Forall _ (_ :: _) |- _ => apply Forall_cons in H as [? Hw] end. destruct t. simpl in *. intros E.
  destruct r, b; simpl; unfold saturating_increment; zcases; ulia.
Qed.

(** *** The totals *)

(** A total grows like a sum that stops at the largest value of the counter. *)
Lemma total_of (f : TorrentTelemetry -> Z) (maximum : Z) (l : list (text * TorrentTelemetry)) r k :
  (forall r t k, f r = Z.min maximum k -> 0 <= k -> t ∈ l.*2 -> f (add_telemetry r t) = Z.min maximum (k + f t)) ->
  (forall t, t ∈ l.*2 -> 0 <= f t) -> f r = Z.min maximum k -> 0 <= k ->
  f (fold_left (fun r (e : text * TorrentTelemetry) => add_telemetry r e.2) l r) = Z.min maximum (k + zsum (f <$> l.*2)).
Proof.
  revert r k. induction l as [|e l IH]; intros r k Hstep Hpos Hr Hk; cbn [fold_left fmap list_fmap]; [by rewrite Z.add_0_r|].
  rewrite zsum_cons, (IH _ (k + f e.2)); [f_equal; lia| | |apply Hstep; [done..|by left]|].
  - intros r' t k' E Hk' Ht. apply Hstep; [done..|by right].
  - intros t Ht. apply Hpos. by right.
  - pose proof (Hpos e.2 ltac:(by left)). lia.
Qed.

(** [statistics] reports for every counter of the torrents' telemetry the sum over all the
    torrents, or the largest value of its type when the sum is larger. *)
Lemma statistics_total (telemetry : gmap text TorrentTelemetry) (o : OtherStats)
    (Hok : forall id t, telemetry !! id = Some t -> telemetry_ok t) :
  let ts := (map_to_list telemetry).*2 in
  let result := fill_stats (total_telemetry telemetry) o in
  Forall (fun p => p.2 result = Z.min U32_MAX (zsum (p.1 <$> ts))) counters32 /\
  Forall (fun p => p.2 result = Z.min U64_MAX (zsum (p.1 <$> ts))) counters64.
Proof.
  cbv zeta. set (ts := (map_to_list telemetry).*2).
  assert (Hts : forall t, t ∈ ts -> telemetry_ok t).
  { intros t ([id t'] & -> & Hin)%list_elem_of_fmap. apply elem_of_map_to_list in Hin. by eapply Hok. }
  assert (H32 : forall f t, f ∈ counters32.*1 -> t ∈ ts -> is_u32 (f t)).
  { intros f t Hf Ht. destruct (Hts t Ht) as [H _]. rewrite Forall_forall in H. by apply H. }
  assert (H64 : forall f t, f ∈ counters64.*1 -> t ∈ ts -> is_u64 (f t)).
  { intros f t Hf Ht. destruct (Hts t Ht) as [_ H]. rewrite Forall_forall in H. by apply H. }
  assert (Hadd : forall f maximum, (forall r t k, f r = Z.min maximum k -> 0 <= k -> t ∈ ts -> f (add_telemetry r t) = Z.min maximum (k + f t)) ->
    (forall t, t ∈ ts -> 0 <= f t) -> f no_telemetry = 0 -> 0 <= maximum -> f (total_telemetry telemetry) = Z.min maximum (zsum (f <$> ts))).
  { intros f maximum Hstep Hpos H0 Hm. unfold total_telemetry. rewrite (total_of f maximum _ _ 0); [by rewrite Z.add_0_l|done..| |done].
    rewrite H0. lia. }
  assert (Hsat : forall f, (forall t, t ∈ ts -> is_u64 (f t)) -> (forall r t, f (add_telemetry r t) = saturating_add (f r) (f t)) ->
    f no_telemetry = 0 -> f (total_telemetry telemetry) = Z.min U64_MAX (zsum (f <$> ts))).
  { intros f Hf Hstep H0. apply Hadd; [|intros t Ht; apply (Hf t Ht)|done|done]. intros r t k E Hk Ht. rewrite Hstep, E.
    apply saturating_add_step; auto. }
  assert (Hcut : forall z, bounded_count (Z.min U64_MAX z) = Z.min U32_MAX z) by (intros; unfold bounded_count; lia).
  assert (Hpeers : forall f, (forall t, t ∈ ts -> is_u32 (f t)) -> (forall r t, f (add_telemetry r t) = Z.min (wrap64 (f r + f t)) U32_MAX) ->
    f no_telemetry = 0 -> bounded_count (f (total_telemetry telemetry)) = Z.min U32_MAX (zsum (f <$> ts))).
  { intros f Hf Hstep H0. rewrite (Hadd f U32_MAX); [unfold bounded_count; lia| |intros t Ht; apply (Hf t Ht)|done|done].
    intros r t k E Hk Ht. pose proof (Hf t Ht). rewrite Hstep, E, wrap64_id by ulia. ulia. }
  assert (Hcount : forall f, f ∈ counters32.*1 -> (forall r t, f (add_telemetry r t) = saturating_add (f r) (f t)) ->
    f no_telemetry = 0 -> bounded_count (f (total_telemetry telemetry)) = Z.min U32_MAX (zsum (f <$> ts))).
  { intros f Hf Hstep H0. rewrite Hsat; [apply Hcut| |done|done]. intros t Ht. specialize (H32 f t Hf Ht). ulia. }
  split; repeat first [apply Forall_nil_2 | apply Forall_cons_2].
  all: match goal with
    | |- _ ?p = Z.min U64_MAX _ => apply Hsat; [intros t Ht; apply H64; [|done]|done|done]
    | |- _ => first [apply Hcount; [|done..]|apply Hpeers; [intros t Ht; apply H32; [|done]|done|done]]
    end.
  all: clear; set_solver.
Qed.
