(* ===== verification/BackendState.v ===== *)
(** The data of the libtorrent backend: src/torrent/libtorrent_backend.cpp, the types nested in
    [LibtorrentBackend] with its members, the session of libtorrent and the rest of the world
    as the class of calls [Host], and the monad in which the member functions are written.  A
    [RequestContext] lives in a store of the state, a pointer to it is an index. *)
From stdpp Require Import prelude strings list gmap.
From Stdlib Require Import ZArith Lia Ascii.
From S2P Require Import Prelude Text ByteRange PieceScheduler PieceCache EngineTypes Posix DiskCache AtomicFile BridgeState StreamSchedule StreamBridge StreamProgress BackendTelemetry.

(** ** libtorrent *)

(** [lt::info_hash_t]: the hashes that are set, in hexadecimal. *)
Record info_hash_t := MkHashes { ih_v1 : option text; ih_v2 : option text }.

(** [torrent_id(info_hashes)]. *)
Definition hashes_id (hashes : info_hash_t) : text :=
  match ih_v1 hashes with
  | Some v1 => v1
  | None => match ih_v2 hashes with Some v2 => v2 | None => [] end
  end.

Inductive torrent_flag := upload_mode | auto_managed | paused.
#[global] Instance torrent_flag_eq_dec : EqDecision torrent_flag.
Proof. solve_decision. Defined.
Inductive resume_flag := only_if_modified | save_info_dict.

(** [lt::add_torrent_params]: the members the code reads or writes, and the others. *)
Record add_torrent_params (P : Type) := MkParams {
  ap_info_hashes : info_hash_t; ap_trackers : list text; ap_ti : option torrent_info; ap_save_path : text;
  ap_upload_mode : bool; ap_auto_managed : bool; ap_paused : bool; ap_userdata : option nat; ap_others : P }.
Arguments MkParams {P}. Arguments ap_info_hashes {P}. Arguments ap_trackers {P}. Arguments ap_ti {P}.
Arguments ap_save_path {P}. Arguments ap_upload_mode {P}. Arguments ap_auto_managed {P}. Arguments ap_paused {P}.
Arguments ap_userdata {P}. Arguments ap_others {P}.

(** The alerts in the order of the casts of [pop_events]; an error, when set, has a message. *)
Inductive alert (H P : Type) :=
| add_torrent_alert (handle : H) (userdata : option nat) (error : option text)
| block_finished (a : block_finished_alert H)
| read_piece_done (a : read_piece_alert H)
| hash_failed (a : hash_failed_alert H)
| metadata_received_alert (handle : H)
| torrent_error_alert (handle : H) (message : text)
| file_error_alert (handle : H) (message : text)
| save_resume_data_alert (handle : H) (params : add_torrent_params P)
| save_resume_data_failed_alert (handle : H) (not_modified : bool) (message : text)
| torrent_finished_alert (handle : H)
| file_prio_alert (handle : H) (error : option text)
| torrent_removed_alert (hashes : info_hash_t) (userdata : option nat)
| state_update_alert (status : list (info_hash_t * torrent_status))
| peer_info_alert (handle : H) (peers : list peer_info)
| peer_connect_alert (handle : H)
| peer_disconnected_alert (handle : H) (reason : close_reason_t) (connecting : bool)
| tracker_reply_alert (handle : H) (num_peers : Z)
| tracker_error_alert (handle : H)
| dht_reply_alert (handle : H) (num_peers : Z)
| dht_bootstrap_alert
| other_alert.
Arguments add_torrent_alert {H P}. Arguments block_finished {H P}. Arguments read_piece_done {H P}. Arguments hash_failed {H P}.
Arguments metadata_received_alert {H P}. Arguments torrent_error_alert {H P}. Arguments file_error_alert {H P}.
Arguments save_resume_data_alert {H P}. Arguments save_resume_data_failed_alert {H P}. Arguments torrent_finished_alert {H P}.
Arguments file_prio_alert {H P}. Arguments torrent_removed_alert {H P}. Arguments state_update_alert {H P}.
Arguments peer_info_alert {H P}. Arguments peer_connect_alert {H P}. Arguments peer_disconnected_alert {H P}.
Arguments tracker_reply_alert {H P}. Arguments tracker_error_alert {H P}. Arguments dht_reply_alert {H P}.
Arguments dht_bootstrap_alert {H P}. Arguments other_alert {H P}.

(** ** The world of the backend *)

(** The calls on handles [H] and on the session, which may throw; the functions that read
    and write torrents; the file system under the disk cache and the state files; and the
    parts of the stream bridge outside its state. *)
Class Host (H W P : Type) := {
  host_torrents :: Torrents H W;
  host_disk :: FileSystem W;
  host_posix :: Posix W;
  host_interruptions : W -> nat;                        (* calls that will be interrupted *)
  lt_userdata : W -> H -> option nat;
  lt_status : W -> H -> outcome torrent_status;
  lt_set_flags : W -> H -> list torrent_flag -> list torrent_flag -> W * outcome unit;   (* flags, mask *)
  lt_unset_flags : W -> H -> list torrent_flag -> W * outcome unit;
  lt_save_resume_data : W -> H -> list resume_flag -> W * outcome unit;
  lt_prioritize_files : W -> H -> list download_priority_t -> W * outcome unit;
  lt_post_peer_info : W -> H -> W * outcome unit;
  lt_force_dht_announce : W -> H -> W * outcome unit;
  lt_parse_magnet_uri : text -> outcome (add_torrent_params P);
  lt_load_torrent_buffer : text -> outcome (add_torrent_params P);
  lt_read_resume_data : text -> outcome (add_torrent_params P);
  lt_write_resume_data_buf : add_torrent_params P -> outcome text;
  lt_async_add_torrent : W -> add_torrent_params P -> W * outcome unit;
  lt_remove_torrent : W -> H -> W * outcome unit;
  lt_pop_alerts : W -> W * list (alert H P);
  lt_wait_for_alert : W -> Z -> W;
  lt_post_torrent_updates : W -> W * outcome unit;
  lt_apply_settings : W -> settings_pack -> W * outcome unit;
  lt_session_state : W -> W * outcome text;             (* session_state and write_session_params_buf *)
  lt_read_session_params : text -> outcome text;        (* the DHT state of read_session_params *)
  lt_new_session : W -> settings_pack -> option text -> W * outcome unit;
  fs_now : W -> W * Z;                                  (* file_time_type::clock::now() *)
  create_directories : W -> path -> W * error_code;
  create_directory : W -> path -> W * (error_code * bool);
  br_random_token : W -> W * outcome text;
  br_port : W -> Z;
  br_active_requests : W -> Z;
  br_start_server : W -> Z -> W * outcome unit;         (* the LoopbackServer of the bridge, on a port *)
}.

(** ** The members *)

Record RequestContext := MkContext {
  rc_request_id : Z; rc_torrent_id : text; rc_metadata_emitted : bool; rc_explicitly_removed : bool;
  rc_metadata_source : MetadataSource; rc_metadata_started_at : Z }.

Record PendingPrepare := MkPrepare { pp_request_id : Z; pp_file_index : Z; pp_file : TorrentFileInfo }.

Record PendingDiskReclaim := MkReclaim { pr_request_id : Z; pr_target_bytes : Z }.

(** What the calls of a client still wait for: the contexts of torrents being added (the
    pointers that [pending_] owns), of the torrents in the session, and of those that were. *)
Record Backend (H : Type) := MkBackend {
  state_root_ : text;
  resume_directory : text;
  session_state_path : text;
  payload_directory : path;
  warm_torrent_timeout : Z;
  disk_cache : DiskCacheManager;
  contexts : list RequestContext;
  pending_adds : gset nat;
  active : gmap text nat;
  handles : gmap text H;
  telemetry : gmap text TorrentTelemetry;
  warm_since : gmap text Z;
  quiesced_torrents : gset text;
  pending_disk_reclaims : list PendingDiskReclaim;
  pending_prepares : gmap text PendingPrepare;
  pending_removals : gmap text Z;
  pending_resume_saves : gset nat;
  pending_cache_unloads : gset text;
  pending_cache_removals : gset text;
  retired : list nat;
  queued_events : list BackendEvent;
  last_resume_checkpoint : Z;
  last_session_checkpoint : Z;
  last_telemetry_request : Z;
  next_warm_check : Z;
  next_disk_cache_check : Z;
  next_disk_cache_measurement : Z;
  last_disk_cache_error : text;
  stopped : bool;                        (* shutting_down_ *)
  dht_ready : bool;
  fast_session_tick : bool;
  stream_bridge : Impl H;
}.
Arguments MkBackend {H}. Arguments state_root_ {H}. Arguments resume_directory {H}. Arguments session_state_path {H}.
Arguments payload_directory {H}. Arguments warm_torrent_timeout {H}. Arguments disk_cache {H}. Arguments contexts {H}.
Arguments pending_adds {H}. Arguments active {H}. Arguments handles {H}. Arguments telemetry {H}. Arguments warm_since {H}.
Arguments quiesced_torrents {H}. Arguments pending_disk_reclaims {H}. Arguments pending_prepares {H}.
Arguments pending_removals {H}. Arguments pending_resume_saves {H}. Arguments pending_cache_unloads {H}.
Arguments pending_cache_removals {H}. Arguments retired {H}. Arguments queued_events {H}.
Arguments last_resume_checkpoint {H}. Arguments last_session_checkpoint {H}. Arguments last_telemetry_request {H}.
Arguments next_warm_check {H}. Arguments next_disk_cache_check {H}. Arguments next_disk_cache_measurement {H}.
Arguments last_disk_cache_error {H}. Arguments stopped {H}. Arguments dht_ready {H}. Arguments fast_session_tick {H}.
Arguments stream_bridge {H}.

Section members.
Context {H : Type}.
Implicit Types b : Backend H.

Abbreviation members b :=
  (MkBackend (state_root_ b) (resume_directory b) (session_state_path b) (payload_directory b) (warm_torrent_timeout b)
     (disk_cache b) (contexts b) (pending_adds b) (active b) (handles b) (telemetry b) (warm_since b) (quiesced_torrents b)
     (pending_disk_reclaims b) (pending_prepares b) (pending_removals b) (pending_resume_saves b) (pending_cache_unloads b)
     (pending_cache_removals b) (retired b) (queued_events b) (last_resume_checkpoint b) (last_session_checkpoint b)
     (last_telemetry_request b) (next_warm_check b) (next_disk_cache_check b) (next_disk_cache_measurement b)
     (last_disk_cache_error b) (stopped b) (dht_ready b) (fast_session_tick b) (stream_bridge b)).

Definition set_disk_cache (v : DiskCacheManager) b : Backend H := ltac:(assign (members b) (@disk_cache H) v).
Definition set_contexts (v : list RequestContext) b : Backend H := ltac:(assign (members b) (@contexts H) v).
Definition set_pending_adds (v : gset nat) b : Backend H := ltac:(assign (members b) (@pending_adds H) v).
Definition set_active (v : gmap text nat) b : Backend H := ltac:(assign (members b) (@active H) v).
Definition set_handles (v : gmap text H) b : Backend H := ltac:(assign (members b) (@handles H) v).
Definition set_telemetry (v : gmap text TorrentTelemetry) b : Backend H := ltac:(assign (members b) (@telemetry H) v).
Definition set_warm_since (v : gmap text Z) b : Backend H := ltac:(assign (members b) (@warm_since H) v).
Definition set_quiesced_torrents (v : gset text) b : Backend H := ltac:(assign (members b) (@quiesced_torrents H) v).
Definition set_pending_disk_reclaims (v : list PendingDiskReclaim) b : Backend H := ltac:(assign (members b) (@pending_disk_reclaims H) v).
Definition set_pending_prepares (v : gmap text PendingPrepare) b : Backend H := ltac:(assign (members b) (@pending_prepares H) v).
Definition set_pending_removals (v : gmap text Z) b : Backend H := ltac:(assign (members b) (@pending_removals H) v).
Definition set_pending_resume_saves (v : gset nat) b : Backend H := ltac:(assign (members b) (@pending_resume_saves H) v).
Definition set_pending_cache_unloads (v : gset text) b : Backend H := ltac:(assign (members b) (@pending_cache_unloads H) v).
Definition set_pending_cache_removals (v : gset text) b : Backend H := ltac:(assign (members b) (@pending_cache_removals H) v).
Definition set_retired (v : list nat) b : Backend H := ltac:(assign (members b) (@retired H) v).
Definition set_queued_events (v : list BackendEvent) b : Backend H := ltac:(assign (members b) (@queued_events H) v).
Definition set_last_resume_checkpoint (v : Z) b : Backend H := ltac:(assign (members b) (@last_resume_checkpoint H) v).
Definition set_last_session_checkpoint (v : Z) b : Backend H := ltac:(assign (members b) (@last_session_checkpoint H) v).
Definition set_last_telemetry_request (v : Z) b : Backend H := ltac:(assign (members b) (@last_telemetry_request H) v).
Definition set_next_warm_check (v : Z) b : Backend H := ltac:(assign (members b) (@next_warm_check H) v).
Definition set_next_disk_cache_check (v : Z) b : Backend H := ltac:(assign (members b) (@next_disk_cache_check H) v).
Definition set_next_disk_cache_measurement (v : Z) b : Backend H := ltac:(assign (members b) (@next_disk_cache_measurement H) v).
Definition set_last_disk_cache_error (v : text) b : Backend H := ltac:(assign (members b) (@last_disk_cache_error H) v).
Definition set_stopped (v : bool) b : Backend H := ltac:(assign (members b) (@stopped H) v).
Definition set_dht_ready (v : bool) b : Backend H := ltac:(assign (members b) (@dht_ready H) v).
Definition set_fast_session_tick (v : bool) b : Backend H := ltac:(assign (members b) (@fast_session_tick H) v).
Definition set_stream_bridge (v : Impl H) b : Backend H := ltac:(assign (members b) (@stream_bridge H) v).
End members.

(** ** Programs *)

(** While a member function runs: the members, the world, and the vector of events that
    [pop_events] builds. *)
Record Run (H W : Type) := MkRun { backend : Backend H; world : W; events : list BackendEvent }.
Arguments MkRun {H W}. Arguments backend {H W}. Arguments world {H W}. Arguments events {H W}.

(** A program returns or throws; what it did before it threw stays done. *)
Definition op (H W A : Type) : Type := Run H W -> Run H W * outcome A.

#[global] Instance op_ret {H W} : MRet (op H W) := fun A a r => (r, Returned a).
#[global] Instance op_bind {H W} : MBind (op H W) := fun A B f m r =>
  match m r with
  | (r', Returned a) => f a r'
  | (r', Raised what) => (r', Raised what)
  end.

(** An event goes to the vector that [pop_events] returns or to [queued_events_]. *)
Inductive sink := to_events | to_queue.

Section programs.
Context {H W : Type}.
Implicit Types (A : Type).

Definition get {A} (f : Backend H -> A) : op H W A := fun r => (r, Returned (f (backend r))).
Definition modify (f : Backend H -> Backend H) : op H W unit := fun r => (MkRun (f (backend r)) (world r) (events r), Returned tt).
(** [throw std::runtime_error(what)]; [what()] of another exception. *)
Definition throw_error {A} (what : text) : op H W A := fun r => (r, Raised (Some what)).
(** What an expression is evaluated to: it may throw. *)
Definition value {A} (o : outcome A) : op H W A := fun r => (r, o).
(** A call of the world, and one that only reads it. *)
Definition perform {A} (f : W -> W * outcome A) : op H W A := fun r =>
  let '(w, o) := f (world r) in (MkRun (backend r) w (events r), o).
Definition change (f : W -> W) : op H W unit := fun r => (MkRun (backend r) (f (world r)) (events r), Returned tt).
Definition observe {A} (f : W -> outcome A) : op H W A := fun r => (r, f (world r)).
Definition look {A} (f : W -> A) : op H W A := fun r => (r, Returned (f (world r))).
(** A call of the stream bridge. *)
Definition bridge {A} (f : Impl H -> W -> (Impl H * W) * outcome A) : op H W A := fun r =>
  let '((s, w), o) := f (stream_bridge (backend r)) (world r) in (MkRun (set_stream_bridge s (backend r)) w (events r), o).
Definition bridge_ {A} (f : Impl H -> W -> (Impl H * W) * A) : op H W A :=
  bridge (fun s w => let '(sw, a) := f s w in (sw, Returned a)).
Definition bridge_look {A} (f : Impl H -> A) : op H W A := get (fun b => f (stream_bridge b)).

(** [try { body } catch (const std::exception& error) { handler(error.what()) }]. *)
Definition catch_exception {A} (body : op H W A) (handler : text -> op H W A) : op H W A := fun r =>
  match body r with
  | (r', Raised (Some what)) => handler what r'
  | other => other
  end.
(** [try { body } catch (...) { handler }]. *)
Definition catch_all {A} (body : op H W A) (handler : op H W A) : op H W A := fun r =>
  match body r with
  | (r', Raised _) => handler r'
  | other => other
  end.
(** [try { body } catch (...) { handler; throw; }]. *)
Definition rethrowing {A} (body : op H W A) (handler : op H W unit) : op H W A := fun r =>
  match body r with
  | (r', Raised what) => match handler r' with (r'', Returned _) => (r'', Raised what) | (r'', Raised what') => (r'', Raised what') end
  | other => other
  end.

Definition when (condition : bool) (m : op H W unit) : op H W unit := if condition then m else mret tt.

(** [for (x : l) body(x)]. *)
Fixpoint for_in {A} (l : list A) (body : A -> op H W unit) : op H W unit :=
  match l with
  | [] => mret tt
  | x :: l => _ ← body x; for_in l body
  end.

(** [push_back]. *)
Definition push (to : sink) (e : BackendEvent) : op H W unit := fun r =>
  match to with
  | to_events => (MkRun (backend r) (world r) (events r ++ [e]), Returned tt)
  | to_queue => (MkRun (set_queued_events (queued_events (backend r) ++ [e]) (backend r)) (world r) (events r), Returned tt)
  end.
End programs.

Definition now {H W P} `{Host H W P} : op H W Z := perform (fun w => let '(w, t) := lt_now w in (w, Returned t)).

(** The exception of a function over [result], as the [what()] of the backend. *)
Definition of_result {A} (r : result A) : outcome A :=
  match r with Ok a => Returned a | Throw e => Raised (Some (str (exn_what e))) end.

(** A function of src/storage as a call; [Raised None] stands for a loop whose fuel is used
    up, which [BackendStorage] excludes. *)
Definition stored {W A} (m : io W A) (w : W) : W * outcome A :=
  match m w with Some (w', r) => (w', of_result r) | None => (w, Raised None) end.

(** [storage::write_file_atomically], with the fuel for its loop. *)
Definition write_state_file {H W P} `{Host H W P} (destination contents : text) (w : W) : W * outcome unit :=
  stored (write_file_atomically (S (length contents + host_interruptions w)) destination contents) w.
