(* ===== verification/MemoryHost.v ===== *)
(** A world for the libtorrent backend, kept in memory: the concrete instance of [Host] on which
    its theorems are tried.  It extends [MemoryTorrent] with a session that knows one torrent
    and answers by alerts, with the disk of [DiskCache] and with state files. *)
From stdpp Require Import prelude strings list gmap.
From Stdlib Require Import ZArith Lia Ascii.
From S2P Require Import Prelude Text PieceCache EngineTypes Posix DiskCache AtomicFile BridgeState MemoryTorrent BackendTelemetry BackendState.

(** What the session has to tell. *)
Inductive notice := n_added (userdata : option nat) | n_removed (userdata : option nat) | n_saved (userdata : option nat)
  | n_priority | n_peers | n_status.

Record host := MkHost {
  mh_torrent : memory;
  mh_alerts : list notice;
  mh_userdata : option nat;
  mh_directories : list path;
  mh_files : Memory.world;
}.

Definition on_torrent {A} (f : memory -> memory * A) (w : host) : host * A :=
  let '(m, a) := f (mh_torrent w) in (MkHost m (mh_alerts w) (mh_userdata w) (mh_directories w) (mh_files w), a).
Definition alerting (a : notice) (w : host) : host :=
  MkHost (mh_torrent w) (mh_alerts w ++ [a]) (mh_userdata w) (mh_directories w) (mh_files w).

#[global] Instance host_memory : Torrents unit host := {|
  lt_v1_hex := lt_v1_hex (W := memory);
  lt_v2_hex := lt_v2_hex (W := memory);
  lt_is_valid w := lt_is_valid (mh_torrent w);
  lt_in_session w := lt_in_session (mh_torrent w);
  lt_torrent_file w := lt_torrent_file (mh_torrent w);
  lt_save_path w := lt_save_path (mh_torrent w);
  lt_query_pieces w := lt_query_pieces (mh_torrent w);
  lt_have_piece w := lt_have_piece (mh_torrent w);
  lt_get_download_queue w := lt_get_download_queue (mh_torrent w);
  lt_read_piece w h p := on_torrent (fun m => lt_read_piece m h p) w;
  lt_prioritize_pieces w h l := on_torrent (fun m => lt_prioritize_pieces m h l) w;
  lt_prioritize_updates w h l := on_torrent (fun m => lt_prioritize_updates m h l) w;
  lt_set_piece_deadline w h p t b := on_torrent (fun m => lt_set_piece_deadline m h p t b) w;
  lt_reset_piece_deadline w h p := on_torrent (fun m => lt_reset_piece_deadline m h p) w;
  lt_set_piece_first_block w h p b := on_torrent (fun m => lt_set_piece_first_block m h p b) w;
  lt_clear_piece_deadlines w h := on_torrent (fun m => lt_clear_piece_deadlines m h) w;
  lt_now w := on_torrent lt_now w;
|}.

(** Directories without payload. *)
#[global] Instance host_files : FileSystem host := {|
  symlink_status w p := if decide (p ∈ mh_directories w) then (None, ft_directory) else (Some ENOENT, ft_not_found);
  directory_iterator w p := (None, MkListing ((fun d => default [] (last d)) <$> filter (fun d => removelast d = p) (mh_directories w)) false);
  recursive_directory_iterator _ _ := (None, MkListing [] false);
  stat _ _ := inl ENOENT;
  last_write_time _ _ := (None, 0);
  set_last_write_time w _ _ := (w, None);
  remove_all w p :=
    (MkHost (mh_torrent w) (mh_alerts w) (mh_userdata w) (filter (fun d => d <> p) (mh_directories w)) (mh_files w), (None, 1));
|}.

Definition on_files {A} (f : Memory.world -> Memory.world * A) (w : host) : host * A :=
  let '(files, a) := f (mh_files w) in (MkHost (mh_torrent w) (mh_alerts w) (mh_userdata w) (mh_directories w) files, a).

#[global] Instance host_system : Posix host := {|
  px_open_read w p := on_files (fun f => px_open_read f p) w;
  px_open_directory w p := on_files (fun f => px_open_directory f p) w;
  px_create_exclusive w p := on_files (fun f => px_create_exclusive f p) w;
  px_read w fd n := on_files (fun f => px_read f fd n) w;
  px_pread w fd n off := on_files (fun f => px_pread f fd n off) w;
  px_write w fd t := on_files (fun f => px_write f fd t) w;
  px_fsync w fd := on_files (fun f => px_fsync f fd) w;
  px_close w fd := on_files (fun f => px_close f fd) w;
  px_rename w a b := on_files (fun f => px_rename f a b) w;
  px_remove w p := on_files (fun f => px_remove f p) w;
  px_create_directories w p := on_files (fun f => px_create_directories f p) w;
  px_symlink_status w p := px_symlink_status (mh_files w) p;
  px_file_size w p := px_file_size (mh_files w) p;
  px_read_stream w p n := px_read_stream (mh_files w) p n;
|}.

Definition demo_status : torrent_status := MkTorrentStatus true false 3 1 9 5 1000 10 123456 789.
Definition demo_params (userdata : option nat) : add_torrent_params unit :=
  MkParams (MkHashes (Some demo_id) None) [str "udp://tracker"] (Some demo_info) [] false true true userdata tt.

Definition alert_of (n : notice) : alert unit unit :=
  match n with
  | n_added userdata => add_torrent_alert tt userdata None
  | n_removed userdata => torrent_removed_alert (MkHashes (Some demo_id) None) userdata
  | n_saved userdata => save_resume_data_alert tt (demo_params userdata)
  | n_priority => file_prio_alert tt None
  | n_peers => peer_info_alert tt [MkPeer false false true false false true 5 2 1 4 0 1 [true; false; true; true]]
  | n_status => state_update_alert [(MkHashes (Some demo_id) None, demo_status)]
  end.

#[global] Instance memory_host : Host unit host unit := {|
  host_interruptions w := fv_pending (mh_files w);
  lt_userdata w _ := mh_userdata w;
  lt_status _ _ := Returned demo_status;
  lt_set_flags w _ _ _ := (w, Returned tt);
  lt_unset_flags w _ _ := (w, Returned tt);
  lt_save_resume_data w _ _ := (alerting (n_saved (mh_userdata w)) w, Returned tt);
  lt_prioritize_files w _ _ := (alerting n_priority w, Returned tt);
  lt_post_peer_info w _ := (alerting n_peers w, Returned tt);
  lt_force_dht_announce w _ := (w, Returned tt);
  lt_parse_magnet_uri _ := Returned (demo_params None);
  lt_load_torrent_buffer _ := Returned (demo_params None);
  lt_read_resume_data _ := Returned (demo_params None);
  lt_write_resume_data_buf _ := Returned (str "resume data");
  lt_async_add_torrent w p :=
    (alerting (n_added (ap_userdata p)) (MkHost (mh_torrent w) (mh_alerts w) (ap_userdata p) (mh_directories w) (mh_files w)),
     Returned tt);
  lt_remove_torrent w _ := (alerting (n_removed (mh_userdata w)) w, Returned tt);
  lt_pop_alerts w := (MkHost (mh_torrent w) [] (mh_userdata w) (mh_directories w) (mh_files w), alert_of <$> mh_alerts w);
  lt_wait_for_alert w _ := w;
  lt_post_torrent_updates w := (alerting n_status w, Returned tt);
  lt_apply_settings w _ := (w, Returned tt);
  lt_session_state w := (w, Returned (str "dht state"));
  lt_read_session_params t := Returned t;
  lt_new_session w _ _ := (w, Returned tt);
  fs_now w := (w, 7);
  create_directories w p :=
    (MkHost (mh_torrent w) (mh_alerts w) (mh_userdata w) (if decide (p ∈ mh_directories w) then mh_directories w else mh_directories w ++ [p])
       (mh_files w), None);
  create_directory w p := (MkHost (mh_torrent w) (mh_alerts w) (mh_userdata w) (mh_directories w ++ [p]) (mh_files w), (None, true));
  br_random_token w := (w, Returned (str "token"));
  br_port _ := 8080;
  br_active_requests _ := 0;
  br_start_server w _ := (w, Returned tt);
|}.

Definition demo_host : host := MkHost demo_memory [] None [] (Memory.MkWorld [] (fun _ => []) (fun _ => true) (fun _ => None) (fun _ => None) 3 0).
Definition demo_config : ProtocolBackendConfig :=
  MkBackendConfig NUVIO_ENGINE_UPLOAD_LIMITED 5000 (str "/state") (str "/cache") 0 (64 * 1024 * 1024) (512 * 1024 * 1024) 600000 60000
    NUVIO_ENGINE_TORRENT_PROFILE_BALANCED [].
