(* ===== verification/Backend.v ===== *)
(** The operations of the libtorrent backend: src/torrent/libtorrent_backend.cpp, the member
    functions of [LibtorrentBackend] over the session, the stream bridge and the disk cache. *)
From stdpp Require Import prelude strings list gmap.
From Stdlib Require Import ZArith Lia Ascii.
From S2P Require Import Prelude Text ByteRange PieceScheduler PieceCache EngineTypes Posix DiskCache AtomicFile BridgeState StreamSchedule StreamBridge StreamProgress BackendTelemetry BackendState.

(** [path / name]. *)
Definition path_append (p name : text) : text :=
  if bool_decide (filename p = []) then p ++ name else p ++ SLASH :: name.
Definition path_string (p : path) : text := foldl path_append [] p.

Definition state_root (config : ProtocolBackendConfig) : text :=
  path_append (pc_state_directory config) (str "nuvio-engine-state").

(** A pointer to a context; what it points to. *)
Definition no_context : RequestContext := MkContext 0 [] false false source_cold 0.
Definition deref {H} (b : Backend H) (p : nat) : RequestContext := default no_context (contexts b !! p).
(** [context != nullptr && context->explicitly_removed]. *)
Definition is_removed {H} (context : option nat) (b : Backend H) : bool :=
  match context with Some p => rc_explicitly_removed (deref b p) | None => false end.
(** The torrent of a context, or what the alert says when there is none. *)
Definition known_id {H} (context : option nat) (id : text) (b : Backend H) : text :=
  match context with Some p => match rc_torrent_id (deref b p) with [] => id | known => known end | None => id end.
(** [pointers.contains(p)]. *)
Definition holds (pointers : gset nat) (p : option nat) : bool := match p with Some p => bool_decide (p ∈ pointers) | None => false end.

Section small.
Context {H : Type}.
Implicit Types b : Backend H.

Definition set_explicitly_removed (v : bool) (p : nat) b : Backend H :=
  set_contexts (alter (fun c => MkContext (rc_request_id c) (rc_torrent_id c) (rc_metadata_emitted c) v (rc_metadata_source c)
                                  (rc_metadata_started_at c)) p (contexts b)) b.
Definition set_metadata_emitted (p : nat) b : Backend H :=
  set_contexts (alter (fun c => MkContext (rc_request_id c) (rc_torrent_id c) true (rc_explicitly_removed c) (rc_metadata_source c)
                                  (rc_metadata_started_at c)) p (contexts b)) b.
Definition set_context_torrent (id : text) (p : nat) b : Backend H :=
  set_contexts (alter (fun c => MkContext (rc_request_id c) id (rc_metadata_emitted c) (rc_explicitly_removed c) (rc_metadata_source c)
                                  (rc_metadata_started_at c)) p (contexts b)) b.
Definition set_request (request_id started : Z) (p : nat) b : Backend H :=
  set_contexts (alter (fun c => MkContext request_id (rc_torrent_id c) (rc_metadata_emitted c) (rc_explicitly_removed c)
                                  (rc_metadata_source c) started) p (contexts b)) b.

(** [container.erase(key)]. *)
Definition erase_add (p : option nat) b : Backend H :=
  match p with Some p => set_pending_adds (pending_adds b ∖ {[p]}) b | None => b end.
Definition erase_save (p : option nat) b : Backend H :=
  match p with Some p => set_pending_resume_saves (pending_resume_saves b ∖ {[p]}) b | None => b end.
Definition erase_prepare (id : text) b : Backend H := set_pending_prepares (delete id (pending_prepares b)) b.
Definition erase_removal (id : text) b : Backend H := set_pending_removals (delete id (pending_removals b)) b.
Definition erase_unload (id : text) b : Backend H := set_pending_cache_unloads (pending_cache_unloads b ∖ {[id]}) b.
Definition erase_cache_removal (id : text) b : Backend H := set_pending_cache_removals (pending_cache_removals b ∖ {[id]}) b.
Definition erase_warm (id : text) b : Backend H := set_warm_since (delete id (warm_since b)) b.
Definition erase_quiesced (id : text) b : Backend H := set_quiesced_torrents (quiesced_torrents b ∖ {[id]}) b.

Definition resume_path b (id : text) : text := path_append (resume_directory b) (id ++ str ".resume").
End small.

Definition error_event (request_id : Z) (id message : text) : BackendEvent := backend_event torrent_error request_id id message [].

Section code.
Context {H W P : Type} `{Host H W P}.
Abbreviation op := (op H W).

(** *** Handles *)

Definition is_valid (handle : H) : op bool := look (fun w => lt_is_valid w handle).
Definition userdata (handle : H) : op (option nat) := look (fun w => lt_userdata w handle).
Definition status (handle : H) : op torrent_status := observe (fun w => lt_status w handle).
Definition set_flags (handle : H) (flags mask : list torrent_flag) : op unit := perform (fun w => lt_set_flags w handle flags mask).
Definition has_stream (id : text) : op bool := bridge_look (fun s => has_stream_for_torrent s id).

(** [handles_.find(id)] with [is_valid()]. *)
Definition find_valid (id : text) : op (option H) :=
  found ← get (fun b => handles b !! id);
  match found with
  | None => mret None
  | Some handle => valid ← is_valid handle; mret (if (valid : bool) then Some handle else None)
  end.

(** *** The disk cache *)

Definition report_disk_cache_error (message : text) (to : sink) : op unit :=
  last ← get last_disk_cache_error;
  if text_eqb message last then mret tt
  else
    _ ← modify (set_last_disk_cache_error message);
    push to (error_event 0 [] (str "disk cache policy error: " ++ message)).

Definition disk_touch (id : text) : op unit := fun r =>
  let '(w, t) := fs_now (world r) in
  let '(w, o) := touch (disk_cache (backend r)) w id t in (MkRun (backend r) w (events r), of_result o).
Definition disk_enforce (protected_ids : gset text) (target : Z) : op DiskCacheStats := fun r =>
  let '(w, m, o) := enforce (disk_cache (backend r)) (world r) protected_ids target in
  (MkRun (set_disk_cache m (backend r)) w (events r), of_result o).
Definition disk_measure (protected_ids : gset text) : op DiskCacheStats := fun r =>
  let '(m, o) := measure (disk_cache (backend r)) (world r) protected_ids in
  (MkRun (set_disk_cache m (backend r)) (world r) (events r), of_result o).

Definition touch_disk_cache (id : text) : op unit :=
  catch_exception
    (_ ← disk_touch id; modify (set_last_disk_cache_error []))
    (fun what => report_disk_cache_error what to_queue).

Definition protected_torrents (b : Backend H) (w : W) : gset text :=
  list_to_set (fst <$> filter (fun e : text * H => lt_is_valid w e.2 = true) (map_to_list (handles b))) ∪
  list_to_set (filter (fun id => id <> []) ((fun p => rc_torrent_id (deref b p)) <$> elements (pending_adds b))).
Definition protected : op (gset text) := fun r => (r, Returned (protected_torrents (backend r) (world r))).

(** *** Flags *)

Definition mark_warm (id : text) : op unit :=
  t ← now;
  modify (fun b => set_warm_since (match warm_since b !! id with Some _ => warm_since b | None => <[id := t]> (warm_since b) end) b).

Definition focus_one (requested_id : text) (entry : text * H) : op unit :=
  let '(id, handle) := entry in
  valid ← is_valid handle;
  streaming ← has_stream id;
  if bool_decide (id = requested_id) || negb valid || streaming then mret tt
  else
    catch_all
      (_ ← set_flags handle [upload_mode] [upload_mode];
       _ ← set_flags handle [paused] [paused; auto_managed];
       _ ← mark_warm id;
       modify (fun b => set_quiesced_torrents ({[id]} ∪ quiesced_torrents b) b))
      (mret tt).

Definition focus_torrent (requested_id : text) : op unit :=
  entries ← get (fun b => map_to_list (handles b));
  for_in entries (focus_one requested_id).

Definition activate_torrent (id : text) (handle : H) : op unit :=
  _ ← modify (erase_unload id);
  _ ← set_flags handle [upload_mode] [upload_mode];
  _ ← set_flags handle [] [paused; auto_managed];
  modify (fun b => erase_warm id (erase_quiesced id b)).

(** The torrent of a stream that ended: [mark_warm] and, without other streams, the upload mode. *)
Definition leave_torrent (id : text) : op unit :=
  _ ← mark_warm id;
  found ← find_valid id;
  match found with
  | None => mret tt
  | Some handle =>
    streaming ← has_stream id;
    if (streaming : bool) then mret tt else catch_all (set_flags handle [upload_mode] [upload_mode]) (mret tt)
  end.

(** *** Resume data and unloading *)

Definition request_resume_save (handle : H) (flags : list resume_flag) : op unit :=
  valid ← is_valid handle;
  if negb valid then mret tt
  else
    context ← userdata handle;
    match context with
    | None => mret tt
    | Some p =>
      skip ← get (fun b => rc_explicitly_removed (deref b p) || bool_decide (p ∈ pending_resume_saves b));
      if (skip : bool) then mret tt
      else
        _ ← modify (fun b => set_pending_resume_saves ({[p]} ∪ pending_resume_saves b) b);
        catch_all (perform (fun w => lt_save_resume_data w handle flags)) (modify (erase_save (Some p)))
    end.

Definition begin_cache_unload (id : text) (handle : H) : op unit :=
  present ← get (fun b => bool_decide (id ∈ pending_cache_unloads b));
  _ ← modify (erase_unload id);
  valid ← is_valid handle;
  if negb present || negb valid then mret tt
  else
    _ ← modify (fun b => set_pending_cache_removals ({[id]} ∪ pending_cache_removals b) b);
    catch_exception (perform (fun w => lt_remove_torrent w handle))
      (fun what =>
         _ ← modify (erase_cache_removal id);
         report_disk_cache_error (str "failed to unload inactive torrent: " ++ what) to_events).

Definition unload_one (include_warm : bool) (id : text) : op unit :=
  skip ← get (fun b =>
    (negb include_warm && negb (bool_decide (id ∈ quiesced_torrents b))) || bool_decide (is_Some (pending_removals b !! id)) ||
    bool_decide (id ∈ pending_cache_unloads b) || bool_decide (id ∈ pending_cache_removals b) ||
    has_stream_for_torrent (stream_bridge b) id);
  if (skip : bool) then mret tt
  else
    found ← find_valid id;
    match found with
    | None => mret tt
    | Some handle =>
      _ ← modify (fun b => set_pending_cache_unloads ({[id]} ∪ pending_cache_unloads b) b);
      context ← userdata handle;
      _ ← request_resume_save handle [save_info_dict];
      saving ← get (fun b => holds (pending_resume_saves b) context);
      if (saving : bool) then mret tt else begin_cache_unload id handle
    end.

Definition request_cache_unloads (include_warm : bool) : op bool :=
  ids ← get (fun b => fst <$> map_to_list (warm_since b));
  _ ← for_in ids (unload_one include_warm);
  get (fun b => negb (bool_decide (pending_cache_unloads b = ∅)) || negb (bool_decide (pending_cache_removals b = ∅))).

(** The resume data of a torrent goes to its file, or an error to the client. *)
Definition persist_torrent (id : text) (params : add_torrent_params P) : op unit :=
  catch_exception
    (contents ← value (lt_write_resume_data_buf params);
     if maximum_resume_state_size <? Z.of_nat (length contents)
     then throw_error (str "torrent state exceeds configured size limit")
     else destination ← get (fun b => resume_path b id); perform (write_state_file destination contents))
    (fun what => push to_events (error_event 0 id (str "failed to persist torrent state: " ++ what))).

Definition handle_resume_saved (handle : H) (params : add_torrent_params P) : op unit :=
  context ← userdata handle;
  _ ← modify (erase_save context);
  removed ← get (is_removed context);
  if (removed : bool) then mret tt
  else
    id ← get (known_id context (torrent_id handle));
    if negb (is_canonical_torrent_id id) then mret tt
    else
      _ ← persist_torrent id params;
      unloading ← get (fun b => bool_decide (id ∈ pending_cache_unloads b));
      when unloading (begin_cache_unload id handle).

Definition handle_resume_save_failed (handle : H) (not_modified : bool) (message : text) : op unit :=
  context ← userdata handle;
  _ ← modify (erase_save context);
  removed ← get (is_removed context);
  if (removed : bool) then mret tt
  else
    id ← get (known_id context (torrent_id handle));
    unloading ← get (fun b => bool_decide (id ∈ pending_cache_unloads b));
    if (unloading : bool) then begin_cache_unload id handle
    else if not_modified then mret tt
    else push to_events (error_event 0 id (str "failed to create torrent state: " ++ message)).

Definition save_session_state : op unit :=
  contents ← perform lt_session_state;
  if maximum_session_state_size <? Z.of_nat (length contents) then throw_error (str "DHT state exceeds configured size limit")
  else destination ← get session_state_path; perform (write_state_file destination contents).

(** The loop over the torrents that are not being removed. *)
Definition save_all (flags : list resume_flag) : op unit :=
  entries ← get (fun b => map_to_list (handles b));
  for_in entries (fun entry =>
    removing ← get (fun b => bool_decide (is_Some (pending_removals b !! entry.1)));
    if (removing : bool) then mret tt else request_resume_save entry.2 flags).

Definition checkpoint_torrents (t : Z) : op unit :=
  last ← get last_resume_checkpoint;
  when (seconds 30 <=? t - last)
    (_ ← save_all [only_if_modified; save_info_dict]; modify (set_last_resume_checkpoint t)).

Definition checkpoint_session (t : Z) : op unit :=
  last ← get last_session_checkpoint;
  when (seconds (5 * 60) <=? t - last)
    (_ ← catch_exception save_session_state
           (fun what => push to_events (error_event 0 [] (str "failed to persist DHT state: " ++ what)));
     modify (set_last_session_checkpoint t)).

Definition run_periodic_checkpoints : op unit :=
  stopping ← get stopped;
  if (stopping : bool) then mret tt
  else t ← now; _ ← checkpoint_torrents t; checkpoint_session t.

Definition request_telemetry_update : op unit :=
  stopping ← get stopped;
  if (stopping : bool) then mret tt
  else
    t ← now;
    last ← get last_telemetry_request;
    if t - last <? seconds 1 then mret tt
    else
      _ ← perform lt_post_torrent_updates;
      entries ← get (fun b => map_to_list (handles b));
      _ ← for_in entries (fun entry => valid ← is_valid entry.2; when valid (perform (fun w => lt_post_peer_info w entry.2)));
      modify (set_last_telemetry_request t).

(** *** The policy of the disk cache *)

Definition enforce_disk_cache : op unit :=
  catch_exception
    (ids ← protected;
     target ← get (fun b => capacity_bytes (DiskCache.stats (disk_cache b)));
     st ← disk_enforce ids target;
     _ ← modify (set_last_disk_cache_error []);
     when (over_budget st) (_ ← request_cache_unloads false; mret tt))
    (fun what => report_disk_cache_error what to_events).

(** [stream_bridge_->statistics()]. *)
Definition bridge_statistics : op StreamBridgeStats :=
  requests ← look br_active_requests;
  bridge_ (StreamProgress.statistics requests).

Definition streams_busy : op bool :=
  stream ← bridge_statistics;
  mret ((0 <? sbs_active_http_requests stream) || (0 <? sbs_active_demands stream)).

(** The answer to a request to reclaim disk space. *)
Definition reclaim_event (st : DiskCacheStats) (request : PendingDiskReclaim) : BackendEvent :=
  let effective_target := Z.min (pr_target_bytes request) (capacity_bytes st) in
  backend_event disk_cache_reclaimed (pr_request_id request) []
    (if used_bytes st <=? effective_target then str "disk cache reclaim target reached"
     else str "disk cache reclaim limited by protected torrent data") [].

Definition process_disk_reclaims : op unit :=
  skip ← get (fun b => match pending_disk_reclaims b with [] => true | _ => stopped b end);
  if (skip : bool) then mret tt
  else
    busy ← streams_busy;
    if (busy : bool) then mret tt
    else
      unloading ← request_cache_unloads true;
      if (unloading : bool) then mret tt
      else
        requests ← get pending_disk_reclaims;
        _ ← modify (set_pending_disk_reclaims []);
        t ← now;
        _ ← modify (set_next_disk_cache_check (t + seconds 30));
        capacity ← get (fun b => capacity_bytes (DiskCache.stats (disk_cache b)));
        let target := fold_left (fun target request => Z.min target (pr_target_bytes request)) requests capacity in
        catch_exception
          (ids ← protected;
           st ← disk_enforce ids target;
           _ ← modify (set_last_disk_cache_error []);
           for_in requests (fun request => push to_events (reclaim_event st request)))
          (fun what =>
             for_in requests (fun request =>
               push to_events (error_event (pr_request_id request) [] (str "disk cache reclaim failed: " ++ what)))).

Definition measure_disk_cache (t : Z) : op unit :=
  next ← get next_disk_cache_measurement;
  if t <? next then mret tt
  else
    _ ← modify (set_next_disk_cache_measurement (t + seconds 5));
    catch_exception
      (ids ← protected; _ ← disk_measure ids; modify (set_last_disk_cache_error []))
      (fun what => report_disk_cache_error what to_events).

Definition run_disk_cache_enforcement : op unit :=
  stopping ← get stopped;
  if (stopping : bool) then mret tt
  else
    t ← now;
    next ← get next_disk_cache_check;
    if t <? next then mret tt
    else
      busy ← streams_busy;
      if (busy : bool) then _ ← modify (set_next_disk_cache_check (t + seconds 1)); measure_disk_cache t
      else _ ← modify (set_next_disk_cache_check (t + seconds 30)); enforce_disk_cache.

Definition quiesce_one (t : Z) (entry : text * Z) : op unit :=
  let '(id, since) := entry in
  timeout ← get warm_torrent_timeout;
  quiesced ← get (fun b => bool_decide (id ∈ quiesced_torrents b));
  if (quiesced : bool) || (t - since <? milliseconds timeout) then mret tt
  else
    found ← find_valid id;
    match found with
    | None => mret tt
    | Some handle =>
      _ ← request_resume_save handle [only_if_modified; save_info_dict];
      _ ← set_flags handle [paused] [paused; auto_managed];
      _ ← set_flags handle [upload_mode] [upload_mode];
      modify (fun b => set_quiesced_torrents ({[id]} ∪ quiesced_torrents b) b)
    end.

(** [warm_torrent_timeout] is in milliseconds. *)
Definition run_warm_quiescence : op unit :=
  skip ← get (fun b => stopped b || (warm_torrent_timeout b =? 0) || bool_decide (warm_since b = ∅));
  if (skip : bool) then mret tt
  else
    t ← now;
    next ← get next_warm_check;
    if t <? next then mret tt
    else
      _ ← modify (fun b => set_next_warm_check (t + milliseconds (clamp (warm_torrent_timeout b / 2) 25 1000)) b);
      entries ← get (fun b => map_to_list (warm_since b));
      for_in entries (quiesce_one t).

(** *** Telemetry *)

Definition alter_telemetry (id : text) (f : TorrentTelemetry -> TorrentTelemetry) : op unit :=
  modify (fun b => set_telemetry (alter f id (telemetry b)) b).

(** [telemetry_[id] = ...] for a torrent that the backend knows. *)
Definition assign_known (id : text) (f : TorrentTelemetry -> TorrentTelemetry) (b : Backend H) : Backend H :=
  match handles b !! id with
  | None => b
  | Some _ => set_telemetry (<[id := f (default no_telemetry (telemetry b !! id))]> (telemetry b)) b
  end.

Definition handle_state_update (l : list (info_hash_t * torrent_status)) : op unit :=
  for_in l (fun e => modify (assign_known (hashes_id e.1) (update_status e.2))).

Definition handle_peer_info (handle : H) (peers : list peer_info) : op unit :=
  let id := torrent_id handle in
  blocking_now ← bridge_look (fun s => blocking_pieces s id);
  modify (assign_known id (update_peers (count_peers blocking_now peers))).

Definition update_session_tick : op unit :=
  stopping ← get stopped;
  if (stopping : bool) then mret tt
  else
    streaming ← get (fun b => existsb (fun e : text * H => has_stream_for_torrent (stream_bridge b) e.1) (map_to_list (handles b)));
    fast ← get fast_session_tick;
    if Bool.eqb streaming fast then mret tt
    else
      _ ← perform (fun w => lt_apply_settings w
            [(str "tick_interval", set_int (if (streaming : bool) then streaming_session_tick_milliseconds else idle_session_tick_milliseconds))]);
      modify (set_fast_session_tick streaming).

Definition announce_to_dht : op unit :=
  entries ← get (fun b => map_to_list (handles b));
  for_in entries (fun entry => valid ← is_valid entry.2; when valid (perform (fun w => lt_force_dht_announce w entry.2))).

(** *** Events *)

Definition prepared_event (handle : H) (id : text) (prepare : PendingPrepare) : op BackendEvent :=
  stream ← bridge (fun s w =>
    let '(w, token) := br_random_token w in
    register_stream handle id (pp_file_index prepare) (pp_file prepare) token (br_port w) s w);
  mret (MkBackendEvent stream_prepared (pp_request_id prepare) id [] [] (pp_file_index prepare) (fi_size (pp_file prepare))
          (ps_stream_id stream) (ps_url stream)).

Definition metadata_event (handle : H) (context : option RequestContext) (source : MetadataSource) : op BackendEvent :=
  elapsed ← match context with
            | None => mret 0
            | Some c =>
              if rc_metadata_started_at c =? 0 then mret 0
              else t ← now; mret (Z.quot (t - rc_metadata_started_at c) (milliseconds 1))
            end;
  let message := str "metadata_source=" ++ metadata_source_name source ++ str " metadata_elapsed_ms=" ++ to_string (Z.max elapsed 0) in
  metadata ← observe (fun w => lt_torrent_file w handle);
  mret (backend_event metadata_ready (match context with Some c => rc_request_id c | None => 0 end) (torrent_id handle) message
          (match metadata with
           | None => []
           | Some m => (fun f => MkFileInfo (fi_path f) (wrap64 (fi_offset f)) (wrap64 (fi_size f))) <$> info_files m
           end)).

(** [pending_] and [active_] when a torrent has been added: the torrent's own context becomes
    active; the context of a torrent that was there already is given up. *)
Definition adopt_context (id : text) (p : nat) (own : bool) (b : Backend H) : Backend H :=
  if own then
    let b := match active b !! id with
             | Some old => set_active (delete id (active b)) (set_retired (retired b ++ [old]) b)
             | None => b
             end in
    erase_add (Some p) (set_active (<[id := p]> (active b)) b)
  else b.

Definition handle_added (handle : H) (context : option nat) (error : option text) : op unit :=
  request_id ← get (fun b => match context with Some p => rc_request_id (deref b p) | None => 0 end);
  match error with
  | Some message =>
    _ ← push to_events (error_event request_id [] message);
    modify (erase_add context)
  | None =>
    let id := torrent_id handle in
    _ ← modify (fun b => set_handles (<[id := handle]> (handles b)) b);
    _ ← modify (fun b => set_telemetry (match telemetry b !! id with Some _ => telemetry b | None => <[id := no_telemetry]> (telemetry b) end) b);
    ready ← get dht_ready;
    _ ← when ready (perform (fun w => lt_force_dht_announce w handle));
    discard ← match context with
              | None => mret false
              | Some p =>
                _ ← modify (set_context_torrent id p);
                pending ← get (fun b => bool_decide (p ∈ pending_adds b));
                if (pending : bool) then
                  own ← userdata handle;
                  _ ← modify (adopt_context id p (bool_decide (own = Some p)));
                  mret (negb (bool_decide (own = Some p)))
                else mret false
              end;
    _ ← push to_events (backend_event torrent_added request_id id [] []);
    st ← status handle;
    emitted ← get (fun b => match context with Some p => rc_metadata_emitted (deref b p) | None => true end);
    _ ← match context with
        | Some p =>
          if ts_has_metadata st && negb emitted then
            _ ← modify (set_metadata_emitted p);
            c ← get (fun b => deref b p);
            event ← metadata_event handle (Some c) (rc_metadata_source c);
            _ ← push to_events event;
            when (negb (bool_decide (rc_metadata_source c = source_restored))) (request_resume_save handle [save_info_dict])
          else mret tt
        | None => mret tt
        end;
    when discard (modify (erase_add context))
  end.

Definition handle_metadata (handle : H) : op unit :=
  context ← userdata handle;
  emitted ← get (fun b => match context with Some p => rc_metadata_emitted (deref b p) | None => false end);
  if (emitted : bool) then mret tt
  else
    _ ← modify (fun b => match context with Some p => set_metadata_emitted p b | None => b end);
    c ← get (fun b => deref b <$> context);
    event ← metadata_event handle c source_cold;
    _ ← push to_events event;
    request_resume_save handle [save_info_dict].

Definition handle_error (handle : H) (message : text) : op unit :=
  context ← userdata handle;
  request_id ← get (fun b => match context with Some p => rc_request_id (deref b p) | None => 0 end);
  push to_events (error_event request_id (torrent_id handle) message).

Definition handle_file_priority (handle : H) (error : option text) : op unit :=
  let id := torrent_id handle in
  pending ← get (fun b => pending_prepares b !! id);
  match pending with
  | None => mret tt
  | Some prepare =>
    let failed message := push to_events (error_event (pp_request_id prepare) id message) in
    _ ← match error with
        | Some message => failed message
        | None =>
          catch_exception
            (_ ← perform (fun w => lt_unset_flags w handle [upload_mode]);
             event ← prepared_event handle id prepare;
             _ ← push to_events event;
             request_resume_save handle [only_if_modified; save_info_dict])
            failed
        end;
    modify (erase_prepare id)
  end.

Definition handle_file_error (handle : H) (message : text) : op unit :=
  let id := torrent_id handle in
  pending ← get (fun b => pending_prepares b !! id);
  match pending with
  | None => mret tt
  | Some prepare =>
    _ ← push to_events (error_event (pp_request_id prepare) id message);
    modify (erase_prepare id)
  end.

(** [storage::remove_file_if_present(resume_path(id))] with its error as an event. *)
Definition remove_resume_file (request_id : Z) (id : text) (to : sink) : op unit :=
  catch_exception
    (destination ← get (fun b => resume_path b id); perform (stored (remove_file_if_present destination)))
    (fun what => push to (error_event request_id id (str "failed to remove persisted torrent state: " ++ what))).

Definition bridge_remove_torrent (id : text) : op unit := bridge_ (fun s w => (StreamBridge.remove_torrent id s w, tt)).

(** The tables that lose a torrent when it has left the session. *)
Definition forget_torrent (id : text) (b : Backend H) : Backend H :=
  let b := set_telemetry (delete id (telemetry b)) (set_handles (delete id (handles b)) b) in
  erase_quiesced id (erase_warm id b).

Definition retire_context (id : text) (b : Backend H) : Backend H :=
  match active b !! id with
  | Some old => set_active (delete id (active b)) (set_retired (retired b ++ [old]) b)
  | None => b
  end.

Definition handle_removed (hashes : info_hash_t) (context : option nat) : op unit :=
  id ← get (known_id context (hashes_id hashes));
  request_id ← get (fun b => default 0 (pending_removals b !! id));
  cache_removal ← get (fun b => bool_decide (id ∈ pending_cache_removals b));
  _ ← modify (fun b => erase_unload id (erase_cache_removal id b));
  _ ← push to_events (backend_event torrent_removed request_id id [] []);
  _ ← modify (erase_removal id);
  _ ← modify (forget_torrent id);
  _ ← bridge_remove_torrent id;
  _ ← modify (fun b => erase_save context (erase_prepare id b));
  _ ← when (negb cache_removal) (remove_resume_file request_id id to_events);
  _ ← modify (retire_context id);
  busy ← streams_busy;
  if (busy : bool) then t ← now; modify (set_next_disk_cache_check (t + seconds 1))
  else enforce_disk_cache.

(** *** The calls of [ProtocolBackend] *)

Definition make_context (c : RequestContext) : op nat := fun r =>
  (MkRun (set_contexts (contexts (backend r) ++ [c]) (backend r)) (world r) (events r), Returned (length (contexts (backend r)))).

Definition load_resume_state (id : text) : op (option (add_torrent_params P)) :=
  catch_exception
    (source ← get (fun b => resume_path b id);
     contents ← perform (stored (read_bounded_file source maximum_resume_state_size));
     match contents with
     | None => mret None
     | Some [] => throw_error (str "resume file is empty")
     | Some contents =>
       params ← value (lt_read_resume_data contents);
       if bool_decide (hashes_id (ap_info_hashes params) <> id) then throw_error (str "resume file hash does not match its name")
       else mret (Some params)
     end)
    (fun what => _ ← push to_queue (error_event 0 id (str "ignored persisted torrent state: " ++ what)); mret None).

(** The directory of a torrent's payload: it exists as a directory, or is created. *)
Definition prepare_payload_path (id : text) : op text :=
  if negb (is_canonical_torrent_id id) then throw_error (str "payload path requires a canonical info hash")
  else
    root ← get payload_directory;
    error ← perform (fun w => let '(w, e) := create_directories w root in (w, Returned e));
    if bool_decide (is_Some error) then throw_error (str "create torrent payload root")
    else
      root_status ← look (fun w => symlink_status w root);
      let '(error, type) := (root_status : error_code * file_type) in
      if bool_decide (is_Some error) then throw_error (str "inspect torrent payload root")
      else if negb (bool_decide (type = ft_directory)) then throw_error (str "torrent payload root is not a real directory")
      else
        let target := root ++ [id] in
        target_status ← look (fun w => symlink_status w target);
        let '(error, type) := (target_status : error_code * file_type) in
        let missing := bool_decide (error = Some ENOENT) || bool_decide (type = ft_not_found) in
        if bool_decide (is_Some error) && negb missing then throw_error (str "inspect torrent payload directory")
        else if negb missing && negb (bool_decide (type = ft_directory)) then throw_error (str "torrent payload path is not a real directory")
        else if missing then
          made ← perform (fun w => let '(w, r) := create_directory w target in (w, Returned r));
          let '(error, created) := (made : error_code * bool) in
          if bool_decide (is_Some error) then throw_error (str "create torrent payload directory")
          else if created then mret (path_string target)
          else
            raced_status ← look (fun w => symlink_status w target);
            let '(error, type) := (raced_status : error_code * file_type) in
            if bool_decide (is_Some error) || negb (bool_decide (type = ft_directory))
            then throw_error (str "torrent payload directory creation was replaced")
            else mret (path_string target)
        else mret (path_string target).

Definition add_tracker (trackers : list text) (tracker : text) : list text :=
  if bool_decide (tracker ∈ trackers) then trackers else trackers ++ [tracker].

(** The parameters of a torrent with its resume data, and where its metadata is from. *)
Definition merge_resume (source : add_torrent_params P) (type : TorrentInputType) (resume : option (add_torrent_params P)) :
    add_torrent_params P * MetadataSource :=
  match resume with
  | None => (source, match type with input_torrent_data => source_provided | input_magnet => source_cold end)
  | Some p =>
    let '(ti, from) := match ap_ti p, ap_ti source with
                       | Some ti, _ => (Some ti, source_restored)
                       | None, Some ti => (Some ti, source_provided)
                       | None, None => (None, source_cold)
                       end in
    (MkParams (ap_info_hashes p) (fold_left add_tracker (ap_trackers source) (ap_trackers p)) ti (ap_save_path p)
       (ap_upload_mode p) (ap_auto_managed p) (ap_paused p) (ap_userdata p) (ap_others p), from)
  end.

(** The parameters that [add_torrent] passes to the session. *)
Definition session_params (p : add_torrent_params P) (save_path : text) (context : nat) : add_torrent_params P :=
  MkParams (ap_info_hashes p) (ap_trackers p) (ap_ti p) save_path true false false (Some context) (ap_others p).

(** [add_torrent] of a torrent that is in the session. *)
Definition readd_torrent (request_id started : Z) (id : text) (handle : H) : op unit :=
  _ ← activate_torrent id handle;
  context ← userdata handle;
  _ ← match context with Some p => modify (set_request request_id started p) | None => mret tt end;
  _ ← push to_queue (backend_event torrent_added request_id id [] []);
  st ← status handle;
  if ts_has_metadata st then
    event ← metadata_event handle (Some (MkContext request_id id false false source_live started)) source_live;
    push to_queue event
  else mret tt.

Definition add_new_torrent (request_id started : Z) (id : text) (type : TorrentInputType) (source : add_torrent_params P) : op unit :=
  resume ← load_resume_state id;
  let '(params, from) := merge_resume source type resume in
  save_path ← prepare_payload_path id;
  p ← make_context (MkContext request_id id false false from started);
  _ ← touch_disk_cache id;
  _ ← modify (fun b => set_pending_adds ({[p]} ∪ pending_adds b) b);
  rethrowing (perform (fun w => lt_async_add_torrent w (session_params params save_path p))) (modify (erase_add (Some p))).

Definition add_torrent (request_id : Z) (input : TorrentInput) : op unit :=
  started ← now;
  source ← value (match ti_type input with
                  | input_magnet => lt_parse_magnet_uri (ti_magnet_uri input)
                  | input_torrent_data => lt_load_torrent_buffer (ti_torrent_data input)
                  end);
  let id := hashes_id (ap_info_hashes source) in
  if negb (is_canonical_torrent_id id) then throw_error (str "torrent source has no canonical info hash")
  else
    _ ← focus_torrent id;
    existing ← find_valid id;
    match existing with
    | Some handle => readd_torrent request_id started id handle
    | None => add_new_torrent request_id started id (ti_type input) source
    end.

(** The priorities of the files: only the selected one is downloaded. *)
Definition file_priorities (files : nat) (file_index : Z) : list download_priority_t :=
  <[Z.to_nat file_index := default_priority]> (replicate files dont_download).

Definition prepare_file (request_id : Z) (id : text) (file_index : Z) (file : TorrentFileInfo) : op unit :=
  found ← find_valid id;
  match found with
  | None => throw_error (str "torrent not found")
  | Some handle =>
    _ ← focus_torrent id;
    _ ← activate_torrent id handle;
    _ ← touch_disk_cache id;
    pending ← get (fun b => bool_decide (is_Some (pending_prepares b !! id)));
    if (pending : bool) then throw_error (str "stream preparation already pending")
    else
      metadata ← observe (fun w => lt_torrent_file w handle);
      match metadata with
      | Some m =>
        if wrap32 (Z.of_nat (length (info_files m))) <=? file_index then throw_error (str "selected torrent file is unavailable")
        else
          let prepare := MkPrepare request_id file_index file in
          st ← status handle;
          if ts_is_seeding st then event ← prepared_event handle id prepare; push to_queue event
          else
            _ ← modify (fun b => set_pending_prepares (<[id := prepare]> (pending_prepares b)) b);
            rethrowing (perform (fun w => lt_prioritize_files w handle (file_priorities (length (info_files m)) file_index)))
              (modify (erase_prepare id))
      | None => throw_error (str "selected torrent file is unavailable")
      end
  end.

Definition mark_removed (v : bool) (context : option nat) (b : Backend H) : Backend H :=
  match context with Some p => set_explicitly_removed v p b | None => b end.

(** The tables before the session is asked to remove the torrent. *)
Definition start_removal (request_id : Z) (id : text) (context : option nat) (b : Backend H) : Backend H :=
  let b := erase_cache_removal id (erase_unload id (mark_removed true context b)) in
  set_pending_removals (<[id := request_id]> (pending_removals b)) b.

(** [remove_torrent] once the session has been asked. *)
Definition finish_removal (request_id : Z) (id : text) (context : option nat) : op unit :=
  _ ← modify (erase_save context);
  _ ← touch_disk_cache id;
  _ ← modify (fun b => erase_quiesced id (erase_warm id b));
  _ ← bridge_remove_torrent id;
  _ ← remove_resume_file request_id id to_queue;
  prepare ← get (fun b => pending_prepares b !! id);
  match prepare with
  | Some prepare =>
    _ ← push to_queue (error_event (pp_request_id prepare) id (str "stream preparation cancelled by torrent removal"));
    modify (erase_prepare id)
  | None => mret tt
  end.

Definition remove_torrent (request_id : Z) (id : text) : op unit :=
  found ← find_valid id;
  match found with
  | None => throw_error (str "torrent not found")
  | Some handle =>
    removing ← get (fun b => bool_decide (is_Some (pending_removals b !! id)));
    if (removing : bool) then throw_error (str "torrent removal already pending")
    else
      context ← userdata handle;
      cache_removal_pending ← get (fun b => bool_decide (id ∈ pending_cache_removals b));
      _ ← modify (start_removal request_id id context);
      _ ← rethrowing
            (when (negb cache_removal_pending) (perform (fun w => lt_remove_torrent w handle)))
            (modify (fun b => mark_removed false context (erase_removal id b)));
      finish_removal request_id id context
  end.

Definition stopped_event (request_id : Z) (id message stream_id : text) : BackendEvent :=
  MkBackendEvent stream_stopped request_id id message [] U32_MAX 0 stream_id [].

Definition stop_stream (request_id : Z) (stream_id : text) : op unit :=
  id ← bridge_ (StreamBridge.stop_stream stream_id);
  _ ← when (negb (bool_decide (id = []))) (leave_torrent id);
  push to_queue (stopped_event request_id id [] stream_id).

Definition reclaim_disk_cache (request_id target_bytes : Z) : op unit :=
  full ← get (fun b => maximum_pending_disk_reclaims <=? Z.of_nat (length (pending_disk_reclaims b)));
  if (full : bool) then throw_error (str "too many pending disk cache reclaim requests")
  else modify (fun b => set_pending_disk_reclaims (pending_disk_reclaims b ++ [MkReclaim request_id target_bytes]) b).

Definition expire_one (expired : StoppedStream) : op unit :=
  _ ← leave_torrent (st_torrent_id expired);
  push to_queue (stopped_event 0 (st_torrent_id expired) (str "stream expired after inactivity") (st_stream_id expired)).

(** [std::vector<BackendEvent> events; events.swap(queued_events_)], and [return events]. *)
Definition take_queued : op unit := fun r =>
  (MkRun (set_queued_events [] (backend r)) (world r) (queued_events (backend r)), Returned tt).
Definition return_events : op (list BackendEvent) := fun r => (MkRun (backend r) (world r) [], Returned (events r)).

Definition handle_alert (a : alert H P) : op unit :=
  match a with
  | add_torrent_alert handle context error => handle_added handle context error
  | block_finished a => bridge_ (fun s w => (handle_block_finished a s w, tt))
  | read_piece_done a => bridge_ (fun s w => ((handle_read_piece a s, w), tt))
  | hash_failed a => bridge_ (fun s w => ((handle_hash_failed a s, w), tt))
  | metadata_received_alert handle => handle_metadata handle
  | torrent_error_alert handle message => handle_error handle message
  | file_error_alert handle message => handle_file_error handle message
  | save_resume_data_alert handle params => handle_resume_saved handle params
  | save_resume_data_failed_alert handle not_modified message => handle_resume_save_failed handle not_modified message
  | torrent_finished_alert handle =>
    _ ← alter_telemetry (torrent_id handle) count_finished; request_resume_save handle [only_if_modified; save_info_dict]
  | file_prio_alert handle error => handle_file_priority handle error
  | torrent_removed_alert hashes context => handle_removed hashes context
  | state_update_alert l => handle_state_update l
  | peer_info_alert handle peers => handle_peer_info handle peers
  | peer_connect_alert handle => alter_telemetry (torrent_id handle) count_connect
  | peer_disconnected_alert handle reason connecting => alter_telemetry (torrent_id handle) (count_disconnect reason connecting)
  | tracker_reply_alert handle n => alter_telemetry (torrent_id handle) (count_tracker_reply n)
  | tracker_error_alert handle => alter_telemetry (torrent_id handle) count_tracker_error
  | dht_reply_alert handle n => alter_telemetry (torrent_id handle) (count_dht_reply n)
  | dht_bootstrap_alert => _ ← modify (set_dht_ready true); announce_to_dht
  | other_alert => mret tt
  end.

(** What [pop_events] does after the alerts. *)
Definition run_policies : op unit :=
  _ ← run_periodic_checkpoints;
  _ ← run_warm_quiescence;
  _ ← process_disk_reclaims;
  _ ← run_disk_cache_enforcement;
  _ ← request_telemetry_update;
  update_session_tick.

Definition pop_events : op (list BackendEvent) :=
  _ ← bridge poll;
  expired ← bridge_ (fun s w => let '(l, s) := pop_expired_streams s in ((s, w), l));
  _ ← for_in expired expire_one;
  alerts ← perform (fun w => let '(w, l) := lt_pop_alerts w in (w, Returned l));
  _ ← take_queued;
  _ ← for_in alerts handle_alert;
  _ ← run_policies;
  return_events.

(** The loop of [shutdown]: [false] when the fuel is used up. *)
Fixpoint wait_for_saves (fuel : nat) (deadline : Z) : op bool :=
  match fuel with
  | O => mret false
  | S fuel =>
    saving ← get (fun b => negb (bool_decide (pending_resume_saves b = ∅)));
    if negb saving then mret true
    else
      t ← now;
      if t <? deadline then
        _ ← change (fun w => lt_wait_for_alert w (milliseconds 100));
        _ ← pop_events;
        wait_for_saves fuel deadline
      else mret true
  end.

(** [stream_bridge_->shutdown()]: between its two parts the HTTP threads end. *)
Definition bridge_shutdown : op unit := bridge_ (fun s w => (shutdown_end (shutdown_begin s) w, tt)).

Definition shutdown (fuel : nat) : op bool :=
  stopping ← get stopped;
  if (stopping : bool) then mret true
  else
    _ ← modify (set_stopped true);
    _ ← bridge_shutdown;
    _ ← save_all [save_info_dict];
    t ← now;
    finished ← wait_for_saves fuel (t + seconds 5);
    if (finished : bool) then _ ← save_session_state; mret true else mret false.

Definition statistics : op BackendStats :=
  stream ← bridge_statistics;
  get (fun b =>
    let disk := DiskCache.stats (disk_cache b) in
    fill_stats (total_telemetry (telemetry b))
      (MkOther (bounded_count (Z.of_nat (base.size (handles b)))) (sbs_active_streams stream) (sbs_active_http_requests stream)
         (sbs_pending_piece_reads stream) (st_capacity_bytes (sbs_cache stream)) (st_used_bytes (sbs_cache stream))
         (st_hits (sbs_cache stream)) (st_misses (sbs_cache stream)) (st_evictions (sbs_cache stream))
         (st_entries (sbs_cache stream))
         (bounded_count (Z.of_nat (base.size (warm_since b)))) (bounded_count (Z.of_nat (base.size (quiesced_torrents b))))
         (capacity_bytes disk) (used_bytes disk) (protected_bytes disk) (evictions disk) (reclaimed_bytes disk) (over_budget disk)
         (sbs_streams stream))).

(** *** Construction *)

(** The DHT state of the last session, and why it could not be read. *)
Definition load_dht_state (config : ProtocolBackendConfig) (w : W) : W * outcome (option text * text) :=
  let '(w, state) := stored (read_bounded_file (path_append (state_root config) (str "session.dht")) maximum_session_state_size) w in
  let body : outcome (option text) :=
    match state with
    | Raised what => Raised what
    | Returned None | Returned (Some []) => Returned None
    | Returned (Some state) => match lt_read_session_params state with Raised what => Raised what | Returned dht => Returned (Some dht) end
    end in
  (w, match body with
      | Returned dht => Returned (dht, [])
      | Raised (Some what) => Returned (None, str "ignored persisted DHT state: " ++ what)
      | Raised None => Raised None
      end).

(** The members of a new backend; the clock is read four times. *)
Definition new_backend (config : ProtocolBackendConfig) (diagnostic : text) (t1 t2 t3 t4 : Z) : Backend H :=
  let root := state_root config in
  let payload := [pc_download_directory config; str "payload"] in
  MkBackend root (path_append root (str "resume")) (path_append root (str "session.dht")) payload
    (pc_warm_torrent_timeout_milliseconds config) (disk_cache_manager payload (pc_disk_cache_capacity_bytes config))
    [] ∅ ∅ ∅ ∅ ∅ ∅ [] ∅ ∅ ∅ ∅ ∅ [] (match diagnostic with [] => [] | _ => [error_event 0 [] diagnostic] end)
    t1 t2 (t3 - seconds 1) 0 (t4 + milliseconds 300) 0 [] false false false
    (new_impl (pc_memory_cache_capacity_bytes config) (pc_disk_cache_capacity_bytes config)
       (pc_stream_inactivity_timeout_milliseconds config)).

(** The constructor: the session, the members and the server of the stream bridge. *)
Definition create_backend (config : ProtocolBackendConfig) (w : W) : outcome (Backend H) * W :=
  match load_dht_state config w with
  | (w, Raised what) => (Raised what, w)
  | (w, Returned (dht, diagnostic)) =>
    let '(w, t1) := lt_now w in
    let '(w, t2) := lt_now w in
    let '(w, t3) := lt_now w in
    let '(w, t4) := lt_now w in
    match lt_new_session w (make_settings config) dht with
    | (w, Raised what) => (Raised what, w)
    | (w, Returned _) =>
      match br_start_server w (pc_listen_port config) with
      | (w, Raised what) => (Raised what, w)
      | (w, Returned _) => (Returned (new_backend config diagnostic t1 t2 t3 t4), w)
      end
    end
  end.

(** *** The interface of the engine *)

Definition call {A} (m : op A) (bw : Backend H * W) : outcome A * (Backend H * W) :=
  let '(r, o) := m (MkRun bw.1 bw.2 []) in (o, (backend r, world r)).

Definition libtorrent_backend (fuel : nat) : ProtocolBackend (Backend H * W) := {|
  be_add_torrent bw request_id input _ := call (add_torrent request_id input) bw;
  be_prepare_file bw request_id id file_index file := call (prepare_file request_id id file_index file) bw;
  be_remove_torrent bw request_id id := call (remove_torrent request_id id) bw;
  be_stop_stream bw request_id stream_id := call (stop_stream request_id stream_id) bw;
  be_reclaim_disk_cache bw request_id target := call (reclaim_disk_cache request_id target) bw;
  be_shutdown bw := call (_ ← shutdown fuel; mret tt) bw;
  be_pop_events bw := call pop_events bw;
  be_statistics bw := call statistics bw;
|}.
End code.
