(* ===== verification/BackendSteps.v ===== *)
(** The operations of the libtorrent backend as sequences of changes of its tables: a calculus
    of weakest preconditions for the programs of [BackendState], the relation [change] between
    the tables before and after one change, and the proofs that whatever the world answers
    every operation of [Backend] makes such changes only. *)
From stdpp Require Import prelude strings list gmap relations.
From Stdlib Require Import ZArith Lia Ascii.
From S2P Require Import Prelude Text ByteRange PieceScheduler PieceCache EngineTypes Posix DiskCache AtomicFile BridgeState StreamSchedule StreamBridge StreamProgress BackendTelemetry BackendState Backend.

(** ** Weakest preconditions *)

Section wp.
Context {H W : Type}.
Implicit Types (r : Run H W).

(** What [m] does from [r]: the state it leaves and its outcome satisfy [Q]. *)
Definition wp {A} (m : op H W A) (Q : outcome A -> Run H W -> Prop) r : Prop := Q (m r).2 (m r).1.

Lemma wp_conseq {A} (m : op H W A) (Q Q' : outcome A -> Run H W -> Prop) r :
  wp m Q r -> (forall o r', Q o r' -> Q' o r') -> wp m Q' r.
Proof. intros Hm HQ. by apply HQ. Qed.

Lemma wp_ret {A} (a : A) Q r : Q (Returned a) r -> wp (mret a : op H W A) Q r.
Proof. done. Qed.

Lemma wp_bind {A B} (m : op H W A) (f : A -> op H W B) Q r :
  wp m (fun o r' => match o with Returned a => wp (f a) Q r' | Raised what => Q (Raised what) r' end) r -> wp (m ≫= f) Q r.
Proof. unfold wp, mbind, op_bind. by destruct (m r) as [r' [a|what]]. Qed.

Lemma wp_get {A} (f : Backend H -> A) Q r : Q (Returned (f (backend r))) r -> wp (get f) Q r.
Proof. done. Qed.

Lemma wp_modify f Q r : Q (Returned tt) (MkRun (f (backend r)) (world r) (events r)) -> wp (modify f) Q r.
Proof. done. Qed.

Lemma wp_throw {A} what Q r : Q (Raised (Some what)) r -> wp (throw_error what : op H W A) Q r.
Proof. done. Qed.

Lemma wp_value {A} (o : outcome A) Q r : Q o r -> wp (value o) Q r.
Proof. done. Qed.

Lemma wp_perform {A} (f : W -> W * outcome A) Q r : Q (f (world r)).2 (MkRun (backend r) (f (world r)).1 (events r)) -> wp (perform f) Q r.
Proof. unfold wp, perform. by destruct (f (world r)). Qed.

Lemma wp_change f Q r : Q (Returned tt) (MkRun (backend r) (f (world r)) (events r)) -> wp (BackendState.change f) Q r.
Proof. done. Qed.

Lemma wp_observe {A} (f : W -> outcome A) Q r : Q (f (world r)) r -> wp (observe f) Q r.
Proof. done. Qed.

Lemma wp_look {A} (f : W -> A) Q r : Q (Returned (f (world r))) r -> wp (look f) Q r.
Proof. done. Qed.

Lemma wp_bridge {A} (f : Impl H -> W -> (Impl H * W) * outcome A) Q r :
  let x := f (stream_bridge (backend r)) (world r) in
  Q x.2 (MkRun (set_stream_bridge x.1.1 (backend r)) x.1.2 (events r)) -> wp (bridge f) Q r.
Proof. unfold wp, bridge. by destruct (f (stream_bridge (backend r)) (world r)) as [[s w] o]. Qed.

Lemma wp_bridge_ {A} (f : Impl H -> W -> (Impl H * W) * A) Q r :
  let x := f (stream_bridge (backend r)) (world r) in
  Q (Returned x.2) (MkRun (set_stream_bridge x.1.1 (backend r)) x.1.2 (events r)) -> wp (bridge_ f) Q r.
Proof. intros x HQ. apply wp_bridge. unfold x in HQ. by destruct (f (stream_bridge (backend r)) (world r)) as [[s w] o]. Qed.

Lemma wp_push to e Q r :
  Q (Returned tt) (match to with
                   | to_events => MkRun (backend r) (world r) (events r ++ [e])
                   | to_queue => MkRun (set_queued_events (queued_events (backend r) ++ [e]) (backend r)) (world r) (events r)
                   end) -> wp (push to e) Q r.
Proof. by destruct to. Qed.

Lemma wp_catch_exception {A} (body : op H W A) handler Q r :
  wp body (fun o r' => match o with Raised (Some what) => wp (handler what) Q r' | _ => Q o r' end) r ->
  wp (catch_exception body handler) Q r.
Proof. unfold wp, catch_exception. by destruct (body r) as [r' [a|[what|]]]. Qed.

Lemma wp_catch_all {A} (body handler : op H W A) Q r :
  wp body (fun o r' => match o with Raised _ => wp handler Q r' | _ => Q o r' end) r -> wp (catch_all body handler) Q r.
Proof. unfold wp, catch_all. by destruct (body r) as [r' [a|what]]. Qed.

Lemma wp_rethrowing {A} (body : op H W A) f Q r :
  wp body (fun o r' => match o with Raised what => Q (Raised what) (MkRun (f (backend r')) (world r') (events r')) | _ => Q o r' end) r ->
  wp (rethrowing body (modify f)) Q r.
Proof. unfold wp, rethrowing. by destruct (body r) as [r' [a|what]]. Qed.

Lemma wp_when (c : bool) m Q r : (c = true -> wp m Q r) -> (c = false -> Q (Returned tt) r) -> wp (when c m) Q r.
Proof. destruct c; intros H1 H2; [by apply H1|by apply H2]. Qed.

(** A loop whose body keeps [I], also when it throws. *)
Lemma wp_for_in {A} (l : list A) body (I : Run H W -> Prop) Q r :
  (forall x r, x ∈ l -> I r -> wp (body x) (fun _ => I) r) -> I r -> (forall o r', I r' -> Q o r') -> wp (for_in l body) Q r.
Proof.
  revert r. induction l as [|x l IH]; intros r Hbody Hr HQ; [by apply HQ|]. cbn [for_in]. apply wp_bind.
  eapply wp_conseq; [by apply Hbody; [left|]|]. intros [a|what] r' Hr'; [|by apply HQ]. apply IH; [|done..].
  intros y r2 Hy. apply Hbody. by right.
Qed.

(** [m] keeps [I], whether it returns or throws. *)
Definition keeps {A} (I : Run H W -> Prop) (m : op H W A) : Prop := forall r, I r -> wp m (fun _ => I) r.

Lemma keeps_bind {A B} (I : Run H W -> Prop) (m : op H W A) (f : A -> op H W B) : keeps I m -> (forall a, keeps I (f a)) -> keeps I (m ≫= f).
Proof. intros Hm Hf r Hr. apply wp_bind. eapply wp_conseq; [by apply Hm|]. intros [a|what] r' Hr'; [by apply Hf|done]. Qed.

Lemma keeps_ret {A} I (a : A) : keeps I (mret a : op H W A).
Proof. by intros r Hr. Qed.

Lemma keeps_throw {A} I what : keeps I (throw_error what : op H W A).
Proof. by intros r Hr. Qed.

Lemma keeps_value {A} I (o : outcome A) : keeps I (value o : op H W A).
Proof. by intros r Hr. Qed.

Lemma keeps_get {A} I (f : Backend H -> A) : keeps I (get f : op H W A).
Proof. by intros r Hr. Qed.

Lemma keeps_look {A} I (f : W -> A) : keeps I (look f : op H W A).
Proof. by intros r Hr. Qed.

Lemma keeps_observe {A} I (f : W -> outcome A) : keeps I (observe f : op H W A).
Proof. by intros r Hr. Qed.

Lemma keeps_when I (c : bool) m : keeps I m -> keeps I (when c m).
Proof. intros Hm r Hr. destruct c; [by apply Hm|done]. Qed.

Lemma keeps_for_in {A} I (l : list A) body : (forall x, x ∈ l -> keeps I (body x)) -> keeps I (for_in l body).
Proof. intros Hb r Hr. apply (wp_for_in l body I); [|done|auto]. intros x r' Hx Hr'. by apply Hb. Qed.

Lemma keeps_catch_exception {A} I (body : op H W A) handler :
  keeps I body -> (forall what, keeps I (handler what)) -> keeps I (catch_exception body handler).
Proof. intros Hb Hh r Hr. apply wp_catch_exception. eapply wp_conseq; [by apply Hb|]. intros [a|[what|]] r' Hr'; [done|by apply Hh|done]. Qed.

Lemma keeps_catch_all {A} I (body handler : op H W A) : keeps I body -> keeps I handler -> keeps I (catch_all body handler).
Proof. intros Hb Hh r Hr. apply wp_catch_all. eapply wp_conseq; [by apply Hb|]. intros [a|what] r' Hr'; [done|by apply Hh]. Qed.

Lemma keeps_rethrowing {A} I (body : op H W A) handler : keeps I body -> keeps I handler -> keeps I (rethrowing body handler).
Proof.
  intros Hb Hh r Hr. unfold wp, rethrowing. specialize (Hb r Hr). unfold wp in Hb. destruct (body r) as [r1 [a|what]]; [done|].
  specialize (Hh r1 Hb). unfold wp in Hh. by destruct (handler r1) as [r2 [a|what']].
Qed.
End wp.

(** ** The changes of the tables *)

(** The members that the changes below are about; the others are clocks, flags, the cache of
    payloads and the stream bridge. *)
Definition tables {H} (b : Backend H) :=
  (contexts b, pending_adds b, active b, retired b, handles b, telemetry b, (warm_since b, quiesced_torrents b),
   (pending_disk_reclaims b, pending_prepares b, pending_removals b),
   (pending_resume_saves b, pending_cache_unloads b, pending_cache_removals b), queued_events b).

(** The event that answers the request of a pending preparation, of a pending reclaim. *)
Definition answers_prepare (prepare : PendingPrepare) (id : text) (e : BackendEvent) : Prop :=
  be_request_id e = pp_request_id prepare /\ be_torrent_id e = id /\ (be_type e = stream_prepared \/ be_type e = torrent_error).
Definition answers_reclaim (request : PendingDiskReclaim) (e : BackendEvent) : Prop :=
  be_request_id e = pr_request_id request /\ (be_type e = disk_cache_reclaimed \/ be_type e = torrent_error).
Definition removed_event (request_id : Z) (id : text) (e : BackendEvent) : Prop :=
  be_request_id e = request_id /\ be_torrent_id e = id /\ be_type e = torrent_removed.

(** A counter of a torrent keeps what is right for counters. *)
Definition counters_ok (t : TorrentTelemetry) : Prop := telemetry_ok t /\ disconnects_ok t.

(** One change, from the members and the events of [pop_events] so far. *)
Inductive change {H W} `{Torrents H W} : Backend H * list BackendEvent -> Backend H * list BackendEvent -> Prop :=
(* members outside the tables *)
| change_other b b' ev : tables b' = tables b -> change (b, ev) (b', ev)
(* an event; the vector of [pop_events] starts with those that are queued *)
| change_event b ev e : change (b, ev) (b, ev ++ [e])
| change_take b : change (b, []) (set_queued_events [] b, queued_events b)
| change_queue b ev e : change (b, ev) (set_queued_events (queued_events b ++ [e]) b, ev)
(* a context is written; a new one is pending; it is given up; it becomes that of its torrent *)
| change_context b ev f p : change (b, ev) (set_contexts (alter f p (contexts b)) b, ev)
| change_allocate b ev c :
    change (b, ev) (set_pending_adds ({[length (contexts b)]} ∪ pending_adds b) (set_contexts (contexts b ++ [c]) b), ev)
| change_give_up b ev p : change (b, ev) (erase_add (Some p) b, ev)
| change_adopt b ev id p : p ∈ pending_adds b -> change (b, ev) (adopt_context id p true b, ev)
| change_retire b ev id : change (b, ev) (retire_context id b, ev)
(* a torrent is in the session *)
| change_arrive b ev handle :
    let id := torrent_id handle in
    let b' := set_handles (<[id := handle]> (handles b)) b in
    change (b, ev)
      (set_telemetry (match telemetry b' !! id with Some _ => telemetry b' | None => <[id := no_telemetry]> (telemetry b') end) b', ev)
| change_telemetry b ev id f : (forall t, counters_ok t -> counters_ok (f t)) ->
    change (b, ev) (set_telemetry (alter f id (telemetry b)) b, ev)
| change_known b ev id f : (forall t, counters_ok t -> counters_ok (f t)) -> change (b, ev) (assign_known id f b, ev)
(* a torrent becomes warm, is paused, is used again *)
| change_warm b ev id t :
    change (b, ev) (set_warm_since (match warm_since b !! id with Some _ => warm_since b | None => <[id := t]> (warm_since b) end) b, ev)
| change_quiesce b ev id : is_Some (warm_since b !! id) -> change (b, ev) (set_quiesced_torrents ({[id]} ∪ quiesced_torrents b) b, ev)
| change_cool b ev id : change (b, ev) (erase_warm id (erase_quiesced id b), ev)
(* resume data is asked for, and saved or not *)
| change_save b ev p : p ∉ pending_resume_saves b -> rc_explicitly_removed (deref b p) = false ->
    change (b, ev) (set_pending_resume_saves ({[p]} ∪ pending_resume_saves b) b, ev)
| change_saved b ev p : change (b, ev) (erase_save p b, ev)
(* a torrent is to be unloaded, not any more, is being unloaded, could not be *)
| change_unload b ev id : is_Some (handles b !! id) -> pending_removals b !! id = None -> (id ∉ pending_cache_removals b) ->
    change (b, ev) (set_pending_cache_unloads ({[id]} ∪ pending_cache_unloads b) b, ev)
| change_keep b ev id : change (b, ev) (erase_unload id b, ev)
| change_unloading b ev id : id ∈ pending_cache_unloads b ->
    change (b, ev) (set_pending_cache_removals ({[id]} ∪ pending_cache_removals (erase_unload id b)) (erase_unload id b), ev)
| change_reload b ev id : change (b, ev) (erase_cache_removal id b, ev)
(* a client removes a torrent; a torrent has left the session *)
| change_remove b ev id request_id : is_Some (handles b !! id) -> pending_removals b !! id = None ->
    let b' := erase_cache_removal id (erase_unload id b) in
    change (b, ev) (set_pending_removals (<[id := request_id]> (pending_removals b')) b', ev)
| change_leave b ev id e : removed_event (default 0 (pending_removals b !! id)) id e ->
    change (b, ev) (erase_prepare id (forget_torrent id (erase_removal id (erase_unload id (erase_cache_removal id b)))), ev ++ [e])
(* a preparation is pending, is answered *)
| change_prepare b ev id prepare : is_Some (handles b !! id) -> pending_prepares b !! id = None ->
    change (b, ev) (set_pending_prepares (<[id := prepare]> (pending_prepares b)) b, ev)
| change_prepared b ev id : (forall prepare, pending_prepares b !! id = Some prepare -> Exists (answers_prepare prepare id) (ev ++ queued_events b)) ->
    change (b, ev) (erase_prepare id b, ev)
(* a reclaim is pending, all are answered *)
| change_reclaim b ev request : Z.of_nat (length (pending_disk_reclaims b)) < maximum_pending_disk_reclaims ->
    change (b, ev) (set_pending_disk_reclaims (pending_disk_reclaims b ++ [request]) b, ev)
| change_reclaimed b ev es : Forall2 answers_reclaim (pending_disk_reclaims b) es ->
    change (b, ev) (set_pending_disk_reclaims [] b, ev ++ es).

(** ** Every operation makes such changes *)

(** The numbers in alerts have the types that libtorrent gives them. *)
Definition alert_ok {H P} (a : alert H P) : Prop :=
  match a with
  | state_update_alert l => Forall (fun e => status_ok e.2) l
  | tracker_reply_alert _ n | dht_reply_alert _ n => is_int n
  | _ => True
  end.

Definition alerts_ok {H W P} `{Host H W P} : Prop := forall w a, a ∈ (lt_pop_alerts w).2 -> alert_ok a.

(** What the tables and the events satisfy when no change breaks it. *)
Class Closed {H W} `{Torrents H W} (I : Backend H * list BackendEvent -> Prop) : Prop :=
  closed s s' : change s s' -> I s -> I s'.

Create HintDb keeps discriminated.

Section closed.
Context {H W : Type} `{Torrents H W} (I : Backend H * list BackendEvent -> Prop) `{!Closed I}.
Implicit Types (r : Run H W) (b : Backend H).

Definition on_tables r : Prop := I (backend r, events r).

Lemma inv_change r s : change (backend r, events r) s -> on_tables r -> I s.
Proof. intros Hc Hi. exact (closed (I := I) _ _ Hc Hi). Qed.

Lemma inv_other b b' ev : tables b' = tables b -> I (b, ev) -> I (b', ev).
Proof. intros Ht. apply (closed (I := I)). by apply change_other. Qed.

Lemma keeps_perform {A} (f : W -> W * outcome A) : keeps on_tables (perform f : op H W A).
Proof. intros r Hr. by apply wp_perform. Qed.

Lemma keeps_change f : keeps on_tables (BackendState.change f : op H W unit).
Proof. intros r Hr. by apply wp_change. Qed.

Lemma keeps_modify f : (forall b ev, change (b, ev) (f b, ev)) -> keeps on_tables (modify f : op H W unit).
Proof. intros Hf r Hr. apply wp_modify. eapply inv_change; [|exact Hr]; done. Qed.

Lemma keeps_other f : (forall b, tables (f b) = tables b) -> keeps on_tables (modify f : op H W unit).
Proof. intros Hf. apply keeps_modify. intros b ev. by apply change_other. Qed.

Lemma keeps_bridge {A} (f : Impl H -> W -> (Impl H * W) * outcome A) : keeps on_tables (bridge f : op H W A).
Proof. intros r Hr. apply wp_bridge. eapply inv_other; [|exact Hr]; done. Qed.

Lemma keeps_bridge_ {A} (f : Impl H -> W -> (Impl H * W) * A) : keeps on_tables (bridge_ f : op H W A).
Proof. apply keeps_bridge. Qed.

Lemma keeps_push to e : keeps on_tables (push to e : op H W unit).
Proof. intros r Hr. apply wp_push. destruct to; (eapply inv_change; [|exact Hr]); [apply change_event|apply change_queue]. Qed.

End closed.

(** Goes through a program whose parts keep the invariant. *)
Ltac keeps1 :=
  lazymatch goal with
  | |- keeps _ (mbind _ _) => apply keeps_bind; [|intros ?]
  | |- keeps _ (when _ _) => apply keeps_when
  | |- keeps _ (catch_exception _ _) => apply keeps_catch_exception; [|intros ?]
  | |- keeps _ (catch_all _ _) => apply keeps_catch_all
  | |- keeps _ (rethrowing _ _) => apply keeps_rethrowing
  | |- keeps _ (for_in _ _) => apply keeps_for_in; intros ? ?
  | |- keeps _ (if ?c then _ else _) => destruct c
  | |- keeps _ (let '(_, _) := ?x in _) => destruct x
  | |- keeps _ (match ?x with _ => _ end) => destruct x
  | |- keeps _ (let _ := _ in _) => cbv zeta
  | |- keeps _ (mret _) => apply keeps_ret
  | |- keeps _ (throw_error _) => apply keeps_throw
  | |- keeps _ (value _) => apply keeps_value
  | |- keeps _ (get _) => apply keeps_get
  | |- keeps _ (bridge_look _) => apply keeps_get
  | |- keeps _ (look _) => apply keeps_look
  | |- keeps _ (observe _) => apply keeps_observe
  | |- keeps _ (perform _) => apply keeps_perform
  | |- keeps _ (bridge _) => apply keeps_bridge
  | |- keeps _ (bridge_ _) => apply keeps_bridge_
  | |- keeps _ (push _ _) => apply keeps_push
  | |- keeps _ (modify _) => first [solve [auto with keeps] | by apply keeps_other]
  | |- keeps _ _ => solve [auto with keeps]
  | |- Closed _ => apply _
  end.
Ltac keeps := repeat keeps1.

(** The same for members that the program does not write. *)
Ltac frame :=
  repeat first
    [by (intros ? ?; apply wp_modify; assumption) | by (intros ? ?; apply wp_push; repeat case_match; assumption)
    | by (intros ? ?; apply wp_bridge; assumption) | progress keeps1].

(** Goes one step into a program, from a state. *)
Ltac wp1 :=
  cbn beta iota;
  lazymatch goal with
  | |- wp (mbind _ _) _ _ => apply wp_bind
  | |- wp (mret _) _ _ => apply wp_ret
  | |- wp (get _) _ _ => apply wp_get
  | |- wp (bridge_look _) _ _ => apply wp_get
  | |- wp (modify _) _ _ => apply wp_modify
  | |- wp (throw_error _) _ _ => apply wp_throw
  | |- wp (value _) _ _ => apply wp_value
  | |- wp (perform _) _ _ => apply wp_perform
  | |- wp (observe _) _ _ => apply wp_observe
  | |- wp (look _) _ _ => apply wp_look
  | |- wp (bridge _) _ _ => apply wp_bridge
  | |- wp (bridge_ _) _ _ => apply wp_bridge_
  | |- wp (push _ _) _ _ => apply wp_push
  | |- wp (catch_exception _ _) _ _ => apply wp_catch_exception
  | |- wp (catch_all _ _) _ _ => apply wp_catch_all
  | |- wp (rethrowing _ (modify _)) _ _ => apply wp_rethrowing
  | |- wp (when _ _) _ _ => apply wp_when; intros ?
  end.

(** A part that keeps the invariant, of which [lem] says so. *)
Tactic Notation "wp_keeps" constr(lem) "with" hyp(Hr) "as" ident(o) ident(r) ident(Hr') :=
  eapply wp_conseq; [exact (lem _ Hr)|cbn beta; intros o r Hr'].

Lemma wp_now {H W P} `{Host H W P} Q (r : Run H W) :
  (forall w t, Q (Returned t) (MkRun (backend r) w (events r))) -> wp now Q r.
Proof. intros HQ. apply wp_perform. destruct (lt_now (world r)). apply HQ. Qed.

Section operations.
Context {H W P : Type} `{Host H W P} (I : Backend H * list BackendEvent -> Prop) `{!Closed I}.
Abbreviation inv := (on_tables (W := W) I).

(** The goal holds after one change from where [Hr] holds. *)
Ltac after Hr := refine (closed (I := I) (_, _) (_, _) _ Hr).

Lemma report_keeps message to : keeps inv (report_disk_cache_error (H := H) message to).
Proof. unfold report_disk_cache_error. keeps. Qed.
Hint Extern 1 (keeps _ (report_disk_cache_error _ _)) => apply report_keeps : keeps.

Lemma disk_touch_keeps id : keeps inv (disk_touch (H := H) id).
Proof. intros r Hr. unfold wp, disk_touch. destruct (fs_now (world r)) as [w t]. by destruct (touch _ w id t). Qed.
Hint Extern 1 (keeps _ (disk_touch _)) => apply disk_touch_keeps : keeps.

Lemma disk_enforce_keeps ids target : keeps inv (disk_enforce (H := H) ids target).
Proof. intros r Hr. unfold wp, disk_enforce. destruct (enforce _ _ ids target) as [[w m] o]. apply (inv_other I (backend r)); [done|exact Hr]. Qed.
Hint Extern 1 (keeps _ (disk_enforce _ _)) => apply disk_enforce_keeps : keeps.

Lemma disk_measure_keeps ids : keeps inv (disk_measure (H := H) ids).
Proof. intros r Hr. unfold wp, disk_measure. destruct (measure _ _ ids) as [m o]. apply (inv_other I (backend r)); [done|exact Hr]. Qed.
Hint Extern 1 (keeps _ (disk_measure _)) => apply disk_measure_keeps : keeps.

Lemma touch_keeps id : keeps inv (touch_disk_cache (H := H) id).
Proof. unfold touch_disk_cache. keeps. Qed.
Hint Extern 1 (keeps _ (touch_disk_cache _)) => apply touch_keeps : keeps.

Lemma protected_keeps : keeps inv (protected (H := H)).
Proof. by intros r Hr. Qed.
Hint Extern 1 (keeps _ protected) => apply protected_keeps : keeps.

Lemma now_keeps : keeps inv (now (H := H)).
Proof. apply keeps_perform. Qed.
Hint Extern 1 (keeps _ now) => apply now_keeps : keeps.

Lemma is_valid_keeps handle : keeps inv (is_valid (W := W) handle).
Proof. apply keeps_look. Qed.
Hint Extern 1 (keeps _ (is_valid _)) => apply is_valid_keeps : keeps.

Lemma userdata_keeps handle : keeps inv (userdata (W := W) handle).
Proof. apply keeps_look. Qed.
Hint Extern 1 (keeps _ (userdata _)) => apply userdata_keeps : keeps.

Lemma status_keeps handle : keeps inv (status (W := W) handle).
Proof. apply keeps_observe. Qed.
Hint Extern 1 (keeps _ (status _)) => apply status_keeps : keeps.

Lemma set_flags_keeps handle flags mask : keeps inv (set_flags (W := W) handle flags mask).
Proof. apply keeps_perform. Qed.
Hint Extern 1 (keeps _ (set_flags _ _ _)) => apply set_flags_keeps : keeps.

Lemma has_stream_keeps id : keeps inv (has_stream (H := H) (W := W) id).
Proof. apply keeps_get. Qed.
Hint Extern 1 (keeps _ (has_stream _)) => apply has_stream_keeps : keeps.

Lemma find_valid_keeps id : keeps inv (find_valid (H := H) (W := W) id).
Proof. unfold find_valid. keeps. Qed.
Hint Extern 1 (keeps _ (find_valid _)) => apply find_valid_keeps : keeps.

Lemma mark_warm_keeps id : keeps inv (mark_warm (H := H) id).
Proof. unfold mark_warm. keeps. apply keeps_modify; [done|]. intros. apply change_warm. Qed.
Hint Extern 1 (keeps _ (mark_warm _)) => apply mark_warm_keeps : keeps.

(** *** The parts *)

Lemma mark_warm_wp id Q r :
  inv r -> (forall r', inv r' -> is_Some (warm_since (backend r') !! id) -> Q (Returned tt) r') -> wp (mark_warm (H := H) (W := W) id) Q r.
Proof.
  intros Hr HQ. unfold mark_warm. wp1. apply wp_now. intros w t. cbn beta iota. wp1. apply HQ.
  - after Hr. apply change_warm.
  - cbn. destruct (warm_since (backend r) !! id) eqn:E; [by rewrite E|]. rewrite lookup_insert_eq. eauto.
Qed.

Lemma focus_one_keeps id entry : keeps inv (focus_one (H := H) (W := W) id entry).
Proof.
  unfold focus_one. do 3 keeps1; [keeps..|]. destruct (_ || _ || _); [keeps|].
  apply keeps_catch_all; [|keeps]. do 2 (keeps1; [keeps|]). intros r Hr. apply wp_bind. apply mark_warm_wp; [done|]. intros r' Hr' Hw. wp1.
  after Hr'. by apply change_quiesce.
Qed.
Hint Extern 1 (keeps _ (focus_one _ _)) => apply focus_one_keeps : keeps.

Lemma focus_keeps id : keeps inv (focus_torrent (H := H) (W := W) id).
Proof. unfold focus_torrent. keeps. Qed.
Hint Extern 1 (keeps _ (focus_torrent _)) => apply focus_keeps : keeps.

Lemma activate_keeps id handle : keeps inv (activate_torrent (H := H) (W := W) id handle).
Proof. unfold activate_torrent. keeps; (apply keeps_modify; [done|intros]); [apply change_keep|apply change_cool]. Qed.
Hint Extern 1 (keeps _ (activate_torrent _ _)) => apply activate_keeps : keeps.

Lemma leave_keeps id : keeps inv (leave_torrent (H := H) (W := W) id).
Proof. unfold leave_torrent. keeps. Qed.
Hint Extern 1 (keeps _ (leave_torrent _)) => apply leave_keeps : keeps.

Lemma erase_save_keeps context : keeps inv (modify (erase_save context) : op H W unit).
Proof. destruct context as [p|]; [apply keeps_modify; [done|intros; apply change_saved]|by apply keeps_other]. Qed.
Hint Extern 1 (keeps _ (modify (erase_save _))) => apply erase_save_keeps : keeps.

Lemma save_keeps handle flags : keeps inv (request_resume_save (H := H) (W := W) handle flags).
Proof.
  unfold request_resume_save. keeps1; [keeps|]. keeps1; [keeps|]. keeps1; [keeps|]. destruct a0 as [p|]; [|keeps].
  intros r Hr. do 2 wp1. cbn beta iota. destruct (_ || _) eqn:E; [done|]. apply orb_false_iff in E as [E1 E2%bool_decide_eq_false].
  do 4 wp1. cbn beta iota. assert (Hs : I (set_pending_resume_saves ({[p]} ∪ pending_resume_saves (backend r)) (backend r), events r)).
  { after Hr. by apply change_save. }
  destruct (lt_save_resume_data _ _ _) as [w [u|what]]; cbn; [done|]. wp1. after Hs. apply change_saved.
Qed.
Hint Extern 1 (keeps _ (request_resume_save _ _)) => apply save_keeps : keeps.

Lemma begin_unload_keeps id handle : keeps inv (begin_cache_unload (H := H) (W := W) id handle).
Proof.
  intros r Hr. unfold begin_cache_unload. do 4 wp1. cbn beta iota. apply wp_bind, wp_look. cbn beta iota.
  destruct (negb _ || _) eqn:E; [after Hr; apply change_keep|].
  apply orb_false_iff in E as [E1%negb_false_iff%bool_decide_eq_true _]. do 4 wp1. cbn beta iota.
  assert (Hs : I (set_pending_cache_removals ({[id]} ∪ pending_cache_removals (erase_unload id (backend r))) (erase_unload id (backend r)), events r)).
  { after Hr. by apply change_unloading. }
  destruct (lt_remove_torrent _ _) as [w [u|[what|]]]; cbn; [done| |done].
  do 2 wp1. apply report_keeps. after Hs. apply change_reload.
Qed.
Hint Extern 1 (keeps _ (begin_cache_unload _ _)) => apply begin_unload_keeps : keeps.

(** What [find_valid] finds is in the table. *)
Lemma find_valid_wp id (Q : outcome (option H) -> Run H W -> Prop) r :
  Q (Returned None) r -> (forall handle, handles (backend r) !! id = Some handle -> lt_is_valid (world r) handle = true -> Q (Returned (Some handle)) r) ->
  wp (find_valid (H := H) (W := W) id) Q r.
Proof.
  intros H1 H2. unfold find_valid. do 2 wp1. cbn beta iota. destruct (handles (backend r) !! id) as [handle|] eqn:E; [|done].
  apply wp_bind, wp_look. cbn beta iota. destruct (lt_is_valid (world r) handle) eqn:Ev; apply wp_ret; auto.
Qed.

Lemma unload_one_keeps include_warm id : keeps inv (unload_one (H := H) (W := W) include_warm id).
Proof.
  intros r Hr. unfold unload_one. do 2 wp1. cbn beta iota. destruct (_ || _ || _ || _ || _) eqn:E; [done|].
  repeat match goal with H : _ || _ = false |- _ => apply orb_false_iff in H as [? ?] end.
  repeat match goal with H : bool_decide _ = false |- _ => apply bool_decide_eq_false in H end.
  apply wp_bind, find_valid_wp; cbn beta iota; [by wp1|]. intros handle Hh Hv. do 2 wp1. cbn beta iota.
  assert (Hs : I (set_pending_cache_unloads ({[id]} ∪ pending_cache_unloads (backend r)) (backend r), events r)).
  { after Hr. apply change_unload; [by eauto| |done]. by apply eq_None_not_Some. }
  eapply (keeps_bind inv); [apply userdata_keeps| |exact Hs]. intros context. keeps.
Qed.
Hint Extern 1 (keeps _ (unload_one _ _)) => apply unload_one_keeps : keeps.

Lemma unloads_keeps include_warm : keeps inv (request_cache_unloads (H := H) (W := W) include_warm).
Proof. unfold request_cache_unloads. keeps. Qed.
Hint Extern 1 (keeps _ (request_cache_unloads _)) => apply unloads_keeps : keeps.

(** *** Policies *)

Lemma save_session_keeps : keeps inv (save_session_state (H := H) (W := W)).
Proof. unfold save_session_state. keeps. Qed.
Hint Extern 1 (keeps _ save_session_state) => apply save_session_keeps : keeps.

Lemma save_all_keeps flags : keeps inv (save_all (H := H) (W := W) flags).
Proof. unfold save_all. keeps. Qed.
Hint Extern 1 (keeps _ (save_all _)) => apply save_all_keeps : keeps.

Lemma checkpoint_torrents_keeps t : keeps inv (checkpoint_torrents (H := H) (W := W) t).
Proof. unfold checkpoint_torrents. keeps. Qed.
Hint Extern 1 (keeps _ (checkpoint_torrents _)) => apply checkpoint_torrents_keeps : keeps.

Lemma checkpoint_session_keeps t : keeps inv (checkpoint_session (H := H) (W := W) t).
Proof. unfold checkpoint_session. keeps. Qed.
Hint Extern 1 (keeps _ (checkpoint_session _)) => apply checkpoint_session_keeps : keeps.

Lemma checkpoints_keeps : keeps inv (run_periodic_checkpoints (H := H) (W := W)).
Proof. unfold run_periodic_checkpoints. keeps. Qed.
Hint Extern 1 (keeps _ run_periodic_checkpoints) => apply checkpoints_keeps : keeps.

Lemma telemetry_update_keeps : keeps inv (request_telemetry_update (H := H) (W := W)).
Proof. unfold request_telemetry_update. keeps. Qed.
Hint Extern 1 (keeps _ request_telemetry_update) => apply telemetry_update_keeps : keeps.

Lemma enforce_keeps : keeps inv (enforce_disk_cache (H := H) (W := W)).
Proof. unfold enforce_disk_cache. keeps. Qed.
Hint Extern 1 (keeps _ enforce_disk_cache) => apply enforce_keeps : keeps.

Lemma bridge_statistics_keeps : keeps inv (bridge_statistics (H := H) (W := W)).
Proof. unfold bridge_statistics. keeps. Qed.
Hint Extern 1 (keeps _ bridge_statistics) => apply bridge_statistics_keeps : keeps.

Lemma busy_keeps : keeps inv (streams_busy (H := H) (W := W)).
Proof. unfold streams_busy. keeps. Qed.
Hint Extern 1 (keeps _ streams_busy) => apply busy_keeps : keeps.

Lemma measure_keeps t : keeps inv (measure_disk_cache (H := H) (W := W) t).
Proof. unfold measure_disk_cache. keeps. Qed.
Hint Extern 1 (keeps _ (measure_disk_cache _)) => apply measure_keeps : keeps.

Lemma enforcement_keeps : keeps inv (run_disk_cache_enforcement (H := H) (W := W)).
Proof. unfold run_disk_cache_enforcement. keeps. Qed.
Hint Extern 1 (keeps _ run_disk_cache_enforcement) => apply enforcement_keeps : keeps.

(** The loops that push an event for each element. *)
Lemma push_all {A} (l : list A) (f : A -> BackendEvent) (Q : outcome unit -> Run H W -> Prop) r :
  Q (Returned tt) (MkRun (backend r) (world r) (events r ++ (f <$> l))) -> wp (for_in l (fun x => push to_events (f x))) Q r.
Proof.
  revert r. induction l as [|x l IH]; intros r HQ; cbn [for_in fmap list_fmap] in *; [rewrite app_nil_r in HQ; by destruct r|].
  apply wp_bind, wp_push. cbn beta iota. apply IH. cbn. by rewrite <-app_assoc.
Qed.

(** When all reclaims are answered at once. *)
Lemma inv_reclaimed r b w (f : PendingDiskReclaim -> BackendEvent) :
  inv r -> tables b = tables (set_pending_disk_reclaims [] (backend r)) -> (forall request, answers_reclaim request (f request)) ->
  inv (MkRun b w (events r ++ (f <$> pending_disk_reclaims (backend r)))).
Proof.
  intros Hr Ht Hf. apply (inv_other I (set_pending_disk_reclaims [] (backend r))); [done|].
  after Hr. apply change_reclaimed. apply Forall2_fmap_r. induction (pending_disk_reclaims (backend r)); constructor; [apply Hf|done].
Qed.

Lemma reclaims_keeps : keeps inv (process_disk_reclaims (H := H) (W := W)).
Proof.
  unfold process_disk_reclaims. keeps1; [keeps|]. destruct a; [keeps|]. keeps1; [keeps|]. destruct a; [keeps|].
  keeps1; [keeps|]. destruct a; [keeps|]. intros r Hr. do 4 wp1. apply wp_bind, wp_now. intros w t. do 4 wp1. cbn beta iota.
  apply wp_catch_exception, wp_bind. unfold wp at 1, protected. cbn beta iota. apply wp_bind. unfold wp at 1, disk_enforce.
  destruct (enforce _ _ _ _) as [[w' m] [st|e]]; cbn beta iota delta [fst snd of_result].
  - do 2 wp1. cbn beta iota. apply push_all. by apply (inv_reclaimed r); [| |split; [|left]].
  - apply push_all. by apply (inv_reclaimed r); [| |split; [|right]].
Qed.
Hint Extern 1 (keeps _ process_disk_reclaims) => apply reclaims_keeps : keeps.

Lemma save_warm m handle flags : keeps (fun r : Run H W => warm_since (backend r) = m) (request_resume_save (W := W) handle flags).
Proof. change (fun r : Run H W => warm_since (backend r) = m) with (on_tables (W := W) (fun s : Backend H * list BackendEvent => warm_since s.1 = m)). unfold request_resume_save, is_valid, userdata. frame. Qed.

Lemma quiesce_one_keeps m t entry : is_Some (m !! entry.1) ->
  keeps (fun r : Run H W => inv r /\ warm_since (backend r) = m) (quiesce_one (W := W) t entry).
Proof.
  destruct entry as [id since]. intros Hid r [Hr Hm]. unfold quiesce_one. do 4 wp1. cbn beta iota. destruct (_ || _); [done|].
  apply wp_bind, find_valid_wp; cbn beta iota; [done|]. intros handle Hh Hv. apply wp_bind.
  eapply (wp_conseq _ (fun _ r' => inv r' /\ warm_since (backend r') = m)).
  { pose proof (save_keeps handle [only_if_modified; save_info_dict] r Hr). pose proof (save_warm m handle [only_if_modified; save_info_dict] r Hm).
    by split. }
  intros [u|what] r' [Hr' Hm']; [|done]. do 2 (apply wp_bind, wp_perform; destruct (lt_set_flags _ _ _ _) as [? [?|?]]; cbn; [|done]).
  wp1. cbn. split; [|done]. after Hr'. apply change_quiesce. by rewrite Hm'.
Qed.

Lemma warm_quiescence_keeps : keeps inv (run_warm_quiescence (H := H) (W := W)).
Proof.
  unfold run_warm_quiescence. keeps1; [keeps|]. destruct a; [keeps|]. do 2 (keeps1; [keeps|]). destruct (a <? a0); [keeps|].
  keeps1; [keeps|]. intros r Hr. do 2 wp1. cbn beta iota.
  eapply (wp_for_in _ _ (fun r' => inv r' /\ warm_since (backend r') = warm_since (backend r))); [|done|by intros o r' []].
  intros [id since] r' Hin. apply quiesce_one_keeps. apply elem_of_map_to_list in Hin. by eauto.
Qed.
Hint Extern 1 (keeps _ run_warm_quiescence) => apply warm_quiescence_keeps : keeps.

Lemma tick_keeps : keeps inv (update_session_tick (H := H) (W := W)).
Proof. unfold update_session_tick. keeps. Qed.
Hint Extern 1 (keeps _ update_session_tick) => apply tick_keeps : keeps.

Lemma policies_keep : keeps inv (run_policies (H := H) (W := W)).
Proof. unfold run_policies. keeps. Qed.
Hint Extern 1 (keeps _ run_policies) => apply policies_keep : keeps.

(** *** Alerts *)

Lemma error_keeps handle message : keeps inv (handle_error (H := H) (W := W) handle message).
Proof. unfold handle_error. keeps. Qed.
Hint Extern 1 (keeps _ (handle_error _ _)) => apply error_keeps : keeps.

Lemma resume_saved_keeps handle params : keeps inv (handle_resume_saved (H := H) (W := W) handle params).
Proof. unfold handle_resume_saved, persist_torrent. keeps. Qed.
Hint Extern 1 (keeps _ (handle_resume_saved _ _)) => apply resume_saved_keeps : keeps.

Lemma resume_failed_keeps handle not_modified message : keeps inv (handle_resume_save_failed (H := H) (W := W) handle not_modified message).
Proof. unfold handle_resume_save_failed. keeps. Qed.
Hint Extern 1 (keeps _ (handle_resume_save_failed _ _ _)) => apply resume_failed_keeps : keeps.

Lemma metadata_event_keeps handle context source : keeps inv (metadata_event (H := H) (W := W) handle context source).
Proof. unfold metadata_event. keeps. Qed.
Hint Extern 1 (keeps _ (metadata_event _ _ _)) => apply metadata_event_keeps : keeps.

Lemma prepared_event_keeps handle id prepare : keeps inv (prepared_event (H := H) (W := W) handle id prepare).
Proof. unfold prepared_event. keeps. Qed.
Hint Extern 1 (keeps _ (prepared_event _ _ _)) => apply prepared_event_keeps : keeps.

Lemma emitted_keeps p : keeps inv (modify (set_metadata_emitted p) : op H W unit).
Proof. apply keeps_modify; [done|]. intros. apply change_context. Qed.
Hint Extern 1 (keeps _ (modify (set_metadata_emitted _))) => apply emitted_keeps : keeps.

Lemma metadata_keeps handle : keeps inv (handle_metadata (H := H) (W := W) handle).
Proof.
  unfold handle_metadata. do 2 (keeps1; [keeps|]). destruct a0; [keeps|]. keeps1; [destruct a as [p|]; [apply emitted_keeps|by apply keeps_other]|].
  keeps.
Qed.
Hint Extern 1 (keeps _ (handle_metadata _)) => apply metadata_keeps : keeps.

Lemma give_up_keeps context : keeps inv (modify (erase_add context) : op H W unit).
Proof. destruct context as [p|]; [apply keeps_modify; [done|intros; apply change_give_up]|by apply keeps_other]. Qed.
Hint Extern 1 (keeps _ (modify (erase_add _))) => apply give_up_keeps : keeps.

Lemma context_torrent_keeps id p : keeps inv (modify (set_context_torrent id p) : op H W unit).
Proof. apply keeps_modify; [done|]. intros. apply change_context. Qed.
Hint Extern 1 (keeps _ (modify (set_context_torrent _ _))) => apply context_torrent_keeps : keeps.

(** The context of an added torrent. *)
Lemma adopt_keeps id p handle :
  keeps inv (pending ← get (fun b : Backend H => bool_decide (p ∈ pending_adds b));
             if (pending : bool) then
               own ← userdata (W := W) handle;
               _ ← modify (adopt_context id p (bool_decide (own = Some p)));
               mret (negb (bool_decide (own = Some p)))
             else mret false).
Proof.
  intros r Hr. do 2 wp1. cbn beta iota. case_bool_decide as Hp; [|done]. apply wp_bind, wp_look. cbn beta iota. do 3 wp1. cbn beta iota.
  destruct (bool_decide _); [|done]. after Hr. by apply change_adopt.
Qed.

Lemma added_keeps handle context error : keeps inv (handle_added (W := W) handle context error).
Proof.
  unfold handle_added. keeps1; [keeps|]. destruct error as [message|]; [keeps|]. cbv zeta.
  intros r Hr. do 4 wp1. eapply (keeps_bind inv); cycle 2.
  { after Hr. apply change_arrive. }
  { keeps. }
  intros ready. keeps1; [keeps|]. keeps1; [|keeps].
  destruct context as [p|]; [|keeps]. keeps1; [keeps|]. apply adopt_keeps.
Qed.
Hint Extern 1 (keeps _ (handle_added _ _ _)) => apply added_keeps : keeps.

(** While a preparation is answered: it is pending, and the answer is among the events. *)
Definition answering (id : text) (prepare : PendingPrepare) (answered : bool) r : Prop :=
  inv r /\ pending_prepares (backend r) !! id = Some prepare /\ (answered = true -> Exists (answers_prepare prepare id) (events r)).

Lemma answered_erase id prepare r : answering id prepare true r -> inv (MkRun (erase_prepare id (backend r)) (world r) (events r)).
Proof.
  intros (Hr & Hp & Ha). after Hr. apply change_prepared. intros prepare'. rewrite Hp. intros [= <-]. apply Exists_app. left. by apply Ha.
Qed.

Lemma answer_push id prepare e r answered : answering id prepare answered r -> answers_prepare prepare id e ->
  answering id prepare true (MkRun (backend r) (world r) (events r ++ [e])).
Proof.
  intros (Hr & Hp & _) He. split; [|split; [done|]]; [after Hr; apply change_event|]. intros _. apply Exists_app. right. by apply Exists_cons_hd.
Qed.

Lemma save_frame m ev handle flags :
  keeps (fun r : Run H W => pending_prepares (backend r) = m /\ events r = ev) (request_resume_save (W := W) handle flags).
Proof.
  change (fun r : Run H W => pending_prepares (backend r) = m /\ events r = ev)
    with (on_tables (W := W) (fun s : Backend H * list BackendEvent => pending_prepares s.1 = m /\ s.2 = ev)).
  unfold request_resume_save, is_valid, userdata. frame.
Qed.

Lemma save_answering id prepare handle flags : keeps (answering id prepare true) (request_resume_save (W := W) handle flags).
Proof.
  intros r (Hr & Hp & Ha). pose proof (save_keeps handle flags r Hr) as H1.
  pose proof (save_frame _ _ handle flags r (conj eq_refl eq_refl)) as [H2 H3]. unfold wp in *.
  split; [done|]. by rewrite H2, H3.
Qed.

Lemma prepared_event_wp handle id prepare (Q : outcome BackendEvent -> Run H W -> Prop) r :
  inv r ->
  (forall r', inv r' -> pending_prepares (backend r') = pending_prepares (backend r) -> events r' = events r ->
     (forall what, Q (Raised what) r') /\ forall e, answers_prepare prepare id e -> Q (Returned e) r') ->
  wp (prepared_event handle id prepare) Q r.
Proof.
  intros Hr HQ. unfold prepared_event. do 2 wp1. destruct (let '(w, token) := _ in _) as [[s w] o]. cbn [fst snd].
  destruct (HQ (MkRun (set_stream_bridge s (backend r)) w (events r))) as [H1 H2]; [by after Hr; apply change_other|done..|].
  destruct o as [stream|what]; [|done]. cbn beta iota. wp1. apply H2. split; [|split]; [done..|by left].
Qed.

Lemma file_priority_keeps handle error : keeps inv (handle_file_priority (H := H) (W := W) handle error).
Proof.
  intros r Hr. unfold handle_file_priority. do 2 wp1. cbn beta iota zeta. set (id := torrent_id handle).
  destruct (pending_prepares (backend r) !! id) as [prepare|] eqn:Hp; [|done].
  assert (Hstart : answering id prepare false r) by done.
  assert (Hfail : forall message r', answering id prepare false r' ->
    wp (push to_events (error_event (pp_request_id prepare) id message))
      (fun o r'' => match o with Returned _ => answering id prepare true r'' | Raised _ => inv r'' end) r').
  { intros message r' Ha. apply wp_push. eapply answer_push; [done|]. split; [|split]; [done..|by right]. }
  wp1. apply (wp_conseq _ (fun o r' => match o with Returned _ => answering id prepare true r' | Raised _ => inv r' end)); cycle 1.
  { intros [u|what] r' Hr'; [|done]. wp1. by apply answered_erase with prepare. }
  destruct error as [message|]; [by apply Hfail|]. apply wp_catch_exception. do 2 wp1.
  destruct (lt_unset_flags _ _ _) as [w [u|[what|]]]; cbn beta iota delta [fst snd]; [|by apply Hfail|done].
  wp1. apply prepared_event_wp; [done|]. intros r' Hr' E1 E2. cbn in E1, E2.
  assert (Ha : answering id prepare false r') by (split; [done|]; by rewrite E1).
  split; [intros [what|]; [by apply Hfail|done]|]. intros e He. do 2 wp1.
  eapply wp_conseq; [by eapply save_answering, answer_push|]. intros [u'|[what|]] r2 Ha2; [done| |by destruct Ha2].
  apply Hfail. destruct Ha2 as (? & ? & _). by split.
Qed.
Hint Extern 1 (keeps _ (handle_file_priority _ _)) => apply file_priority_keeps : keeps.

Lemma file_error_keeps handle message : keeps inv (handle_file_error (H := H) (W := W) handle message).
Proof.
  intros r Hr. unfold handle_file_error. do 2 wp1. cbn beta iota zeta. set (id := torrent_id handle).
  destruct (pending_prepares (backend r) !! id) as [prepare|] eqn:Hp; [|done]. do 3 wp1.
  apply (answered_erase id prepare (MkRun (backend r) (world r) (events r ++ [_]))).
  apply (answer_push id prepare _ r false); [done|]. split; [|split]; [done..|by right].
Qed.
Hint Extern 1 (keeps _ (handle_file_error _ _)) => apply file_error_keeps : keeps.

Lemma remove_file_keeps request_id id to : keeps inv (remove_resume_file (H := H) (W := W) request_id id to).
Proof. unfold remove_resume_file. keeps. Qed.
Hint Extern 1 (keeps _ (remove_resume_file _ _ _)) => apply remove_file_keeps : keeps.

Lemma removed_keeps hashes context : keeps inv (handle_removed (H := H) (W := W) hashes context).
Proof.
  intros r Hr. unfold handle_removed. do 6 wp1. cbn beta iota. set (id := known_id context (hashes_id hashes) _).
  set (request_id := default 0 (pending_removals (backend r) !! id)). repeat wp1. unfold bridge_remove_torrent. do 3 wp1. cbn beta iota.
  destruct (StreamBridge.remove_torrent _ _ _) as [s w]. cbn [fst snd backend world events].
  eapply (keeps_bind inv).
  - apply keeps_when. keeps.
  - intros u. keeps1; [apply keeps_modify; [done|intros; apply change_retire]|]. keeps.
  - assert (Hl : I (erase_prepare id (forget_torrent id (erase_removal id (erase_unload id (erase_cache_removal id (backend r))))),
      events r ++ [backend_event torrent_removed request_id id [] []])).
    { after Hr. apply change_leave. done. }
    set (b := erase_prepare id (set_stream_bridge s (forget_torrent id (erase_removal id (erase_unload id (erase_cache_removal id (backend r))))))).
    assert (Hb : I (b, events r ++ [backend_event torrent_removed request_id id [] []])) by (after Hl; by apply change_other).
    destruct context as [p|]; [after Hb; apply change_saved|exact Hb].
Qed.
Hint Extern 1 (keeps _ (handle_removed _ _)) => apply removed_keeps : keeps.

Lemma alter_telemetry_keeps id f : (forall t, counters_ok t -> counters_ok (f t)) -> keeps inv (alter_telemetry (H := H) (W := W) id f).
Proof. intros Hf. unfold alter_telemetry. apply keeps_modify; [done|]. intros. by apply change_telemetry. Qed.

Lemma known_keeps id f : (forall t, counters_ok t -> counters_ok (f t)) -> keeps inv (modify (assign_known id f) : op H W unit).
Proof. intros Hf. apply keeps_modify; [done|]. intros. by apply change_known. Qed.

Lemma alert_keeps (a : alert H P) : alert_ok a -> keeps inv (handle_alert a).
Proof.
  intros Ha. destruct a; cbn [handle_alert]; try solve [keeps].
  - keeps1; [|keeps]. apply alter_telemetry_keeps. intros t []. split; [by apply count_finished_ok|done].
  - unfold handle_state_update. apply keeps_for_in. intros e He. apply known_keeps. intros t [].
    split; [|done]. apply update_status_ok; [|done]. cbn in Ha. rewrite Forall_forall in Ha. by apply Ha.
  - unfold handle_peer_info. cbv zeta. keeps1; [keeps|]. apply known_keeps. intros t []. split; [|done]. apply update_peers_ok; [|done].
    apply count_peers_ok.
  - apply alter_telemetry_keeps. intros t []. split; [by apply count_connect_ok|done].
  - apply alter_telemetry_keeps. intros t []. split; [by apply count_disconnect_ok|by apply count_disconnect_causes].
  - apply alter_telemetry_keeps. intros t []. split; [by apply count_tracker_reply_ok|done].
  - apply alter_telemetry_keeps. intros t []. split; [by apply count_tracker_error_ok|done].
  - apply alter_telemetry_keeps. intros t []. split; [by apply count_dht_reply_ok|done].
  - unfold announce_to_dht. keeps.
Qed.

(** *** The calls *)

Lemma load_resume_keeps id : keeps inv (load_resume_state (H := H) (W := W) id).
Proof. unfold load_resume_state. keeps. Qed.
Hint Extern 1 (keeps _ (load_resume_state _)) => apply load_resume_keeps : keeps.

Lemma payload_path_keeps id : keeps inv (prepare_payload_path (H := H) (W := W) id).
Proof. unfold prepare_payload_path. keeps. Qed.
Hint Extern 1 (keeps _ (prepare_payload_path _)) => apply payload_path_keeps : keeps.

Lemma readd_keeps request_id started id handle : keeps inv (readd_torrent (H := H) (W := W) request_id started id handle).
Proof.
  unfold readd_torrent. do 2 (keeps1; [keeps|]). keeps1; [destruct a0 as [p|]; [|keeps]|keeps].
  apply keeps_modify; [done|]. intros. apply change_context.
Qed.
Hint Extern 1 (keeps _ (readd_torrent _ _ _ _)) => apply readd_keeps : keeps.

(** [touch_disk_cache] does not throw, and does not look at the contexts. *)
Lemma touch_contexts id b w ev : exists b' w', (forall l, touch_disk_cache (H := H) id (MkRun (set_contexts l b) w ev) =
    (MkRun (set_contexts l b') w' ev, Returned tt)) /\
  touch_disk_cache (H := H) id (MkRun b w ev) = (MkRun b' w' ev, Returned tt) /\ contexts b' = contexts b.
Proof.
  unfold touch_disk_cache, catch_exception, mbind, op_bind, disk_touch. cbn [world backend events].
  destruct (fs_now w) as [w1 t]. cbn [disk_cache set_contexts]. destruct (touch _ w1 id t) as [w2 [u|e]]; cbn; [by exists (set_last_disk_cache_error [] b), w2|].
  unfold report_disk_cache_error, mbind, op_bind. cbn. destruct (text_eqb _ _); [by exists b, w2|]. set (what := str (exn_what e)).
  set (event := error_event 0 [] _). by exists (set_queued_events (queued_events b ++ [event]) (set_last_disk_cache_error what b)), w2.
Qed.

Lemma add_new_keeps request_id started id type source : keeps inv (add_new_torrent (W := W) request_id started id type source).
Proof.
  unfold add_new_torrent. keeps1; [keeps|]. destruct (merge_resume source type a) as [params from]. keeps1; [keeps|].
  set (c := MkContext request_id id false false from started). intros [b w ev] Hr.
  apply wp_bind. unfold wp at 1, make_context. cbn [fst snd backend world events]. apply wp_bind. unfold wp at 1.
  destruct (touch_contexts id b w ev) as (b' & w' & -> & Ht & Hc). pose proof (touch_keeps id _ Hr) as Hr'. unfold wp in Hr'.
  rewrite Ht in Hr'. cbn [fst snd] in *. rewrite <-Hc. do 4 wp1. cbn [backend world events].
  assert (Ha : I (set_pending_adds ({[length (contexts b')]} ∪ pending_adds b') (set_contexts (contexts b' ++ [c]) b'), ev)).
  { after Hr'. apply change_allocate. }
  destruct (lt_async_add_torrent _ _) as [w2 [u|what]]; cbn; [exact Ha|]. after Ha. apply change_give_up.
Qed.
Hint Extern 1 (keeps _ (add_new_torrent _ _ _ _ _)) => apply add_new_keeps : keeps.

Lemma add_torrent_keeps request_id input : keeps inv (add_torrent (W := W) request_id input).
Proof. unfold add_torrent. keeps. Qed.

(** What the calls do before they look for a pending request does not change the table of handles. *)
Lemma handles_frame m id handle : let K (r : Run H W) := handles (backend r) = m in
  keeps K (focus_torrent id) /\ keeps K (activate_torrent id handle) /\ keeps K (touch_disk_cache id).
Proof.
  cbv zeta.
  change (fun r : Run H W => handles (backend r) = m) with (on_tables (W := W) (fun s : Backend H * list BackendEvent => handles s.1 = m)).
  unfold focus_torrent, focus_one, activate_torrent, touch_disk_cache, report_disk_cache_error, mark_warm, is_valid, has_stream, set_flags, now.
  split_and!; frame. intros r Hr. unfold wp, disk_touch. destruct (fs_now (world r)) as [w t].
  destruct (touch (disk_cache (backend r)) w id t). exact Hr.
Qed.

Lemma keeps_and {A} (J K : Run H W -> Prop) (m : op H W A) : keeps J m -> keeps K m -> keeps (fun r => J r /\ K r) m.
Proof. intros HJ HK r [H1 H2]. specialize (HJ r H1). specialize (HK r H2). by split. Qed.

Lemma keeps_weaken {A} (J : Run H W -> Prop) (m : op H W A) r : keeps J m -> J r -> (forall r', J r' -> inv r') -> wp m (fun _ => inv) r.
Proof. intros Hm Hr HJ. eapply wp_conseq; [by apply Hm|]. auto. Qed.

Lemma prepare_keeps request_id id file_index file : keeps inv (prepare_file (W := W) request_id id file_index file).
Proof.
  intros r Hr. unfold prepare_file. apply wp_bind, find_valid_wp; cbn beta iota; [done|]. intros handle Hh Hv.
  destruct (handles_frame (handles (backend r)) id handle) as (F1 & F2 & F3).
  apply (keeps_weaken (fun r' => inv r' /\ handles (backend r') = handles (backend r))); [|done|by intros r' []].
  keeps1; [apply keeps_and; [keeps|done]|]. keeps1; [apply keeps_and; [keeps|done]|]. keeps1; [apply keeps_and; [keeps|done]|].
  clear F1 F2 F3. intros r1 [Hr1 E1]. do 2 wp1. cbn beta iota. case_bool_decide as Hp; [done|]. do 2 wp1.
  destruct (lt_torrent_file _ _) as [[m|]|what]; cbn beta iota; [|done..]. destruct (_ <=? _); [done|]. cbv zeta. set (prepare := MkPrepare _ _ _).
  apply wp_bind, wp_observe. destruct (lt_status _ _) as [st|what]; cbn beta iota; [|done]. destruct (ts_is_seeding st).
  - eapply (wp_conseq _ (fun _ r' => inv r' /\ handles (backend r') = handles (backend r))); [|done].
    eapply (keeps_bind (fun r' => inv r' /\ handles (backend r') = handles (backend r))); [| |done].
    + apply keeps_and; [keeps|]. unfold prepared_event.
      change (fun r' : Run H W => handles (backend r') = ?m) with (on_tables (W := W) (fun s : Backend H * list BackendEvent => handles s.1 = m)). frame.
    + intros event. apply keeps_and; [keeps|]. intros r2 Hr2. by apply wp_push.
  - do 4 wp1. destruct (lt_prioritize_files _ _ _) as [w [u|what]]; cbn.
    + split; [|done]. after Hr1. apply change_prepare; [rewrite E1; eauto|by apply eq_None_not_Some].
    + split; [|done]. after Hr1. apply change_other. unfold tables. cbn. rewrite delete_insert_id; [done|by apply eq_None_not_Some].
Qed.

Lemma mark_removed_inv v context b ev : I (b, ev) -> I (mark_removed v context b, ev).
Proof. intros Hb. destruct context as [p|]; [after Hb; apply change_context|done]. Qed.

Lemma bridge_remove_keeps id : keeps inv (bridge_remove_torrent (H := H) (W := W) id).
Proof. unfold bridge_remove_torrent. keeps. Qed.
Hint Extern 1 (keeps _ (bridge_remove_torrent _)) => apply bridge_remove_keeps : keeps.

(** The end of [remove_torrent]: a pending preparation is answered. *)
Lemma cancel_prepare_keeps id :
  keeps inv (prepare ← get (fun b : Backend H => pending_prepares b !! id);
             match prepare with
             | Some prepare =>
               _ ← push to_queue (error_event (pp_request_id prepare) id (str "stream preparation cancelled by torrent removal"));
               modify (erase_prepare id)
             | None => mret tt : op H W unit
             end).
Proof.
  intros r Hr. do 2 wp1. cbn beta iota. destruct (pending_prepares (backend r) !! id) as [prepare|] eqn:Hp; [|done]. do 3 wp1. cbn beta iota.
  set (e := error_event _ _ _).
  assert (Hq : I (set_queued_events (queued_events (backend r) ++ [e]) (backend r), events r)) by (after Hr; apply change_queue).
  after Hq. apply change_prepared. cbn. rewrite Hp. intros prepare' [= <-]. apply Exists_app. right. apply Exists_app. right.
  apply Exists_cons_hd. split; [|split]; [done..|by right].
Qed.

Lemma finish_removal_keeps request_id id context : keeps inv (finish_removal (H := H) (W := W) request_id id context).
Proof.
  unfold finish_removal. do 2 (keeps1; [keeps|]). keeps1.
  { apply keeps_modify; [done|]. intros b ev. apply (change_cool b ev id). }
  do 2 (keeps1; [keeps|]). apply cancel_prepare_keeps.
Qed.

Lemma remove_keeps request_id id : keeps inv (remove_torrent (W := W) request_id id).
Proof.
  intros r Hr. unfold remove_torrent. apply wp_bind, find_valid_wp; cbn beta iota; [done|]. intros handle Hh Hv.
  do 2 wp1. cbn beta iota. case_bool_decide as Hn; [done|]. apply eq_None_not_Some in Hn.
  apply wp_bind, wp_look. cbn beta iota. set (context := lt_userdata _ _). do 4 wp1. cbn beta iota. cbn [backend world events].
  set (b0 := mark_removed true context (backend r)).
  assert (Hb0 : I (b0, events r)) by by apply mark_removed_inv.
  assert (Eb : handles b0 = handles (backend r) /\ pending_removals b0 = pending_removals (backend r)) by (by destruct context).
  destruct Eb as [Eh Er]. apply wp_bind, wp_rethrowing. set (b1 := erase_cache_removal id (erase_unload id b0)).
  set (b2 := start_removal request_id id context (backend r)).
  assert (Hfail : forall w what, (fun o r' => match o with Returned _ => False | Raised _ => inv r' end) (Raised what : outcome unit)
    (MkRun (mark_removed false context (erase_removal id b2)) w (events r))).
  { intros w what. apply mark_removed_inv. apply (inv_other I b1).
    - unfold tables, b2, start_removal. fold b0 b1. cbn. rewrite Er, delete_insert_id by done. done.
    - unfold b1. assert (Hu : I (erase_unload id b0, events r)) by (after Hb0; apply change_keep). after Hu. apply change_reload. }
  assert (Hok : forall w, inv (MkRun b2 w (events r))).
  { intros w. after Hb0. apply (change_remove b0); [rewrite Eh; eauto|by rewrite Er]. }
  assert (Hrest : forall w, wp (finish_removal request_id id context) (fun _ => inv) (MkRun b2 w (events r))).
  { intros w. apply finish_removal_keeps, Hok. }
  destruct (negb _); [|apply Hrest]. cbn [when]. apply wp_perform. cbn [backend world events].
  destruct (lt_remove_torrent (world r) handle) as [w [u|what]]; cbn [fst snd]; [apply Hrest|apply Hfail; exact what].
Qed.

Lemma stop_keeps request_id stream_id : keeps inv (stop_stream (H := H) (W := W) request_id stream_id).
Proof. unfold stop_stream. keeps. Qed.

Lemma reclaim_keeps request_id target : keeps inv (reclaim_disk_cache (H := H) (W := W) request_id target).
Proof.
  intros r Hr. unfold reclaim_disk_cache. do 2 wp1. cbn beta iota. destruct (Z.leb_spec maximum_pending_disk_reclaims (Z.of_nat (length (pending_disk_reclaims (backend r))))); [done|].
  wp1. after Hr. by apply change_reclaim.
Qed.

Lemma statistics_keeps : keeps inv (statistics (H := H) (W := W)).
Proof. unfold statistics. keeps. Qed.

Lemma expire_keeps expired : keeps inv (expire_one (H := H) (W := W) expired).
Proof. unfold expire_one. keeps. Qed.
Hint Extern 1 (keeps _ (expire_one _)) => apply expire_keeps : keeps.

(** Before the alerts nothing is pushed to the vector of [pop_events]. *)
Lemma expire_frame ev expired : keeps (fun r : Run H W => events r = ev) (expire_one expired).
Proof.
  change (fun r : Run H W => events r = ev) with (on_tables (W := W) (fun s : Backend H * list BackendEvent => s.2 = ev)).
  unfold expire_one, leave_torrent, find_valid, mark_warm, is_valid, has_stream, set_flags, now. frame.
Qed.

(** The events that [pop_events] returns are those of its changes. *)
Lemma pop_events_wp (Halerts : alerts_ok (H := H) (W := W)) r : inv r -> events r = [] ->
  wp pop_events (fun o r' => match o with Returned evs => I (backend r', evs) /\ events r' = [] | Raised _ => inv r' end) r.
Proof.
  intros Hr Hev. unfold pop_events. set (K := fun r' : Run H W => inv r' /\ events r' = []).
  assert (HK : K r) by done.
  apply wp_bind. apply (wp_conseq _ (fun _ => K)).
  { apply keeps_and; [keeps| |done]. intros r' Hr'. by apply wp_bridge. }
  intros [u|what] r1 H1; [|by destruct H1]. apply wp_bind. apply (wp_conseq _ (fun _ => K)).
  { apply keeps_and; [keeps| |done]. intros r' Hr'. by apply wp_bridge_. }
  intros [expired|what] r2 H2; [|by destruct H2]. apply wp_bind. apply (wp_conseq _ (fun _ => K)).
  { apply keeps_for_in; [|done]. intros e _. apply keeps_and; [keeps|apply expire_frame]. }
  intros [u'|what] r3 [H3 E3]; [|done]. do 2 wp1. pose proof (Halerts (world r3)) as Ha.
  destruct (lt_pop_alerts (world r3)) as [w alerts]. cbn [fst snd] in *.
  apply wp_bind. unfold wp at 1, take_queued. cbn [fst snd backend world events].
  apply wp_bind. apply (wp_conseq _ (fun _ => inv)).
  { apply keeps_for_in; [intros a Hin; by apply alert_keeps, Ha|]. unfold on_tables in H3. rewrite E3 in H3. after H3. apply change_take. }
  intros [u2|what] r4 H4; [|done]. apply wp_bind. apply (wp_conseq _ (fun _ => inv)); [by apply policies_keep|].
  intros [u3|what] r5 H5; [|done]. by split.
Qed.

(** Calls of [pop_events] whose events are thrown away. *)
Context (Hdrop : forall b ev, I (b, ev) -> I (b, [])).

Lemma wait_wp (Halerts : alerts_ok (H := H) (W := W)) fuel deadline r : inv r -> events r = [] ->
  wp (wait_for_saves fuel deadline) (fun _ => inv) r.
Proof.
  revert r. induction fuel as [|fuel IH]; intros r Hr E; [done|]. cbn [wait_for_saves]. do 2 wp1. cbn beta iota. destruct (negb _); [done|].
  apply wp_bind, wp_now. intros w t. cbn beta iota. destruct (t <? deadline); [|done]. apply wp_bind, wp_change. cbn beta iota.
  apply wp_bind. eapply wp_conseq; [by apply pop_events_wp|]. intros [evs|what] r' Hr'; [|done].
  destruct Hr' as [H1 H2]. apply IH; [|done]. unfold on_tables. rewrite H2. by apply Hdrop in H1.
Qed.

Lemma saves_frame flags ev : keeps (fun r : Run H W => events r = ev) (save_all flags).
Proof.
  change (fun r : Run H W => events r = ev) with (on_tables (W := W) (fun s : Backend H * list BackendEvent => s.2 = ev)).
  unfold save_all, request_resume_save, is_valid, userdata. frame.
Qed.

Lemma shutdown_wp (Halerts : alerts_ok (H := H) (W := W)) fuel r : inv r -> events r = [] -> wp (shutdown fuel) (fun _ => inv) r.
Proof.
  intros Hr E. unfold shutdown. do 2 wp1. cbn beta iota. destruct (stopped (backend r)); [done|]. do 2 wp1. unfold bridge_shutdown. do 2 wp1.
  set (b := set_stream_bridge _ _). assert (Hb : I (b, events r)) by (after Hr; by apply change_other).
  apply wp_bind. eapply (wp_conseq _ (fun _ r' => inv r' /\ events r' = [])).
  { apply keeps_and; [keeps|apply saves_frame|by split]. }
  intros [u|what] r1 [H1 E1]; [|done]. apply wp_bind, wp_now. intros w t. cbn beta iota. apply wp_bind.
  eapply wp_conseq; [by apply wait_wp|]. intros [[|]|what] r2 H2; [|done..]. apply (keeps_bind inv); [keeps|intros; keeps|done].
Qed.
End operations.
