(* ===== verification/BackendInvariant.v ===== *)
(** The invariants of the libtorrent backend: the calls of the engine's thread interleaved with
    whatever the HTTP threads and the world do, the tables of [LibtorrentBackend] kept
    consistent by every one of them, and every [RequestContext] with one owner at most. *)
From stdpp Require Import prelude strings list gmap relations.
From Stdlib Require Import ZArith Lia Ascii.
From S2P Require Import Prelude Text EngineTypes BridgeState StreamProgress BackendTelemetry BackendState MemoryTorrent MemoryHost Backend BackendSteps.

(** ** What the tables satisfy *)

Record tables_ok {H W} `{Torrents H W} (b : Backend H) : Prop := {
  tk_handles : forall id handle, handles b !! id = Some handle -> torrent_id handle = id;
  tk_telemetry : dom (telemetry b) = dom (handles b);
  tk_counters : forall id t, telemetry b !! id = Some t -> counters_ok t;
  tk_quiesced : quiesced_torrents b ⊆ dom (warm_since b);
  tk_prepares : dom (pending_prepares b) ⊆ dom (handles b);
  tk_removals : dom (pending_removals b) ⊆ dom (handles b);
  tk_unloads : pending_cache_unloads b ⊆ dom (handles b);
  tk_cache_removals : pending_cache_removals b ⊆ dom (handles b);
  tk_apart : pending_cache_unloads b ## pending_cache_removals b /\ pending_cache_unloads b ## dom (pending_removals b) /\
    pending_cache_removals b ## dom (pending_removals b);
  tk_reclaims : Z.of_nat (length (pending_disk_reclaims b)) <= maximum_pending_disk_reclaims;
}.

(** Who owns the contexts: [pending_], [active_] or [retired_]. *)
Record contexts_ok {H} (b : Backend H) : Prop := {
  ct_pending : forall p, p ∈ pending_adds b -> (p < length (contexts b))%nat;
  ct_active : forall id p, active b !! id = Some p -> (p < length (contexts b))%nat /\ (p ∉ pending_adds b) /\ (p ∉ retired b);
  ct_active_once : forall id id' p, active b !! id = Some p -> active b !! id' = Some p -> id = id';
  ct_retired : forall p, p ∈ retired b -> (p < length (contexts b))%nat /\ (p ∉ pending_adds b);
  ct_retired_once : NoDup (retired b);
}.

Section invariants.
Context {H W : Type} `{Torrents H W}.
Implicit Types b : Backend H.


(** The goals about sets of torrents. *)
Ltac domains :=
  rewrite ?dom_insert_L, ?dom_delete_L;
  repeat match goal with H : forall _, _ |- _ => clear H end;
  lazymatch goal with
  | |- _ /\ _ => split_and!; set_solver
  | |- _ => set_solver
  end.

#[global] Instance tables_closed : Closed (W := W) (fun s => tables_ok (W := W) s.1).
Proof.
  intros s s' Hc. destruct Hc; cbn [fst]; intros [T1 T2 T3 T4 T5 T6 T7 T8 [T9 [T10 T11]] T12].
  all: try (by split).
  - destruct b, b'. unfold tables in H1. cbn in *. simplify_eq. by split.
  - unfold adopt_context. destruct (active b !! id); by split.
  - unfold retire_context. destruct (active b !! id); by split.
  - split; cbn; try done; rewrite ?dom_insert_L; try (clear -T5 T6 T7 T8; set_solver).
    + intros id' h. destruct (decide (id' = id)) as [->|Hne]; [rewrite lookup_insert_eq|rewrite lookup_insert_ne by done; apply T1].
      by intros [= <-].
    + destruct (telemetry b !! id) eqn:E; [|rewrite dom_insert_L; set_solver].
      assert (id ∈ dom (telemetry b)) by (apply elem_of_dom; eauto). set_solver.
    + intros id' t. destruct (telemetry b !! id) eqn:E; [apply T3|]. destruct (decide (id' = id)) as [->|Hne];
        [rewrite lookup_insert_eq|rewrite lookup_insert_ne by done; apply T3].
      intros [= <-]. split; [apply no_telemetry_ok|done].
  - split; cbn; try done; [by rewrite dom_alter_L|]. intros id' t. rewrite lookup_alter_Some.
    intros [(-> & t' & Ht & ->)|(_ & Ht)]; [apply H1|]; by eapply T3.
  - unfold assign_known. destruct (handles b !! id) as [h|] eqn:E; [|by split]. split; cbn; try done.
    + assert (id ∈ dom (handles b)) by (apply elem_of_dom; eauto). rewrite dom_insert_L. set_solver.
    + intros id' t. destruct (decide (id' = id)) as [->|Hne]; [rewrite lookup_insert_eq|rewrite lookup_insert_ne by done; apply T3].
      intros [= <-]. apply H1. destruct (telemetry b !! id) as [t'|] eqn:Et; [by eapply T3|]. split; [apply no_telemetry_ok|done].
  - split; cbn; try done. destruct (warm_since b !! id); [done|]. rewrite dom_insert_L. set_solver.
  - split; cbn; try done. apply elem_of_dom in H1. set_solver.
  - split; cbn; try done. rewrite dom_delete_L. set_solver.
  - destruct p; by split.
  - apply elem_of_dom in H1. apply not_elem_of_dom in H2. split; cbn; try done; domains.
  - split; cbn; try done; domains.
  - split; cbn; try done; domains.
  - split; cbn; try done; domains.
  - apply elem_of_dom in H1. apply not_elem_of_dom in H2. unfold b'. split; cbn; try done; domains.
  - split; cbn; [| |intros id' t Ht; apply lookup_delete_Some in Ht as [_ Ht]; by eapply T3|..]; [|domains..|done].
    intros id' h Hh. apply lookup_delete_Some in Hh as [_ Hh]. by apply T1.
  - apply elem_of_dom in H1. split; cbn; try done. domains.
  - split; cbn; try done. domains.
  - split; cbn; try done. rewrite length_app. cbn. lia.
Qed.

Lemma new_tables_ok config diagnostic t1 t2 t3 t4 : tables_ok (W := W) (new_backend (H := H) config diagnostic t1 t2 t3 t4).
Proof. split; cbn; rewrite ?dom_empty_L; try done; try set_solver. Qed.

(** A context goes from [active_] to [retired_]. *)
Lemma retire_contexts_ok id b : contexts_ok b -> contexts_ok (retire_context id b).
Proof.
  intros [C1 C2 C3 C4 C5]. unfold retire_context. destruct (active b !! id) as [old|] eqn:E; [|by split].
  destruct (C2 id old E) as (Hl & Hp & Hr). split; cbn.
  - done.
  - intros id' q [Hne Hq]%lookup_delete_Some. destruct (C2 id' q Hq) as (? & ? & ?). split; [done|]. split; [done|].
    apply not_elem_of_app. split; [done|]. apply not_elem_of_cons. split; [|by apply not_elem_of_nil]. intros ->. by apply Hne, (C3 id id' old).
  - intros id1 id2 q [_ H1]%lookup_delete_Some [_ H2]%lookup_delete_Some. by eapply C3.
  - intros q [Hq|Hq]%elem_of_app; [by apply C4|]. apply list_elem_of_singleton in Hq as ->. done.
  - apply NoDup_app. split; [done|]. split; [|apply NoDup_singleton]. intros q Hq ->%list_elem_of_singleton. done.
Qed.

(** A context goes from [pending_] to [active_]. *)
Lemma activate_contexts_ok id p b : contexts_ok b -> p ∈ pending_adds b -> active b !! id = None ->
  contexts_ok (erase_add (Some p) (set_active (<[id := p]> (active b)) b)).
Proof.
  intros [C1 C2 C3 C4 C5] Hp Hn. split; cbn.
  - set_solver.
  - intros id' q [[<- <-]|[Hne Hq]]%lookup_insert_Some.
    + split; [by apply C1|]. split; [set_solver|]. intros Hr. by destruct (C4 p Hr).
    + destruct (C2 id' q Hq) as (? & ? & ?). set_solver.
  - intros id1 id2 q [[<- <-]|[H1 Hq1]]%lookup_insert_Some [[<- E]|[H2 Hq2]]%lookup_insert_Some; [done|..].
    + by destruct (C2 id2 p Hq2) as (_ & ? & _).
    + subst q. by destruct (C2 id1 p Hq1) as (_ & ? & _).
    + by eapply C3.
  - intros q Hq. destruct (C4 q Hq). set_solver.
  - done.
Qed.

(** The contexts. *)
#[global] Instance contexts_closed : Closed (W := W) (fun s : Backend H * list BackendEvent => contexts_ok s.1).
Proof.
  intros s s' Hc. destruct Hc; cbn [fst]; intros [C1 C2 C3 C4 C5].
  all: try (by split).
  - destruct b, b'. unfold tables in H1. cbn in *. simplify_eq. by split.
  - split; cbn; rewrite ?length_alter; done.
  - split; cbn; rewrite ?length_app; cbn.
    + intros p [->%elem_of_singleton|Hp]%elem_of_union; [lia|]. specialize (C1 p Hp). lia.
    + intros id p Hp. destruct (C2 id p Hp) as (Hl & Ha & Hr). split; [lia|]. split; [|done]. apply not_elem_of_union.
      split; [|done]. apply not_elem_of_singleton. lia.
    + done.
    + intros p Hp. destruct (C4 p Hp) as [Hl Ha]. split; [lia|]. apply not_elem_of_union. split; [|done]. apply not_elem_of_singleton. lia.
    + done.
  - split; cbn; [intros q Hq; apply C1; set_solver|intros id q Hq; destruct (C2 id q Hq) as (? & ? & ?); set_solver|done|
      intros q Hq; destruct (C4 q Hq); set_solver|done].
  - unfold adopt_context. fold (retire_context id b). pose proof (retire_contexts_ok id b ltac:(by split)) as Hb.
    apply activate_contexts_ok; [done| |]; unfold retire_context; destruct (active b !! id) eqn:E; cbn; try done. by rewrite lookup_delete_eq.
  - apply retire_contexts_ok. by split.
  - unfold assign_known. destruct (handles b !! id); by split.
  - destruct p; by split.
Qed.
End invariants.

(** ** Runs of the backend *)

(** The calls of the engine's thread, with the events each hands over ([None] when those of
    [pop_events] are lost), and between them the steps of the HTTP threads on the stream bridge
    and of the world. *)
Inductive backend_step {H W P} `{Host H W P} : Backend H * W -> option (list BackendEvent) -> Backend H * W -> Prop :=
| step_add bw request_id input : backend_step bw (Some []) (call (add_torrent request_id input) bw).2
| step_prepare bw request_id id file_index file : backend_step bw (Some []) (call (prepare_file request_id id file_index file) bw).2
| step_remove bw request_id id : backend_step bw (Some []) (call (remove_torrent request_id id) bw).2
| step_stop bw request_id stream_id : backend_step bw (Some []) (call (stop_stream request_id stream_id) bw).2
| step_reclaim bw request_id target : backend_step bw (Some []) (call (reclaim_disk_cache request_id target) bw).2
| step_statistics bw : backend_step bw (Some []) (call statistics bw).2
| step_pop bw bw' evs : call pop_events bw = (Returned evs, bw') -> backend_step bw (Some evs) bw'
| step_pop_throws bw bw' what : call pop_events bw = (Raised what, bw') -> backend_step bw None bw'
| step_shutdown bw fuel : backend_step bw None (call (shutdown fuel) bw).2
| step_bridge b s w : backend_step (b, w) (Some []) (set_stream_bridge s b, w)
| step_world b w w' : backend_step (b, w) (Some []) (b, w').

(** The states of a run; the events of each step. *)
Inductive backend_run {H W P} `{Host H W P} (start : Backend H * W) : list (option (list BackendEvent)) -> Backend H * W -> Prop :=
| run_start : backend_run start [] start
| run_step tr bw e bw' : backend_run start tr bw -> backend_step bw e bw' -> backend_run start (tr ++ [e]) bw'.

Section runs.
Context {H W P : Type} `{Host H W P} (I : Backend H * list BackendEvent -> Prop) `{!Closed I}.
Implicit Types (bw : Backend H * W).

Lemma keeps_call {A} (m : op H W A) bw : wp m (fun _ => on_tables I) (MkRun bw.1 bw.2 []) ->
  exists ev, I ((call m bw).2.1, ev).
Proof. unfold call, wp, on_tables. destruct (m _) as [r o]. cbn. eauto. Qed.

(** An invariant that does not look at the events holds after every step. *)
Lemma step_keeps (Hdrop : forall b ev, I (b, ev) -> I (b, [])) (Halerts : alerts_ok (H := H) (W := W)) bw e bw' :
  backend_step bw e bw' -> I (bw.1, []) -> I (bw'.1, []).
Proof.
  intros Hs Hi. assert (Hcall : forall A (m : op H W A), keeps (on_tables I) m -> I ((call m bw).2.1, [])).
  { intros A m Hm. destruct (keeps_call m bw) as [ev Hev]; [|by eapply Hdrop]. by apply Hm. }
  assert (Hpop : forall o bw', call pop_events bw = (o, bw') -> I (bw'.1, [])).
  { intros o bw1. pose proof (pop_events_wp I Halerts (MkRun bw.1 bw.2 []) Hi eq_refl) as Hw. unfold call, wp in *.
    destruct (pop_events _) as [r [evs|what]]; cbn in *; intros [= <- <-]; cbn; [destruct Hw as [Hw _]|]; by eapply Hdrop. }
  destruct Hs as [| | | | | | | | |b s w|b w w'].
  - apply Hcall. by apply add_torrent_keeps.
  - apply Hcall. by apply prepare_keeps.
  - apply Hcall. by apply remove_keeps.
  - apply Hcall. by apply stop_keeps.
  - apply Hcall. by apply reclaim_keeps.
  - apply Hcall. by apply statistics_keeps.
  - by eapply Hpop.
  - by eapply Hpop.
  - destruct (keeps_call (shutdown fuel) bw) as [ev Hev]; [by apply shutdown_wp|by eapply Hdrop].
  - by apply (inv_other I b).
  - done.
Qed.

Lemma run_keeps (Hdrop : forall b ev, I (b, ev) -> I (b, [])) (Halerts : alerts_ok (H := H) (W := W)) start tr bw :
  backend_run start tr bw -> I (start.1, []) -> I (bw.1, []).
Proof. induction 1 as [|tr bw e bw' Hr IH Hs]; intros Hi; [done|]. eapply step_keeps; eauto. Qed.
End runs.

(** Maps with the same keys have the same size. *)
Lemma size_of_dom {A B : Type} (m : gmap text A) (m' : gmap text B) : dom m = dom m' -> length (map_to_list m) = base.size m'.
Proof. intros E. by rewrite length_map_to_list, <-!size_dom, E. Qed.

Section theorems.
Context {H W P : Type} `{Host H W P}.

(** C7. Whatever is called, and whatever the HTTP threads and the world do between the
    calls, the tables of the backend fit together: a handle is filed under its torrent's id,
    exactly the torrents with a handle have telemetry, and its counters fit their types and
    count every disconnection once; a paused torrent is warm; only torrents with a handle are
    being prepared, removed or unloaded, and none is removed and unloaded at once; no more
    reclaims wait than are allowed. *)
Theorem backend_consistent (Halerts : alerts_ok (H := H) (W := W)) (config : ProtocolBackendConfig) (diagnostic : text) (t1 t2 t3 t4 : Z)
    (w w' : W) (tr : list (option (list BackendEvent))) (b : Backend H)
    (Hrun : backend_run (new_backend config diagnostic t1 t2 t3 t4, w) tr (b, w')) :
  tables_ok (W := W) b.
Proof. apply (run_keeps (fun s => tables_ok (W := W) s.1) (fun _ _ Hb => Hb) Halerts _ _ _ Hrun). apply new_tables_ok. Qed.

(** C28. The contexts of requests have one owner at most: no context is pending and active or
    retired, none is active for two torrents or retired twice, so that no [unique_ptr] frees
    an object that another still has. *)
Theorem contexts_owned_once (Halerts : alerts_ok (H := H) (W := W)) (config : ProtocolBackendConfig) (diagnostic : text) (t1 t2 t3 t4 : Z)
    (w w' : W) (tr : list (option (list BackendEvent))) (b : Backend H)
    (Hrun : backend_run (new_backend config diagnostic t1 t2 t3 t4, w) tr (b, w')) :
  contexts_ok b.
Proof.
  apply (run_keeps (fun s : Backend H * list BackendEvent => contexts_ok s.1) (fun _ _ Hb => Hb) Halerts _ _ _ Hrun).
  split; cbn; try set_solver. apply NoDup_nil_2.
Qed.

(** [statistics] returns, and reports for every counter of the telemetry the sum over the
    torrents in the session, or the largest value of its type when the sum is larger; the
    numbers of torrents are those of the tables. *)
Theorem statistics_add_up (Halerts : alerts_ok (H := H) (W := W)) (config : ProtocolBackendConfig) (diagnostic : text) (t1 t2 t3 t4 : Z)
    (w w' : W) (tr : list (option (list BackendEvent))) (b : Backend H)
    (Hrun : backend_run (new_backend config diagnostic t1 t2 t3 t4, w) tr (b, w')) :
  exists st s w'', call statistics (b, w') = (Returned st, (set_stream_bridge s b, w'')) /\
    (let ts := (map_to_list (telemetry b)).*2 in
     length ts = base.size (handles b) /\
     Forall (fun p => p.2 st = Z.min U32_MAX (zsum (p.1 <$> ts))) counters32 /\
     Forall (fun p => p.2 st = Z.min U64_MAX (zsum (p.1 <$> ts))) counters64) /\
    bs_active_torrents st = Z.min (Z.of_nat (base.size (handles b))) U32_MAX /\
    bs_warm_torrents st = Z.min (Z.of_nat (base.size (warm_since b))) U32_MAX.
Proof.
  pose proof (run_keeps (fun s => tables_ok (W := W) s.1) (fun _ _ Hb => Hb) Halerts _ _ _ Hrun (new_tables_ok _ _ _ _ _ _)) as Hok.
  cbn [fst] in Hok. unfold call, statistics, bridge_statistics, bridge_, bridge, look, get, mbind, op_bind. cbn [world backend stream_bridge].
  destruct (StreamProgress.statistics _ _ _) as [[s w2] stream]. eexists _, s, w2. split; [reflexivity|]. split; [|done].
  split; [rewrite length_fmap; apply size_of_dom, Hok|]. cbn [telemetry set_stream_bridge].
  apply statistics_total. intros id t Ht. by apply (tk_counters (W := W) b Hok id t).
Qed.

(** A peer list that libtorrent reports for a torrent in the session leaves in the
    torrent's telemetry how many of the peers are connecting, interesting, unchoked and so on,
    the sums of their queues, and how many of them have, or are sending, a piece that a reader
    of a stream waits for; no other torrent's telemetry changes. *)
Theorem peer_info_reported (b : Backend H) (w : W) (handle h : H) (peers : list peer_info)
    (Hin : handles b !! torrent_id handle = Some h) (Hp : Forall peer_ok peers) (Hn : Z.of_nat (length peers) <= U32_MAX) :
  exists b' t, call (handle_peer_info handle peers) (b, w) = (Returned tt, (b', w)) /\
    telemetry b' !! torrent_id handle = Some t /\ peers_counted (blocking_pieces (stream_bridge b) (torrent_id handle)) peers t /\
    forall id, id <> torrent_id handle -> telemetry b' !! id = telemetry b !! id.
Proof.
  change (call (handle_peer_info handle peers) (b, w)) with (Returned (A := unit) tt,
    (assign_known (torrent_id handle) (update_peers (count_peers (blocking_pieces (stream_bridge b) (torrent_id handle)) peers)) b, w)).
  unfold assign_known. rewrite Hin.
  eexists _, _. split; [reflexivity|]. split; [apply lookup_insert_eq|]. split; [by apply peer_info_counts|].
  intros id Hne. by apply lookup_insert_ne.
Qed.
End theorems.

(** ** A run *)

Section demo.
Context {H W P : Type} `{Host H W P}.

Definition returned {A} (o : outcome (list A)) : list A := match o with Returned l => l | Raised _ => [] end.
Definition returns {A} (o : outcome A) : bool := match o with Returned _ => true | Raised _ => false end.

Lemma pop_step bw : returns (call pop_events bw).1 = true ->
  backend_step bw (Some (returned (call pop_events bw).1)) (call pop_events bw).2.
Proof. intros E. apply step_pop. destruct (call pop_events bw) as [[evs|what] bw']; [done|discriminate]. Qed.
End demo.

Lemma returned_pair {S} (x : outcome unit * S) : returns x.1 = true -> x = (Returned tt, x.2).
Proof. by destruct x as [[[]|what] s]. Qed.

Lemma host_alerts_ok : alerts_ok (H := unit) (W := host).
Proof.
  intros w a (n & -> & _)%list_elem_of_fmap. destruct n; cbn; try done. apply Forall_singleton. cbn. unfold status_ok, is_int. cbn. lia.
Qed.

(** A torrent is added, a file of it is prepared, its stream stops, and it is removed. *)
Definition demo_start : Backend unit * host := (new_backend demo_config [] 1 2 3 4, demo_host).
Definition demo_1 := (call (add_torrent 1 (MkInput input_magnet (str "magnet:?") [])) demo_start).2.
Definition demo_2 := (call pop_events demo_1).2.
Definition demo_3 := (call (prepare_file 2 demo_id 1 (MkFileInfo (str "film.mkv") 1000 120000)) demo_2).2.
Definition demo_4 := (call pop_events demo_3).2.
Definition demo_5 := (call (stop_stream 3 (str "token")) demo_4).2.
Definition demo_6 := (call (remove_torrent 4 demo_id) demo_5).2.
Definition demo_7 := (call pop_events demo_6).2.

Lemma run_pair {H W P} `{Host H W P} start tr (bw : Backend H * W) : backend_run start tr bw -> backend_run start tr (bw.1, bw.2).
Proof. by destruct bw. Qed.

Lemma demo_run_4 : backend_run demo_start [Some []; Some (returned (call pop_events demo_1).1); Some []; Some (returned (call pop_events demo_3).1)] (demo_4.1, demo_4.2).
Proof.
  apply run_pair.
  apply (run_step _ [_; _; _] demo_3); [|apply pop_step; vm_compute; reflexivity].
  apply (run_step _ [_; _] demo_2); [|apply step_prepare].
  apply (run_step _ [_] demo_1); [|apply pop_step; vm_compute; reflexivity].
  apply (run_step _ [] demo_start); [constructor|apply step_add].
Qed.

Example demo_prepared : be_type <$> returned (call pop_events demo_3).1 = [stream_prepared].
Proof. vm_compute. reflexivity. Qed.
Example demo_removal_answers : (fun e => (be_type e, be_request_id e)) <$> returned (call pop_events demo_6).1 = [(stream_stopped, 3); (torrent_removed, 4)].
Proof. vm_compute. reflexivity. Qed.

Lemma backend_consistent_witness : tables_ok (W := host) demo_4.1.
Proof.
  apply (backend_consistent host_alerts_ok demo_config [] 1 2 3 4 demo_host demo_4.2
    [Some []; Some (returned (call pop_events demo_1).1); Some []; Some (returned (call pop_events demo_3).1)] demo_4.1).
  exact demo_run_4.
Defined.

Lemma contexts_owned_once_witness : contexts_ok demo_4.1.
Proof.
  apply (contexts_owned_once host_alerts_ok demo_config [] 1 2 3 4 demo_host demo_4.2
    [Some []; Some (returned (call pop_events demo_1).1); Some []; Some (returned (call pop_events demo_3).1)] demo_4.1).
  exact demo_run_4.
Defined.

Definition demo_peers : list peer_info := [MkPeer false false true false false true 5 2 1 4 0 1 []; MkPeer true false false true false false 0 0 0 0 0 (-1) []].
