(* ===== verification/BackendRequests.v ===== *)
(** The requests of clients to the libtorrent backend: preparing a file, removing a torrent,
    reclaiming disk space, stopping a stream.  Each waits in a table until an event settles
    it, in every run of [BackendInvariant] that loses no events. *)
From stdpp Require Import prelude strings list gmap relations.
From Stdlib Require Import ZArith Lia Ascii.
From S2P Require Import Prelude Text EngineTypes Posix DiskCache AtomicFile BridgeState BackendTelemetry BackendState MemoryTorrent MemoryHost Backend BackendSteps BackendInvariant.

Inductive request :=
| of_prepare (id : text) (prepare : PendingPrepare)
| of_removal (id : text) (request_id : Z)
| of_reclaim (reclaim : PendingDiskReclaim)
| of_stop (stream_id : text) (request_id : Z).

(** The request is in its table; stopping a stream is answered at once. *)
Definition waiting {H} (q : request) (b : Backend H) : Prop :=
  match q with
  | of_prepare id prepare => pending_prepares b !! id = Some prepare
  | of_removal id request_id => pending_removals b !! id = Some request_id
  | of_reclaim reclaim => reclaim ∈ pending_disk_reclaims b
  | of_stop _ _ => False
  end.

(** The events after which a client waits no more: the answer with the number of its request;
    for a preparation also the news that its torrent has left the session. *)
Definition settles (q : request) (e : BackendEvent) : Prop :=
  match q with
  | of_prepare id prepare => answers_prepare prepare id e \/ (be_type e = torrent_removed /\ be_torrent_id e = id)
  | of_removal id request_id => removed_event request_id id e
  | of_reclaim reclaim => answers_reclaim reclaim e
  | of_stop stream_id request_id => be_type e = stream_stopped /\ be_request_id e = request_id /\ be_stream_id e = stream_id
  end.

Definition accounted {H} (q : request) (s : Backend H * list BackendEvent) : Prop :=
  waiting q s.1 \/ Exists (settles q) (s.2 ++ queued_events s.1).

#[local] Instance torrent_file_info_eq_dec : EqDecision TorrentFileInfo.
Proof. solve_decision. Defined.
#[local] Instance pending_prepare_eq_dec : EqDecision PendingPrepare.
Proof. solve_decision. Defined.
#[local] Instance pending_disk_reclaim_eq_dec : EqDecision PendingDiskReclaim.
Proof. solve_decision. Defined.

#[local] Instance settles_dec q e : Decision (settles q e).
Proof. destruct q; cbn; unfold answers_prepare, removed_event, answers_reclaim; apply _. Defined.

#[global] Instance accounted_dec {H} q (s : Backend H * list BackendEvent) : Decision (accounted q s).
Proof. apply or_dec; [destruct q; cbn|]; apply _. Defined.

Section accounting.
Context {H W : Type} `{Torrents H W}.
Implicit Types (b : Backend H) (q : request).

(** A change that leaves the table and the queue alone. *)
Lemma accounted_same q b b' ev : (waiting q b -> waiting q b') -> queued_events b' = queued_events b ->
  accounted q (b, ev) -> accounted q (b', ev).
Proof. intros Hw Hq [Hb|He]; [left; auto|right]. cbn in *. by rewrite Hq. Qed.

(** More events. *)
Lemma accounted_more q b b' ev ev' : (waiting q b -> waiting q b') -> ev ++ queued_events b ⊆ ev' ++ queued_events b' ->
  accounted q (b, ev) -> accounted q (b', ev').
Proof.
  intros Hw Hsub [Hb|He]; [left; auto|right]. cbn in *. apply Exists_exists in He as (e & Hin & He). apply Exists_exists. eauto.
Qed.

#[global] Instance accounted_closed q : Closed (W := W) (accounted (H := H) q).
Proof.
  intros s s' Hc. destruct Hc.
  all: try (apply accounted_same; [by destruct q|done]).
  - destruct b, b'. unfold tables in H1. cbn in *. simplify_eq. by apply accounted_same; [destruct q|].
  - apply accounted_more; [done|]. intros x. rewrite !elem_of_app. tauto.
  - apply accounted_more; [by destruct q|]. cbn. by rewrite app_nil_r.
  - apply accounted_more; [by destruct q|]. cbn. intros x. rewrite !elem_of_app. tauto.
  - unfold adopt_context. destruct (active b !! id); (apply accounted_same; [by destruct q|done]).
  - unfold retire_context. destruct (active b !! id); (apply accounted_same; [by destruct q|done]).
  - unfold assign_known. destruct (handles b !! id); (apply accounted_same; [by destruct q|done]).
  - destruct p; (apply accounted_same; [by destruct q|done]).
  - apply accounted_same; [|done]. destruct q as [id0 prepare|id0 n|reclaim|stream_id n]; cbn; try done.
    intros Hq. by rewrite lookup_insert_ne by congruence.
  - intros [Hw|He]; [|right; cbn in *; rewrite !Exists_app in *; tauto]. cbn [fst snd] in *.
    destruct q as [id0 prepare|id0 n|reclaim|stream_id n]; cbn in *.
    + destruct (decide (id0 = id)) as [->|Hne]; [|left; cbn; by rewrite lookup_delete_ne].
      right. apply Exists_app. left. apply Exists_app. right. apply Exists_cons_hd. destruct H1 as (_ & ? & ?). by right.
    + destruct (decide (id0 = id)) as [->|Hne]; [|left; cbn; by rewrite lookup_delete_ne].
      right. apply Exists_app. left. apply Exists_app. right. apply Exists_cons_hd. by rewrite Hw in H1.
    + by left.
    + done.
  - apply accounted_same; [|done]. destruct q as [id0 prepare0|id0 n|reclaim|stream_id n]; cbn; try done.
    intros Hq. by rewrite lookup_insert_ne by congruence.
  - intros [Hw|He]; [|by right]. cbn [fst snd] in *. destruct q as [id0 prepare|id0 n|reclaim|stream_id n]; [|by left..]. cbn in Hw.
    destruct (decide (id0 = id)) as [->|Hne]; [right|left; cbn; by rewrite lookup_delete_ne].
    eapply Exists_impl; [by apply H1|]. intros e He. by left.
  - apply accounted_same; [|done]. destruct q; cbn; try done. intros Hq. apply elem_of_app. by left.
  - intros [Hw|He]; [|right; cbn in *; rewrite !Exists_app in *; tauto]. cbn [fst snd] in *. destruct q as [id0 prepare|id0 n|reclaim|stream_id n]; [by left..| |done].
    right. apply Exists_app. left. apply Exists_app. right. apply Exists_exists. cbn in Hw.
    apply list_elem_of_lookup in Hw as [i Hi]. destruct (Forall2_lookup_l _ _ _ _ _ H1 Hi) as (e & He & Ha). exists e.
    split; [|done]. by eapply list_elem_of_lookup_2.
Qed.
End accounting.

(** ** What a call accepts *)

(** The call returns, and so the request is accepted. *)
Inductive accepts {H W P} `{Host H W P} : Backend H * W -> request -> Backend H * W -> Prop :=
| accepts_prepare bw request_id id file_index file bw' :
    call (prepare_file request_id id file_index file) bw = (Returned tt, bw') ->
    accepts bw (of_prepare id (MkPrepare request_id file_index file)) bw'
| accepts_removal bw request_id id bw' :
    call (remove_torrent request_id id) bw = (Returned tt, bw') -> accepts bw (of_removal id request_id) bw'
| accepts_reclaim bw request_id target bw' :
    call (reclaim_disk_cache request_id target) bw = (Returned tt, bw') -> accepts bw (of_reclaim (MkReclaim request_id target)) bw'
| accepts_stop bw request_id stream_id bw' :
    call (stop_stream request_id stream_id) bw = (Returned tt, bw') -> accepts bw (of_stop stream_id request_id) bw'.

Section accepting.
Context {H W P : Type} `{Host H W P}.
Implicit Types (r : Run H W) (q : request).

(** [Q] of the state in which a program returns. *)
Definition returning {A} (Q : Run H W -> Prop) (o : outcome A) r : Prop := match o with Returned _ => Q r | Raised _ => True end.

Lemma wp_skip {A B} (m : op H W A) (f : A -> op H W B) Q r :
  (forall a r', wp (f a) (returning Q) r') -> wp (m ≫= f) (returning Q) r.
Proof. intros Hf. apply wp_bind. unfold wp at 1. destruct (m r) as [r' [a|what]]; cbn; [apply Hf|done]. Qed.

Lemma keeps_returning {A} (I : Run H W -> Prop) (m : op H W A) r : keeps I m -> I r -> wp m (returning I) r.
Proof. intros Hm Hr. eapply wp_conseq; [by apply Hm|]. by intros [a|what] r' Hr'. Qed.

#[local] Instance true_closed : Closed (H := H) (W := W) (fun _ => True).
Proof. done. Qed.

(** The request waits, or is settled by an event that is queued. *)
Definition in_queue q r : Prop := waiting q (backend r) \/ Exists (settles q) (queued_events (backend r)).

Lemma prepare_accepts request_id id file_index file r :
  wp (prepare_file request_id id file_index file) (returning (in_queue (of_prepare id (MkPrepare request_id file_index file)))) r.
Proof.
  unfold prepare_file. apply wp_bind, find_valid_wp; cbn beta iota; [done|]. intros handle _ _. do 3 (apply wp_skip; intros _ ?).
  apply wp_skip. intros pending r1. destruct pending; [done|]. apply wp_skip. intros [m|] r2; [|done]. destruct (_ <=? _); [done|].
  apply wp_skip. intros st r3. cbv zeta. set (prepare := MkPrepare _ _ _). destruct (ts_is_seeding st).
  - apply wp_bind, (prepared_event_wp (fun _ => True)); [done|]. intros r4 _ _ _. split; [done|]. intros e He. cbn beta iota.
    apply wp_push. right. cbn. apply Exists_app. right. apply Exists_cons_hd. by left.
  - do 4 wp1. destruct (lt_prioritize_files _ _ _) as [w [u|what]]; cbn; [|done]. left. cbn. apply lookup_insert_eq.
Qed.

Lemma finish_frame m request_id id context :
  keeps (fun r : Run H W => pending_removals (backend r) = m) (finish_removal request_id id context).
Proof.
  change (fun r : Run H W => pending_removals (backend r) = m)
    with (on_tables (W := W) (fun s : Backend H * list BackendEvent => pending_removals s.1 = m)).
  unfold finish_removal, touch_disk_cache, report_disk_cache_error, bridge_remove_torrent, remove_resume_file. frame.
  - destruct context; intros r Hr; exact Hr.
  - intros r Hr. unfold wp, disk_touch. destruct (fs_now (world r)) as [w t]. destruct (DiskCache.touch _ w id t). exact Hr.
Qed.

Lemma remove_accepts request_id id r :
  wp (remove_torrent request_id id) (returning (in_queue (of_removal id request_id))) r.
Proof.
  unfold remove_torrent. apply wp_bind, find_valid_wp; cbn beta iota; [done|]. intros handle _ _.
  apply wp_skip. intros removing r1. destruct removing; [done|]. apply wp_skip. intros context r2. apply wp_skip. intros unloading r6. do 2 wp1.
  set (b := start_removal _ _ _ _). cbn beta iota. apply wp_bind, wp_rethrowing.
  assert (Hq : forall w, wp (finish_removal request_id id context) (returning (in_queue (of_removal id request_id))) (MkRun b w (events r6))).
  { intros w. eapply wp_conseq; [by apply (finish_frame (pending_removals b))|]. intros [u|what] r' Hr'; [|done]. left. cbn. rewrite Hr'.
    apply lookup_insert_eq. }
  destruct (negb unloading); cbn [when]; [|apply Hq]. apply wp_perform. destruct (lt_remove_torrent _ _) as [w [u|what]]; cbn [fst snd]; [apply Hq|done].
Qed.

Lemma reclaim_accepts request_id target r :
  wp (reclaim_disk_cache request_id target) (returning (in_queue (of_reclaim (MkReclaim request_id target)))) r.
Proof.
  unfold reclaim_disk_cache. apply wp_skip. intros full r1. destruct full; [done|]. wp1. left. cbn. apply elem_of_app. right. by left.
Qed.

Lemma stop_accepts request_id stream_id r :
  wp (stop_stream request_id stream_id) (returning (in_queue (of_stop stream_id request_id))) r.
Proof.
  unfold stop_stream. do 2 (apply wp_skip; intros ? ?). wp1. right. cbn. apply Exists_app. right. by apply Exists_cons_hd.
Qed.

Lemma accepts_accounted bw q bw' : accepts bw q bw' -> accounted q (bw'.1, []).
Proof.
  intros Ha.
  assert (Hcall : forall A (m : op H W A) bw a bw' q, call m bw = (Returned a, bw') ->
    (forall r, wp m (returning (in_queue q)) r) -> accounted q (bw'.1, [])).
  { clear. intros A m bw a bw' q. unfold call. intros E Hm. specialize (Hm (MkRun bw.1 bw.2 [])). unfold wp in Hm.
    destruct (m _) as [r o]. by injection E as -> <-. }
  destruct Ha as [? ? ? ? ? ? E|? ? ? ? E|? ? ? ? E|? ? ? ? E]; (eapply Hcall; [exact E|]);
    auto using prepare_accepts, remove_accepts, reclaim_accepts, stop_accepts.
Qed.

Lemma touch_quiet ev id : keeps (fun r : Run H W => events r = ev) (disk_touch id).
Proof. intros r Hr. unfold wp, disk_touch. destruct (fs_now (world r)) as [w t]. destruct (DiskCache.touch _ w id t). exact Hr. Qed.

(** The calls other than [pop_events] push no event to its vector. *)
Ltac quiet :=
  lazymatch goal with |- keeps (fun r : Run ?H ?W => events r = ?ev) _ =>
    change (fun r : Run H W => events r = ev) with (on_tables (W := W) (fun s : Backend H * list BackendEvent => s.2 = ev)) end;
  unfold add_torrent, readd_torrent, add_new_torrent, prepare_file, remove_torrent, finish_removal, stop_stream, reclaim_disk_cache, statistics,
    bridge_statistics, load_resume_state, prepare_payload_path, focus_torrent, focus_one, activate_torrent, leave_torrent, touch_disk_cache,
    report_disk_cache_error, bridge_remove_torrent, remove_resume_file, metadata_event, prepared_event, find_valid, mark_warm, is_valid,
    has_stream, set_flags, userdata, status, now;
  frame; [try apply touch_quiet..]; try (by intros ? ?).

Lemma calls_quiet ev (request_id : Z) (id : text) :
  let K (r : Run H W) := events r = ev in
  (forall input, keeps K (add_torrent request_id input)) /\ (forall n file, keeps K (prepare_file request_id id n file)) /\
  keeps K (remove_torrent request_id id) /\ keeps K (stop_stream request_id id) /\ (forall target, keeps K (reclaim_disk_cache request_id target)) /\
  keeps K statistics.
Proof. cbv zeta. split_and!; intros; quiet. Qed.

(** A step that loses no events keeps an account of every request. *)
Lemma step_accounted (Halerts : alerts_ok (H := H) (W := W)) bw evs bw' q : backend_step bw (Some evs) bw' ->
  accounted q (bw.1, []) -> accounted q (bw'.1, evs).
Proof.
  intros Hs Hq. remember (Some evs) as e eqn:He.
  assert (Hcall : forall A (m : op H W A) bw, keeps (on_tables (accounted q)) m -> keeps (fun r : Run H W => events r = []) m ->
    accounted q (bw.1, []) -> accounted q ((call m bw).2.1, [])).
  { clear. intros A m bw Hm Hev Hq. specialize (Hm (MkRun bw.1 bw.2 []) Hq). specialize (Hev (MkRun bw.1 bw.2 []) eq_refl).
    unfold wp, call in *. destruct (m _) as [r o]. cbn in *. unfold on_tables in Hm. by rewrite Hev in Hm. }
  destruct (calls_quiet [] 0 []) as (_ & _ & _ & _ & _ & Q6).
  destruct Hs as [bw n input|bw n id i file|bw n id|bw n id|bw n target|bw|bw bw' evs' E| | |b s w|b w w']; simplify_eq.
  - apply Hcall; [by apply add_torrent_keeps, _|apply (calls_quiet [] n [])|done].
  - apply Hcall; [by apply prepare_keeps, _|apply (calls_quiet [] n id)|done].
  - apply Hcall; [by apply remove_keeps, _|apply (calls_quiet [] n id)|done].
  - apply Hcall; [by apply stop_keeps, _|apply (calls_quiet [] n id)|done].
  - apply Hcall; [by apply reclaim_keeps, _|apply (calls_quiet [] n [])|done].
  - apply Hcall; [by apply statistics_keeps, _|done|done].
  - pose proof (pop_events_wp (accounted q) Halerts (MkRun bw.1 bw.2 []) Hq eq_refl) as Hw. unfold call, wp in *.
    destruct (pop_events _) as [r o]. injection E as -> <-. by destruct Hw.
  - by apply (inv_other (accounted q) b).
  - done.
Qed.

(** The events of a run. *)
Definition emitted (tr : list (option (list BackendEvent))) : list BackendEvent := concat (omap id tr).

(** C6. A request that a call accepted is never forgotten: however the run goes on, as long
    as no call of [pop_events] throws its events away, the request waits in its table, or the
    events that were handed over, or are queued for the next call, hold one that settles it:
    its answer, or for a preparation the removal of its torrent. *)
Theorem requests_answered (Halerts : alerts_ok (H := H) (W := W)) (bw0 start bw : Backend H * W) (q : request)
    (tr : list (option (list BackendEvent))) (Hq : accepts bw0 q start) (Hrun : backend_run start tr bw)
    (Hlost : Forall is_Some tr) :
  waiting q bw.1 \/ Exists (settles q) (emitted tr ++ queued_events bw.1).
Proof.
  apply accepts_accounted in Hq. induction Hrun as [|tr bw e bw' Hr IH Hs]; [done|].
  apply Forall_app in Hlost as [Hl Hlast]. apply Forall_singleton in Hlast as [evs ->]. specialize (IH Hl).
  unfold emitted in *. rewrite omap_app, concat_app. cbn. rewrite app_nil_r. rewrite !Exists_app in *.
  destruct IH as [Hw|[He|He]]; [| by right; left; left|].
  all: destruct (step_accounted Halerts bw evs bw' q Hs) as [Hw'|He']; [|by left|rewrite Exists_app in He'; cbn in He'; tauto].
  - by left.
  - by right.
Qed.
End accepting.

Lemma requests_answered_witness :
  waiting (of_prepare demo_id (MkPrepare 2 1 (MkFileInfo (str "film.mkv") 1000 120000))) demo_4.1 \/
  Exists (settles (of_prepare demo_id (MkPrepare 2 1 (MkFileInfo (str "film.mkv") 1000 120000))))
    (emitted [Some (returned (call pop_events demo_3).1)] ++ queued_events demo_4.1).
Proof.
  apply (requests_answered host_alerts_ok demo_2 demo_3 demo_4 _ [Some (returned (call pop_events demo_3).1)]).
  - apply accepts_prepare. unfold demo_3. apply returned_pair. vm_compute. reflexivity.
  - apply (run_step _ [] demo_3); [constructor|]. apply pop_step. vm_compute. reflexivity.
  - by apply Forall_singleton.
Defined.

(** ** Requests that are refused *)

Section refusing.
Context {H W P : Type} `{Host H W P}.
Implicit Types (r : Run H W).

(** The tables of requests. *)
Definition requests (b : Backend H) := (pending_adds b, pending_prepares b, pending_removals b, pending_disk_reclaims b).
Definition same_requests (b : Backend H) r : Prop := requests (backend r) = requests b.

Definition same_contexts (b : Backend H) r : Prop := requests (backend r) = requests b /\ contexts (backend r) = contexts b.

(** A part that does not look at the tables. *)
Ltac aside :=
  lazymatch goal with
  | |- keeps (same_requests ?b) _ =>
    change (same_requests b) with (on_tables (W := W) (fun s : Backend H * list BackendEvent => requests s.1 = requests b))
  | |- keeps (same_contexts ?b) _ =>
    change (same_contexts b) with (on_tables (W := W) (fun s : Backend H * list BackendEvent => requests s.1 = requests b /\ contexts s.1 = contexts b))
  end;
  unfold stop_stream, leave_torrent, readd_torrent, load_resume_state, prepare_payload_path, focus_torrent, focus_one, activate_torrent, touch_disk_cache, report_disk_cache_error, mark_warm,
    bridge_remove_torrent, remove_resume_file, metadata_event, prepared_event, find_valid, is_valid, has_stream, set_flags, userdata, status, now;
  frame; try (intros ? ?; unfold wp, disk_touch; destruct (fs_now _) as [? ?]; destruct (DiskCache.touch _ _ _ _); assumption).

Lemma aside_parts b id handle n started prepare :
  let K := same_requests b in
  keeps K (focus_torrent id) /\ keeps K (activate_torrent id handle) /\ keeps K (touch_disk_cache id) /\ keeps K (prepared_event handle id prepare) /\ keeps K (readd_torrent n started id handle).
Proof. cbv zeta. split_and!; aside. Qed.

Lemma aside_contexts b id :
  let K := same_contexts b in
  keeps K (focus_torrent id) /\ keeps K (touch_disk_cache id) /\ keeps K (load_resume_state id) /\ keeps K (prepare_payload_path id).
Proof. cbv zeta. split_and!; aside. Qed.

(** [finish_removal] does not throw: what the session has removed is removed. *)
Lemma touch_returns id r : wp (touch_disk_cache (H := H) (W := W) id) (fun o _ => o = Returned tt) r.
Proof.
  unfold touch_disk_cache, report_disk_cache_error. apply wp_catch_exception, wp_bind. unfold wp at 1, disk_touch.
  destruct (fs_now (world r)) as [w t]. destruct (DiskCache.touch _ w id t) as [w' [u|e]]; cbn; [done|].
  do 2 wp1. cbn beta iota. destruct (text_eqb _ _); [done|]. do 2 wp1. cbn beta iota. by wp1.
Qed.

Lemma remove_file_returns request_id id to r : wp (remove_resume_file (H := H) (W := W) request_id id to) (fun o _ => o = Returned tt) r.
Proof.
  unfold remove_resume_file. apply wp_catch_exception. do 2 wp1. cbn beta iota. wp1. unfold stored, remove_file_if_present. rewrite bind_call.
  destruct (px_remove _ _) as [w' [errno|]]; [destruct (errno =? ENOENT)|]; cbn [fst snd of_result mret io_ret throw_system_error raise throw]; [done| |done].
  by wp1.
Qed.

Lemma finish_returns request_id id context r : wp (finish_removal request_id id context) (fun o _ => o = Returned tt) r.
Proof.
  unfold finish_removal, bridge_remove_torrent. do 2 wp1. cbn beta iota. apply wp_bind. eapply wp_conseq; [apply touch_returns|].
  intros o r1 ->. cbn beta iota. do 4 wp1. cbn beta iota zeta. apply wp_bind. eapply wp_conseq; [apply remove_file_returns|].
  intros o r2 ->. cbn beta iota. do 2 wp1. cbn beta iota. destruct (pending_prepares (backend r2) !! id); [by do 3 wp1|by wp1].
Qed.

(** [Q] of the state from which a program throws. *)
Definition raising {A} (Q : Run H W -> Prop) (o : outcome A) r : Prop := match o with Raised _ => Q r | Returned _ => True end.

Lemma wp_aside {A B} (K K' : Run H W -> Prop) (m : op H W A) (f : A -> op H W B) r :
  keeps K m -> K r -> (forall r', K r' -> K' r') -> (forall a r', K r' -> wp (f a) (raising K') r') -> wp (m ≫= f) (raising K') r.
Proof. intros Hm Hr Hk Hf. apply wp_bind. eapply wp_conseq; [by apply Hm|]. intros [a|what] r' Hr'; [by apply Hf|by apply Hk]. Qed.

Lemma prepare_refused b request_id id file_index file r : same_requests b r ->
  wp (prepare_file request_id id file_index file) (raising (same_requests b)) r.
Proof.
  intros Hr. unfold prepare_file, status. apply wp_bind, find_valid_wp; cbn beta iota; [by wp1|]. intros handle _ _.
  destruct (aside_parts b id handle 0 0 (MkPrepare request_id file_index file)) as (K1 & K2 & K3 & K4 & _).
  do 3 (apply (wp_aside (same_requests b)); [done..|]; clear r Hr; intros _ r Hr). do 2 wp1. cbn beta iota.
  destruct (bool_decide_reflect (is_Some (pending_prepares (backend r) !! id))) as [_|Hnone]; [by wp1|]. do 2 wp1. cbn beta iota.
  destruct (lt_torrent_file _ _) as [[m|]|what]; [|by wp1|done]. destruct (_ <=? _); [by wp1|]. cbn beta iota zeta. do 2 wp1. cbn beta iota.
  destruct (lt_status _ _) as [st|what]; [|done]. destruct (ts_is_seeding st); [apply (wp_aside (same_requests b)); [done..|]; intros e r1 _; by wp1|].
  do 4 wp1. destruct (lt_prioritize_files _ _ _) as [w [u|what]]; cbn [snd fst]; [done|]. unfold raising, same_requests, requests in *.
  cbn [backend erase_prepare set_pending_prepares pending_adds pending_prepares pending_removals pending_disk_reclaims].
  rewrite delete_insert_id; [done|]. by apply eq_None_not_Some.
Qed.

Lemma remove_refused b request_id id r : same_requests b r -> wp (remove_torrent request_id id) (raising (same_requests b)) r.
Proof.
  intros Hr. unfold remove_torrent, userdata. apply wp_bind, find_valid_wp; cbn beta iota; [by wp1|]. intros handle _ _. do 2 wp1. cbn beta iota.
  destruct (bool_decide_reflect (is_Some (pending_removals (backend r) !! id))) as [_|Hnone%eq_None_not_Some]; [by wp1|]. do 6 wp1. cbn beta iota.
  set (context := lt_userdata _ _). set (b1 := start_removal request_id id context (backend r)).
  assert (Hdone : forall r2, wp (finish_removal request_id id context) (raising (same_requests b)) r2).
  { intros r2. eapply wp_conseq; [apply finish_returns|]. by intros o r3 ->. }
  apply wp_bind, wp_rethrowing. destruct (negb _); cbn [when]; [|apply Hdone]. apply wp_perform.
  destruct (lt_remove_torrent _ _) as [w [u|what]]; cbn [fst snd backend world events raising]; [apply Hdone|].
  unfold same_requests in *. rewrite <-Hr. unfold b1, requests, start_removal. destruct context; cbn; by rewrite delete_insert_id.
Qed.

Lemma add_refused b request_id input r : (forall p, p ∈ pending_adds b -> (p < length (contexts b))%nat) -> same_contexts b r ->
  wp (add_torrent request_id input) (raising (same_requests b)) r.
Proof.
  intros Hp Hr. unfold add_torrent, now. do 2 wp1. cbn beta iota. destruct (lt_now (world r)) as [w started]. cbn [fst snd]. do 2 wp1.
  set (r1 := MkRun _ _ _). assert (Hr1 : same_contexts b r1) by exact Hr. clearbody r1. clear r Hr.
  destruct (match ti_type input with input_magnet => _ | input_torrent_data => _ end) as [source|what]; [|exact (proj1 Hr1)].
  set (id := hashes_id _). destruct (negb _); [wp1; exact (proj1 Hr1)|].
  destruct (aside_contexts b id) as (K1 & _ & K3 & K4). assert (Hweak : forall r, same_contexts b r -> same_requests b r) by by intros r [].
  apply (wp_aside (same_contexts b)); [done..|]. clear r1 Hr1. intros _ r Hr. apply wp_bind, find_valid_wp; cbn beta iota.
  2: { intros handle _ _. eapply wp_conseq; [apply (aside_parts b id handle request_id started (MkPrepare 0 0 (MkFileInfo [] 0 0)))|].
       - by apply Hweak.
       - by intros [u|what] r' Hr'. }
  unfold add_new_torrent. apply (wp_aside (same_contexts b)); [done..|]. clear r Hr. intros resume r Hr.
  destruct (merge_resume source (ti_type input) resume) as [params from]. apply (wp_aside (same_contexts b)); [done..|]. clear r Hr. intros save_path r [Hr Hcs].
  set (c := MkContext request_id id false false from started). apply wp_bind. unfold wp at 1, make_context. cbn [fst snd].
  set (b1 := set_contexts (contexts b ++ [c]) b). set (r1 := MkRun _ _ _). assert (Hr1 : same_contexts b1 r1) by (split; [exact Hr|cbn; by rewrite Hcs]).
  rewrite Hcs. clearbody r1. clear r Hr Hcs. destruct (aside_contexts b1 id) as (_ & K2 & _ & _).
  apply (wp_aside (same_contexts b1)); [done|done|by intros r' []|]. clear r1 Hr1. intros _ r [Hr _]. do 4 wp1.
  destruct (lt_async_add_torrent _ _) as [w' [u|what]]; cbn [fst snd]; [done|]. unfold raising, same_requests in *.
  change (requests b) with (requests b1). rewrite <-Hr. assert (Ha : pending_adds (backend r) = pending_adds b) by (unfold requests in Hr; by injection Hr).
  unfold requests. cbn. rewrite Ha. assert (length (contexts b) ∉ pending_adds b) by (intros ?%Hp; lia). do 3 f_equal. set_solver.
Qed.

Lemma stop_aside b request_id stream_id : keeps (same_requests b) (stop_stream request_id stream_id).
Proof. aside. Qed.

Lemma reclaim_refused b request_id target r : same_requests b r -> wp (reclaim_disk_cache request_id target) (raising (same_requests b)) r.
Proof. intros Hr. unfold reclaim_disk_cache. do 2 wp1. cbn beta iota. destruct (_ <=? _); wp1; [exact Hr|done]. Qed.

(** The calls with which the engine makes requests. *)
Inductive request_call : op H W unit -> Prop :=
| call_add request_id input : request_call (add_torrent request_id input)
| call_prepare request_id id file_index file : request_call (prepare_file request_id id file_index file)
| call_remove request_id id : request_call (remove_torrent request_id id)
| call_stop request_id stream_id : request_call (stop_stream request_id stream_id)
| call_reclaim request_id target : request_call (reclaim_disk_cache request_id target).

(** C20. A request that is refused leaves nothing behind: when the call throws, whichever of its
    checks, of libtorrent's calls or of the file system's failed, the tables of torrents being
    added, prepared and removed and of reclaims are what they were, so that no event will
    answer it a second time and the torrent is free for the next request. *)
Theorem refused_leaves_nothing (b b' : Backend H) (w w' : W) (m : op H W unit) what
    (Hm : request_call m) (Hb : contexts_ok b) (Hc : call m (b, w) = (Raised what, (b', w'))) :
  requests b' = requests b.
Proof.
  assert (Hw : wp m (raising (same_requests b)) (MkRun b w [])).
  { destruct Hm; [apply add_refused; [apply Hb|done]|by apply prepare_refused|by apply remove_refused| |by apply reclaim_refused].
    eapply wp_conseq; [by apply (stop_aside b)|]. by intros [u|e] r Hr. }
  unfold wp, call in *. cbn [fst snd] in *. destruct (m (MkRun b w [])) as [r o]. cbn [fst snd] in *. by injection Hc as -> <- _.
Qed.
End refusing.

Lemma refused_leaves_nothing_witness :
  requests (call (remove_torrent 9 (str "unknown")) demo_start).2.1 = requests demo_start.1.
Proof.
  apply (refused_leaves_nothing demo_start.1 _ demo_start.2 (call (remove_torrent 9 (str "unknown")) demo_start).2.2
    (remove_torrent 9 (str "unknown")) (Some (str "torrent not found"))); [constructor| |vm_compute; reflexivity].
  split; cbn; try set_solver. apply NoDup_nil_2.
Defined.
