(* ===== verification/BackendStorage.v ===== *)
(** The state files of the libtorrent backend: [Backend] over [AtomicFile].  What the session
    saves of a torrent is what the next start finds, and a torrent that a client removed is
    not found again. *)
From stdpp Require Import prelude strings list gmap.
From Stdlib Require Import ZArith Lia Ascii.
From S2P Require Import Prelude Text EngineTypes Posix DiskCache AtomicFile BridgeState MemoryTorrent BackendTelemetry BackendState MemoryHost Backend BackendSteps BackendInvariant.

(** The documented behaviour of the file system calls: that of [AtomicFile], and what reading
    and removing make of a name. *)
Record storage_laws {H W P} `{Host H W P, FileView W} : Prop := {
  sl_files : file_laws (W := W);
  sl_interruptions : forall w : W, host_interruptions w = fv_pending w;
  sl_read : forall (w : W) p, reads_visible p w;
  sl_missing : forall (w : W) p, fv_entry w p = None -> px_symlink_status w p = (Some ENOENT, ft_not_found);
  sl_remove : forall (w : W) p w' r, px_remove w p = (w', r) -> r = None \/ r = Some ENOENT -> fv_entry w' p = None;
}.

(** ** Names of state files *)

Lemma canonical_no_slash id : is_canonical_torrent_id id = true -> SLASH ∉ id.
Proof.
  unfold is_canonical_torrent_id. destruct (_ && _); [done|]. intros Hall Hin. rewrite forallb_forall in Hall.
  apply list_elem_of_In, Hall in Hin. by apply andb_true_iff in Hin as [? _].
Qed.

Lemma filename_append p name : SLASH ∉ name -> name <> [] -> filename (path_append p name) = name.
Proof.
  intros Hs Hn. unfold path_append. destruct (bool_decide_reflect (filename p = [])) as [E|_]; [by apply filename_name|].
  replace (p ++ SLASH :: name) with ((p ++ [SLASH]) ++ name) by by rewrite <-app_assoc. apply filename_name; [done|].
  induction p as [|c p IH]; [done|]. simpl. rewrite bool_decide_true by set_solver. exact IH.
Qed.

Lemma resume_name {H} (b : Backend H) id : is_canonical_torrent_id id = true -> filename (resume_path b id) <> [].
Proof.
  intros Hid%canonical_no_slash. unfold resume_path.
  assert (Hs : SLASH ∉ str ".resume") by (apply (bool_decide_unpack _); vm_compute; exact I).
  rewrite filename_append; [|set_solver|]; by destruct id.
Qed.

Section storage.
Context {H W P : Type} `{Host H W P, FileView W} (laws : storage_laws (H := H) (W := W)).
Implicit Types (r : Run H W) (w : W).

Lemma stored_write w p contents : filename p <> [] ->
  match write_state_file p contents w with
  | (w', Returned _) => durable p contents w'
  | (w', Raised (Some _)) => old_or_new w p contents w'
  | (_, Raised None) => False
  end.
Proof.
  intros Hp. unfold write_state_file, stored. rewrite (sl_interruptions laws).
  destruct (write_ends (sl_files laws) w p contents (S (length contents + fv_pending w)) Hp) as (w' & o & -> & Ho); [lia|].
  by destruct o.
Qed.

Lemma stored_read w p t maximum : visible w p = Some t -> Z.of_nat (length t) <= Z.min maximum I64_MAX ->
  stored (read_bounded_file p maximum) w = (w, Returned (Some t)).
Proof. intros Hv Hl. unfold stored. rewrite (read_bounded_visible p t); [|apply (sl_read laws)|done]. by rewrite (proj2 (Z.leb_le _ _)) by lia. Qed.

Lemma stored_missing w p maximum : fv_entry w p = None -> stored (read_bounded_file p maximum) w = (w, Returned None).
Proof. intros He. unfold stored, read_bounded_file, ask, mbind, io_bind. by rewrite (sl_missing laws). Qed.

(** The torrent that an alert about a handle is for; a client has removed it. *)
Definition context_id (handle : H) r : text := known_id (lt_userdata (world r) handle) (torrent_id handle) (backend r).
Definition removed_handle (handle : H) r : bool := is_removed (lt_userdata (world r) handle) (backend r).
End storage.

Section saving.
Context {H W P : Type} `{Host H W P, FileView W} (laws : storage_laws (H := H) (W := W)).
Implicit Types (r : Run H W) (w : W).

Lemma load_stored_state id r contents params : is_canonical_torrent_id id = true -> contents <> [] ->
  visible (world r) (resume_path (backend r) id) = Some contents -> Z.of_nat (length contents) <= maximum_resume_state_size ->
  lt_read_resume_data contents = Returned params -> hashes_id (ap_info_hashes params) = id ->
  load_resume_state id r = (r, Returned (Some params)).
Proof.
  intros Hid Hne Hv Hl Hr He. unfold load_resume_state, catch_exception, mbind, op_bind, get, perform.
  rewrite (stored_read laws _ _ contents) by (done || (unfold maximum_resume_state_size in *; lia)). destruct contents as [|c contents]; [done|].
  unfold value. rewrite Hr, bool_decide_false by (intros Hx; by apply Hx). by destruct r.
Qed.

Lemma old_or_new_refl w p contents : old_or_new w p contents w.
Proof. split; [by left|auto]. Qed.

(** The state file of [id] after [persist_torrent]: the contents are there for good, or an
    event tells that they are not, and a part of them never is. *)
Definition saved_or_told (id contents : text) r r' : Prop :=
  let file := resume_path (backend r) id in
  (events r' = events r /\ durable file contents (world r') /\ Z.of_nat (length contents) <= maximum_resume_state_size) \/
  (exists what, events r' = events r ++ [error_event 0 id (str "failed to persist torrent state: " ++ what)]) /\
  old_or_new (world r) file contents (world r').

Lemma persist_wp r id params contents : is_canonical_torrent_id id = true -> lt_write_resume_data_buf params = Returned contents ->
  wp (persist_torrent id params) (fun o r' => o = Returned tt /\ saved_or_told id contents r r' /\ backend r' = backend r) r.
Proof.
  intros Hid Hput. unfold persist_torrent. do 3 wp1. rewrite Hput. cbn beta iota. destruct (Z.ltb_spec maximum_resume_state_size (Z.of_nat (length contents))).
  { do 2 wp1. split; [done|]. split; [|by destruct r]. right. split; [by eexists|apply old_or_new_refl]. }
  do 3 wp1. pose proof (stored_write laws (world r) (resume_path (backend r) id) contents (resume_name _ _ Hid)) as Hs.
  destruct (write_state_file _ _ _) as [w' [[]|[what|]]]; cbn [fst snd]; [|wp1|done].
  - split; [done|]. split; [|done]. by left.
  - split; [done|]. split; [|done]. right. split; [by eexists|done].
Qed.

Lemma saved_wp r handle params contents : removed_handle handle r = false -> is_canonical_torrent_id (context_id handle r) = true ->
  context_id handle r ∉ pending_cache_unloads (backend r) -> lt_write_resume_data_buf params = Returned contents ->
  wp (handle_resume_saved handle params)
    (fun o r' => o = Returned tt /\ saved_or_told (context_id handle r) contents r r' /\ resume_directory (backend r') = resume_directory (backend r)) r.
Proof.
  unfold removed_handle, context_id, handle_resume_saved, userdata. intros Hkept Hid Hstays Hput. do 3 wp1. cbn beta iota. wp1. cbn beta iota.
  set (context := lt_userdata (world r) handle) in *. set (id := known_id context _ _) in *. set (r1 := MkRun (erase_save context _) _ _).
  assert (is_removed context (backend r1) = false /\ known_id context (torrent_id handle) (backend r1) = id /\
    pending_cache_unloads (backend r1) = pending_cache_unloads (backend r) /\ resume_directory (backend r1) = resume_directory (backend r))
    as (E1 & E2 & E3 & E4) by by destruct context.
  do 2 wp1. rewrite E1. cbn beta iota. do 2 wp1. rewrite E2. cbn beta iota. rewrite Hid. cbn [negb].
  apply wp_bind. eapply wp_conseq; [by apply (persist_wp r1)|]. intros o r2 (-> & Hs & Eb). cbn beta iota.
  do 2 wp1. rewrite Eb, E3, bool_decide_false by done. cbn [when]. wp1. rewrite Eb. split; [done|]. split; [|exact E4].
  unfold saved_or_told, resume_path in *. by rewrite <-E4.
Qed.

(** C21. What the session hands over of a torrent is found again: when [handle_resume_saved] is
    done, either the resume data is in the torrent's file, a crash cannot take it away, and
    [load_resume_state] reads and parses just that, or an event tells the client that it is
    not; in either case, and after a crash, the file has the old or the new data as a whole. *)
Theorem resume_state_restored (r : Run H W) (handle : H) (params params' : add_torrent_params P) (contents : text)
    (Hkept : removed_handle handle r = false) (Hid : is_canonical_torrent_id (context_id handle r) = true)
    (Hstays : context_id handle r ∉ pending_cache_unloads (backend r))
    (Hput : lt_write_resume_data_buf params = Returned contents) (Hne : contents <> [])
    (Hget : lt_read_resume_data contents = Returned params') (Hsame : hashes_id (ap_info_hashes params') = context_id handle r) :
  let id := context_id handle r in
  exists r', handle_resume_saved handle params r = (r', Returned tt) /\ saved_or_told id contents r r' /\
    (events r' = events r -> load_resume_state id r' = (r', Returned (Some params'))).
Proof.
  pose proof (saved_wp r handle params contents Hkept Hid Hstays Hput) as Hw. unfold wp in Hw.
  destruct (handle_resume_saved handle params r) as [r' o]. cbn [fst snd] in Hw. destruct Hw as (-> & Hs & Ed). exists r'. split; [done|]. split; [done|].
  intros Ee. destruct Hs as [(_ & [Hv _] & Hl)|[[what Hn] _]].
  - apply (load_stored_state _ _ contents); try done. unfold resume_path in *. by rewrite <-Ed in Hv.
  - rewrite Ee in Hn. apply (f_equal length) in Hn. rewrite length_app in Hn. cbn in Hn. lia.
Qed.

(** The state file of a removed torrent is gone, or an event tells that it is not. *)
Definition gone_or_told (request_id : Z) (id file : text) r : Prop :=
  fv_entry (world r) file = None \/
  exists what, error_event request_id id (str "failed to remove persisted torrent state: " ++ what) ∈ queued_events (backend r).

Definition holding (cs : list RequestContext) (directory : text) r : Prop :=
  contexts (backend r) = cs /\ resume_directory (backend r) = directory.

Lemma remove_file_wp r request_id id cs directory : holding cs directory r ->
  wp (remove_resume_file request_id id to_queue)
    (fun o r' => o = Returned tt /\ holding cs directory r' /\ gone_or_told request_id id (resume_path (backend r) id) r') r.
Proof.
  intros Hh. unfold remove_resume_file. do 3 wp1. cbn beta iota. wp1. unfold stored, remove_file_if_present. rewrite bind_call.
  destruct (px_remove (world r) (resume_path (backend r) id)) as [w' e] eqn:E. pose proof (sl_remove laws _ _ _ _ E) as Hl.
  destruct e as [errno|]; [destruct (Z.eqb_spec errno ENOENT) as [->|]|]; cbn.
  - split; [done|]. split; [exact Hh|]. left. auto.
  - wp1. split; [done|]. split; [exact Hh|]. right. eexists. cbn. apply elem_of_app. right. by left.
  - split; [done|]. split; [exact Hh|]. left. auto.
Qed.

Lemma touch_frame cs directory id : keeps (holding cs directory) (touch_disk_cache (H := H) (W := W) id).
Proof.
  unfold touch_disk_cache, report_disk_cache_error. frame. intros r Hr. unfold wp, disk_touch.
  destruct (fs_now (world r)) as [w t]. destruct (DiskCache.touch _ w id t). exact Hr.
Qed.

Lemma finish_removal_wp r request_id id context : 
  wp (finish_removal request_id id context)
    (fun o r' => o = Returned tt -> holding (contexts (backend r)) (resume_directory (backend r)) r' /\
       gone_or_told request_id id (resume_path (backend r) id) r') r.
Proof.
  set (cs := contexts (backend r)). set (directory := resume_directory (backend r)). set (file := resume_path (backend r) id).
  assert (Hfile : forall r', holding cs directory r' -> resume_path (backend r') id = file).
  { intros r' [_ Hd]. unfold file, resume_path. by rewrite Hd. }
  unfold finish_removal. do 2 wp1. cbn beta iota. set (r1 := MkRun _ _ _).
  assert (K1 : holding cs directory r1) by by destruct context. apply wp_bind. eapply wp_conseq; [by apply (touch_frame cs directory id)|].
  intros [u|what] r2 K2; [|done]. cbn beta iota. do 2 wp1. cbn beta iota. unfold bridge_remove_torrent. do 2 wp1. cbn beta iota zeta.
  set (r3 := MkRun _ _ _). assert (K3 : holding cs directory r3) by exact K2. apply wp_bind. eapply wp_conseq; [by apply (remove_file_wp r3)|].
  intros o r4 (-> & K4 & K5). cbn beta iota. rewrite (Hfile r3 K3) in K5. do 2 wp1. cbn beta iota.
  destruct (pending_prepares (backend r4) !! id); [do 3 wp1|wp1]; intros _; (split; [exact K4|]); [|exact K5].
  destruct K5 as [?|[what Hin]]; [by left|right]. exists what. cbn. apply elem_of_app. by left.
Qed.

(** C22. A torrent that a client removed does not come back.  When [remove_torrent] returns, the
    torrent's state file is gone, so that adding it again starts without resume data, or an
    event tells the client that it could not be removed; and resume data that the session
    still hands over for the removed torrent is not stored. *)
Theorem removed_for_good (b b' : Backend H) (w w' : W) (request_id : Z) (id : text)
    (Hc : call (remove_torrent request_id id) (b, w) = (Returned tt, (b', w'))) :
  (load_resume_state id (MkRun b' w' []) = (MkRun b' w' [], Returned None) \/
   exists what, error_event request_id id (str "failed to remove persisted torrent state: " ++ what) ∈ queued_events b') /\
  exists handle, handles b !! id = Some handle /\
    forall p, lt_userdata w handle = Some p -> (p < length (contexts b))%nat ->
    forall late params (w2 : W), lt_userdata w2 late = Some p ->
      call (handle_resume_saved late params) (b', w2) = (Returned tt, (erase_save (Some p) b', w2)).
Proof.
  set (Q := fun (o : outcome unit) (r' : Run H W) => o = Returned tt ->
    gone_or_told request_id id (resume_path (backend r') id) r' /\ exists handle, handles b !! id = Some handle /\
    forall p, lt_userdata w handle = Some p -> (p < length (contexts b))%nat -> is_removed (Some p) (backend r') = true).
  assert (Hw : wp (remove_torrent request_id id) Q (MkRun b w [])).
  { unfold remove_torrent. apply wp_bind, find_valid_wp; cbn beta iota; [by wp1|]. intros handle Hh _. do 2 wp1. cbn beta iota.
    destruct (bool_decide _); [by wp1|]. unfold userdata. do 5 wp1. cbn beta iota. wp1. cbn beta iota. apply wp_bind.
    lazymatch goal with |- wp _ _ ?r => set (r1 := r) end.
    assert (E1 : holding (contexts (mark_removed true (lt_userdata w handle) b)) (resume_directory b) r1) by (unfold r1; cbn [world backend]; by destruct (lt_userdata w handle)).
    apply wp_rethrowing. cbn [world] in *.
    assert (Hdone : forall w1, wp (finish_removal request_id id (lt_userdata w handle)) Q (MkRun (backend r1) w1 (events r1))).
    { intros w1. eapply wp_conseq; [apply finish_removal_wp|]. intros o r' Hr Ho. destruct (Hr Ho) as [[Hcs Hd] Hg]. cbn [backend] in *.
      destruct E1 as [Ec Ed]. split; [by unfold resume_path in *; rewrite Hd|]. exists handle. split; [done|]. intros p Hp Hlt.
      unfold is_removed, deref. rewrite Hcs, Ec, Hp. cbn. rewrite list_lookup_alter_eq.
      apply lookup_lt_is_Some in Hlt as [c ->]. done. }
    destruct (negb _); cbn [when]; [|apply (Hdone (world r1))]. apply wp_perform.
    destruct (lt_remove_torrent _ _) as [w1 [[]|what]]; cbn [fst snd backend world events]; [apply Hdone|done]. }
  unfold wp in Hw. unfold call in Hc. cbn [fst snd] in Hc. destruct (remove_torrent request_id id (MkRun b w [])) as [[b1 w1 ev] o].
  cbn [fst snd backend world] in Hw, Hc. injection Hc as -> -> ->. destruct (Hw eq_refl) as (Hg & handle & Hh & Hp). clear Hw Q. split.
  - destruct Hg as [Hg|Hg]; [left|right; exact Hg]. cbn [world backend] in Hg.
    unfold load_resume_state, catch_exception, mbind, op_bind, get, perform. cbn [world backend events]. by rewrite (stored_missing laws).
  - exists handle. split; [done|]. intros p Hu Hlt late params w2 Hl. specialize (Hp p Hu Hlt). cbn [backend] in Hp.
    unfold call, handle_resume_saved, userdata, look, modify, get, mbind, op_bind. cbn [fst snd world backend events]. rewrite Hl.
    change (is_removed (Some p) (erase_save (Some p) b')) with (is_removed (Some p) b'). by rewrite Hp.
Qed.
End saving.

(** ** The files in memory *)

#[global] Instance host_view : FileView host := {|
  fv_entry w := fv_entry (mh_files w);
  fv_data w := fv_data (mh_files w);
  fv_crash_entry w := fv_crash_entry (mh_files w);
  fv_crash_data w := fv_crash_data (mh_files w);
  fv_file w := fv_file (mh_files w);
  fv_directory w := fv_directory (mh_files w);
  fv_pending w := fv_pending (mh_files w);
|}.

Lemma host_storage_laws : storage_laws (H := unit) (W := host) (P := unit).
Proof.
  assert (Hf : forall A (f : Memory.world -> Memory.world * A) (w w' : host) r, on_files f w = (w', r) -> f (mh_files w) = (mh_files w', r)).
  { intros A f w w' r. unfold on_files. destruct (f (mh_files w)). by intros [= <- <-]. }
  pose proof Memory.memory_laws as L. split.
  - split.
    + intros w p w' r E. apply (Hf _ (fun f => px_create_exclusive f p)) in E. exact (law_create L _ _ _ _ E).
    + intros w fd t w' r i E. apply (Hf _ (fun f => px_write f fd t)) in E. exact (law_write L _ _ _ _ _ _ E).
    + intros w fd w' r i E. apply (Hf _ (fun f => px_fsync f fd)) in E. exact (law_fsync_file L _ _ _ _ _ E).
    + intros w fd w' r d E. apply (Hf _ (fun f => px_fsync f fd)) in E. exact (law_fsync_directory L _ _ _ _ _ E).
    + intros w d w' r E. apply (Hf _ (fun f => px_open_directory f d)) in E. exact (law_open_directory L _ _ _ _ E).
    + intros w fd w' r E. apply (Hf _ (fun f => px_close f fd)) in E. exact (law_close L _ _ _ _ E).
    + intros w a b w' r E. apply (Hf _ (fun f => px_rename f a b)) in E. exact (law_rename L _ _ _ _ _ E).
    + intros w p w' r E. apply (Hf _ (fun f => px_remove f p)) in E. exact (law_remove L _ _ _ _ E).
    + intros w p w' r E. apply (Hf _ (fun f => px_create_directories f p)) in E. exact (law_create_directories L _ _ _ _ E).
  - done.
  - intros w p. exact (Memory.memory_reads (mh_files w) p).
  - intros w p. cbn. by intros ->.
  - intros w p w' r E _. apply (Hf _ (fun f => px_remove f p)) in E. cbn in E. injection E as E _. cbn. rewrite <-E. cbn. by rewrite decide_True.
Qed.

Definition demo_store : Run unit host := MkRun demo_start.1 demo_start.2 [].

Lemma resume_state_restored_witness :
  exists r', handle_resume_saved tt (demo_params None) demo_store = (r', Returned tt) /\
    saved_or_told demo_id (str "resume data") demo_store r' /\
    (events r' = events demo_store -> load_resume_state demo_id r' = (r', Returned (Some (demo_params None)))).
Proof.
  apply (resume_state_restored host_storage_laws demo_store tt (demo_params None) (demo_params None) (str "resume data"));
    try (vm_compute; reflexivity); [|done]. apply (bool_decide_unpack _). vm_compute. exact I.
Defined.

Lemma removed_for_good_witness :
  (load_resume_state demo_id (MkRun demo_6.1 demo_6.2 []) = (MkRun demo_6.1 demo_6.2 [], Returned None) \/
   exists what, error_event 4 demo_id (str "failed to remove persisted torrent state: " ++ what) ∈ queued_events demo_6.1) /\
  exists handle, handles demo_5.1 !! demo_id = Some handle /\
    forall p, lt_userdata demo_5.2 handle = Some p -> (p < length (contexts demo_5.1))%nat ->
    forall late params (w2 : host), lt_userdata w2 late = Some p ->
      call (handle_resume_saved late params) (demo_6.1, w2) = (Returned tt, (erase_save (Some p) demo_6.1, w2)).
Proof.
  apply (removed_for_good host_storage_laws demo_5.1 demo_6.1 demo_5.2 demo_6.2 4 demo_id).
  rewrite <-!surjective_pairing. unfold demo_6. apply returned_pair. vm_compute. reflexivity.
Defined.

(** The first part of its conclusion is the case here: nothing of the torrent is left. *)
Example demo_removed : (load_resume_state demo_id (MkRun demo_6.1 demo_6.2 [])).2 = Returned None.
Proof. vm_compute. reflexivity. Qed.
