(* ===== verification/EngineBackend.v ===== *)
(** The engine with its backend: [EngineRuntime] over the instance [libtorrent_backend].  The
    steps of the clients, the worker, the HTTP threads and the world interleave; what a client
    is told of the commands that the worker took. *)
From stdpp Require Import prelude strings list gmap relations.
From Stdlib Require Import ZArith Lia Ascii.
From S2P Require Import Prelude Text EngineTypes EngineRuntime BridgeState BackendTelemetry BackendState MemoryTorrent MemoryHost Backend BackendSteps BackendInvariant BackendRequests.

Section engine.
Context {H W P : Type} `{Host H W P} (fuel : nat).

#[local] Instance session_backend : ProtocolBackend (Backend H * W) := libtorrent_backend fuel.
Abbreviation system := (System (Backend H * W)).

(** The states of the engine with the labels of the engine's steps; the HTTP threads change the
    stream bridge, and everything the world. *)
Inductive engine_run (start : system) : list label -> system -> Prop :=
| engine_start : engine_run start [] start
| engine_steps tr s l s' : engine_run start tr s -> step s l s' -> engine_run start (tr ++ [l]) s'
| engine_bridge tr rt b w k bridge : engine_run start tr (MkSystem rt (b, w) k) ->
    engine_run start tr (MkSystem rt (set_stream_bridge bridge b, w) k)
| engine_world tr rt b w k w' : engine_run start tr (MkSystem rt (b, w) k) -> engine_run start tr (MkSystem rt (b, w') k).

(** The request that a command makes of the backend; adding a torrent is not one of them. *)
Definition request_of (c : Command) : option request :=
  match c_type c with
  | cmd_add_torrent => None
  | cmd_prepare_stream => Some (of_prepare (c_torrent_id c) (MkPrepare (c_request_id c) (c_file_index c) (c_file c)))
  | cmd_stop_stream => Some (of_stop (c_stream_id c) (c_request_id c))
  | cmd_reclaim_disk_cache => Some (of_reclaim (MkReclaim (c_request_id c) (c_target_bytes c)))
  | cmd_remove_torrent => Some (of_removal (c_torrent_id c) (c_request_id c))
  end.

(** An event that settles the request, or refuses it. *)
Definition answers_command (c : Command) (q : request) (e : BackendEvent) : Prop :=
  settles q e \/ (be_type e = torrent_error /\ be_request_id e = c_request_id c).

(** The events that the worker still pushes, or is publishing, after those that the clients were
    told of on the way. *)
Definition unpublished (k : worker_state) : list BackendEvent := match k with WPush l _ | WPublish _ l _ => l | _ => [] end.
Definition told (tr : list label) (s : system) : list BackendEvent := updates tr ++ unpublished (sys_worker s).

(** What the worker pushes for what [pop_events] threw. *)
Definition loss_report (what : option text) : BackendEvent := EngineRuntime.error_event 0 "unknown protocol event error" what.

(** Since the state [s0] there was a turn of the worker in which [pop_events] threw and the
    request was lost: the backend kept it before the call, and after it no more.  Of that turn
    the clients are told, with what was thrown. *)
Definition lost_turn (q : request) (s0 : system) (tr : list label) (s : system) : Prop :=
  exists tr1 tr2 rt b b' what,
    tr = tr1 ++ LInternal :: tr2 /\ engine_run s0 tr1 (MkSystem rt b WCollect) /\ accounted q (b.1, []) /\
    be_pop_events b = (Raised what, b') /\ ~ accounted q (b'.1, []) /\
    engine_run (MkSystem rt b' (WPush [loss_report what] false)) tr2 s /\ loss_report what ∈ told tr2 s.

(** The account of the command [c] that the worker took at the beginning of [tr], in the state
    [s0]: the worker has not executed it yet, or has shut the backend down, or the backend keeps
    the request, or the clients were told of its end, or of the turn in which it was lost. *)
Definition attended (c : Command) (q : request) (s0 : system) (tr : list label) (s : system) : Prop :=
  sys_worker s = WProcess c \/ sys_worker s = WStopped \/ accounted q ((sys_backend s).1, []) \/
  Exists (answers_command c q) (told tr s) \/ lost_turn q s0 tr s.

(** *** The calls of the worker *)

Lemma execute_step (bw : Backend H * W) path c pushed bw' : execute bw path c = (pushed, bw') -> backend_step bw (Some []) bw'.
Proof.
  assert (Hc : (call_backend bw path c).2 = bw' -> backend_step bw (Some []) bw').
  { intros <-. unfold call_backend. destruct (c_type c); cbn; constructor. }
  unfold execute. destruct (call_backend bw path c) as [[u|what] b']; intros [= _ <-]; by apply Hc.
Qed.

(** A command is accepted, or refused with an event. *)
Lemma execute_accepts (bw : Backend H * W) path c q pushed bw' : execute bw path c = (pushed, bw') -> request_of c = Some q ->
  accounted q (bw'.1, []) \/ Exists (answers_command c q) pushed.
Proof.
  intros He Hq. assert (Hc : forall bw', call_backend bw path c = (Returned tt, bw') -> accepts bw q bw').
  { intros bw1. revert Hq. unfold request_of, call_backend. destruct (c_type c); intros [= <-] E; by constructor. }
  unfold execute in He. destruct (call_backend bw path c) as [[[]|what] b']; injection He as <- <-.
  - left. by eapply accepts_accounted, Hc.
  - right. apply Exists_cons_hd. by right.
Qed.

Lemma statistics_returns (bw : Backend H * W) : exists st, (call statistics bw).1 = Returned st.
Proof.
  unfold call, statistics, bridge_statistics, bridge_, bridge, look, get, mbind, op_bind. cbn [world backend stream_bridge].
  destruct (StreamProgress.statistics _ _ _) as [[s w2] stream]. by eexists.
Qed.

(** The events of the backend reach the worker, or [pop_events] throws: statistics never do. *)
Lemma collect_steps rt (bw : Backend H * W) now pushed rt' bw' : collect rt bw now = (pushed, rt', bw') ->
  (exists what, be_pop_events bw = (Raised what, bw') /\ rt' = rt /\
     pushed = [loss_report what]) \/
  exists bw1, backend_step bw (Some pushed) bw1 /\ (bw' = bw1 \/ backend_step bw1 (Some []) bw').
Proof.
  unfold collect, refresh_stats. cbn [be_pop_events session_backend libtorrent_backend be_statistics].
  destruct (call pop_events bw) as [[popped|what] b1] eqn:E.
  - destruct (_ && _) eqn:Ec.
    + apply andb_true_iff in Ec as [->%bool_decide_eq_true _]. intros [= <- <- <-]. right. exists b1. split; [by apply step_pop|by left].
    + destruct (statistics_returns b1) as [st Hst]. destruct (call statistics b1) as [o b2] eqn:E2. cbn in Hst. subst o.
      intros [= <- <- <-]. right. exists b1. split; [by apply step_pop|]. right. replace b2 with (call statistics b1).2 by by rewrite E2. constructor.
  - intros [= <- <- <-]. left. by exists what.
Qed.

(** *** The account of a command *)

Lemma told_grows tr s l s' : step s l s' -> exists more, told (tr ++ [l]) s' = told tr s ++ more.
Proof.
  intros Hs. unfold told. rewrite updates_snoc. destruct Hs as [Hs|Hs]; destruct Hs; cbn [updated_of option_list sys_worker unpublished];
    rewrite ?app_nil_r; try (exists []; by rewrite ?app_nil_r, <-?app_assoc); by eexists.
Qed.

Lemma lost_step q s0 tr s l s' : step s l s' -> lost_turn q s0 tr s -> lost_turn q s0 (tr ++ [l]) s'.
Proof.
  intros Hs (tr1 & tr2 & rt & b & b' & what & -> & H1 & Ha & Hp & Hl & H2 & Hin). exists tr1, (tr2 ++ [l]), rt, b, b', what.
  split_and!; [by rewrite <-app_assoc|done..|by eapply engine_steps|]. destruct (told_grows tr2 s l s' Hs) as [more ->].
  apply elem_of_app. by left.
Qed.

Lemma answered_step c q tr s l s' : step s l s' -> Exists (answers_command c q) (told tr s) -> Exists (answers_command c q) (told (tr ++ [l]) s').
Proof. intros Hs Ha. destruct (told_grows tr s l s' Hs) as [more ->]. apply Exists_app. by left. Qed.

(** The part of the account that lasts. *)
Definition kept (c : Command) (q : request) (s0 : system) (tr : list label) (s : system) : Prop :=
  accounted q ((sys_backend s).1, []) \/ Exists (answers_command c q) (told tr s) \/ lost_turn q s0 tr s.

Lemma accounted_step (Halerts : alerts_ok (H := H) (W := W)) (c : Command) q bw evs bw' :
  backend_step bw (Some evs) bw' -> accounted q (bw.1, []) -> accounted q (bw'.1, []) \/ Exists (answers_command c q) evs.
Proof.
  intros Hs Ha. destruct (step_accounted Halerts bw evs bw' q Hs Ha) as [Hw|He]; [left; by left|].
  cbn [fst snd] in He. apply Exists_app in He as [He|He]; [right|by left; right].
  eapply Exists_impl; [exact He|]. intros e Hq. by left.
Qed.

Lemma accounted_quiet (Halerts : alerts_ok (H := H) (W := W)) (c : Command) q bw bw' :
  backend_step bw (Some []) bw' -> accounted q (bw.1, []) -> accounted q (bw'.1, []).
Proof. intros Hs Ha. destruct (accounted_step Halerts c q _ _ _ Hs Ha) as [?|He]; [done|]. by apply Exists_nil in He. Qed.

(** A step keeps the account when it keeps the request or answers it. *)
Lemma kept_step c q s0 tr s l s' : step s l s' ->
  (accounted q ((sys_backend s).1, []) ->
     accounted q ((sys_backend s').1, []) \/ Exists (answers_command c q) (unpublished (sys_worker s')) \/ lost_turn q s0 (tr ++ [l]) s') ->
  kept c q s0 tr s -> kept c q s0 (tr ++ [l]) s'.
Proof.
  intros Hs Hacc [Ha|[Ha|Hl]].
  - destruct (Hacc Ha) as [?|[He|?]]; [by left| |by right; right]. right; left. apply Exists_app. by right.
  - right; left. by eapply answered_step.
  - right; right. by eapply lost_step.
Qed.

Lemma attended_inv (Halerts : alerts_ok (H := H) (W := W)) c q rt0 bw0 tr s : request_of c = Some q ->
  engine_run (MkSystem rt0 bw0 (WProcess c)) tr s ->
  sys_worker s = WProcess c \/ sys_worker s = WStopped \/ kept c q (MkSystem rt0 bw0 (WProcess c)) tr s.
Proof.
  intros Hq Hr. set (s0 := MkSystem rt0 bw0 (WProcess c)) in *. induction Hr as [|tr s l s' Hr IH Hs|tr rt b w k bridge Hr IH|tr rt b w k w' Hr IH].
  - by left.
  - assert (Hsame : sys_backend s' = sys_backend s -> kept c q s0 tr s -> kept c q s0 (tr ++ [l]) s').
    { intros E. apply kept_step; [done|]. rewrite E. by left. }
    pose proof Hs as Hs'. destruct Hs' as [Hs'|Hs']; destruct Hs'; cbn [sys_worker sys_backend] in *.
    1-4: destruct IH as [?|[?|Hk]]; [by left|by right; left|right; right; by apply Hsame].
    + destruct IH as [[=]|[[=]|Hk]]. right; right. by apply Hsame.
    + destruct IH as [[=]|[[=]|Hk]]. right; right. by apply Hsame.
    + destruct IH as [[=]|[[=]|Hk]]. right; right. by apply Hsame.
    + by right; left.
    + right; right. destruct IH as [[= ->]|[[=]|Hk]].
      * destruct (execute_accepts _ _ _ _ _ _ H1 Hq) as [Ha|Ha]; [by left|right; left]. apply Exists_app. by right.
      * eapply kept_step; [exact Hs| |exact Hk]. intros Ha. left. by eapply (accounted_quiet Halerts c q), Ha; eapply execute_step.
    + right; right. destruct IH as [[=]|[[=]|Hk]]. eapply kept_step; [exact Hs| |exact Hk]. cbn [sys_backend sys_worker unpublished]. intros Ha.
      destruct (collect_steps _ _ _ _ _ _ H1) as [(what & Hp & -> & ->)|(b1 & Hb1 & Hb2)].
      * destruct (decide (accounted q (b'.1, []))) as [Hstill|Hlost]; [by left|].
        right; right. eexists tr, [], _, _, _, what. split_and!; [done|exact Hr|exact Ha|exact Hp|exact Hlost|constructor|]. by apply list_elem_of_singleton.
      * destruct (accounted_step Halerts c q _ _ _ Hb1 Ha) as [Ha1|He]; [left|by right; left]. destruct Hb2 as [->|Hb2]; [done|].
        by eapply (accounted_quiet Halerts c q).
    + destruct IH as [[=]|[[=]|Hk]]. right; right. by apply Hsame.
    + destruct IH as [[=]|[[=]|Hk]]. right; right. by apply Hsame.
    + destruct IH as [[=]|[[=]|Hk]]. right; right. by apply Hsame.
  - cbn [sys_worker] in *. destruct IH as [?|[?|[Ha|[He|(tr1 & tr2 & rt1 & b1 & b2 & what & -> & H1 & Ha & Hp & Hl & H2 & Hin)]]]];
      [by left|by right; left|right; right..].
    + left. apply (accounted_quiet Halerts c q (b, w) (set_stream_bridge bridge b, w)); [apply step_bridge|exact Ha].
    + by right; left.
    + right; right. exists tr1, tr2, rt1, b1, b2, what. split_and!; [done..| |exact Hin]. by apply (engine_bridge _ tr2 rt b w k bridge).
  - cbn [sys_worker] in *. destruct IH as [?|[?|[Ha|[He|(tr1 & tr2 & rt1 & b1 & b2 & what & -> & H1 & Ha & Hp & Hl & H2 & Hin)]]]];
      [by left|by right; left|right; right..].
    + by left.
    + by right; left.
    + right; right. exists tr1, tr2, rt1, b1, b2, what. split_and!; [done..| |exact Hin]. by apply (engine_world _ tr2 rt b w k w').
Qed.

(** A run stops and goes on at each of its labels. *)
Lemma engine_run_split start tr1 l tr2 s : engine_run start (tr1 ++ l :: tr2) s ->
  exists s1 s2, engine_run start tr1 s1 /\ step s1 l s2 /\ engine_run s2 tr2 s.
Proof.
  intros Hr. remember (tr1 ++ l :: tr2) as tr eqn:Etr. revert tr2 Etr.
  induction Hr as [|tr s l' s' Hr IH Hs|tr rt b w k bridge Hr IH|tr rt b w k w' Hr IH]; intros tr2 Etr.
  - by destruct tr1.
  - destruct tr2 as [|l2 tr2 _] using rev_ind.
    + apply app_inj_tail in Etr as [-> ->]. exists s, s'. by split_and!; [..|constructor].
    + rewrite app_comm_cons, app_assoc in Etr. apply app_inj_tail in Etr as [-> ->]. destruct (IH tr2 eq_refl) as (s1 & s2 & H1 & H2 & H3).
      exists s1, s2. split_and!; [done..|]. by eapply engine_steps.
  - destruct (IH tr2 Etr) as (s1 & s2 & H1 & H2 & H3). exists s1, s2. split_and!; [done..|]. by apply engine_bridge.
  - destruct (IH tr2 Etr) as (s1 & s2 & H1 & H2 & H3). exists s1, s2. split_and!; [done..|]. by eapply engine_world.
Qed.

(** C5. Every command to prepare a file, to stop a stream, to reclaim disk space or to remove a
    torrent is attended to.  However clients, worker, HTTP threads and the world interleave, at
    every moment after the worker took a command and before it has shut the backend down, the
    worker is about to execute it, or the backend keeps the request in its table or its answer
    in its queue, or the events that the clients were told of since then, with those that the
    worker is pushing, hold an answer: the event that settles the request or an error with its
    number.  The only other case is that since then [pop_events] threw in a turn of the worker,
    that the backend kept the request before this call and lost it in the call, and then the
    clients are told of what was thrown. *)
Theorem commands_attended (Halerts : alerts_ok (H := H) (W := W)) (b0 : Backend H) (w0 : W) (path : text) (ccap ecap : Z)
    (tr1 tr2 : list label) (s : system) (c : Command) (q : request)
    (Hrun : engine_run (initial true (b0, w0) path ccap ecap) (tr1 ++ LTake c :: tr2) s) (Hq : request_of c = Some q) :
  exists s0, engine_run (initial true (b0, w0) path ccap ecap) (tr1 ++ [LTake c]) s0 /\ sys_worker s0 = WProcess c /\
    engine_run s0 tr2 s /\ attended c q s0 tr2 s.
Proof.
  destruct (engine_run_split _ _ _ _ _ Hrun) as (s1 & s2 & H1 & Ht & H2). exists s2.
  assert (Hw : sys_worker s2 = WProcess c) by (destruct Ht as [Ht|Ht]; inversion Ht; by subst).
  split_and!; [by eapply engine_steps|done|done|]. destruct s2 as [rt bw k]. cbn in Hw. subst k. by apply attended_inv.
Qed.

Lemma engine_reachable (s0 : system) tr s : reachable s0 tr s -> engine_run s0 tr s.
Proof. induction 1; [constructor|by eapply engine_steps]. Qed.
End engine.

(** ** A run: a torrent is added, and a file of it prepared *)

#[local] Instance demo_backend : ProtocolBackend (Backend unit * host) := libtorrent_backend 3.
Definition demo_prepare : Command := MkCommand cmd_prepare_stream 0 (MkInput input_magnet [] []) demo_id [] 1 (MkFileInfo (str "film.mkv") 1000 120000) 0.
Definition demo_actions : list action :=
  [AEnqueue (add_torrent_command (MkInput input_magnet (str "magnet:?") [])); AEnqueue demo_prepare] ++ replicate 24 (AWorker 100).
Definition demo_initial : System (Backend unit * host) := initial true demo_start (str "/data") 8 8.
Definition demo_engine : list label * System (Backend unit * host) := default ([], demo_initial) (schedule demo_initial demo_actions).

Lemma demo_engine_run : engine_run 3 demo_initial demo_engine.1 demo_engine.2.
Proof.
  apply engine_reachable. change demo_engine.1 with ([] ++ demo_engine.1).
  refine (schedule_reachable demo_initial [] demo_initial demo_actions demo_engine.1 demo_engine.2 (reach_init _) _).
  unfold demo_engine.
  assert (Hs : match schedule demo_initial demo_actions with Some _ => true | None => false end = true) by (vm_compute; reflexivity).
  destruct (schedule demo_initial demo_actions) as [[tr s]|]; [reflexivity|discriminate].
Qed.

(** The answers to both. *)
Example demo_answered : (fun e => (be_type e, be_request_id e)) <$> updates demo_engine.1 = [(torrent_added, 1); (metadata_ready, 1); (stream_prepared, 2)].
Proof. vm_compute. reflexivity. Qed.

Lemma commands_attended_witness :
  exists tr1 tr2 s0, demo_engine.1 = tr1 ++ LTake (with_request_id demo_prepare 2) :: tr2 /\
    attended 3 (with_request_id demo_prepare 2) (of_prepare demo_id (MkPrepare 2 1 (MkFileInfo (str "film.mkv") 1000 120000))) s0 tr2 demo_engine.2.
Proof.
  assert (Hin : LTake (with_request_id demo_prepare 2) ∈ demo_engine.1).
  { assert (Ht : with_request_id demo_prepare 2 ∈ taken_commands demo_engine.1) by (apply (list_elem_of_lookup_2 _ 1); vm_compute; reflexivity).
    apply list_elem_of_omap in Ht as (l & Hl & Hc). destruct l; try done. by injection Hc as ->. }
  apply list_elem_of_split in Hin as (tr1 & tr2 & E). exists tr1, tr2.
  destruct (commands_attended 3 host_alerts_ok demo_start.1 demo_start.2 (str "/data") 8 8 tr1 tr2 demo_engine.2 (with_request_id demo_prepare 2)
    (of_prepare demo_id (MkPrepare 2 1 (MkFileInfo (str "film.mkv") 1000 120000)))) as (s0 & _ & _ & _ & Ha).
  - rewrite <-E. exact demo_engine_run.
  - reflexivity.
  - exists s0. by split.
Defined.
